(* ===== verification/_CoqProject ===== *)
-Q . S2P
Prelude.v
PtrList.v
FundTypes.v
FundModule.v
FundLedger.v
FundRep.v
FundLoops.v
FundTotals.v
FundMoves.v
FundSpec.v
FundInvariant.v
UserData.v
UserSpec.v
NodeConfig.v
Settings.v
Chain.v
State.v
FundTransf.v
FundView.v
Rewards.v
UserStake.v
ResetCheckpoint.v
NodeActivation.v
Contract.v
Frame.v
Dispatch.v
TransfSpec.v
RewardSpec.v
ContractInv.v
StakeSpec.v
EndpointSpec.v
PayoutSpec.v
SolvencySpec.v
DustSpec.v
ViewSpec.v
GlobalOpSpec.v
GlobalOpStart.v
ContractSystem.v
Examples.v
NodeSpec.v
Theorems.v
GlobalTheorems.v
NodeCalls.v
NodeProtocol.v
System.v
NodeTheorems.v
SystemTheorems.v
Findings.v
AuctionMock.v
World.v
Books.v
Bank.v
Guards.v
Fairness.v
WorldSpec.v
WorldBooks.v
AuctionSpec.v
AuctionTheorems.v
OldCodec.v
OldCodecSpec.v
OldCodecFormat.v
OldCodecStore.v
OldCodecTheorems.v
Scenarios.v
ScenarioTheorems.v
UnitTests.v
