(* ===== verification/Prelude.v ===== *)
(** * The legacy delegation contract, verified

    The program is a staking pool on the MultiversX blockchain.  Delegators
    send tokens to the contract; an owner puts them on validator nodes through
    the auction contract; the rewards of the nodes are shared out to the
    delegators and, as a service fee, to the owner.

    ** The program's parts

    - The _fund storage_ (src/user-fund-storage/src) keeps one item for every
      piece of stake.  An item has a type (withdraw only, waiting, active,
      unstaked, deferred payment) and sits in two doubly linked lists, that of
      its type and that of its user and type; list headers keep the ends and
      the sums.  Conversions between types walk a list and split items.
    - The _node storage_ (src/node-storage/src) numbers the BLS keys of the
      nodes and keeps the state of each.
    - The _contract_ (src/latest/src, deployed by src/latest_full/src/lib.rs
      and src/latest_update/src/lib.rs) has the endpoints of delegators and of
      the owner: staking, unstaking, unbonding, rewards, node operations with
      their callbacks, and the two _global operations_ (a new delegation cap, a
      new service fee), which run over several transactions, as gas allows.
    - The _auction mock_ (src/auction-mock/src) answers the calls to the auction
      contract in the scenarios; the _hand-written codecs_ (the
      fuzz/old_serialization directories) give the bytes of the stored types.

    The contract's modules call the fund storage for every change of stake and
    the node storage for every change of a node, ask the virtual machine and the
    framework's modules (caller, payment, balance, gas, pause, features), and
    leave with asynchronous calls to the auction whose callbacks come later.

    ** Modelling

    A contract call is a function in a state monad with errors, [M S A] below: it
    returns a value and the new storage, or aborts with an [Error], and then the
    caller sees no new storage.  The storage is a record per component;
    [State C] collects them with the chain, and [Lens] and [zoom] run the
    operation of a component inside the contract.  The chain is a type [C] with
    the class [Chain] for what the code asks of it (the error with which the
    features module refuses a call, [feature_off], among it) and [ChainLaws] for
    what the theorems rely on, with a record of the payments that the contract
    sends, to whom and how much ([payments_of]); [SimpleChain] is an instance with
    a counter for gas.  Big
    integers are [N]; a subtraction below zero and a division by zero are
    errors; [usize] (32 bits on the wasm target) and [u64] wrap around, since
    the release profile has no overflow checks.  Keys, signatures and addresses
    stand for their bytes, read as numbers.

    A value that the source passes as a [&mut] is an argument and a result.
    Where an [update] closure of the source holds a copy of an item while other
    code changes the storage, so does the model ([mapper_update]); the relation
    [RepX] of FundRep.v says what the stale entry is worth meanwhile.

    ** Files, and the code they model

    Data and operations, in the source's names:
    - FundTypes.v: user-fund-storage/src/types.
    - FundModule.v: user-fund-storage/src/fund_module.rs; FundTransf.v:
      fund_transf_module.rs; FundView.v: fund_view_module.rs; UserData.v:
      user_data.rs.  FundInvariant.v has the consistency check of
      user-fund-storage/tests/fund_module_check.rs.
    - NodeConfig.v: node-storage/src/node_config.rs and types.
    - Settings.v: latest/src/settings.rs and the types and storage of global
      operations; Chain.v: the environment, with the calls of auction_proxy.rs;
      State.v: the storage and the events of events.rs.
    - Rewards.v: latest/src/rewards_state.rs and rewards_endpoints.rs;
      UserStake.v: user_stake_state.rs, user_stake_endpoints.rs and
      user_stake_dust_cleanup.rs; ResetCheckpoint.v:
      reset_checkpoint_endpoints.rs; NodeActivation.v: node_activation.rs;
      Contract.v: latest_full/src/lib.rs and latest_update/src/lib.rs.
    - Dispatch.v: the exports of both contracts (wasm/src/lib.rs of each): a
      [Call] names an exported endpoint and its arguments, [dispatch] runs it.
    - AuctionMock.v: auction-mock/src/lib.rs and storage.rs.
    - OldCodec.v: the codecs of user-fund-storage/fuzz/old_serialization and
      node-storage/fuzz/old_serialization, over the class [CodecApi] of what the
      framework provides (buffers, integers, byte arrays).

    Specifications and proofs:
    - PtrList.v, FundLedger.v: the abstract ledger, a list of buckets in order
      of creation.  [Rep fs A]: the store [fs] represents the funds [A]; every
      pointer and sum of the store is a function of the ledger.
    - FundRep.v, FundLoops.v: each operation, then each loop, of the fund module
      implements an operation of the ledger.  FundTotals.v and FundMoves.v say
      it in amounts: [moved src dst v mv A A'].
    - FundSpec.v, FundInvariant.v: the theorems about the fund storage.
    - TransfSpec.v, RewardSpec.v, ContractInv.v: the transformations, the
      rewards in closed form, and the contract's invariant [Inv].
    - StakeSpec.v, EndpointSpec.v, PayoutSpec.v, SolvencySpec.v: the endpoints
      on states that satisfy the invariant; Theorems.v: the theorems.
    - GlobalOpSpec.v: the invariant [op_ok] of a global operation under way, its
      phases, and continuing it.  GlobalOpStart.v: starting one, and unbonding
      meanwhile.  ContractSystem.v: the step relation [contract_step] of
      transactions, blocks and other activity, and its invariant
      [contract_ok].  GlobalTheorems.v: the theorems.
    - Frame.v: what an operation leaves alone, composed along the monad
      ([within]); the classes [MoneyFrame], [PayFrame] and [NodeFrame] of the
      relations that the operations on money, those that send it and those on
      nodes stay within; [unpaid]: nothing is sent.  DustSpec.v: the dust cleanup; ViewSpec.v: the views
      that list funds and users.
    - System.v: the step relation [system_step] of the whole contract (calls,
      answers of the auction, upgrades, changes of the chain), what each call may
      change ([scope]), and its invariant [system_ok]: that of the money, of
      the users, and of the nodes with the answers to come.  SystemTheorems.v:
      the theorems, for every state that is [reached] from a deployment.
    - UserSpec.v: user ids.  NodeSpec.v, NodeCalls.v, NodeProtocol.v,
      NodeTheorems.v: nodes.  AuctionSpec.v, AuctionTheorems.v: node operations
      from their endpoint through the mock to their callback.
    - OldCodecSpec.v: classes for what a codec promises ([Lawful],
      [Canonical], [ExitAgrees]), with instances for the seven stored types from
      those of integers and arrays ([CodecLaws]).  OldCodecFormat.v: the
      framework's documented format as an instance of the laws.
      OldCodecStore.v: the fund storage over bytes.  OldCodecTheorems.v: the
      theorems.
    - Bank.v: the contract seen from outside, as a bank with an account per address
      ([Account]: what is deposited, what is earned), its moves ([Move],
      [bank_step]) and the move that each step of the contract is ([moves]).
      Guards.v: the checks of every call as data, in the order in which the code
      makes them ([guards], [first_failing]), and what follows when they hold.
      Fairness.v: the exact share of an address in the rewards ([entitlement])
      and the units that rounding can take from it ([roundings]).
    - UnitTests.v: the unit tests of user-fund-storage/tests, of the vector of
      affected users and of the codecs of keys and signatures, replayed on the
      model by computation.  The codec of vectors of keys is the framework's: a
      parameter with the law that it is the codec of one key after another
      ([VecLaws], with [vec_codec] as an instance).
    - World.v: a concrete blockchain (accounts, the contract, the auction mock) on
      which a transaction runs with its call to the auction and its callback;
      WorldSpec.v: such transactions are runs of [system_step].  Books.v: what a
      call does to the total stake, the rewards sent and the balance; WorldBooks.v:
      what a transaction does to the money of the contract and the auction, and the
      runs [world_step] of the world.  Scenarios.v: the scenarios of latest_full and
      latest_update, step by step, and the lists that the tests run;
      ScenarioTheorems.v: they pass, and the books of the world balance.
    - Examples.v: the concrete states of the witnesses.  Findings.v: theorems and
      runs on which the code departs from its documentation.

    ** What the theorems show

    - The fund storage refines the ledger: conversions, destruction and top-ups
      run without error on every store that represents a ledger, for every
      filter, direction and schedule of interrupts; every reachable store passes
      the consistency check of the test suite; views return exact sums.
    - On every state that satisfies [Inv], stake, unstake, claim and unbond
      succeed under stated conditions (or fail with the errors named: too little
      stake would remain, the vector of affected users is full), pay the caller and
      nobody else, book exactly what they should, leave other users alone and keep
      [Inv]; unbonding pays what is withdrawable and due, as the view says, and
      all of it unless the gas runs low.
    - Solvency: the rewards owed, as computed now or later in any order, never
      exceed what was received ([owed], in units of the denominators, so that
      no rounding is lost); the shares of one reward lose at most one unit.
    - Nodes: ids and keys stay in one-to-one correspondence; each endpoint
      takes exactly the nodes it names, each callback settles exactly the nodes
      of its call.  On the step relation [node_step] of the contract and the
      callbacks under way, in any order, no callback ever fails.
    - Global operations: started, interrupted anywhere for low gas, continued any
      number of times, they carry out their plan ([Plan], [carried_out]: which
      amounts move between which types), keep what everybody owns and every
      waiting time, store the new cap or fee exactly when they complete, and
      complete when the gas suffices; delegators can withdraw meanwhile.
    - The contract as a whole: from a deployment, over all exported calls,
      answers of the auction, upgrades, new rewards and interrupted operations
      in any order, but for the owner's calls that [proper] leaves out (see
      Bounds), the fund lists are consistent, no more rewards are assigned
      than were received, between operations the staked funds are the delegation
      cap and the view that checks it succeeds, every user has an address, and
      the pending nodes are those of the answers to come.  Every answer is
      processed without failing; delegators can always withdraw what the view
      reports if the contract is not paused and has the money at hand; no view changes anything, no call on nodes touches money, and the
      other way round; the list views list every fund and every user.
    - The dust cleanups, started afresh or resumed at a fund of their own list,
      convert exactly the funds below the limit that they visit and keep everything
      anybody owns; a whole walk leaves no dust, and waiting stake takes the place
      of the active dust.
    - Against the auction mock, nodes with a deliberate error are put back and
      the others move on; unbonding returns exactly the stake.
    - The scenarios of the test suites pass on the model, with the outputs, errors,
      logs and balances that they expect; the transactions of scenarios are runs
      of the asynchronous system.  No such transaction makes or loses money, and
      after any number of them what the delegators own and can claim is covered by
      what the contract and the auction hold together; the calls that [proper]
      leaves out can break this (see Findings.v).
    - The contract refines a bank: staking deposits, withdrawing and claiming take
      from the caller's own account what they send to the caller, a global operation moves no deposit and gives
      only to the owner unless there are new rewards to share out, and everything
      else (unstaking, nodes, cleanups, answers of the auction, upgrades) leaves all
      accounts alone; over a whole run the deposit of an address is what it staked
      less what it was paid back.  What an address can claim is its exact share,
      rounded down by less than two units (five for the owner).
    - Checks: a call fails with the error of the first of its checks that fails,
      and succeeds only past all of them; on every reachable state nothing but these
      checks, the balance, the minimum that has to stay and, with 10000 funds or
      more, the vector of affected users is in the way of delegators.
    - Stored bytes: round trips, refusal of all other inputs, agreement of the
      variants that end the transaction; the fund storage kept as bytes reads
      as the storage of values does.
    - Findings: the end of the bootstrap mode keeps the old cap; the minimum
      stake check accepts everyone; the dust cleanup can resume on a deleted
      item and corrupt the lists, or on a fund of the other list, which breaks the
      cap and can leave the contract with less than it owes; a forced node makes a
      callback panic; and others (see Findings.v).

    ** Bounds

    - [loop_fuel] of FundModule.v is two more than the number of stored items; a
      loop over a list of items visits each at most once, and the refinement
      theorems show that [OutOfFuel] is never returned.
    - The loop over all users has one more step than there are users, that of
      the global operations [GLOBAL_OP_FUEL] steps, more than the phases of an
      operation ([rank] decreases with every completed step).
    - A transaction of [contract_step] or [system_step] starts on a state that
      [fits]: numbers of users and items leave room in a [usize].  It is also [sane], or [proper]: the owner does
      not use a call in a way that the contract should refuse and does not (see
      Findings.v): bootstrap mode is not ended with the one cap that is not
      recorded, a dust cleanup is not resumed on a fund of another list or on
      none, no node that waits for an answer is forced into its unbonding period.
    - The vector of affected users holds MAX_AFFECTED_USERS and panics beyond
      ([vec_room], [crowded]): theorems about the operations that use it either
      assume lists that fit or, with [full], admit that one error.  A step of the
      systems may be any successful transaction, however long the lists.
    - Rewards only grow, and none arrive in bootstrap mode, when nothing can be
      staked on nodes ([later_chain]); the chain may change otherwise at will
      between transactions.  An upgrade finds a cap that is set, as from every
      deployment of this version.
    - [room]-hypotheses (in FundSpec.v, StakeSpec.v and EndpointSpec.v) say that the
      next fund id fits into a [usize]; each operation creates a bounded number
      of items.  MAX_AFFECTED_USERS and MAX_NODES_PER_OPERATION are the
      source's.

    ** What is not modelled

    The framework's own modules (DNS, features, pause) appear only as operations
    of [Chain], their endpoints only as exported names; the derived codecs, the
    codecs of integers and arrays, proxies and the decoding of arguments are the
    framework's.  The generated metadata crates have no logic.  The real auction contract is not part of the repository: the
    theorems about callbacks hold for every answer of it, those of
    AuctionTheorems.v for the mock.  The runner of the scenarios is the
    framework's; World.v stands for it, with 100 readings of the gas for a
    transaction, more than any of the scenarios makes.  The fuzz targets and the
    interaction scripts drive the program and are no part of it. *)
From stdpp Require Import base numbers list gmap strings sorting.

(** ** Errors and results

    A contract call either returns or aborts.  [Panic] carries the message of
    [sc_panic!] / [require!]; [BigUintNegative] is the abort of an unsigned
    big integer subtraction below zero; [DivisionByZero] that of a big integer
    division; [VmError] an error raised by the virtual machine (a failed
    transfer); [OutOfFuel] is the only error that the code does not have: a
    loop of the model ran longer than its bound. *)
Inductive Error : Type :=
| Panic (msg : string)
| BigUintNegative
| DivisionByZero
| VmError (msg : string)
| OutOfFuel.

Inductive result (A : Type) : Type :=
| Ok (a : A)
| Err (e : Error).
Arguments Ok {A} a.
Arguments Err {A} e.

#[export] Instance Error_eq_dec : EqDecision Error.
Proof. solve_decision. Defined.

(** ** The storage monad: explicit state passing with errors *)
Definition M (S A : Type) : Type := S → result (A * S).

Section Monad.
Context {S : Type}.

Definition ret {A} (a : A) : M S A := λ s, Ok (a, s).
Definition fail {A} (e : Error) : M S A := λ _, Err e.
Definition bind {A B} (m : M S A) (k : A → M S B) : M S B := λ s,
  match m s with
  | Ok (a, s') => k a s'
  | Err e => Err e
  end.
Definition gets {A} (f : S → A) : M S A := λ s, Ok (f s, s).
Definition modify (f : S → S) : M S unit := λ s, Ok (tt, f s).
Definition of_result {A} (r : result A) : M S A := λ s,
  match r with Ok a => Ok (a, s) | Err e => Err e end.
End Monad.

Declare Scope contract_scope.
Delimit Scope contract_scope with contract.
Notation "'let!' x := m 'in' k" := (bind m (fun x => k))
  (at level 10, x binder, m at level 200, k at level 200,
   format "'[v' 'let!'  x  :=  m  'in' '/' k ']'") : contract_scope.
Notation "m ;;; k" := (bind m (fun _ => k))
  (at level 199, k at level 200, format "'[v' m  ;;; '/' k ']'") : contract_scope.
Open Scope contract_scope.
Open Scope N_scope.

(** [sc_panic!] and [require!]. *)
Definition sc_panic {S A} (msg : string) : M S A := fail (Panic msg).
Definition require {S} (b : bool) (msg : string) : M S unit :=
  if b then ret tt else sc_panic msg.

(** Arithmetic of the source.  [BigUint] is unbounded and its subtraction
    aborts below zero; [usize] has 32 bits on the wasm target and [u64] has
    64; both wrap around, since the release profile has no overflow checks. *)
Definition big_sub {S} (a b : N) : M S N :=
  if a <? b then fail BigUintNegative else ret (a - b).
Definition big_div {S} (a b : N) : M S N :=
  if b =? 0 then fail DivisionByZero else ret (a / b).
Definition usize_max_plus_1 : N := 2 ^ 32.
Definition usize_add (a b : N) : N := (a + b) mod usize_max_plus_1.
Definition u64_add (a b : N) : N := (a + b) mod 2 ^ 64.

(** [SingleValueMapper::update]: read the value, run the closure on a local
    copy, write the copy back. *)
Definition mapper_update {S V X} (get : M S V) (set : V → M S unit)
    (f : V → M S (X * V)) : M S X :=
  let! v := get in
  let! '(x, v') := f v in
  set v' ;;;
  ret x.

(** Iteration over a list of arguments. *)
Fixpoint for_each {S X A} (l : list X) (acc : A) (f : X → A → M S A) : M S A :=
  match l with
  | [] => ret acc
  | x :: l' => let! acc' := f x acc in for_each l' acc' f
  end.

(** The ids [1 ..= n]. *)
Definition ids_up_to (n : N) : list N := N.of_nat <$> seq 1 (N.to_nat n).

Lemma elem_of_ids_up_to n i : i ∈ ids_up_to n ↔ 1 ≤ i ≤ n.
Proof.
  unfold ids_up_to. rewrite list_elem_of_fmap. split.
  - intros (j & -> & Hj%elem_of_seq). lia.
  - intros Hi. exists (N.to_nat i). rewrite elem_of_seq. lia.
Qed.

Lemma nodup_ids_up_to n : NoDup (ids_up_to n).
Proof. apply NoDup_fmap; [intros i j; lia|apply NoDup_seq]. Qed.

(** ** Lenses: a component's storage inside a larger one *)
Class Lens (S A : Type) := {
  lens_get : S → A;
  lens_set : A → S → S;
  lens_get_set a s : lens_get (lens_set a s) = a;
  lens_set_get s : lens_set (lens_get s) s = s;
  lens_set_set a b s : lens_set a (lens_set b s) = lens_set a s;
}.

#[export] Program Instance lens_self S : Lens S S := {|
  lens_get s := s; lens_set a _ := a |}.
Solve All Obligations with done.

Definition zoom {S A X} `{Lens S A} (m : M A X) : M S X := λ s,
  match m (lens_get s) with
  | Ok (x, a) => Ok (x, lens_set a s)
  | Err e => Err e
  end.

(** ** Total-correctness assertions

    [runs m s Q]: from [s], [m] returns, and its result and final state
    satisfy [Q]. *)
Definition runs {S A} (m : M S A) (s : S) (Q : A → S → Prop) : Prop :=
  ∃ a s', m s = Ok (a, s') ∧ Q a s'.

Section Runs.
Context {S : Type}.
Implicit Type s : S.

Lemma runs_ret {A} (a : A) s (Q : A → S → Prop) : Q a s → runs (ret a) s Q.
Proof. intros; by exists a, s. Qed.

Lemma runs_bind {A B} (m : M S A) (k : A → M S B) s Q :
  runs m s (λ a s', runs (k a) s' Q) → runs (bind m k) s Q.
Proof.
  intros (a & s' & Hm & b & s'' & Hk & HQ).
  exists b, s''. split; [|done]. unfold bind. by rewrite Hm.
Qed.

Lemma runs_mono {A} (m : M S A) s (P Q : A → S → Prop) :
  runs m s P → (∀ a s', P a s' → Q a s') → runs m s Q.
Proof. intros (a & s' & ? & ?) HPQ. exists a, s'. eauto. Qed.

Lemma runs_gets {A} (f : S → A) s (Q : A → S → Prop) :
  Q (f s) s → runs (gets f) s Q.
Proof. intros; by exists (f s), s. Qed.

Lemma runs_modify f s (Q : unit → S → Prop) : Q tt (f s) → runs (modify f) s Q.
Proof. intros; by exists tt, (f s). Qed.

Lemma runs_require b msg s (Q : unit → S → Prop) :
  b = true → Q tt s → runs (require b msg) s Q.
Proof. intros -> ?. by apply runs_ret. Qed.

Lemma runs_big_sub a b s (Q : N → S → Prop) :
  b ≤ a → Q (a - b) s → runs (big_sub a b) s Q.
Proof.
  intros ??. unfold big_sub. destruct (N.ltb_spec a b); [lia|]. by apply runs_ret.
Qed.

Lemma runs_zoom {A X} `{Lens S A} (m : M A X) s (Q : X → S → Prop) :
  runs m (lens_get s) (λ x a, Q x (lens_set a s)) → runs (zoom m) s Q.
Proof.
  intros (x & a & Hm & HQ). exists x, (lens_set a s). unfold zoom. by rewrite Hm.
Qed.

Lemma runs_inv {A} (m : M S A) s (Q : A → S → Prop) a s' :
  runs m s Q → m s = Ok (a, s') → Q a s'.
Proof. intros (b & s'' & Hm & HQ) Heq. congruence. Qed.

Lemma bind_ok {A B} (m : M S A) (k : A → M S B) s a s' :
  m s = Ok (a, s') → bind m k s = k a s'.
Proof. unfold bind. by intros ->. Qed.

(** [outcome m s E Q]: [m] returns with [Q], or fails with an error in [E]. *)
Definition outcome {A} (m : M S A) s (E : Error → Prop) (Q : A → S → Prop) : Prop :=
  match m s with Ok (a, s') => Q a s' | Err e => E e end.

Lemma outcome_bind {A B} (m : M S A) (k : A → M S B) s E Q :
  outcome m s E (λ a s', outcome (k a) s' E Q) → outcome (bind m k) s E Q.
Proof. unfold outcome, bind. by destruct (m s) as [[a s']|e]. Qed.

Lemma outcome_mono {A} (m : M S A) s (E E' : Error → Prop) (P Q : A → S → Prop) :
  outcome m s E P → (∀ e, E e → E' e) → (∀ a s', P a s' → Q a s') → outcome m s E' Q.
Proof. unfold outcome. destruct (m s) as [[a s']|e]; auto. Qed.

Lemma runs_outcome {A} (m : M S A) s E Q : runs m s Q → outcome m s E Q.
Proof. intros (a & s' & Hm & HQ). unfold outcome. by rewrite Hm. Qed.

Lemma outcome_post {A} (m : M S A) s E (P Q : A → S → Prop) :
  outcome m s E P → (∀ a s', P a s' → Q a s') → outcome m s E Q.
Proof. intros. by eapply outcome_mono. Qed.
Lemma outcome_after {A B} (m : M S A) (k : A → M S B) s E (P : A → S → Prop) Q :
  runs m s P → (∀ a s', P a s' → outcome (k a) s' E Q) → outcome (bind m k) s E Q.
Proof. intros. apply outcome_bind, runs_outcome. by eapply runs_mono. Qed.
Lemma outcome_ret {A} (a : A) s E (Q : A → S → Prop) : Q a s → outcome (ret a) s E Q.
Proof. done. Qed.
Lemma outcome_gets {A} (f : S → A) s E (Q : A → S → Prop) : Q (f s) s → outcome (gets f) s E Q.
Proof. done. Qed.
Lemma outcome_modify f s E (Q : unit → S → Prop) : Q tt (f s) → outcome (modify f) s E Q.
Proof. done. Qed.
Lemma outcome_require b msg s E (Q : unit → S → Prop) :
  b = true → Q tt s → outcome (require b msg) s E Q.
Proof. intros -> ?. done. Qed.
Lemma outcome_big_sub a b s E (Q : N → S → Prop) :
  b ≤ a → Q (a - b) s → outcome (big_sub a b) s E Q.
Proof. intros. by apply runs_outcome, runs_big_sub. Qed.
Lemma outcome_eq {A} (m : M S A) s a s' :
  m s = Ok (a, s') → ∀ E (Q : A → S → Prop), Q a s' → outcome m s E Q.
Proof. unfold outcome. by intros ->. Qed.
Lemma outcome_eq_fun {A} (m m' : M S A) s E (Q : A → S → Prop) :
  m s = m' s → outcome m' s E Q → outcome m s E Q.
Proof. unfold outcome. by intros ->. Qed.
Lemma outcome_inv {A} (m : M S A) s E (Q : A → S → Prop) a s' :
  outcome m s E Q → m s = Ok (a, s') → Q a s'.
Proof. unfold outcome. by intros HQ Heq; rewrite Heq in HQ. Qed.

(** [ensures m s Q]: if [m] returns, then with [Q]. *)
Definition ensures {A} (m : M S A) s (Q : A → S → Prop) : Prop :=
  outcome m s (λ _, True) Q.

Lemma ensures_inv {A} (m : M S A) s (Q : A → S → Prop) a s' :
  ensures m s Q → m s = Ok (a, s') → Q a s'.
Proof. unfold ensures, outcome. by intros HQ Heq; rewrite Heq in HQ. Qed.

Lemma ensures_runs {A} (m : M S A) s (Q : A → S → Prop) :
  ensures m s Q → runs m s (λ _ _, True) → runs m s Q.
Proof. intros HQ (a & s' & Hm & _). exists a, s'. split; [done|by eapply ensures_inv]. Qed.

Lemma ensures_bind {A B} (m : M S A) (k : A → M S B) s Q :
  ensures m s (λ a s', ensures (k a) s' Q) → ensures (bind m k) s Q.
Proof. apply outcome_bind. Qed.

Lemma ensures_mono {A} (m : M S A) s (P Q : A → S → Prop) :
  ensures m s P → (∀ a s', P a s' → Q a s') → ensures m s Q.
Proof. intros. by eapply outcome_mono. Qed.

Lemma ensures_and {A} (m : M S A) s (P Q : A → S → Prop) :
  ensures m s P → ensures m s Q → ensures m s (λ a s', P a s' ∧ Q a s').
Proof. unfold ensures, outcome. by destruct (m s) as [[a s']|e]. Qed.

(** Success shows that the guards held, and those decide the result. *)
Lemma ensures_guard {A} (m : M S A) s (P : Prop) (Q : A → S → Prop) :
  ensures m s (λ _ _, P) → (P → runs m s Q) → ensures m s Q.
Proof.
  unfold ensures, outcome. intros HP HQ. destruct (m s) as [[a s']|e] eqn:Hm; [|done].
  destruct (HQ HP) as (a' & s'' & Heq & HQ'). congruence.
Qed.

Lemma ensures_guarded {A} (m : M S A) s (P : Prop) (Q : A → S → Prop) :
  ensures m s (λ _ _, P) → (P → ensures m s Q) → ensures m s Q.
Proof.
  unfold ensures, outcome. intros HP HQ. destruct (m s) as [[a s']|e] eqn:Hm; [by apply HQ|done].
Qed.
Lemma outcome_ensures {A} (m : M S A) s E (Q : A → S → Prop) : outcome m s E Q → ensures m s Q.
Proof. intros. by eapply outcome_mono. Qed.

Lemma ensures_const {A} (m : M S A) s (P : Prop) : P → ensures m s (λ _ _, P).
Proof. intros. unfold ensures, outcome. by destruct (m s) as [[]|]. Qed.

Lemma ensures_eq_fun {A} (m m' : M S A) s (Q : A → S → Prop) :
  m s = m' s → ensures m' s Q → ensures m s Q.
Proof. unfold ensures, outcome. by intros ->. Qed.

Lemma ensures_ret {A} (a : A) s (Q : A → S → Prop) : Q a s → ensures (ret a) s Q.
Proof. done. Qed.
Lemma ensures_gets {A} (f : S → A) s (Q : A → S → Prop) : Q (f s) s → ensures (gets f) s Q.
Proof. done. Qed.
Lemma ensures_modify f s (Q : unit → S → Prop) : Q tt (f s) → ensures (modify f) s Q.
Proof. done. Qed.
Lemma ensures_fail {A} e s (Q : A → S → Prop) : ensures (fail e) s Q.
Proof. done. Qed.
Lemma ensures_require b msg s (Q : unit → S → Prop) :
  (b = true → Q tt s) → ensures (require b msg) s Q.
Proof. unfold require. destruct b; [intros HQ; by apply HQ|done]. Qed.

Lemma ensures_big_sub a b s (Q : N → S → Prop) :
  (b ≤ a → Q (a - b) s) → ensures (big_sub a b) s Q.
Proof. intros HQ. unfold big_sub. destruct (N.ltb_spec a b); [done|by apply HQ]. Qed.

(** A loop over arguments keeps an invariant on the arguments done so far. *)
Lemma ensures_for_each_split {X A} (f : X → A → M S A) (I : list X → A → S → Prop) l acc s :
  I [] acc s →
  (∀ done x rest acc s, l = done ++ x :: rest → I done acc s →
     ensures (f x acc) s (I (done ++ [x]))) →
  ensures (for_each l acc f) s (I l).
Proof.
  intros HI Hf.
  assert (∀ rest dn acc s, l = dn ++ rest → I dn acc s →
    ensures (for_each rest acc f) s (I l)) as Hloop; [|by apply (Hloop l [])].
  clear acc s HI. intros rest. induction rest as [|x rest IH]; intros dn acc s Heq HI; simpl.
  - apply ensures_ret. by rewrite Heq, app_nil_r.
  - apply ensures_bind. eapply ensures_mono; [by eapply Hf|]. intros acc' s' HI'.
    apply (IH (dn ++ [x])); [|done]. by rewrite <-(assoc_L (++)).
Qed.

Lemma ensures_for_each {X A} (f : X → A → M S A) (I : list X → A → S → Prop) l acc s :
  I [] acc s →
  (∀ done x acc s, I done acc s → ensures (f x acc) s (I (done ++ [x]))) →
  ensures (for_each l acc f) s (I l).
Proof. intros HI Hf. apply ensures_for_each_split; eauto. Qed.

(** The same for a loop that cannot fail; the invariant may use that the
    arguments are those of the list. *)
Lemma runs_for_each {X A} (f : X → A → M S A) (I : list X → A → S → Prop) l acc s :
  I [] acc s →
  (∀ done x rest acc s, l = done ++ x :: rest → I done acc s →
     runs (f x acc) s (I (done ++ [x]))) →
  runs (for_each l acc f) s (I l).
Proof.
  intros HI Hf.
  assert (∀ rest dn acc s, l = dn ++ rest → I dn acc s →
    runs (for_each rest acc f) s (I l)) as Hloop; [|by apply (Hloop l [])].
  clear acc s HI. intros rest. induction rest as [|x rest IH]; intros dn acc s Heq HI; simpl.
  - apply runs_ret. by rewrite Heq, app_nil_r.
  - apply runs_bind. eapply runs_mono; [by eapply Hf|]. intros acc' s' HI'.
    apply (IH (dn ++ [x])); [|done]. by rewrite <-(assoc_L (++)).
Qed.

Lemma outcome_runs {A} (m : M S A) s Q : outcome m s (λ _, False) Q → runs m s Q.
Proof. unfold outcome, runs. destruct (m s) as [[a s']|e]; [eauto|done]. Qed.

Lemma runs_eq_fun {A} (m m' : M S A) s (Q : A → S → Prop) :
  m s = m' s → runs m' s Q → runs m s Q.
Proof. unfold runs. by intros ->. Qed.

Lemma runs_eq {A} (m : M S A) s a s' :
  m s = Ok (a, s') → ∀ Q : A → S → Prop, Q a s' → runs m s Q.
Proof. intros ? Q ?. by exists a, s'. Qed.
End Runs.

Lemma outcome_zoom {S A X} `{Lens S A} (m : M A X) s E (Q : X → S → Prop) :
  outcome m (lens_get s) E (λ x a, Q x (lens_set a s)) → outcome (zoom m) s E Q.
Proof. unfold outcome, zoom. by destruct (m (lens_get s)) as [[x a]|e]. Qed.

Lemma ensures_zoom {S A X} `{Lens S A} (m : M A X) s (Q : X → S → Prop) :
  ensures m (lens_get s) (λ x a, Q x (lens_set a s)) → ensures (zoom m) s Q.
Proof. unfold ensures, outcome, zoom. by destruct (m (lens_get s)) as [[x a]|e]. Qed.

(** ** Automation

    [run_gets] runs a read of the storage at the head of a program; the database
    [contract] closes what a program without effects leaves. *)
Ltac run_gets := first [apply runs_bind, runs_gets|apply outcome_bind, outcome_gets].

Create HintDb contract.
#[export] Hint Resolve runs_ret runs_modify runs_outcome ensures_ret ensures_modify
  ensures_fail : contract.
