(* ===== verification/PtrList.v ===== *)
(** * Pointers of linked lists

    A linked list of the fund storage is a list of nonzero ids without
    duplicates; [next_of] and [prev_of] are the pointers it induces, with 0 for
    the null pointer.  The lemmas say how the pointers and the two ends of a
    list change when an id is appended or removed. *)
From stdpp Require Import base numbers list sets.
From S2P Require Import Prelude.

Definition head0 (l : list N) : N := match l with [] => 0 | x :: _ => x end.
Definition last0 (l : list N) : N := head0 (reverse l).

Fixpoint next_of (l : list N) (x : N) : N :=
  match l with
  | [] => 0
  | y :: l' => if decide (x = y) then head0 l' else next_of l' x
  end.
Definition prev_of (l : list N) (x : N) : N := next_of (reverse l) x.

Definition remove_id (d : N) (l : list N) : list N := filter (λ x, x ≠ d) l.

(** A list of ids: no null pointer, no duplicates. *)
Definition ptr_list (l : list N) : Prop := NoDup l ∧ 0 ∉ l.

Lemma ptr_list_reverse l : ptr_list l → ptr_list (reverse l).
Proof.
  intros [??]. split; [by rewrite reverse_Permutation|by rewrite elem_of_reverse].
Qed.

Lemma ptr_list_split l x :
  x ∈ l → ptr_list l →
  ∃ l1 l2, l = l1 ++ x :: l2 ∧ x ∉ l1 ∧ x ∉ l2 ∧ x ≠ 0.
Proof.
  intros Hx [Hnd H0]. apply list_elem_of_split in Hx as (l1 & l2 & ->).
  apply NoDup_app in Hnd as (_ & Hd & Hc). apply NoDup_cons in Hc as [? _].
  exists l1, l2. split_and!; [done| |done|set_solver].
  intros Hx. apply (Hd x Hx). set_solver.
Qed.

Lemma next_of_split l1 x l2 : x ∉ l1 → next_of (l1 ++ x :: l2) x = head0 l2.
Proof.
  induction l1 as [|y l1 IH]; intros Hx; simpl.
  - by rewrite decide_True.
  - rewrite decide_False by set_solver. apply IH. set_solver.
Qed.

Lemma next_of_not_elem l x : x ∉ l → next_of l x = 0.
Proof.
  induction l as [|y l IH]; intros Hx; simpl; [done|].
  rewrite decide_False by set_solver. apply IH. set_solver.
Qed.

Lemma prev_of_split l1 x l2 : x ∉ l2 → prev_of (l1 ++ x :: l2) x = last0 l1.
Proof.
  intros Hx. unfold prev_of, last0.
  rewrite reverse_app, reverse_cons, <-(assoc_L (++)). simpl.
  apply next_of_split. by rewrite elem_of_reverse.
Qed.

Lemma head0_elem l : head0 l ≠ 0 → head0 l ∈ l.
Proof. destruct l; set_solver. Qed.

Lemma last0_elem l : last0 l ≠ 0 → last0 l ∈ l.
Proof. unfold last0. intros ?%head0_elem. by apply elem_of_reverse. Qed.

Lemma head0_0 l : 0 ∉ l → head0 l = 0 → l = [].
Proof. destruct l; [done|]. simpl. set_solver. Qed.

Lemma last0_0 l : 0 ∉ l → last0 l = 0 → l = [].
Proof.
  intros H0 Hl. assert (reverse l = []) as Hr.
  { apply head0_0; [by rewrite elem_of_reverse|done]. }
  by rewrite <-(reverse_involutive l), Hr.
Qed.

Lemma last0_snoc l x : last0 (l ++ [x]) = x.
Proof. unfold last0. by rewrite reverse_snoc. Qed.

Lemma head0_app l1 l2 :
  head0 (l1 ++ l2) = match l1 with [] => head0 l2 | x :: _ => x end.
Proof. by destruct l1. Qed.

(** Appending an id. *)
Lemma next_of_snoc l x n :
  ptr_list l → x ∈ l →
  next_of (l ++ [n]) x = if decide (last0 l = x) then n else next_of l x.
Proof.
  intros Hl Hx. destruct (ptr_list_split l x Hx Hl) as (l1 & l2 & -> & H1 & H2 & ?).
  rewrite <-(assoc_L (++)). simpl. rewrite !next_of_split by done.
  destruct l2 as [|y l2] using rev_ind.
  - rewrite last0_snoc. by rewrite decide_True.
  - rewrite app_comm_cons, (assoc_L (++)), last0_snoc.
    rewrite decide_False by set_solver. by destruct l2.
Qed.

Lemma prev_of_snoc l x n :
  x ∈ l → x ≠ n → prev_of (l ++ [n]) x = prev_of l x.
Proof.
  intros Hx Hn. unfold prev_of. rewrite reverse_snoc. simpl.
  by rewrite decide_False.
Qed.

Lemma prev_of_snoc_new l n : prev_of (l ++ [n]) n = last0 l.
Proof. unfold prev_of. rewrite reverse_snoc. simpl. by rewrite decide_True. Qed.

Lemma next_of_snoc_new l n : n ∉ l → next_of (l ++ [n]) n = 0.
Proof. intros. by rewrite next_of_split. Qed.

Lemma head0_snoc l n :
  0 ∉ l → head0 (l ++ [n]) = if decide (head0 l = 0) then n else head0 l.
Proof. destruct l; simpl; [done|]. intros. rewrite decide_False; set_solver. Qed.

(** Removing an id. *)
Lemma remove_id_not_elem d l : d ∉ l → remove_id d l = l.
Proof.
  unfold remove_id. induction l as [|x l IH]; intros Hd; [done|].
  rewrite filter_cons_True, IH; set_solver.
Qed.

Lemma remove_id_split d l1 l2 :
  d ∉ l1 → d ∉ l2 → remove_id d (l1 ++ d :: l2) = l1 ++ l2.
Proof.
  intros. unfold remove_id. rewrite filter_app, filter_cons_False by naive_solver.
  f_equal; by apply remove_id_not_elem.
Qed.

Lemma remove_id_reverse d l : remove_id d (reverse l) = reverse (remove_id d l).
Proof. apply filter_reverse. Qed.

Lemma elem_of_remove_id d l x : x ∈ remove_id d l ↔ x ≠ d ∧ x ∈ l.
Proof. unfold remove_id. by rewrite list_elem_of_filter. Qed.

Lemma ptr_list_remove d l : ptr_list l → ptr_list (remove_id d l).
Proof.
  intros [??]. split; [by apply NoDup_filter|]. rewrite elem_of_remove_id. naive_solver.
Qed.

Lemma head0_remove_id l d :
  ptr_list l → d ∈ l →
  head0 (remove_id d l) = if decide (head0 l = d) then next_of l d else head0 l.
Proof.
  intros Hl Hd. destruct (ptr_list_split l d Hd Hl) as (l1 & l2 & -> & ? & ? & ?).
  rewrite remove_id_split, next_of_split by done.
  destruct l1 as [|y l1]; simpl; [by rewrite decide_True|].
  rewrite decide_False; set_solver.
Qed.

Lemma last0_remove_id l d :
  ptr_list l → d ∈ l →
  last0 (remove_id d l) = if decide (last0 l = d) then prev_of l d else last0 l.
Proof.
  intros Hl Hd. unfold last0, prev_of. rewrite <-remove_id_reverse.
  apply head0_remove_id; [by apply ptr_list_reverse|by rewrite elem_of_reverse].
Qed.

Lemma next_of_remove_id l d x :
  ptr_list l → d ∈ l → x ∈ l → x ≠ d →
  next_of (remove_id d l) x =
    if decide (next_of l x = d) then next_of l d else next_of l x.
Proof.
  intros Hl Hd Hx Hxd. pose proof (ptr_list_remove d l Hl) as [Hnd _].
  destruct (ptr_list_split l x Hx Hl) as (l1 & l2 & -> & H1 & H2 & ?).
  unfold remove_id in *. rewrite filter_app, filter_cons_True in * by done.
  rewrite !next_of_split by (rewrite ?list_elem_of_filter; naive_solver).
  destruct l2 as [|y l2]; simpl.
  { rewrite decide_False; [done|]. destruct Hl as [_ Hl]. intros <-. set_solver. }
  destruct (decide (y = d)) as [->|].
  - rewrite filter_cons_False by naive_solver.
    destruct Hl as [(_ & Hdis & Hnd2)%NoDup_app _].
    apply NoDup_cons in Hnd2 as [Hx2 [Hd2 _]%NoDup_cons].
    replace (l1 ++ x :: d :: l2) with ((l1 ++ [x]) ++ d :: l2)
      by (by rewrite <-(assoc_L (++))).
    rewrite next_of_split.
    + pose proof (remove_id_not_elem d l2 Hd2) as Hr. unfold remove_id in Hr.
      by rewrite Hr.
    + intros [Hin|?]%elem_of_app; [|set_solver].
      apply (Hdis d Hin). set_solver.
  - by rewrite filter_cons_True.
Qed.

Lemma prev_of_remove_id l d x :
  ptr_list l → d ∈ l → x ∈ l → x ≠ d →
  prev_of (remove_id d l) x =
    if decide (prev_of l x = d) then prev_of l d else prev_of l x.
Proof.
  intros ????. unfold prev_of. rewrite <-remove_id_reverse.
  apply next_of_remove_id; rewrite ?elem_of_reverse; auto using ptr_list_reverse.
Qed.

(** The two pointers are inverse to each other. *)
Lemma next_of_prev_of l x d :
  ptr_list l → x ∈ l → d ∈ l → next_of l x = d → prev_of l d = x.
Proof.
  intros Hl Hx Hd Hn.
  destruct (ptr_list_split l x Hx Hl) as (l1 & l2 & -> & H1 & H2 & ?).
  rewrite next_of_split in Hn by done.
  destruct Hl as [Hnd H0]. destruct l2 as [|y l2]; simpl in Hn; subst; [set_solver|].
  replace (l1 ++ x :: d :: l2) with ((l1 ++ [x]) ++ d :: l2)
    by (by rewrite <-(assoc_L (++))).
  rewrite prev_of_split; [by rewrite last0_snoc|].
  apply NoDup_app in Hnd as (_ & _ & [_ [Hd2 _]%NoDup_cons]%NoDup_cons). done.
Qed.

Lemma prev_of_next_of l x d :
  ptr_list l → x ∈ l → d ∈ l → prev_of l d = x → next_of l x = d.
Proof.
  intros Hl Hx Hd Hp.
  assert (prev_of (reverse l) x = d) as <-; [|by unfold prev_of; rewrite reverse_involutive].
  apply next_of_prev_of; rewrite ?elem_of_reverse; auto using ptr_list_reverse.
Qed.

Lemma next_prev_iff l x d :
  ptr_list l → x ∈ l → d ∈ l → next_of l x = d ↔ prev_of l d = x.
Proof. split; eauto using next_of_prev_of, prev_of_next_of. Qed.

Lemma next_of_elem l x : next_of l x ≠ 0 → next_of l x ∈ l.
Proof.
  induction l as [|y l IH]; simpl; [done|]. case_decide; intros.
  - apply list_elem_of_further. by apply head0_elem.
  - set_solver.
Qed.

Lemma prev_of_elem l x : prev_of l x ≠ 0 → prev_of l x ∈ l.
Proof. intros ?%next_of_elem. by apply elem_of_reverse. Qed.

Lemma next_of_ne l x : ptr_list l → x ∈ l → next_of l x ≠ x.
Proof.
  intros Hl Hx. destruct (ptr_list_split l x Hx Hl) as (l1 & l2 & -> & H1 & H2 & ?).
  rewrite next_of_split by done. destruct l2; set_solver.
Qed.

Lemma prev_of_ne l x : ptr_list l → x ∈ l → prev_of l x ≠ x.
Proof.
  intros ??. apply next_of_ne; [by apply ptr_list_reverse|by rewrite elem_of_reverse].
Qed.

(** The first id has no predecessor, the last one no successor. *)
Lemma prev_of_0_iff l d : ptr_list l → d ∈ l → prev_of l d = 0 ↔ head0 l = d.
Proof.
  intros Hl Hd. destruct (ptr_list_split l d Hd Hl) as (l1 & l2 & -> & H1 & H2 & ?).
  rewrite prev_of_split by done. destruct Hl as [_ H0]. rewrite head0_app. split.
  - intros Hl. rewrite (last0_0 l1); set_solver.
  - destruct l1 as [|y l1]; [done|]. set_solver.
Qed.

Lemma next_of_0_iff l d : ptr_list l → d ∈ l → next_of l d = 0 ↔ last0 l = d.
Proof.
  intros Hl Hd. rewrite <-(reverse_involutive l) at 1.
  apply prev_of_0_iff; [by apply ptr_list_reverse|by rewrite elem_of_reverse].
Qed.
