(* ===== verification/FundTypes.v ===== *)
(** * Fund types (user-fund-storage/src/types)

    The data of the fund storage: fund types and descriptions, the fund item
    with its four list pointers, the list header, with their default values
    for storage, and the vector of affected users. *)
From stdpp Require Import base numbers list gmap strings sorting.
From S2P Require Import Prelude.

(** ** Fund descriptions and fund types (fund_type.rs) *)
Module FundDescription.
Inductive FundDescription : Set :=
| WithdrawOnly
| Waiting (created : N)
| _PendingAct
| _ActiveFailed
| Active
| UnStaked (created : N)
| DeferredPayment (created : N).
End FundDescription.
Abbreviation FundDescription := FundDescription.FundDescription.

Module FundType.
Inductive FundType : Set :=
| WithdrawOnly
| Waiting
| _PendingAct
| _ActiveFailed
| Active
| UnStaked
| DeferredPayment.
End FundType.
Abbreviation FundType := FundType.FundType.

#[export] Instance FundDescription_eq_dec : EqDecision FundDescription.
Proof. solve_decision. Defined.
#[export] Instance FundType_eq_dec : EqDecision FundType.
Proof. solve_decision. Defined.

Definition FundType_code (t : FundType) : N :=
  match t with
  | FundType.WithdrawOnly => 0
  | FundType.Waiting => 1
  | FundType._PendingAct => 2
  | FundType._ActiveFailed => 3
  | FundType.Active => 4
  | FundType.UnStaked => 5
  | FundType.DeferredPayment => 6
  end.
Definition FundType_of_code (n : N) : option FundType :=
  match n with
  | 0 => Some FundType.WithdrawOnly
  | 1 => Some FundType.Waiting
  | 2 => Some FundType._PendingAct
  | 3 => Some FundType._ActiveFailed
  | 4 => Some FundType.Active
  | 5 => Some FundType.UnStaked
  | 6 => Some FundType.DeferredPayment
  | _ => None
  end.
#[export] Program Instance FundType_countable : Countable FundType :=
  inj_countable FundType_code FundType_of_code _.
Next Obligation. by intros []. Qed.

Definition ALL_TYPES : list FundType :=
  [FundType.WithdrawOnly; FundType.Waiting; FundType.Active;
   FundType.UnStaked; FundType.DeferredPayment].

Definition allow_coalesce (t : FundType) : bool :=
  match t with
  | FundType.WithdrawOnly | FundType.DeferredPayment => true
  | _ => false
  end.

Definition is_stake (t : FundType) : bool :=
  match t with
  | FundType.Waiting | FundType.Active | FundType.UnStaked => true
  | _ => false
  end.

Definition funds_in_contract (t : FundType) : bool :=
  match t with
  | FundType.WithdrawOnly | FundType.Waiting | FundType.DeferredPayment => true
  | _ => false
  end.

Definition fund_type (d : FundDescription) : FundType :=
  match d with
  | FundDescription.WithdrawOnly => FundType.WithdrawOnly
  | FundDescription.Waiting _ => FundType.Waiting
  | FundDescription._PendingAct => FundType._PendingAct
  | FundDescription._ActiveFailed => FundType._ActiveFailed
  | FundDescription.Active => FundType.Active
  | FundDescription.UnStaked _ => FundType.UnStaked
  | FundDescription.DeferredPayment _ => FundType.DeferredPayment
  end.

(** ** Fund items (fund_item.rs) *)
Record FundItem := mk_FundItem {
  fund_desc : FundDescription;
  user_id : N;
  balance : N;
  type_list_next : N;
  type_list_prev : N;
  user_list_next : N;
  user_list_prev : N;
}.

Definition FundItem_is_default (i : FundItem) : bool :=
  (balance i =? 0) && (type_list_next i =? 0) && (type_list_prev i =? 0)
  && (user_list_next i =? 0) && (user_list_prev i =? 0).

Definition FundItem_default : FundItem :=
  mk_FundItem FundDescription.WithdrawOnly 0 0 0 0 0 0.

(** Assignments to the fields of a fund item. *)
Definition set_balance (v : N) (i : FundItem) : FundItem :=
  mk_FundItem (fund_desc i) (user_id i) v (type_list_next i) (type_list_prev i)
    (user_list_next i) (user_list_prev i).
Definition set_type_list_next (v : N) (i : FundItem) : FundItem :=
  mk_FundItem (fund_desc i) (user_id i) (balance i) v (type_list_prev i)
    (user_list_next i) (user_list_prev i).
Definition set_type_list_prev (v : N) (i : FundItem) : FundItem :=
  mk_FundItem (fund_desc i) (user_id i) (balance i) (type_list_next i) v
    (user_list_next i) (user_list_prev i).
Definition set_user_list_next (v : N) (i : FundItem) : FundItem :=
  mk_FundItem (fund_desc i) (user_id i) (balance i) (type_list_next i)
    (type_list_prev i) v (user_list_prev i).
Definition set_user_list_prev (v : N) (i : FundItem) : FundItem :=
  mk_FundItem (fund_desc i) (user_id i) (balance i) (type_list_next i)
    (type_list_prev i) (user_list_next i) v.

(** ** List headers (fund_list_info.rs) *)
Record FundsListInfo := mk_FundsListInfo {
  total_balance : N;
  first : N;
  last : N;
}.

Definition FundsListInfo_is_default (l : FundsListInfo) : bool :=
  (total_balance l =? 0) && (first l =? 0) && (last l =? 0).

Definition FundsListInfo_default : FundsListInfo := mk_FundsListInfo 0 0 0.

Definition set_total_balance (v : N) (l : FundsListInfo) : FundsListInfo :=
  mk_FundsListInfo v (first l) (last l).
Definition set_first (v : N) (l : FundsListInfo) : FundsListInfo :=
  mk_FundsListInfo (total_balance l) v (last l).
Definition set_last (v : N) (l : FundsListInfo) : FundsListInfo :=
  mk_FundsListInfo (total_balance l) (first l) v.

#[export] Instance FundItem_eq_dec : EqDecision FundItem.
Proof. solve_decision. Defined.
#[export] Instance FundsListInfo_eq_dec : EqDecision FundsListInfo.
Proof. solve_decision. Defined.

(** ** The vector of affected users (affected_user_id_vec.rs)

    An [ArrayVec] of capacity [MAX_AFFECTED_USERS], in push order. *)
Definition MAX_AFFECTED_USERS : N := 10000.
Abbreviation AffectedUserIdVec := (list N).

(** [try_push]: [None] when the capacity is exhausted. *)
Definition try_push (v : AffectedUserIdVec) (u : N) : option AffectedUserIdVec :=
  if N.of_nat (length v) <? MAX_AFFECTED_USERS then Some (v ++ [u]) else None.

(** [partition_dedup]: the prefix without consecutive duplicates. *)
Fixpoint partition_dedup (v : list N) : list N :=
  match v with
  | [] => []
  | u :: v' =>
      match partition_dedup v' with
      | [] => [u]
      | w :: r => if u =? w then w :: r else u :: w :: r
      end
  end.

Definition affected_users_sort_dedup (v : AffectedUserIdVec) : AffectedUserIdVec :=
  partition_dedup (merge_sort N.le v).

Example affected_users_sort_dedup_more :
  affected_users_sort_dedup [1; 2; 1; 3; 3; 1; 2; 1] = [1; 2; 3].
Proof. reflexivity. Qed.

(** ** Facts about the vector of affected users *)
Lemma elem_of_partition_dedup u v : u ∈ partition_dedup v ↔ u ∈ v.
Proof.
  induction v as [|w v IH]; [done|]. simpl.
  destruct (partition_dedup v) as [|x r]; [set_solver|].
  destruct (N.eqb_spec w x) as [->|]; set_solver.
Qed.

Lemma partition_dedup_sorted v : StronglySorted N.le v → StronglySorted N.lt (partition_dedup v).
Proof.
  induction v as [|w v IH]; intros Hs; simpl; [constructor|].
  apply StronglySorted_inv in Hs as [Hs Hw].
  pose proof (elem_of_partition_dedup) as Hin. specialize (IH Hs).
  destruct (partition_dedup v) as [|x r] eqn:E; [by repeat constructor|].
  destruct (N.eqb_spec w x) as [->|Hne]; [done|].
  assert (x ∈ v) as Hx by (apply Hin; rewrite E; set_solver).
  rewrite Forall_forall in Hw. pose proof (Hw x Hx).
  constructor; [done|]. apply StronglySorted_inv in IH as [_ Hr].
  constructor; [lia|]. eapply Forall_impl; [exact Hr|]. simpl. lia.
Qed.

Lemma elem_of_sort_dedup u v : u ∈ affected_users_sort_dedup v ↔ u ∈ v.
Proof.
  unfold affected_users_sort_dedup. rewrite elem_of_partition_dedup.
  by rewrite merge_sort_Permutation.
Qed.

Lemma sort_dedup_sorted v : StronglySorted N.lt (affected_users_sort_dedup v).
Proof. apply partition_dedup_sorted. apply (StronglySorted_merge_sort N.le). Qed.
