(* ===== verification/FundModule.v ===== *)
(** * The fund storage module (user-fund-storage/src/fund_module.rs)

    The storage of all fund items: each item sits in two intrusive doubly
    linked lists, the list of its fund type and the list of its user and fund
    type.  Operations on the store alone live in [M FundStore]; the loops that
    run closures of the caller (filters, transformations, gas interrupts) live
    in [M S] for any [S] that contains a fund store. *)
From stdpp Require Import base numbers list gmap strings sorting.
From S2P Require Import Prelude FundTypes.

Inductive SwapDirection : Set := Forwards | Backwards.

(** ** Storage

    [TopEncodeOrDefault] / [TopDecodeOrDefault]: writing a default value clears
    the storage entry, and reading an empty entry yields the default value. *)
Record FundStore := mk_FundStore {
  fs_fund_by_id : gmap N FundItem;
  fs_fund_max_id : N;
  fs_list_by_type : gmap FundType FundsListInfo;
  fs_list_by_user : gmap (N * FundType) FundsListInfo;
}.

Definition empty_FundStore : FundStore := mk_FundStore ∅ 0 ∅ ∅.

Definition fund_by_id (id : N) (fs : FundStore) : FundItem :=
  default FundItem_default (fs_fund_by_id fs !! id).
Definition fund_by_id_set (id : N) (i : FundItem) (fs : FundStore) : FundStore :=
  mk_FundStore
    (if FundItem_is_default i then delete id (fs_fund_by_id fs)
     else <[id := i]> (fs_fund_by_id fs))
    (fs_fund_max_id fs) (fs_list_by_type fs) (fs_list_by_user fs).

Definition fund_list_by_type (t : FundType) (fs : FundStore) : FundsListInfo :=
  default FundsListInfo_default (fs_list_by_type fs !! t).
Definition fund_list_by_type_set (t : FundType) (l : FundsListInfo) (fs : FundStore)
    : FundStore :=
  mk_FundStore (fs_fund_by_id fs) (fs_fund_max_id fs)
    (if FundsListInfo_is_default l then delete t (fs_list_by_type fs)
     else <[t := l]> (fs_list_by_type fs))
    (fs_list_by_user fs).

Definition fund_list_by_user (u : N) (t : FundType) (fs : FundStore) : FundsListInfo :=
  default FundsListInfo_default (fs_list_by_user fs !! (u, t)).
Definition fund_list_by_user_set (u : N) (t : FundType) (l : FundsListInfo)
    (fs : FundStore) : FundStore :=
  mk_FundStore (fs_fund_by_id fs) (fs_fund_max_id fs) (fs_list_by_type fs)
    (if FundsListInfo_is_default l then delete (u, t) (fs_list_by_user fs)
     else <[(u, t) := l]> (fs_list_by_user fs)).

Definition set_fund_max_id (n : N) (fs : FundStore) : FundStore :=
  mk_FundStore (fs_fund_by_id fs) n (fs_list_by_type fs) (fs_list_by_user fs).

(** [fund_by_id(id).update(..)] and its siblings. *)
Definition update_fund {X} (id : N) (f : FundItem → M FundStore (X * FundItem))
    : M FundStore X :=
  mapper_update (gets (fund_by_id id)) (λ i, modify (fund_by_id_set id i)) f.
Definition update_type_list {X} (t : FundType)
    (f : FundsListInfo → M FundStore (X * FundsListInfo)) : M FundStore X :=
  mapper_update (gets (fund_list_by_type t)) (λ l, modify (fund_list_by_type_set t l)) f.
Definition update_user_list {X} (u : N) (t : FundType)
    (f : FundsListInfo → M FundStore (X * FundsListInfo)) : M FundStore X :=
  mapper_update (gets (fund_list_by_user u t))
    (λ l, modify (fund_list_by_user_set u t l)) f.

(** An update whose closure only assigns fields. *)
Definition assign_fund (id : N) (f : FundItem → FundItem) : M FundStore unit :=
  update_fund id (λ i, ret (tt, f i)).

(** ** Creating and increasing funds *)

(** Adds at the end of the fund by type list; returns the new item. *)
Definition add_fund_to_type_list (id : N) (new_fund_item : FundItem)
    : M FundStore FundItem :=
  update_type_list (fund_type (fund_desc new_fund_item)) (λ type_list,
    let! '(new_fund_item, type_list) :=
      if FundsListInfo_is_default type_list then
        ret (new_fund_item, set_first id type_list)
      else
        let new_fund_item := set_type_list_prev (last type_list) new_fund_item in
        assign_fund (last type_list) (set_type_list_next id) ;;;
        ret (new_fund_item, type_list) in
    let type_list := set_last id type_list in
    let type_list :=
      set_total_balance (total_balance type_list + balance new_fund_item) type_list in
    ret (new_fund_item, type_list)).

(** Adds at the end of the fund by user+type list; returns the new item. *)
Definition add_fund_to_user_list (id : N) (new_fund_item : FundItem)
    : M FundStore FundItem :=
  update_user_list (user_id new_fund_item) (fund_type (fund_desc new_fund_item))
    (λ user_list,
      let! '(new_fund_item, user_list) :=
        if FundsListInfo_is_default user_list then
          ret (new_fund_item, set_first id user_list)
        else
          let new_fund_item := set_user_list_prev (last user_list) new_fund_item in
          assign_fund (last user_list) (set_user_list_next id) ;;;
          ret (new_fund_item, user_list) in
      let user_list := set_last id user_list in
      let user_list :=
        set_total_balance (total_balance user_list + balance new_fund_item) user_list in
      ret (new_fund_item, user_list)).

Definition create_fund (user : N) (desc : FundDescription) (bal : N)
    : M FundStore unit :=
  if bal =? 0 then ret tt else
  let! fund_max_id := gets fs_fund_max_id in
  let fund_max_id := usize_add fund_max_id 1 in
  modify (set_fund_max_id fund_max_id) ;;;
  let new_fund_item := mk_FundItem desc user bal 0 0 0 0 in
  let! new_fund_item := add_fund_to_type_list fund_max_id new_fund_item in
  let! new_fund_item := add_fund_to_user_list fund_max_id new_fund_item in
  modify (fund_by_id_set fund_max_id new_fund_item).

(** The attempt to add the amount to the last fund item of the user; returns
    whether it succeeded. *)
Definition try_coalesce (user : N) (desc : FundDescription) (amount : N)
    : M FundStore bool :=
  if allow_coalesce (fund_type desc) then
    update_user_list user (fund_type desc) (λ user_list,
      if negb (FundsListInfo_is_default user_list) then
        let! '(coalesced, user_list) :=
          update_fund (last user_list) (λ last_item,
            if decide (fund_desc last_item = desc) then
              let last_item := set_balance (balance last_item + amount) last_item in
              let user_list :=
                set_total_balance (total_balance user_list + amount) user_list in
              update_type_list (fund_type (fund_desc last_item)) (λ type_list,
                ret (tt, set_total_balance (total_balance type_list + amount)
                           type_list)) ;;;
              ret ((true, user_list), last_item)
            else ret ((false, user_list), last_item)) in
        ret (coalesced, user_list)
      else ret (false, user_list))
  else ret false.

Definition increase_fund_balance (user : N) (desc : FundDescription) (amount : N)
    : M FundStore unit :=
  if amount =? 0 then ret tt else
  let! coalesced := try_coalesce user desc amount in
  if negb coalesced then create_fund user desc amount else ret tt.

(** ** Deleting and decreasing funds *)

Definition delete_fund_from_type_list (fund_item : FundItem)
    (type_list : FundsListInfo) : M FundStore (FundItem * FundsListInfo) :=
  let! type_list :=
    if type_list_prev fund_item =? 0 then
      ret (set_first (type_list_next fund_item) type_list)
    else
      assign_fund (type_list_prev fund_item)
        (set_type_list_next (type_list_next fund_item)) ;;;
      ret type_list in
  let! type_list :=
    if type_list_next fund_item =? 0 then
      ret (set_last (type_list_prev fund_item) type_list)
    else
      assign_fund (type_list_next fund_item)
        (set_type_list_prev (type_list_prev fund_item)) ;;;
      ret type_list in
  ret (set_type_list_next 0 (set_type_list_prev 0 fund_item), type_list).

Definition delete_fund_from_user_list (fund_item : FundItem)
    (user_list : FundsListInfo) : M FundStore (FundItem * FundsListInfo) :=
  let! user_list :=
    if user_list_prev fund_item =? 0 then
      ret (set_first (user_list_next fund_item) user_list)
    else
      assign_fund (user_list_prev fund_item)
        (set_user_list_next (user_list_next fund_item)) ;;;
      ret user_list in
  let! user_list :=
    if user_list_next fund_item =? 0 then
      ret (set_last (user_list_prev fund_item) user_list)
    else
      assign_fund (user_list_next fund_item)
        (set_user_list_prev (user_list_prev fund_item)) ;;;
      ret user_list in
  ret (set_user_list_next 0 (set_user_list_prev 0 fund_item), user_list).

(** Returns the old balance of the deleted item, and the item with cleared
    pointers and balance (so that saving it clears its storage). *)
Definition delete_fund (fund_item : FundItem) : M FundStore (N * FundItem) :=
  let! fund_item :=
    update_type_list (fund_type (fund_desc fund_item)) (λ type_list,
      let! total := big_sub (total_balance type_list) (balance fund_item) in
      delete_fund_from_type_list fund_item (set_total_balance total type_list)) in
  let! fund_item :=
    update_user_list (user_id fund_item) (fund_type (fund_desc fund_item))
      (λ user_list,
        let! total := big_sub (total_balance user_list) (balance fund_item) in
        delete_fund_from_user_list fund_item (set_total_balance total user_list)) in
  ret (balance fund_item, set_balance 0 fund_item).

(** Decreases [amount] and returns by how much it decreased, together with the
    new amount and the new item. *)
Definition decrease_fund_balance (amount : N) (fund_item : FundItem)
    : M FundStore (N * N * FundItem) :=
  if balance fund_item <=? amount then
    let amount := amount - balance fund_item in
    let! '(extracted, fund_item) := delete_fund fund_item in
    ret (extracted, amount, fund_item)
  else
    let! bal := big_sub (balance fund_item) amount in
    let fund_item := set_balance bal fund_item in
    update_type_list (fund_type (fund_desc fund_item)) (λ type_list,
      let! total := big_sub (total_balance type_list) amount in
      ret (tt, set_total_balance total type_list)) ;;;
    update_user_list (user_id fund_item) (fund_type (fund_desc fund_item))
      (λ user_list,
        let! total := big_sub (total_balance user_list) amount in
        ret (tt, set_total_balance total user_list)) ;;;
    ret (amount, 0, fund_item).

Definition decrease_max_amount (opt_max_amount : option N) (fund_item : FundItem)
    : option N :=
  match opt_max_amount with
  | Some max_amount =>
      if max_amount <=? balance fund_item then Some 0
      else Some (max_amount - balance fund_item)
  | None => None
  end.

(** Returns the new maximum and the new item. *)
Definition split_convert_individual_fund (opt_max_amount : option N)
    (transformed : FundDescription) (fund_item : FundItem)
    : M FundStore (option N * FundItem) :=
  let! '(extracted_balance, opt_max_amount, fund_item) :=
    match opt_max_amount with
    | Some max_amount =>
        let! '(extracted, max_amount, fund_item) :=
          decrease_fund_balance max_amount fund_item in
        ret (extracted, Some max_amount, fund_item)
    | None =>
        let! '(extracted, fund_item) := delete_fund fund_item in
        ret (extracted, None, fund_item)
    end in
  increase_fund_balance (user_id fund_item) transformed extracted_balance ;;;
  ret (opt_max_amount, fund_item).

Definition first_id_of_type (source_type : FundType) (direction : SwapDirection)
    (fs : FundStore) : N :=
  let type_list := fund_list_by_type source_type fs in
  match direction with
  | Forwards => first type_list
  | Backwards => last type_list
  end.

Definition first_id_of_user_type (user : N) (source_type : FundType)
    (direction : SwapDirection) (fs : FundStore) : N :=
  let user_list := fund_list_by_user user source_type fs in
  match direction with
  | Forwards => first user_list
  | Backwards => last user_list
  end.

(** ** Read-only traversals

    Every traversal follows the list pointers; its bound is [loop_fuel]: one
    step per stored item, one for a stale start id and one for the exit. *)
Definition loop_fuel (fs : FundStore) : nat := 2 + size (fs_fund_by_id fs).

Definition query_sum_all_funds_brute_force (filter : N → FundDescription → bool)
    (fs : FundStore) : N :=
  foldl (λ sum id,
    let fund_item := fund_by_id id fs in
    if filter (user_id fund_item) (fund_desc fund_item)
    then sum + balance fund_item else sum)
    0 (ids_up_to (fs_fund_max_id fs)).

(** The common body of the read-only loops: fold [f] over the items reached
    from [id] along [next]. *)
Fixpoint fold_list {A} (fs : FundStore) (next : FundItem → N)
    (f : A → FundItem → A) (fuel : nat) (id : N) (acc : A) : result A :=
  match fuel with
  | O => Err OutOfFuel
  | Datatypes.S fuel =>
      if 0 <? id then
        let fund_item := fund_by_id id fs in
        fold_list fs next f fuel (next fund_item) (f acc fund_item)
      else Ok acc
  end.

Definition query_sum_funds_by_type (t : FundType) (filter : N → FundDescription → bool)
    (fs : FundStore) : result N :=
  let type_list := fund_list_by_type t fs in
  fold_list fs type_list_next (λ sum fund_item,
    if filter (user_id fund_item) (fund_desc fund_item)
    then sum + balance fund_item else sum)
    (loop_fuel fs) (first type_list) 0.

Definition query_sum_funds_by_user_type (user : N) (t : FundType)
    (filter : FundDescription → bool) (fs : FundStore) : result N :=
  let user_list := fund_list_by_user user t fs in
  fold_list fs user_list_next (λ sum fund_item,
    if filter (fund_desc fund_item) then sum + balance fund_item else sum)
    (loop_fuel fs) (first user_list) 0.

Definition count_fund_items_by_type (t : FundType) (filter : FundItem → bool)
    (fs : FundStore) : result N :=
  let type_list := fund_list_by_type t fs in
  fold_list fs type_list_next (λ count fund_item,
    if filter fund_item then usize_add count 1 else count)
    (loop_fuel fs) (first type_list) 0.

Definition count_fund_items_by_user_type (user : N) (t : FundType)
    (filter : FundDescription → bool) (fs : FundStore) : result N :=
  let user_list := fund_list_by_user user t fs in
  fold_list fs user_list_next (λ count fund_item,
    if filter (fund_desc fund_item) then usize_add count 1 else count)
    (loop_fuel fs) (first user_list) 0.

Definition type_list_step (direction : SwapDirection) (i : FundItem) : N :=
  match direction with
  | Forwards => type_list_next i
  | Backwards => type_list_prev i
  end.
Definition user_list_step (direction : SwapDirection) (i : FundItem) : N :=
  match direction with
  | Forwards => user_list_next i
  | Backwards => user_list_prev i
  end.

(** ** Loops with closures of the caller

    [S] is the whole storage of the contract (plus the chain), of which the
    fund store is a part.  A Rust closure that mutates captured variables is a
    function that passes them along as [acc]. *)
Section Loops.
Context {S : Type} `{Lens S FundStore}.

Definition foreach_step {A} (closure : FundItem → A → M S A)
    (next : FundItem → N) : nat → N → A → M S A :=
  fix loop fuel id acc :=
    match fuel with
    | O => fail OutOfFuel
    | Datatypes.S fuel =>
        if 0 <? id then
          let! fund_item := zoom (gets (fund_by_id id)) in
          let next_id := next fund_item in
          let! acc := closure fund_item acc in
          loop fuel next_id acc
        else ret acc
    end.

Definition foreach_fund_by_user_type {A} (user : N) (t : FundType)
    (direction : SwapDirection) (closure : FundItem → A → M S A) (acc : A)
    : M S A :=
  let! id := zoom (gets (first_id_of_user_type user t direction)) in
  let! fuel := zoom (gets loop_fuel) in
  foreach_step closure (user_list_step direction) fuel id acc.

Definition foreach_fund_by_type {A} (t : FundType)
    (direction : SwapDirection) (closure : FundItem → A → M S A) (acc : A)
    : M S A :=
  let! id := zoom (gets (first_id_of_type t direction)) in
  let! fuel := zoom (gets loop_fuel) in
  foreach_step closure (type_list_step direction) fuel id acc.

(** [fund_by_id(id).update(..)] with a closure that uses the whole storage. *)
Definition update_fund_in {X} (id : N) (f : FundItem → M S (X * FundItem)) : M S X :=
  mapper_update (zoom (gets (fund_by_id id)))
    (λ i, zoom (modify (fund_by_id_set id i))) f.

Definition drained (opt_max_amount : option N) : bool :=
  match opt_max_amount with Some max_amount => max_amount =? 0 | None => false end.

Fixpoint split_convert_max_by_type_loop (direction : SwapDirection)
    (filter_transform : FundItem → M S (option FundDescription))
    (interrupt : M S bool) (dry_run : bool)
    (fuel : nat) (id : N) (opt_max_amount : option N)
    (affected_users : AffectedUserIdVec) : M S (AffectedUserIdVec * option N) :=
  match fuel with
  | O => fail OutOfFuel
  | Datatypes.S fuel =>
      if negb (0 <? id) then ret (affected_users, opt_max_amount) else
      let! stop := interrupt in
      if stop then ret (affected_users, opt_max_amount) else
      if drained opt_max_amount then ret (affected_users, opt_max_amount) else
      let! '(next_id, opt_max_amount, affected_users) :=
        update_fund_in id (λ fund_item,
          let! affected_users :=
            match try_push affected_users (user_id fund_item) with
            | Some v => ret v
            | None => sc_panic "affected user capacity exceeded"
            end in
          let next_id := type_list_step direction fund_item in
          let! opt_transformed := filter_transform fund_item in
          match opt_transformed with
          | Some transformed =>
              if dry_run then
                ret ((next_id, decrease_max_amount opt_max_amount fund_item,
                      affected_users), fund_item)
              else
                let! '(opt_max_amount, fund_item) :=
                  zoom (split_convert_individual_fund opt_max_amount transformed
                          fund_item) in
                ret ((next_id, opt_max_amount, affected_users), fund_item)
          | None => ret ((next_id, opt_max_amount, affected_users), fund_item)
          end) in
      split_convert_max_by_type_loop direction filter_transform interrupt dry_run
        fuel next_id opt_max_amount affected_users
  end.

(** Returns the affected users, sorted, and the new maximum. *)
Definition split_convert_max_by_type (opt_max_amount : option N)
    (source_type : FundType) (direction : SwapDirection)
    (filter_transform : FundItem → M S (option FundDescription))
    (interrupt : M S bool) (dry_run : bool) : M S (AffectedUserIdVec * option N) :=
  let! id := zoom (gets (first_id_of_type source_type direction)) in
  let! fuel := zoom (gets loop_fuel) in
  let! '(affected_users, opt_max_amount) :=
    split_convert_max_by_type_loop direction filter_transform interrupt dry_run
      fuel id opt_max_amount [] in
  ret (affected_users_sort_dedup affected_users, opt_max_amount).

Fixpoint checkpoint_loop (direction : SwapDirection)
    (filter_transform : FundItem → M S (option FundDescription))
    (interrupt : M S bool) (fuel : nat) (current_id : N) : M S N :=
  match fuel with
  | O => fail OutOfFuel
  | Datatypes.S fuel =>
      if negb (0 <? current_id) then ret current_id else
      let! stop := interrupt in
      if stop then ret current_id else
      let! current_id :=
        update_fund_in current_id (λ fund_item,
          let next_id := type_list_step direction fund_item in
          let! opt_transformed := filter_transform fund_item in
          match opt_transformed with
          | Some transformed =>
              let! '(_, fund_item) :=
                zoom (split_convert_individual_fund None transformed fund_item) in
              ret (next_id, fund_item)
          | None => ret (next_id, fund_item)
          end) in
      checkpoint_loop direction filter_transform interrupt fuel current_id
  end.

(** Returns the id to continue from. *)
Definition split_convert_max_by_type_with_checkpoint (current_id : N)
    (source_type : FundType) (direction : SwapDirection)
    (filter_transform : FundItem → M S (option FundDescription))
    (interrupt : M S bool) : M S N :=
  let! current_id :=
    if current_id =? 0 then zoom (gets (first_id_of_type source_type direction))
    else ret current_id in
  let! fuel := zoom (gets loop_fuel) in
  checkpoint_loop direction filter_transform interrupt fuel current_id.

Fixpoint split_convert_max_by_user_loop (direction : SwapDirection)
    (filter_transform : FundDescription → option FundDescription)
    (interrupt : M S bool) (fuel : nat) (id : N) (opt_max_amount : option N)
    (total_transformed : N) : M S (N * option N) :=
  match fuel with
  | O => fail OutOfFuel
  | Datatypes.S fuel =>
      if negb (0 <? id) then ret (total_transformed, opt_max_amount) else
      let! stop := interrupt in
      if stop then ret (total_transformed, opt_max_amount) else
      if drained opt_max_amount then ret (total_transformed, opt_max_amount) else
      let! fund_item := zoom (gets (fund_by_id id)) in
      let next_id := user_list_step direction fund_item in
      let! '(opt_max_amount, total_transformed, fund_item) :=
        match filter_transform (fund_desc fund_item) with
        | Some transformed =>
            let! '(extracted_balance, opt_max_amount, fund_item) :=
              match opt_max_amount with
              | Some max_amount =>
                  let! '(extracted, max_amount, fund_item) :=
                    zoom (decrease_fund_balance max_amount fund_item) in
                  ret (extracted, Some max_amount, fund_item)
              | None =>
                  let! '(extracted, fund_item) := zoom (delete_fund fund_item) in
                  ret (extracted, None, fund_item)
              end in
            zoom (increase_fund_balance (user_id fund_item) transformed
                    extracted_balance) ;;;
            ret (opt_max_amount, total_transformed + extracted_balance, fund_item)
        | None => ret (opt_max_amount, total_transformed, fund_item)
        end in
      zoom (modify (fund_by_id_set id fund_item)) ;;;
      split_convert_max_by_user_loop direction filter_transform interrupt
        fuel next_id opt_max_amount total_transformed
  end.

(** Returns the total amount transformed and the new maximum. *)
Definition split_convert_max_by_user (opt_max_amount : option N) (user : N)
    (source_type : FundType) (direction : SwapDirection)
    (filter_transform : FundDescription → option FundDescription)
    (interrupt : M S bool) : M S (N * option N) :=
  let! id := zoom (gets (first_id_of_user_type user source_type direction)) in
  let! fuel := zoom (gets loop_fuel) in
  split_convert_max_by_user_loop direction filter_transform interrupt
    fuel id opt_max_amount 0.

Fixpoint destroy_all_loop (interrupt : M S bool) (fuel : nat) (id : N)
    (total_destroyed : N) : M S N :=
  match fuel with
  | O => fail OutOfFuel
  | Datatypes.S fuel =>
      if negb (0 <? id) then ret total_destroyed else
      let! stop := interrupt in
      if stop then ret total_destroyed else
      let! '(next_id, fund_balance) :=
        update_fund_in id (λ fund_item,
          let next_id := user_list_next fund_item in
          let! '(fund_balance, fund_item) := zoom (delete_fund fund_item) in
          ret ((next_id, fund_balance), fund_item)) in
      destroy_all_loop interrupt fuel next_id (total_destroyed + fund_balance)
  end.

Definition destroy_all_for_user (user : N) (source_type : FundType)
    (interrupt : M S bool) : M S N :=
  let! id := zoom (gets (first_id_of_user_type user source_type Forwards)) in
  let! fuel := zoom (gets loop_fuel) in
  destroy_all_loop interrupt fuel id 0.
End Loops.
