(* ===== verification/FundLedger.v ===== *)
(** * The abstract ledger of funds

    The promise of the fund storage: a list of buckets in order of creation.
    The two families of linked lists of the store are groups of this list (by
    fund type, and by user and fund type), and every pointer, list header and
    sum is a function of it.  [Rep fs L] says that the store [fs] represents
    the ledger [L]. *)
From stdpp Require Import base numbers list gmap sets.
From S2P Require Import Prelude PtrList FundTypes FundModule.

Record Bucket := mk_Bucket {
  b_id : N;
  b_user : N;
  b_desc : FundDescription;
  b_bal : N;
}.
Abbreviation Ledger := (list Bucket).

#[export] Instance Bucket_eq_dec : EqDecision Bucket.
Proof. solve_decision. Defined.

Definition ids (L : Ledger) : list N := b_id <$> L.
Definition total (L : Ledger) : N := foldr (λ b s, b_bal b + s) 0 L.

Definition with_bal (v : N) (b : Bucket) : Bucket :=
  mk_Bucket (b_id b) (b_user b) (b_desc b) v.
Definition remove_bucket (d : N) (L : Ledger) : Ledger :=
  filter (λ b, b_id b ≠ d) L.
Definition set_bucket_bal (d v : N) (L : Ledger) : Ledger :=
  (λ b, if decide (b_id b = d) then with_bal v b else b) <$> L.

Definition type_key (b : Bucket) : FundType := fund_type (b_desc b).
Definition user_key (b : Bucket) : N * FundType := (b_user b, fund_type (b_desc b)).

(** ** Generic facts about ids and totals *)
Lemma ids_app L L' : ids (L ++ L') = ids L ++ ids L'.
Proof. apply fmap_app. Qed.

Lemma ids_snoc L b : ids (L ++ [b]) = ids L ++ [b_id b].
Proof. apply ids_app. Qed.

Lemma elem_of_ids i L : i ∈ ids L ↔ ∃ b, b ∈ L ∧ b_id b = i.
Proof. unfold ids. rewrite list_elem_of_fmap. naive_solver. Qed.

Lemma elem_of_ids_2 b L : b ∈ L → b_id b ∈ ids L.
Proof. intros. apply elem_of_ids. eauto. Qed.

Lemma ids_inj L b b' :
  NoDup (ids L) → b ∈ L → b' ∈ L → b_id b = b_id b' → b = b'.
Proof.
  induction L as [|c L IH]; [set_solver|]. unfold ids; simpl.
  intros [Hc Hnd]%NoDup_cons Hb Hb' Heq.
  apply elem_of_cons in Hb as [->|Hb], Hb' as [->|Hb']; auto.
  - destruct Hc. rewrite Heq. by apply elem_of_ids_2.
  - destruct Hc. rewrite <-Heq. by apply elem_of_ids_2.
Qed.

Lemma total_app L L' : total (L ++ L') = total L + total L'.
Proof. induction L as [|b L IH]; simpl; [done|]. rewrite IH. lia. Qed.

Lemma total_elem b L : b ∈ L → b_bal b ≤ total L.
Proof. induction 1; simpl; lia. Qed.

Lemma ids_filter_id d L : ids (remove_bucket d L) = remove_id d (ids L).
Proof.
  unfold ids, remove_bucket, remove_id. induction L as [|b L IH]; [done|].
  rewrite fmap_cons. destruct (decide (b_id b = d)).
  - rewrite !filter_cons_False by naive_solver. done.
  - rewrite !filter_cons_True by done. by rewrite fmap_cons, IH.
Qed.

Lemma remove_bucket_not_elem d L : d ∉ ids L → remove_bucket d L = L.
Proof.
  unfold remove_bucket. induction L as [|b L IH]; intros Hd; [done|].
  rewrite filter_cons_True, IH; set_unfold; naive_solver.
Qed.

Lemma elem_of_remove_bucket b d L : b ∈ remove_bucket d L ↔ b_id b ≠ d ∧ b ∈ L.
Proof. unfold remove_bucket. by rewrite list_elem_of_filter. Qed.

Lemma total_remove L b :
  NoDup (ids L) → b ∈ L → total (remove_bucket (b_id b) L) = total L - b_bal b.
Proof.
  induction L as [|c L IH]; [set_solver|]. unfold ids; simpl.
  intros [Hc Hnd]%NoDup_cons [->|Hb]%elem_of_cons; unfold remove_bucket.
  - rewrite filter_cons_False by naive_solver. fold (remove_bucket (b_id c) L).
    rewrite remove_bucket_not_elem by done. lia.
  - rewrite filter_cons_True.
    + simpl. fold (remove_bucket (b_id b) L). rewrite IH by done.
      pose proof (total_elem b L Hb). lia.
    + intros Heq. destruct Hc. rewrite Heq. by apply elem_of_ids_2.
Qed.

Lemma ids_set_bucket_bal d v L : ids (set_bucket_bal d v L) = ids L.
Proof.
  unfold ids, set_bucket_bal. rewrite <-list_fmap_compose. apply list_fmap_ext.
  intros i b _. simpl. by case_decide.
Qed.

Lemma set_bucket_bal_not_elem d v L : d ∉ ids L → set_bucket_bal d v L = L.
Proof.
  unfold set_bucket_bal. induction L as [|b L IH]; intros Hd; [done|].
  rewrite fmap_cons, decide_False, IH; set_unfold; naive_solver.
Qed.

Lemma total_set_bucket_bal L b v :
  NoDup (ids L) → b ∈ L →
  total (set_bucket_bal (b_id b) v L) = total L - b_bal b + v.
Proof.
  induction L as [|c L IH]; [set_solver|]. unfold ids; simpl.
  intros [Hc Hnd]%NoDup_cons [->|Hb]%elem_of_cons.
  - rewrite decide_True by done. fold (set_bucket_bal (b_id c) v L).
    rewrite set_bucket_bal_not_elem by done. simpl. lia.
  - rewrite decide_False.
    + fold (set_bucket_bal (b_id b) v L). rewrite IH by done.
      pose proof (total_elem b L Hb). lia.
    + intros Heq. destruct Hc. rewrite Heq. by apply elem_of_ids_2.
Qed.

Lemma elem_of_set_bucket_bal b d v L :
  b ∈ set_bucket_bal d v L ↔
  ∃ c, c ∈ L ∧ b = if decide (b_id c = d) then with_bal v c else c.
Proof. unfold set_bucket_bal. rewrite list_elem_of_fmap. naive_solver. Qed.

(** ** The group of buckets with a given key *)
Section Keyed.
Context {K : Type} `{EqDecision K} (k : Bucket → K).

Definition grp (κ : K) (L : Ledger) : Ledger := filter (λ b, k b = κ) L.

Definition nxt (L : Ledger) (b : Bucket) : N := next_of (ids (grp (k b) L)) (b_id b).
Definition prv (L : Ledger) (b : Bucket) : N := prev_of (ids (grp (k b) L)) (b_id b).

Definition info (κ : K) (L : Ledger) : FundsListInfo :=
  mk_FundsListInfo (total (grp κ L)) (head0 (ids (grp κ L))) (last0 (ids (grp κ L))).

Lemma elem_of_grp b κ L : b ∈ grp κ L ↔ k b = κ ∧ b ∈ L.
Proof. unfold grp. by rewrite list_elem_of_filter. Qed.

Lemma grp_app κ L L' : grp κ (L ++ L') = grp κ L ++ grp κ L'.
Proof. apply filter_app. Qed.

Lemma grp_singleton κ b : grp κ [b] = if decide (k b = κ) then [b] else [].
Proof.
  unfold grp. case_decide.
  - by rewrite filter_cons_True.
  - by rewrite filter_cons_False.
Qed.

Lemma elem_of_ids_grp b κ L :
  NoDup (ids L) → b ∈ L → b_id b ∈ ids (grp κ L) ↔ k b = κ.
Proof.
  intros Hnd Hb. rewrite elem_of_ids. split.
  - intros (c & [Hk Hc]%elem_of_grp & Heq).
    by rewrite <-(ids_inj L c b).
  - intros Hk. exists b. split; [by apply elem_of_grp|done].
Qed.

Lemma ids_grp_subset i κ L : i ∈ ids (grp κ L) → i ∈ ids L.
Proof. rewrite !elem_of_ids. intros (b & [_ ?]%elem_of_grp & ?). eauto. Qed.

Lemma nodup_grp κ L : NoDup (ids L) → NoDup (ids (grp κ L)).
Proof.
  intros Hnd. unfold ids in *. eapply sublist_NoDup; [exact Hnd|].
  clear Hnd. unfold grp. induction L as [|b L IH]; [done|].
  destruct (decide (k b = κ)).
  - rewrite filter_cons_True by done. by apply sublist_skip.
  - rewrite filter_cons_False by done. by apply sublist_cons.
Qed.

Lemma ptr_list_grp κ L : ptr_list (ids L) → ptr_list (ids (grp κ L)).
Proof.
  intros [Hnd H0]. split; [by apply nodup_grp|]. by intros ?%ids_grp_subset.
Qed.

Lemma info_total_elem b L : b ∈ L → b_bal b ≤ total_balance (info (k b) L).
Proof. intros. apply total_elem. by apply elem_of_grp. Qed.

Lemma info_default_iff κ L :
  ptr_list (ids L) →
  FundsListInfo_is_default (info κ L) = bool_decide (grp κ L = []).
Proof.
  intros Hp%(ptr_list_grp κ). unfold FundsListInfo_is_default, info; simpl.
  destruct (grp κ L) as [|b l] eqn:E; [done|].
  rewrite bool_decide_false by done. destruct Hp as [_ H0].
  unfold ids in H0. simpl in *. replace (b_id b =? 0) with false by
    (symmetry; apply N.eqb_neq; set_solver).
  by rewrite andb_false_r.
Qed.

(** Appending a bucket. *)
Lemma grp_snoc κ L n : grp κ (L ++ [n]) = grp κ L ++ (if decide (k n = κ) then [n] else []).
Proof. by rewrite grp_app, grp_singleton. Qed.

Lemma ptr_list_app_l l1 l2 : ptr_list (l1 ++ l2) → ptr_list l1.
Proof. intros [(?&?&?)%NoDup_app ?]. split; set_solver. Qed.

Lemma nxt_snoc L n b :
  ptr_list (ids (L ++ [n])) → b ∈ L →
  nxt (L ++ [n]) b =
    if decide (last0 (ids (grp (k n) L)) = b_id b) then b_id n else nxt L b.
Proof.
  intros Hp Hb. unfold nxt. rewrite grp_snoc.
  rewrite ids_app in Hp. pose proof (ptr_list_app_l _ _ Hp) as HpL.
  pose proof (proj1 HpL) as Hnd.
  assert (b_id b ∈ ids (grp (k b) L)) as Hin by (by apply elem_of_ids_grp).
  destruct (decide (k n = k b)) as [Hk|Hk].
  - rewrite ids_snoc. rewrite next_of_snoc by (auto using ptr_list_grp). by rewrite Hk.
  - rewrite app_nil_r, decide_False; [done|]. intros Hl. destruct Hk.
    symmetry. apply (elem_of_ids_grp b (k n) L Hnd Hb). rewrite <-Hl.
    apply last0_elem. rewrite Hl. intros H0. destruct HpL as [_ []].
    rewrite <-H0. by apply elem_of_ids_2.
Qed.

Lemma prv_snoc L n b :
  ptr_list (ids (L ++ [n])) → b ∈ L → prv (L ++ [n]) b = prv L b.
Proof.
  intros Hp Hb. unfold prv. rewrite grp_snoc.
  rewrite ids_app in Hp. destruct Hp as [(Hnd & Hd & _)%NoDup_app _].
  case_decide; [rewrite ids_snoc|by rewrite app_nil_r]. apply prev_of_snoc.
  - by apply elem_of_ids_grp.
  - intros Heq. apply (Hd (b_id b)); [by apply elem_of_ids_2|].
    rewrite Heq. set_solver.
Qed.

Lemma nxt_snoc_new L n : ptr_list (ids (L ++ [n])) → nxt (L ++ [n]) n = 0.
Proof.
  intros Hp. unfold nxt. rewrite grp_snoc, decide_True, ids_snoc by done.
  apply next_of_snoc_new. intros Hin%ids_grp_subset.
  rewrite ids_app in Hp. destruct Hp as [(_ & Hd & _)%NoDup_app _].
  apply (Hd _ Hin). set_solver.
Qed.

Lemma prv_snoc_new L n : prv (L ++ [n]) n = last0 (ids (grp (k n) L)).
Proof.
  unfold prv. rewrite grp_snoc, decide_True, ids_snoc by done. apply prev_of_snoc_new.
Qed.

Lemma info_snoc_ne κ L n : k n ≠ κ → info κ (L ++ [n]) = info κ L.
Proof. intros. unfold info. by rewrite grp_snoc, decide_False, app_nil_r. Qed.

Lemma info_snoc_eq L n :
  ptr_list (ids L) →
  info (k n) (L ++ [n]) =
    mk_FundsListInfo (total_balance (info (k n) L) + b_bal n)
      (if bool_decide (grp (k n) L = []) then b_id n else first (info (k n) L))
      (b_id n).
Proof.
  intros Hp. unfold info. rewrite grp_snoc, decide_True, ids_snoc, total_app by done.
  f_equal; simpl.
  - lia.
  - destruct (grp (k n) L); done.
  - apply last0_snoc.
Qed.

(** Removing a bucket. *)
Lemma grp_remove κ d L : grp κ (remove_bucket d L) = remove_bucket d (grp κ L).
Proof.
  unfold grp, remove_bucket. rewrite !list_filter_filter. apply list_filter_iff.
  tauto.
Qed.

Lemma grp_remove_ne κ d L :
  NoDup (ids L) → d ∈ L → k d ≠ κ → grp κ (remove_bucket (b_id d) L) = grp κ L.
Proof.
  intros Hnd Hd Hk. rewrite grp_remove. apply remove_bucket_not_elem.
  by rewrite elem_of_ids_grp.
Qed.

Lemma nxt_elem_grp L b :
  nxt L b ≠ 0 → ∃ c, c ∈ L ∧ k c = k b ∧ b_id c = nxt L b.
Proof.
  intros Hn%next_of_elem. apply elem_of_ids in Hn as (c & [? ?]%elem_of_grp & ?).
  eauto.
Qed.

Lemma prv_elem_grp L b :
  prv L b ≠ 0 → ∃ c, c ∈ L ∧ k c = k b ∧ b_id c = prv L b.
Proof.
  intros Hn%prev_of_elem. apply elem_of_ids in Hn as (c & [? ?]%elem_of_grp & ?).
  eauto.
Qed.

(** Neighbours: [c] follows [b] iff [b] precedes [c]. *)
Lemma nxt_prv_iff L b c :
  ptr_list (ids L) → b ∈ L → c ∈ L → nxt L b = b_id c ↔ prv L c = b_id b.
Proof.
  intros Hp Hb Hc. pose proof (proj1 Hp) as Hnd.
  assert (b_id b ≠ 0 ∧ b_id c ≠ 0) as [Hb0 Hc0].
  { destruct Hp as [_ H0]. split; intros Heq; apply H0; rewrite <-Heq;
      by apply elem_of_ids_2. }
  destruct (decide (k b = k c)) as [Hk|Hk].
  - unfold nxt, prv. rewrite Hk. apply next_prev_iff; [by apply ptr_list_grp| |];
      by apply elem_of_ids_grp.
  - split; intros Heq; exfalso; apply Hk.
    + destruct (nxt_elem_grp L b) as (c' & ? & Hk' & Hid); [by rewrite Heq|].
      rewrite <-(ids_inj L c' c) by (done || congruence). done.
    + destruct (prv_elem_grp L c) as (b' & ? & Hk' & Hid); [by rewrite Heq|].
      rewrite <-(ids_inj L b' b) by (done || congruence). done.
Qed.

Lemma nxt_remove L d b :
  ptr_list (ids L) → d ∈ L → b ∈ L → b_id b ≠ b_id d →
  nxt (remove_bucket (b_id d) L) b =
    if decide (prv L d = b_id b) then nxt L d else nxt L b.
Proof.
  intros Hp Hd Hb Hne. pose proof (proj1 Hp) as Hnd.
  rewrite (decide_ext _ (nxt L b = b_id d)) by (by rewrite nxt_prv_iff).
  unfold nxt. destruct (decide (k d = k b)) as [Hk|Hk].
  - rewrite grp_remove, ids_filter_id, Hk.
    apply next_of_remove_id; [by apply ptr_list_grp| | |done];
      by apply elem_of_ids_grp.
  - rewrite grp_remove_ne by done. rewrite decide_False; [done|].
    intros Heq. destruct (nxt_elem_grp L b) as (c & Hc & Hkc & Hid).
    { unfold nxt. rewrite Heq. intros H0. destruct Hp as [_ []]. rewrite <-H0.
      by apply elem_of_ids_2. }
    destruct Hk. rewrite <-Hkc. f_equal. apply (ids_inj L); try done.
    unfold nxt in Hid. congruence.
Qed.

Lemma prv_remove L d b :
  ptr_list (ids L) → d ∈ L → b ∈ L → b_id b ≠ b_id d →
  prv (remove_bucket (b_id d) L) b =
    if decide (nxt L d = b_id b) then prv L d else prv L b.
Proof.
  intros Hp Hd Hb Hne. pose proof (proj1 Hp) as Hnd.
  rewrite (decide_ext _ (prv L b = b_id d)) by (by rewrite nxt_prv_iff).
  unfold prv. destruct (decide (k d = k b)) as [Hk|Hk].
  - rewrite grp_remove, ids_filter_id, Hk.
    apply prev_of_remove_id; [by apply ptr_list_grp| | |done];
      by apply elem_of_ids_grp.
  - rewrite grp_remove_ne by done. rewrite decide_False; [done|].
    intros Heq. destruct (prv_elem_grp L b) as (c & Hc & Hkc & Hid).
    { unfold prv. rewrite Heq. intros H0. destruct Hp as [_ []]. rewrite <-H0.
      by apply elem_of_ids_2. }
    destruct Hk. rewrite <-Hkc. f_equal. apply (ids_inj L); try done.
    unfold prv in Hid. congruence.
Qed.

Lemma info_remove_ne κ L d :
  NoDup (ids L) → d ∈ L → k d ≠ κ → info κ (remove_bucket (b_id d) L) = info κ L.
Proof. intros. unfold info. by rewrite grp_remove_ne. Qed.

Lemma info_remove_eq L d :
  ptr_list (ids L) → d ∈ L →
  info (k d) (remove_bucket (b_id d) L) =
    mk_FundsListInfo (total_balance (info (k d) L) - b_bal d)
      (if decide (prv L d = 0) then nxt L d else first (info (k d) L))
      (if decide (nxt L d = 0) then prv L d else last (info (k d) L)).
Proof.
  intros Hp Hd. pose proof (proj1 Hp) as Hnd.
  pose proof (ptr_list_grp (k d) L Hp) as Hg.
  assert (b_id d ∈ ids (grp (k d) L)) as Hin by (by apply elem_of_ids_grp).
  unfold info, nxt, prv. simpl. rewrite grp_remove, ids_filter_id.
  rewrite head0_remove_id, last0_remove_id by done. f_equal.
  - apply total_remove; [exact (proj1 Hg)|]. by apply elem_of_grp.
  - apply decide_ext. by rewrite prev_of_0_iff.
  - apply decide_ext. by rewrite next_of_0_iff.
Qed.

(** Changing a balance. *)
Section SetBal.
Hypothesis k_with_bal : ∀ v b, k (with_bal v b) = k b.

Lemma grp_set_bucket_bal κ d v L :
  grp κ (set_bucket_bal d v L) = set_bucket_bal d v (grp κ L).
Proof.
  unfold grp, set_bucket_bal. induction L as [|b L IH]; [done|].
  rewrite fmap_cons. set (b' := if decide _ then _ else _).
  assert (k b' = k b) as Hk by (unfold b'; case_decide; auto).
  destruct (decide (k b = κ)).
  - rewrite !filter_cons_True by congruence. by rewrite fmap_cons, IH.
  - rewrite !filter_cons_False by congruence. done.
Qed.

Lemma nxt_set_bucket_bal d v L b v' :
  nxt (set_bucket_bal d v L) (with_bal v' b) = nxt L b.
Proof.
  unfold nxt. by rewrite k_with_bal, grp_set_bucket_bal, ids_set_bucket_bal.
Qed.

Lemma prv_set_bucket_bal d v L b v' :
  prv (set_bucket_bal d v L) (with_bal v' b) = prv L b.
Proof.
  unfold prv. by rewrite k_with_bal, grp_set_bucket_bal, ids_set_bucket_bal.
Qed.

Lemma info_set_bucket_bal κ L d v :
  ptr_list (ids L) → d ∈ L →
  info κ (set_bucket_bal (b_id d) v L) =
    if decide (k d = κ) then
      set_total_balance (total_balance (info κ L) - b_bal d + v) (info κ L)
    else info κ L.
Proof.
  intros Hp Hd. unfold info. rewrite grp_set_bucket_bal, ids_set_bucket_bal.
  pose proof (ptr_list_grp κ L Hp) as [Hg _].
  case_decide as Hk.
  - unfold set_total_balance; simpl. f_equal.
    apply total_set_bucket_bal; [done|]. by apply elem_of_grp.
  - rewrite set_bucket_bal_not_elem; [done|].
    rewrite elem_of_ids_grp; [done|exact (proj1 Hp)|done].
Qed.
End SetBal.
End Keyed.
