(* ===== verification/FundRep.v ===== *)
(** * The fund store refines the ledger: single operations

    [RepX h fs A]: the store [fs] represents the abstract funds [A], except
    that the storage entry of item [h] (if any) may be stale, as it is while
    the item is held as a local copy by an [update] closure.  Each operation of
    the store is shown to run without error and to implement an operation on
    the ledger. *)
From stdpp Require Import base numbers list gmap sets.
From S2P Require Import Prelude PtrList FundTypes FundModule FundLedger.

(** Abstract funds: the greatest id given so far, and the buckets. *)
Record AFunds := mk_AFunds { af_max : N; af_ledger : Ledger }.

Definition item_of (L : Ledger) (b : Bucket) : FundItem :=
  mk_FundItem (b_desc b) (b_user b) (b_bal b)
    (nxt type_key L b) (prv type_key L b) (nxt user_key L b) (prv user_key L b).

Record RepX (h : option N) (fs : FundStore) (A : AFunds) : Prop := {
  rep_ids : ptr_list (ids (af_ledger A));
  rep_max : fs_fund_max_id fs = af_max A;
  rep_le b : b ∈ af_ledger A → b_id b ≤ af_max A;
  rep_pos b : b ∈ af_ledger A → 0 < b_bal b;
  rep_hole i : h = Some i → 0 < i ≤ af_max A;
  rep_item b : b ∈ af_ledger A → h ≠ Some (b_id b) →
    fs_fund_by_id fs !! b_id b = Some (item_of (af_ledger A) b);
  rep_none i : i ∉ ids (af_ledger A) → h ≠ Some i → fs_fund_by_id fs !! i = None;
  rep_type t : fund_list_by_type t fs = info type_key t (af_ledger A);
  rep_user u t : fund_list_by_user u t fs = info user_key (u, t) (af_ledger A);
}.

Abbreviation Rep := (RepX None).

(** ** The abstract operations *)

Definition last_bucket (L : Ledger) : option Bucket := head (reverse L).

(** The bucket that an increase is added to, if any. *)
Definition coalesce_target (u : N) (d : FundDescription) (L : Ledger) : option Bucket :=
  if allow_coalesce (fund_type d) then
    match last_bucket (grp user_key (u, fund_type d) L) with
    | Some b => if decide (b_desc b = d) then Some b else None
    | None => None
    end
  else None.

Definition l_create (u : N) (d : FundDescription) (v : N) (A : AFunds) : AFunds :=
  if v =? 0 then A else
  mk_AFunds (af_max A + 1) (af_ledger A ++ [mk_Bucket (af_max A + 1) u d v]).

Definition l_increase (u : N) (d : FundDescription) (v : N) (A : AFunds) : AFunds :=
  if v =? 0 then A else
  match coalesce_target u d (af_ledger A) with
  | Some b => mk_AFunds (af_max A) (set_bucket_bal (b_id b) (b_bal b + v) (af_ledger A))
  | None => l_create u d v A
  end.

Definition l_remove (d : N) (A : AFunds) : AFunds :=
  mk_AFunds (af_max A) (remove_bucket d (af_ledger A)).
Definition l_set_bal (d v : N) (A : AFunds) : AFunds :=
  mk_AFunds (af_max A) (set_bucket_bal d v (af_ledger A)).

(** ** Stores *)
Definition with_items (m : gmap N FundItem) (fs : FundStore) : FundStore :=
  mk_FundStore m (fs_fund_max_id fs) (fs_list_by_type fs) (fs_list_by_user fs).

Lemma balance_not_default i : 0 < balance i → FundItem_is_default i = false.
Proof. intros. unfold FundItem_is_default. by destruct (N.eqb_spec (balance i) 0); [lia|]. Qed.

Lemma list_not_default l : last l ≠ 0 → FundsListInfo_is_default l = false.
Proof.
  intros. unfold FundsListInfo_is_default.
  destruct (N.eqb_spec (last l) 0); [done|]. by rewrite andb_false_r.
Qed.

Lemma list_is_default l : FundsListInfo_is_default l = true → l = FundsListInfo_default.
Proof.
  destruct l. unfold FundsListInfo_is_default; simpl.
  rewrite !andb_true_iff, !N.eqb_eq. by intros [[-> ->] ->].
Qed.

Lemma assign_fund_eq fs p f it :
  fs_fund_by_id fs !! p = Some it → 0 < balance (f it) →
  assign_fund p f fs = Ok (tt, with_items (alter f p (fs_fund_by_id fs)) fs).
Proof.
  intros Hp Hb. unfold assign_fund, update_fund, mapper_update, bind, gets, modify, ret.
  unfold fund_by_id, fund_by_id_set, with_items. rewrite Hp. simpl.
  rewrite balance_not_default by done. do 3 f_equal.
  apply map_eq. intros i. rewrite lookup_insert, lookup_alter.
  case_decide; [subst; by rewrite Hp|done].
Qed.

Lemma lookup_alter_at {V} (f : V → V) (m : gmap N V) i j :
  alter f i m !! j = if decide (i = j) then f <$> m !! j else m !! j.
Proof. rewrite lookup_alter. case_decide; by subst. Qed.

(** Assigning through a pointer that may be null: nothing is stored at 0. *)
Lemma alter_null {V} (f : V → V) (m : gmap N V) : m !! 0 = None → alter f 0 m = m.
Proof.
  intros H0. apply map_eq. intros i. rewrite lookup_alter.
  case_decide; [subst; by rewrite H0|done].
Qed.

Lemma with_items_id fs : with_items (fs_fund_by_id fs) fs = fs.
Proof. by destruct fs. Qed.

(** What an append needs to know of the list it appends to. *)
Definition appendable (fs : FundStore) (l : FundsListInfo) : Prop :=
  if FundsListInfo_is_default l then fs_fund_by_id fs !! 0 = None
  else ∃ it, fs_fund_by_id fs !! last l = Some it ∧ 0 < balance it.

Definition append_info (l : FundsListInfo) (id v : N) : FundsListInfo :=
  mk_FundsListInfo (total_balance l + v)
    (if FundsListInfo_is_default l then id else first l) id.

Lemma append_info_not_default l id v :
  id ≠ 0 → FundsListInfo_is_default (append_info l id v) = false.
Proof. intros. by apply list_not_default. Qed.

Lemma add_fund_to_type_list_eq fs id i :
  let t := fund_type (fund_desc i) in
  let l := fund_list_by_type t fs in
  id ≠ 0 → type_list_prev i = 0 → appendable fs l →
  add_fund_to_type_list id i fs =
    Ok (set_type_list_prev (last l) i,
        mk_FundStore (alter (set_type_list_next id) (last l) (fs_fund_by_id fs))
          (fs_fund_max_id fs)
          (<[t := append_info l id (balance i)]> (fs_list_by_type fs))
          (fs_list_by_user fs)).
Proof.
  intros t l Hid Hprev Happ.
  unfold add_fund_to_type_list, update_type_list, mapper_update, bind, gets, modify.
  fold t l. unfold appendable in Happ.
  pose proof (append_info_not_default l id (balance i) Hid) as Hnd.
  unfold append_info in *. destruct (FundsListInfo_is_default l) eqn:Hl.
  - apply list_is_default in Hl. simpl. unfold fund_list_by_type_set.
    rewrite Hl in *. simpl in *. rewrite alter_null by done.
    unfold set_last, set_total_balance; simpl in *. rewrite Hnd.
    destruct i; simpl in *; by subst.
  - destruct Happ as (it & Hit & Hb).
    erewrite assign_fund_eq by (done || by destruct it). simpl.
    unfold fund_list_by_type_set, set_last, set_total_balance; simpl in *. by rewrite Hnd.
Qed.

Lemma add_fund_to_user_list_eq fs id i :
  let t := fund_type (fund_desc i) in
  let l := fund_list_by_user (user_id i) t fs in
  id ≠ 0 → user_list_prev i = 0 → appendable fs l →
  add_fund_to_user_list id i fs =
    Ok (set_user_list_prev (last l) i,
        mk_FundStore (alter (set_user_list_next id) (last l) (fs_fund_by_id fs))
          (fs_fund_max_id fs) (fs_list_by_type fs)
          (<[(user_id i, t) := append_info l id (balance i)]> (fs_list_by_user fs))).
Proof.
  intros t l Hid Hprev Happ.
  unfold add_fund_to_user_list, update_user_list, mapper_update, bind, gets, modify.
  fold t l. unfold appendable in Happ.
  pose proof (append_info_not_default l id (balance i) Hid) as Hnd.
  unfold append_info in *. destruct (FundsListInfo_is_default l) eqn:Hl.
  - apply list_is_default in Hl. simpl. unfold fund_list_by_user_set.
    rewrite Hl in *. simpl in *. rewrite alter_null by done.
    unfold set_last, set_total_balance; simpl in *. rewrite Hnd.
    destruct i; simpl in *; by subst.
  - destruct Happ as (it & Hit & Hb).
    erewrite assign_fund_eq by (done || by destruct it). simpl.
    unfold fund_list_by_user_set, set_last, set_total_balance; simpl in *. by rewrite Hnd.
Qed.

(** ** Creating a fund *)

(** No bucket of type [t] is the stale one. *)
Definition hole_free (h : option N) (L : Ledger) (t : FundType) : Prop :=
  ∀ b, b ∈ L → type_key b = t → h ≠ Some (b_id b).

Lemma hole_free_None L t : hole_free None L t.
Proof. by intros ???. Qed.

Section RepFacts.
Context {h : option N} {fs : FundStore} {A : AFunds} (HR : RepX h fs A).

Lemma rep_no_null : fs_fund_by_id fs !! 0 = None.
Proof.
  apply (rep_none _ _ _ HR); [exact (proj2 (rep_ids _ _ _ HR))|].
  intros Hh. pose proof (rep_hole _ _ _ HR 0 Hh). lia.
Qed.

Lemma rep_nodup : NoDup (ids (af_ledger A)).
Proof. exact (proj1 (rep_ids _ _ _ HR)). Qed.

Lemma rep_fund_by_id b :
  b ∈ af_ledger A → h ≠ Some (b_id b) →
  fund_by_id (b_id b) fs = item_of (af_ledger A) b.
Proof. intros. unfold fund_by_id. by rewrite (rep_item _ _ _ HR). Qed.

Lemma rep_id_pos b : b ∈ af_ledger A → 0 < b_id b.
Proof.
  intros Hb%elem_of_ids_2. destruct (rep_ids _ _ _ HR) as [_ H0].
  destruct (N.eq_dec (b_id b) 0) as [E|]; [rewrite E in Hb; done|lia].
Qed.

Lemma rep_appendable {K} `{EqDecision K} (k : Bucket → K) κ :
  (∀ b, b ∈ af_ledger A → k b = κ → h ≠ Some (b_id b)) →
  appendable fs (info k κ (af_ledger A)).
Proof.
  intros Hh. unfold appendable. rewrite info_default_iff by apply HR.
  case_bool_decide as Hg; [by apply rep_no_null|].
  pose proof (ptr_list_grp k κ _ (rep_ids _ _ _ HR)) as [_ H0].
  assert (last0 (ids (grp k κ (af_ledger A))) ∈ ids (grp k κ (af_ledger A))) as Hl.
  { apply last0_elem. intros Hl%last0_0; [|done]. destruct Hg.
    unfold ids in Hl. by apply fmap_nil_inv in Hl. }
  apply elem_of_ids in Hl as (b & [Hk Hb]%elem_of_grp & Hid).
  exists (item_of (af_ledger A) b). simpl. rewrite <-Hid. split.
  - apply HR; auto.
  - by apply HR.
Qed.

Lemma rep_ptr_snoc n :
  b_id n = af_max A + 1 → ptr_list (ids (af_ledger A ++ [n])).
Proof.
  intros Hn. rewrite ids_snoc. destruct (rep_ids _ _ _ HR) as [Hnd H0]. split.
  - apply NoDup_app. split_and!; [done| |apply NoDup_singleton].
    intros i Hi Heq%list_elem_of_singleton. subst i.
    apply elem_of_ids in Hi as (b & Hb%(rep_le _ _ _ HR) & ?). lia.
  - rewrite elem_of_app, list_elem_of_singleton. intros [?|?]; [done|lia].
Qed.
End RepFacts.

Lemma alter_balance_pos {f : FundItem → FundItem} p fs q it :
  (∀ i, balance (f i) = balance i) →
  fs_fund_by_id fs !! q = Some it → 0 < balance it →
  ∃ it', alter f p (fs_fund_by_id fs) !! q = Some it' ∧ 0 < balance it'.
Proof.
  intros Hf Hq Hb. rewrite lookup_alter_at, Hq. simpl.
  case_decide; [exists (f it)|exists it]; rewrite ?Hf; done.
Qed.

(** The store after [create_fund]. *)
Definition created (fs : FundStore) (u : N) (d : FundDescription) (v : N) : FundStore :=
  let t := fund_type d in
  let n := fs_fund_max_id fs + 1 in
  let tl := fund_list_by_type t fs in
  let ul := fund_list_by_user u t fs in
  mk_FundStore
    (<[n := mk_FundItem d u v 0 (last tl) 0 (last ul)]>
      (alter (set_user_list_next n) (last ul)
        (alter (set_type_list_next n) (last tl) (fs_fund_by_id fs))))
    n
    (<[t := append_info tl n v]> (fs_list_by_type fs))
    (<[(u, t) := append_info ul n v]> (fs_list_by_user fs)).

Lemma create_fund_eq fs u d v :
  v ≠ 0 → fs_fund_max_id fs + 1 < usize_max_plus_1 →
  appendable fs (fund_list_by_type (fund_type d) fs) →
  appendable fs (fund_list_by_user u (fund_type d) fs) →
  create_fund u d v fs = Ok (tt, created fs u d v).
Proof.
  intros Hv Hmax Ht Hu. unfold create_fund.
  rewrite (proj2 (N.eqb_neq v 0)) by done.
  unfold bind at 1, gets at 1. cbn [fst]. unfold bind at 1, modify at 1.
  assert (usize_add (fs_fund_max_id fs) 1 = fs_fund_max_id fs + 1) as ->.
  { unfold usize_add. by apply N.mod_small. }
  set (n := fs_fund_max_id fs + 1). assert (n ≠ 0) by (unfold n; lia).
  unfold bind at 1. rewrite add_fund_to_type_list_eq by (simpl; done).
  unfold bind at 1. rewrite add_fund_to_user_list_eq.
  - unfold modify, created. do 2 f_equal. unfold fund_by_id_set; simpl.
    rewrite balance_not_default by (simpl; lia). done.
  - done.
  - done.
  - simpl. unfold fund_list_by_user; simpl. fold (fund_list_by_user u (fund_type d) fs).
    unfold appendable in *. simpl in *. case_match eqn:Hdef.
    + apply list_is_default in Hdef. rewrite lookup_alter_at, Hu. by case_decide.
    + destruct Hu as (it & ? & ?). by eapply alter_balance_pos.
Qed.

Lemma item_of_snoc h fs A n b :
  RepX h fs A → b_id n = af_max A + 1 → b ∈ af_ledger A →
  item_of (af_ledger A ++ [n]) b =
    (if decide (last0 (ids (grp user_key (user_key n) (af_ledger A))) = b_id b)
     then set_user_list_next (b_id n) else id)
    ((if decide (last0 (ids (grp type_key (type_key n) (af_ledger A))) = b_id b)
      then set_type_list_next (b_id n) else id) (item_of (af_ledger A) b)).
Proof.
  intros HR Hn Hb. pose proof (rep_ptr_snoc HR n Hn) as Hp. unfold item_of.
  rewrite !nxt_snoc, !prv_snoc by done. by repeat case_decide.
Qed.

Lemma created_rep h fs A u d v :
  RepX h fs A → v ≠ 0 → RepX h (created fs u d v) (l_create u d v A).
Proof.
  intros HR Hv. unfold l_create. rewrite (proj2 (N.eqb_neq v 0)) by done.
  set (n := mk_Bucket (af_max A + 1) u d v).
  pose proof (rep_ptr_snoc HR n eq_refl) as Hp.
  pose proof (rep_max _ _ _ HR) as Hm.
  unfold created. rewrite Hm, !(rep_type _ _ _ HR), !(rep_user _ _ _ HR).
  split; simpl.
  - done.
  - done.
  - intros b [Hb|Hb%list_elem_of_singleton]%elem_of_app; [|subst b; simpl; lia].
    pose proof (rep_le _ _ _ HR b Hb). lia.
  - intros b [Hb|Hb%list_elem_of_singleton]%elem_of_app; [by apply HR|subst b; simpl; lia].
  - intros i Hi%(rep_hole _ _ _ HR). lia.
  - intros b [Hb|Hb%list_elem_of_singleton]%elem_of_app Hh.
    + pose proof (rep_le _ _ _ HR b Hb).
      rewrite lookup_insert_ne by lia. rewrite !lookup_alter_at.
      rewrite (rep_item _ _ _ HR) by done. rewrite (item_of_snoc h fs A) by done.
      by repeat case_decide.
    + subst b. rewrite lookup_insert_eq. unfold item_of.
      by rewrite !nxt_snoc_new, !prv_snoc_new.
  - intros i Hi Hh. rewrite ids_snoc in Hi.
    rewrite lookup_insert_ne by (simpl in Hi; set_solver). rewrite !lookup_alter_at.
    rewrite (rep_none _ _ _ HR) by set_solver. by repeat case_decide.
  - intros t. unfold fund_list_by_type; simpl. rewrite lookup_insert.
    case_decide as Ht.
    + subst t. change (fund_type d) with (type_key n).
      rewrite info_snoc_eq by apply HR. unfold append_info. simpl.
      by rewrite info_default_iff by apply HR.
    + rewrite info_snoc_ne by done. apply (rep_type _ _ _ HR).
  - intros u' t. unfold fund_list_by_user; simpl. rewrite lookup_insert.
    case_decide as Ht.
    + rewrite <-Ht. change (u, fund_type d) with (user_key n).
      rewrite info_snoc_eq by apply HR. unfold append_info. simpl.
      by rewrite info_default_iff by apply HR.
    + rewrite info_snoc_ne by done. apply (rep_user _ _ _ HR).
Qed.

Lemma create_fund_rep h fs A u d v :
  RepX h fs A → v ≠ 0 → af_max A + 1 < usize_max_plus_1 →
  hole_free h (af_ledger A) (fund_type d) →
  ∃ fs', create_fund u d v fs = Ok (tt, fs') ∧ RepX h fs' (l_create u d v A).
Proof.
  intros HR Hv Hmax Hh. eexists. split; [apply create_fund_eq|by apply created_rep].
  - done.
  - by rewrite (rep_max _ _ _ HR).
  - rewrite (rep_type _ _ _ HR). by apply (rep_appendable HR).
  - rewrite (rep_user _ _ _ HR). apply (rep_appendable HR).
    unfold user_key. intros b Hb [= _ Ht]. by apply Hh.
Qed.

(** ** Stores up to cleared default entries *)

(** Two stores that answer every read alike. *)
Record store_equiv (fs fs' : FundStore) : Prop := {
  se_items : fs_fund_by_id fs = fs_fund_by_id fs';
  se_max : fs_fund_max_id fs = fs_fund_max_id fs';
  se_type t : fund_list_by_type t fs = fund_list_by_type t fs';
  se_user u t : fund_list_by_user u t fs = fund_list_by_user u t fs';
}.

#[export] Instance store_equiv_equivalence : Equivalence store_equiv.
Proof.
  split.
  - intros fs; by split.
  - intros fs fs' []; by split.
  - intros fs1 fs2 fs3 [] []; split; intros; etrans; eauto.
Qed.

#[export] Instance RepX_proper h :
  Proper (store_equiv ==> eq ==> iff) (RepX h).
Proof.
  assert (∀ fs fs' A, store_equiv fs fs' → RepX h fs A → RepX h fs' A) as Himp.
  { intros fs fs' A [Hi Hm Ht Hu] []. split; try done; intros;
      rewrite <-?Hi, <-?Hm, <-?Ht, <-?Hu; auto. }
  intros fs fs' Heq A ? <-. split; apply Himp; [done|by symmetry].
Qed.

Lemma fund_list_by_type_set_get t l fs t' :
  fund_list_by_type t' (fund_list_by_type_set t l fs) =
    if decide (t = t') then l else fund_list_by_type t' fs.
Proof.
  unfold fund_list_by_type, fund_list_by_type_set; simpl.
  destruct (FundsListInfo_is_default l) eqn:Hl.
  - rewrite lookup_delete. case_decide; [|done]. by apply list_is_default in Hl as ->.
  - rewrite lookup_insert. by case_decide.
Qed.

Lemma fund_list_by_user_set_get u t l fs u' t' :
  fund_list_by_user u' t' (fund_list_by_user_set u t l fs) =
    if decide ((u, t) = (u', t')) then l else fund_list_by_user u' t' fs.
Proof.
  unfold fund_list_by_user, fund_list_by_user_set; simpl.
  destruct (FundsListInfo_is_default l) eqn:Hl.
  - rewrite lookup_delete. case_decide; [|done]. by apply list_is_default in Hl as ->.
  - rewrite lookup_insert. by case_decide.
Qed.

Lemma type_get_user_set t u' t' l fs :
  fund_list_by_type t (fund_list_by_user_set u' t' l fs) = fund_list_by_type t fs.
Proof. done. Qed.
Lemma type_get_item_set t i it fs :
  fund_list_by_type t (fund_by_id_set i it fs) = fund_list_by_type t fs.
Proof. done. Qed.
Lemma user_get_type_set u t t' l fs :
  fund_list_by_user u t (fund_list_by_type_set t' l fs) = fund_list_by_user u t fs.
Proof. done. Qed.
Lemma user_get_item_set u t i it fs :
  fund_list_by_user u t (fund_by_id_set i it fs) = fund_list_by_user u t fs.
Proof. done. Qed.
Create Rewrite HintDb fund_store.
#[export] Hint Rewrite type_get_user_set type_get_item_set user_get_type_set
  user_get_item_set fund_list_by_type_set_get fund_list_by_user_set_get : fund_store.

Lemma fund_list_by_user_set_same u t fs :
  store_equiv (fund_list_by_user_set u t (fund_list_by_user u t fs) fs) fs.
Proof.
  split; [done..|]. intros. rewrite fund_list_by_user_set_get.
  case_decide as Heq; [|done]. by injection Heq as -> ->.
Qed.

Lemma fund_by_id_set_same i it fs :
  fs_fund_by_id fs !! i = Some it → 0 < balance it → fund_by_id_set i it fs = fs.
Proof.
  intros Hi Hb. unfold fund_by_id_set. rewrite balance_not_default by done.
  rewrite insert_id by done. by destruct fs.
Qed.

(** ** Changing the balance of a bucket *)

Lemma with_bal_id b : with_bal (b_bal b) b = b.
Proof. by destruct b. Qed.

Lemma item_of_set_bucket_bal d v L b v' :
  item_of (set_bucket_bal d v L) (with_bal v' b) = set_balance v' (item_of L b).
Proof.
  unfold item_of. by rewrite !nxt_set_bucket_bal, !prv_set_bucket_bal.
Qed.

(** [fs'] is [fs] with the balance of bucket [b] changed to [v] in both list
    headers and, unless [b] is stale in [h'], in the item. *)
Lemma set_bal_rep h h' fs fs' A b v :
  RepX h fs A → b ∈ af_ledger A → 0 < v →
  h' = h ∨ h' = Some (b_id b) ∧ h = None →
  fs_fund_max_id fs' = fs_fund_max_id fs →
  (∀ i, h' ≠ Some i → fs_fund_by_id fs' !! i =
     if decide (i = b_id b) then Some (set_balance v (item_of (af_ledger A) b))
     else fs_fund_by_id fs !! i) →
  (∀ t, fund_list_by_type t fs' =
     let l := fund_list_by_type t fs in
     if decide (type_key b = t) then set_total_balance (total_balance l - b_bal b + v) l
     else l) →
  (∀ u t, fund_list_by_user u t fs' =
     let l := fund_list_by_user u t fs in
     if decide (user_key b = (u, t)) then set_total_balance (total_balance l - b_bal b + v) l
     else l) →
  RepX h' fs' (l_set_bal (b_id b) v A).
Proof.
  intros HR Hb Hv Hh Hm Hitems Htype Huser. pose proof (rep_nodup HR) as Hnd.
  split; simpl; rewrite ?ids_set_bucket_bal.
  - apply HR.
  - rewrite Hm. apply HR.
  - intros c (c' & Hc' & ->)%elem_of_set_bucket_bal.
    case_decide; apply (rep_le _ _ _ HR c' Hc').
  - intros c (c' & Hc' & ->)%elem_of_set_bucket_bal.
    case_decide; [done|]. by apply HR.
  - intros i Hi. destruct Hh as [->|[-> ->]]; [by apply HR|].
    injection Hi as <-. split; [by apply (rep_id_pos HR)|by apply HR].
  - intros c (c' & Hc' & ->)%elem_of_set_bucket_bal Hne.
    rewrite Hitems by done. destruct (decide (b_id c' = b_id b)) as [Heq|Heq].
    + apply (ids_inj (af_ledger A)) in Heq as ->; [|done..].
      rewrite decide_True by done. by rewrite item_of_set_bucket_bal.
    + rewrite decide_False by done. rewrite (rep_item _ _ _ HR) by naive_solver.
      by rewrite <-(with_bal_id c') at 2; rewrite item_of_set_bucket_bal; destruct c'.
  - intros i Hi Hne. rewrite Hitems by done. rewrite decide_False.
    + apply (rep_none _ _ _ HR); naive_solver.
    + intros ->. apply Hi. by apply elem_of_ids_2.
  - intros t. rewrite Htype, info_set_bucket_bal; [|done|apply HR|done].
    by rewrite (rep_type _ _ _ HR).
  - intros u t. rewrite Huser, info_set_bucket_bal; [|done|apply HR|done].
    by rewrite (rep_user _ _ _ HR).
Qed.

(** ** Increasing a fund balance *)

Lemma coalesce_target_elem u d L b :
  coalesce_target u d L = Some b →
  allow_coalesce (fund_type d) = true ∧ b ∈ L ∧ b_user b = u ∧ b_desc b = d ∧
  last0 (ids (grp user_key (u, fund_type d) L)) = b_id b.
Proof.
  unfold coalesce_target, last_bucket. case_match; [|done].
  destruct (reverse (grp user_key (u, fund_type d) L)) as [|c l] eqn:Hr; [done|].
  simpl. case_decide as Hd; [|done]. intros [= <-].
  assert (c ∈ grp user_key (u, fund_type d) L) as [Hk Hc]%elem_of_grp.
  { apply elem_of_reverse. rewrite Hr. set_solver. }
  injection Hk as Hu Ht. split_and!; try done.
  unfold last0, ids. by rewrite <-fmap_reverse, Hr.
Qed.

(** Whether the last item of the user's list has the description. *)
Lemma coalesce_target_None u d L :
  allow_coalesce (fund_type d) = true → coalesce_target u d L = None →
  grp user_key (u, fund_type d) L = [] ∨
  ∃ b, b ∈ L ∧ b_desc b ≠ d ∧ user_key b = (u, fund_type d) ∧
       last0 (ids (grp user_key (u, fund_type d) L)) = b_id b.
Proof.
  unfold coalesce_target, last_bucket. intros ->.
  destruct (reverse (grp user_key (u, fund_type d) L)) as [|c l] eqn:Hr; simpl.
  - intros _. left. by rewrite <-(reverse_involutive (grp _ _ _)), Hr.
  - case_decide as Hd; [done|]. intros _. right. exists c.
    assert (c ∈ grp user_key (u, fund_type d) L) as [Hk Hc]%elem_of_grp.
    { apply elem_of_reverse. rewrite Hr. set_solver. }
    split_and!; try done. unfold last0, ids. by rewrite <-fmap_reverse, Hr.
Qed.

Lemma try_coalesce_None_rep h fs A u d v :
  RepX h fs A → hole_free h (af_ledger A) (fund_type d) →
  coalesce_target u d (af_ledger A) = None →
  ∃ fs', try_coalesce u d v fs = Ok (false, fs') ∧ RepX h fs' A.
Proof.
  intros HR Hh Hc. unfold try_coalesce.
  destruct (allow_coalesce (fund_type d)) eqn:Hall; [|by exists fs].
  exists (fund_list_by_user_set u (fund_type d) (fund_list_by_user u (fund_type d) fs) fs).
  split; [|by rewrite fund_list_by_user_set_same].
  unfold update_user_list, mapper_update, bind at 1, gets at 1.
  rewrite (rep_user _ _ _ HR), info_default_iff by apply HR.
  destruct (coalesce_target_None _ _ _ Hall Hc) as [Hg|(b & Hb & Hd & Hk & Hl)].
  { by rewrite Hg. }
  rewrite bool_decide_false; last first.
  { intros Hg. assert (b ∈ grp user_key (u, fund_type d) (af_ledger A)) as Hin
      by (by apply elem_of_grp). rewrite Hg in Hin. set_solver. }
  assert (h ≠ Some (b_id b)) by (injection Hk as _ ?; auto).
  simpl. unfold update_fund, mapper_update, bind, gets, modify, ret.
  cbn -[item_of]. rewrite Hl, (rep_fund_by_id HR) by done. rewrite decide_False by done.
  cbn -[item_of]. rewrite fund_by_id_set_same; [done|by apply HR|by apply HR].
Qed.

Lemma try_coalesce_Some_rep h fs A u d v b :
  RepX h fs A → hole_free h (af_ledger A) (fund_type d) → 0 < v →
  coalesce_target u d (af_ledger A) = Some b →
  ∃ fs', try_coalesce u d v fs = Ok (true, fs') ∧
         RepX h fs' (l_set_bal (b_id b) (b_bal b + v) A).
Proof.
  intros HR Hh Hv Hc.
  apply coalesce_target_elem in Hc as (Hall & Hb & Hu & Hd & Hl).
  assert (type_key b = fund_type d) as Hkt by (unfold type_key; by rewrite Hd).
  assert (user_key b = (u, fund_type d)) as Hku by (unfold user_key; by rewrite Hu, Hd).
  assert (h ≠ Some (b_id b)) as Hhb by auto.
  unfold try_coalesce. rewrite Hall.
  unfold update_user_list, mapper_update, bind at 1, gets at 1.
  rewrite (rep_user _ _ _ HR), info_default_iff by apply HR.
  rewrite bool_decide_false; last first.
  { intros Hg. assert (b ∈ grp user_key (u, fund_type d) (af_ledger A)) as Hin
      by (by apply elem_of_grp). rewrite Hg in Hin. set_solver. }
  simpl. unfold update_fund, update_type_list, mapper_update, bind, gets, modify, ret.
  cbn -[item_of]. rewrite Hl, (rep_fund_by_id HR), decide_True by done.
  cbn -[item_of]. eexists. split; [done|].
  eapply (set_bal_rep h h fs); [done|done|lia|by left|done| | |].
  - intros i Hi. simpl. rewrite balance_not_default by (simpl; lia).
    rewrite lookup_insert. by destruct (decide (b_id b = i)), (decide (i = b_id b)).
  - intros t. autorewrite with fund_store. change (fund_type (fund_desc _)) with (type_key b).
    case_decide as Ht; [|done]. subst t. rewrite (rep_type _ _ _ HR).
    pose proof (info_total_elem type_key b _ Hb). unfold set_total_balance; simpl in *.
    f_equal. lia.
  - intros u' t. autorewrite with fund_store. rewrite <-Hku.
    case_decide as Ht; [|done]. rewrite (rep_user _ _ _ HR), <-Ht.
    pose proof (info_total_elem user_key b _ Hb). unfold set_total_balance; simpl in *.
    f_equal. lia.
Qed.

Lemma increase_fund_balance_rep h fs A u d v :
  RepX h fs A → hole_free h (af_ledger A) (fund_type d) →
  af_max A + 1 < usize_max_plus_1 →
  ∃ fs', increase_fund_balance u d v fs = Ok (tt, fs') ∧ RepX h fs' (l_increase u d v A).
Proof.
  intros HR Hh Hmax. unfold increase_fund_balance, l_increase.
  destruct (N.eqb_spec v 0) as [->|Hv]; [by exists fs|].
  destruct (coalesce_target u d (af_ledger A)) as [b|] eqn:Hc.
  - destruct (try_coalesce_Some_rep h fs A u d v b) as (fs' & Heq & HR'); try done; [lia|].
    exists fs'. unfold bind. by rewrite Heq.
  - destruct (try_coalesce_None_rep h fs A u d v) as (fs1 & Heq & HR1); try done.
    destruct (create_fund_rep h fs1 A u d v) as (fs' & Heq' & HR'); try done.
    exists fs'. unfold bind. by rewrite Heq.
Qed.

(** ** Deleting a fund *)

(** A pointer that is null or leads to a stored item. *)
Definition ptr_ok (fs : FundStore) (p : N) : Prop :=
  p = 0 ∧ fs_fund_by_id fs !! 0 = None ∨
  p ≠ 0 ∧ ∃ it, fs_fund_by_id fs !! p = Some it ∧ 0 < balance it.

Lemma ptr_ok_alter fs p q f :
  (∀ i, balance (f i) = balance i) → ptr_ok fs p →
  ptr_ok (with_items (alter f q (fs_fund_by_id fs)) fs) p.
Proof.
  intros Hf [[-> Hp]|[? (it & Hp & Hb)]].
  - left. split; [done|]. simpl. rewrite lookup_alter_at, Hp. by case_decide.
  - right. split; [done|]. simpl. by eapply alter_balance_pos.
Qed.

Lemma assign_ptr_ok {X} fs p f (x y : X) :
  (∀ i, balance (f i) = balance i) → ptr_ok fs p →
  (if p =? 0 then ret x else assign_fund p f ;;; ret y) fs =
    Ok (if decide (p = 0) then x else y,
        with_items (alter f p (fs_fund_by_id fs)) fs).
Proof.
  intros Hf [[-> Hp]|[? (it & Hp & Hb)]].
  - simpl. rewrite alter_null by done. by rewrite with_items_id.
  - rewrite (proj2 (N.eqb_neq p 0)) by done. unfold bind.
    erewrite assign_fund_eq; [by rewrite decide_False|done|by rewrite Hf].
Qed.

Definition clear_type_ptrs (i : FundItem) : FundItem :=
  set_type_list_next 0 (set_type_list_prev 0 i).
Definition clear_user_ptrs (i : FundItem) : FundItem :=
  set_user_list_next 0 (set_user_list_prev 0 i).

Definition unlink_info (pv nx v : N) (l : FundsListInfo) : FundsListInfo :=
  mk_FundsListInfo (total_balance l - v)
    (if decide (pv = 0) then nx else first l) (if decide (nx = 0) then pv else last l).

Lemma delete_fund_from_type_list_eq fs i l :
  ptr_ok fs (type_list_prev i) → ptr_ok fs (type_list_next i) →
  delete_fund_from_type_list i l fs =
    Ok ((clear_type_ptrs i, unlink_info (type_list_prev i) (type_list_next i) 0 l),
        with_items
          (alter (set_type_list_prev (type_list_prev i)) (type_list_next i)
            (alter (set_type_list_next (type_list_next i)) (type_list_prev i)
              (fs_fund_by_id fs))) fs).
Proof.
  intros Hp Hn. unfold delete_fund_from_type_list.
  unfold bind at 1. rewrite assign_ptr_ok by done.
  unfold bind at 1. rewrite assign_ptr_ok by (done || by apply ptr_ok_alter).
  unfold ret, unlink_info. rewrite N.sub_0_r. by repeat case_decide; destruct l.
Qed.

Lemma delete_fund_from_user_list_eq fs i l :
  ptr_ok fs (user_list_prev i) → ptr_ok fs (user_list_next i) →
  delete_fund_from_user_list i l fs =
    Ok ((clear_user_ptrs i, unlink_info (user_list_prev i) (user_list_next i) 0 l),
        with_items
          (alter (set_user_list_prev (user_list_prev i)) (user_list_next i)
            (alter (set_user_list_next (user_list_next i)) (user_list_prev i)
              (fs_fund_by_id fs))) fs).
Proof.
  intros Hp Hn. unfold delete_fund_from_user_list.
  unfold bind at 1. rewrite assign_ptr_ok by done.
  unfold bind at 1. rewrite assign_ptr_ok by (done || by apply ptr_ok_alter).
  unfold ret, unlink_info. rewrite N.sub_0_r. by repeat case_decide; destruct l.
Qed.

(** The items after unlinking [i] from both of its lists. *)
Definition unlinked_items (i : FundItem) (m : gmap N FundItem) : gmap N FundItem :=
  alter (set_user_list_prev (user_list_prev i)) (user_list_next i)
    (alter (set_user_list_next (user_list_next i)) (user_list_prev i)
      (alter (set_type_list_prev (type_list_prev i)) (type_list_next i)
        (alter (set_type_list_next (type_list_next i)) (type_list_prev i) m))).

Definition deleted (fs : FundStore) (i : FundItem) : FundStore :=
  let t := fund_type (fund_desc i) in
  fund_list_by_user_set (user_id i) t
    (unlink_info (user_list_prev i) (user_list_next i) (balance i)
      (fund_list_by_user (user_id i) t fs))
    (fund_list_by_type_set t
      (unlink_info (type_list_prev i) (type_list_next i) (balance i)
        (fund_list_by_type t fs))
      (with_items (unlinked_items i (fs_fund_by_id fs)) fs)).

Definition dead_item (i : FundItem) : FundItem :=
  mk_FundItem (fund_desc i) (user_id i) 0 0 0 0 0.

Lemma delete_fund_eq fs i :
  let t := fund_type (fund_desc i) in
  balance i ≤ total_balance (fund_list_by_type t fs) →
  balance i ≤ total_balance (fund_list_by_user (user_id i) t fs) →
  ptr_ok fs (type_list_prev i) → ptr_ok fs (type_list_next i) →
  ptr_ok fs (user_list_prev i) → ptr_ok fs (user_list_next i) →
  delete_fund i fs = Ok ((balance i, dead_item i), deleted fs i).
Proof.
  intros t Ht Hu Htp Htn Hup Hun. unfold delete_fund, update_type_list, update_user_list.
  unfold mapper_update, big_sub. fold t.
  unfold bind at 1, bind at 1, gets at 1. unfold bind at 1.
  rewrite (proj2 (N.ltb_ge _ _)) by done.
  unfold bind at 1, ret at 1. rewrite delete_fund_from_type_list_eq by done.
  unfold bind at 1, modify at 1, ret at 1.
  change (fund_desc (clear_type_ptrs i)) with (fund_desc i).
  change (user_id (clear_type_ptrs i)) with (user_id i).
  change (balance (clear_type_ptrs i)) with (balance i).
  unfold bind at 1, bind at 1, gets at 1. unfold bind at 1. fold t.
  autorewrite with fund_store.
  change (fund_list_by_user (user_id i) t (with_items ?m fs))
    with (fund_list_by_user (user_id i) t fs).
  rewrite (proj2 (N.ltb_ge _ _)) by done. unfold bind at 1, ret at 1.
  rewrite delete_fund_from_user_list_eq by
    (apply (ptr_ok_alter (with_items _ _)), ptr_ok_alter; done).
  unfold bind, modify, ret, deleted. fold t. simpl.
  unfold unlink_info. rewrite !N.sub_0_r. done.
Qed.

Lemma rep_ptr_ok_nxt {K} `{EqDecision K} (k : Bucket → K) fs A b :
  Rep fs A → b ∈ af_ledger A → ptr_ok fs (nxt k (af_ledger A) b).
Proof.
  intros HR Hb. destruct (decide (nxt k (af_ledger A) b = 0)) as [H0|H0].
  - left. split; [done|]. apply (rep_no_null HR).
  - right. split; [done|]. apply nxt_elem_grp in H0 as (c & Hc & _ & <-).
    exists (item_of (af_ledger A) c). split; [by apply HR|by apply (rep_pos _ _ _ HR)].
Qed.

Lemma rep_ptr_ok_prv {K} `{EqDecision K} (k : Bucket → K) fs A b :
  Rep fs A → b ∈ af_ledger A → ptr_ok fs (prv k (af_ledger A) b).
Proof.
  intros HR Hb. destruct (decide (prv k (af_ledger A) b = 0)) as [H0|H0].
  - left. split; [done|]. apply (rep_no_null HR).
  - right. split; [done|]. apply prv_elem_grp in H0 as (c & Hc & _ & <-).
    exists (item_of (af_ledger A) c). split; [by apply HR|by apply (rep_pos _ _ _ HR)].
Qed.

Lemma unlinked_item_of fs A b c :
  Rep fs A → b ∈ af_ledger A → c ∈ af_ledger A → b_id c ≠ b_id b →
  unlinked_items (item_of (af_ledger A) b) (fs_fund_by_id fs) !! b_id c =
    Some (item_of (remove_bucket (b_id b) (af_ledger A)) c).
Proof.
  intros HR Hb Hc Hne. unfold unlinked_items. rewrite !lookup_alter_at.
  rewrite (rep_item _ _ _ HR) by done. unfold item_of; simpl.
  rewrite !nxt_remove, !prv_remove by (done || apply HR).
  by repeat case_decide.
Qed.

Lemma unlinked_item_none i j m : m !! j = None → unlinked_items i m !! j = None.
Proof.
  intros Hj. unfold unlinked_items. rewrite !lookup_alter_at, Hj.
  by repeat case_decide.
Qed.

Lemma unlink_info_eq {K} `{EqDecision K} (k : Bucket → K) L b :
  ptr_list (ids L) → b ∈ L →
  unlink_info (prv k L b) (nxt k L b) (b_bal b) (info k (k b) L) =
    info k (k b) (remove_bucket (b_id b) L).
Proof. intros. by rewrite info_remove_eq. Qed.

Lemma deleted_rep fs A b :
  Rep fs A → b ∈ af_ledger A →
  RepX (Some (b_id b)) (deleted fs (item_of (af_ledger A) b)) (l_remove (b_id b) A).
Proof.
  intros HR Hb. pose proof (rep_nodup HR) as Hnd.
  split; simpl; rewrite ?ids_filter_id.
  - apply ptr_list_remove, HR.
  - apply HR.
  - intros c [_ Hc]%elem_of_remove_bucket. by apply HR.
  - intros c [_ Hc]%elem_of_remove_bucket. by apply HR.
  - intros i [= <-]. split; [by apply (rep_id_pos HR)|by apply HR].
  - intros c [Hne Hc]%elem_of_remove_bucket _. by apply unlinked_item_of.
  - intros i Hi Hne. apply unlinked_item_none, HR; [|done].
    intros Hin. apply Hi, elem_of_remove_id. split; [congruence|done].
  - intros t. unfold deleted. autorewrite with fund_store.
    change (fund_type (fund_desc _)) with (type_key b). case_decide as Ht.
    + subst t. rewrite (rep_type _ _ _ HR).
      apply (unlink_info_eq type_key); [apply HR|done].
    + rewrite info_remove_ne by done. apply (rep_type _ _ _ HR).
  - intros u t. unfold deleted. autorewrite with fund_store. simpl.
    change (b_user b, fund_type (b_desc b)) with (user_key b). case_decide as Ht.
    + rewrite (rep_user _ _ _ HR), <-Ht. fold (user_key b).
      apply (unlink_info_eq user_key); [apply HR|done].
    + rewrite info_remove_ne by done. apply (rep_user _ _ _ HR).
Qed.

Lemma delete_fund_rep fs A b :
  Rep fs A → b ∈ af_ledger A →
  ∃ fs', delete_fund (item_of (af_ledger A) b) fs =
           Ok ((b_bal b, dead_item (item_of (af_ledger A) b)), fs') ∧
         RepX (Some (b_id b)) fs' (l_remove (b_id b) A).
Proof.
  intros HR Hb. eexists. split; [|by apply deleted_rep].
  apply delete_fund_eq.
  - rewrite (rep_type _ _ _ HR). by apply (info_total_elem type_key).
  - rewrite (rep_user _ _ _ HR). by apply (info_total_elem user_key).
  - by apply rep_ptr_ok_prv.
  - by apply rep_ptr_ok_nxt.
  - by apply rep_ptr_ok_prv.
  - by apply rep_ptr_ok_nxt.
Qed.

(** ** Decreasing a fund *)

(** The item that the closure holds after the store step, for a bucket whose
    new balance is [v] (0 for a deleted one). *)
Definition left_item (L : Ledger) (b : Bucket) (v : N) : FundItem :=
  if v =? 0 then dead_item (item_of L b) else set_balance v (item_of L b).

Definition l_decrease (b : Bucket) (amount : N) (A : AFunds) : AFunds :=
  if b_bal b <=? amount then l_remove (b_id b) A
  else l_set_bal (b_id b) (b_bal b - amount) A.

Lemma decrease_fund_balance_rep fs A b amount :
  Rep fs A → b ∈ af_ledger A →
  ∃ fs', decrease_fund_balance amount (item_of (af_ledger A) b) fs =
           Ok ((N.min amount (b_bal b), amount - b_bal b,
                left_item (af_ledger A) b (b_bal b - amount)), fs') ∧
         RepX (Some (b_id b)) fs' (l_decrease b amount A).
Proof.
  intros HR Hb. unfold decrease_fund_balance, l_decrease, left_item.
  change (balance (item_of _ b)) with (b_bal b).
  destruct (N.leb_spec (b_bal b) amount) as [Hle|Hlt].
  - destruct (delete_fund_rep fs A b HR Hb) as (fs' & Heq & HR').
    exists fs'. split; [|done]. unfold bind. rewrite Heq. unfold ret.
    rewrite N.min_r by done. replace (b_bal b - amount) with 0 by lia. done.
  - pose proof (info_total_elem type_key b _ Hb) as Ht.
    pose proof (info_total_elem user_key b _ Hb) as Hu.
    unfold update_type_list, update_user_list, mapper_update, big_sub.
    unfold bind at 1. rewrite (proj2 (N.ltb_ge _ _)) by lia.
    unfold ret at 1, bind at 1, bind at 1, gets at 1, bind at 1, bind at 1.
    rewrite (rep_type _ _ _ HR). change (fund_type _) with (type_key b).
    rewrite (proj2 (N.ltb_ge _ _)) by lia. cbn -[item_of info].
    unfold bind, modify, gets, ret. autorewrite with fund_store.
    rewrite (rep_user _ _ _ HR). change (user_key b) with (b_user b, type_key b) in Hu.
    rewrite (proj2 (N.ltb_ge _ _)) by (simpl in *; lia). cbn -[item_of].
    rewrite (proj2 (N.eqb_neq (b_bal b - amount) 0)) by lia. eexists. split.
    { rewrite N.min_l by lia. replace (amount - b_bal b) with 0 by lia. done. }
    eapply (set_bal_rep None _ fs); [done|done|lia|by right|done| | |].
    + intros i Hi. rewrite decide_False by congruence. done.
    + intros t. autorewrite with fund_store. case_decide as Hk; [|done]. subst t.
      rewrite (rep_type _ _ _ HR). unfold set_total_balance; simpl in *. f_equal. lia.
    + intros u t. autorewrite with fund_store. rewrite !(rep_user _ _ _ HR).
      change (user_id _) with (b_user b). change (user_key b) with (b_user b, type_key b).
      case_decide as Hk; [|done]. rewrite <-Hk.
      unfold set_total_balance; simpl in *. f_equal. lia.
Qed.

(** ** Writing the local copy back *)

Lemma close_hole i it fs A :
  RepX (Some i) fs A →
  i ∉ ids (af_ledger A) ∧ FundItem_is_default it = true ∨
  (∃ b, b ∈ af_ledger A ∧ b_id b = i ∧ it = item_of (af_ledger A) b) →
  Rep (fund_by_id_set i it fs) A.
Proof.
  intros HR Hit.
  assert (∀ j, fs_fund_by_id (fund_by_id_set i it fs) !! j =
    if decide (i = j) then if FundItem_is_default it then None else Some it
    else fs_fund_by_id fs !! j) as Hlk.
  { intros j. unfold fund_by_id_set; simpl.
    case_match; [rewrite lookup_delete|rewrite lookup_insert]; by case_decide. }
  split; try apply HR; try done.
  - intros b Hb _. rewrite Hlk. case_decide as Hi; [|apply HR; congruence].
    destruct Hit as [[Hn _]|(c & Hc & Hci & ->)].
    + destruct Hn. rewrite Hi. by apply elem_of_ids_2.
    + rewrite balance_not_default by (simpl; by apply HR). do 2 f_equal.
      apply (ids_inj (af_ledger A)); [apply HR|done|done|congruence].
  - intros j Hj _. rewrite Hlk. case_decide as Hi; [|apply HR; congruence].
    destruct Hit as [[_ ->]|(c & Hc & Hci & _)]; [done|].
    destruct Hj. rewrite <-Hi, <-Hci. by apply elem_of_ids_2.
Qed.

(** ** An increase leaves the groups of the other types alone *)

Lemma grp_l_increase {K} `{EqDecision K} (k : Bucket → K) κ u d v A :
  (∀ w b, k (with_bal w b) = k b) →
  (∀ b, type_key b = fund_type d → k b ≠ κ) →
  NoDup (ids (af_ledger A)) →
  grp k κ (af_ledger (l_increase u d v A)) = grp k κ (af_ledger A).
Proof.
  intros Hk Hne Hnd. unfold l_increase, l_create. case_match; [done|].
  destruct (coalesce_target u d (af_ledger A)) as [b|] eqn:Hc; simpl.
  - apply coalesce_target_elem in Hc as (_ & Hb & _ & Hd & _).
    rewrite grp_set_bucket_bal by done. apply set_bucket_bal_not_elem.
    rewrite elem_of_ids_grp by done. apply Hne. unfold type_key. by rewrite Hd.
  - rewrite grp_snoc, decide_False, app_nil_r; [done|]. by apply Hne.
Qed.

Lemma elem_of_l_increase u d v A c :
  NoDup (ids (af_ledger A)) → type_key c ≠ fund_type d →
  c ∈ af_ledger (l_increase u d v A) ↔ c ∈ af_ledger A.
Proof.
  intros Hnd Hc.
  assert (c ∈ grp type_key (type_key c) (af_ledger (l_increase u d v A)) ↔
          c ∈ grp type_key (type_key c) (af_ledger A)) as Heq.
  { rewrite grp_l_increase; [done|done| |done]. congruence. }
  rewrite !elem_of_grp in Heq. naive_solver.
Qed.

Lemma item_of_l_increase u d v A c :
  NoDup (ids (af_ledger A)) → type_key c ≠ fund_type d →
  item_of (af_ledger (l_increase u d v A)) c = item_of (af_ledger A) c.
Proof.
  intros Hnd Hc. unfold item_of, nxt, prv.
  rewrite !(grp_l_increase type_key) by (done || congruence).
  rewrite !(grp_l_increase user_key); [done|done| |done].
  unfold user_key. intros b Hb. unfold type_key in *. congruence.
Qed.

Lemma ids_l_increase u d v A i :
  i ∈ ids (af_ledger (l_increase u d v A)) → i ∈ ids (af_ledger A) ∨ i = af_max A + 1.
Proof.
  unfold l_increase, l_create. case_match; [tauto|]. case_match; simpl.
  - rewrite ids_set_bucket_bal. tauto.
  - rewrite ids_snoc, elem_of_app, list_elem_of_singleton. tauto.
Qed.

(** ** Converting one fund *)

(** Taking at most [om] out of a bucket ([None]: everything). *)
Definition l_extract (om : option N) (b : Bucket) (A : AFunds) : AFunds :=
  match om with
  | Some m => l_decrease b m A
  | None => l_remove (b_id b) A
  end.
Definition extracted (om : option N) (b : Bucket) : N :=
  match om with Some m => N.min m (b_bal b) | None => b_bal b end.
Definition remaining (om : option N) (b : Bucket) : option N :=
  match om with Some m => Some (m - b_bal b) | None => None end.
(** The balance that stays in the bucket. *)
Definition left_bal (om : option N) (b : Bucket) : N := b_bal b - extracted om b.

Definition l_convert (om : option N) (d : FundDescription) (b : Bucket) (A : AFunds)
    : AFunds :=
  l_increase (b_user b) d (extracted om b) (l_extract om b A).

Lemma left_item_user L b v : user_id (left_item L b v) = b_user b.
Proof. unfold left_item. by case_match. Qed.

Lemma l_extract_cases om b A :
  left_bal om b = 0 ∧ l_extract om b A = l_remove (b_id b) A ∨
  0 < left_bal om b ∧ l_extract om b A = l_set_bal (b_id b) (left_bal om b) A.
Proof.
  unfold left_bal, l_extract, extracted, l_decrease.
  destruct om as [m|]; [|left; split; [lia|done]].
  destruct (N.leb_spec (b_bal b) m); [left|right]; (split; [lia|]); [done|].
  by rewrite N.min_l by lia.
Qed.

Lemma nodup_l_extract om b A :
  NoDup (ids (af_ledger A)) → NoDup (ids (af_ledger (l_extract om b A))).
Proof.
  intros Hnd. destruct (l_extract_cases om b A) as [[_ ->]|[_ ->]]; simpl.
  - rewrite ids_filter_id. by apply NoDup_filter.
  - by rewrite ids_set_bucket_bal.
Qed.

Lemma convert_close fs A fs' om d b :
  Rep fs A → b ∈ af_ledger A → type_key b ≠ fund_type d →
  RepX (Some (b_id b)) fs' (l_convert om d b A) →
  Rep (fund_by_id_set (b_id b) (left_item (af_ledger A) b (left_bal om b)) fs')
      (l_convert om d b A).
Proof.
  intros HR Hb Hd HR'. apply close_hole; [done|].
  pose proof (nodup_l_extract om b A (rep_nodup HR)) as Hnd.
  unfold l_convert, left_item in *.
  destruct (l_extract_cases om b A) as [[Hl He]|[Hl He]].
  - left. rewrite Hl. split; [|done].
    intros [Hi|Hi]%ids_l_increase; rewrite He in Hi; simpl in Hi.
    + rewrite ids_filter_id in Hi. by apply elem_of_remove_id in Hi as [? _].
    + pose proof (rep_le _ _ _ HR b Hb). lia.
  - right. rewrite (proj2 (N.eqb_neq _ 0)) by lia.
    exists (with_bal (left_bal om b) b). split_and!; [|done|].
    + apply elem_of_l_increase; [done|done|]. rewrite He. simpl.
      apply elem_of_set_bucket_bal. exists b. by rewrite decide_True.
    + rewrite item_of_l_increase by done. rewrite He. simpl.
      by rewrite item_of_set_bucket_bal.
Qed.

Lemma hole_free_extract om b d A :
  NoDup (ids (af_ledger A)) → b ∈ af_ledger A → type_key b ≠ fund_type d →
  hole_free (Some (b_id b)) (af_ledger (l_extract om b A)) (fund_type d).
Proof.
  intros Hnd Hb Hd c Hc Hk [= Hid].
  destruct (l_extract_cases om b A) as [[_ He]|[_ He]]; rewrite He in Hc; simpl in Hc.
  - apply elem_of_remove_bucket in Hc as [? _]. congruence.
  - apply elem_of_set_bucket_bal in Hc as (c' & Hc' & ->). case_decide as Hid'.
    + rewrite (ids_inj _ c' b Hnd) in Hk by done. done.
    + congruence.
Qed.

(** The store part of an extraction, common to all conversions. *)
Lemma extract_rep fs A b om :
  Rep fs A → b ∈ af_ledger A →
  ∃ fs',
    match om with
    | Some m =>
        let! '(e, m', i) := decrease_fund_balance m (item_of (af_ledger A) b) in
        ret (e, Some m', i)
    | None =>
        let! '(e, i) := delete_fund (item_of (af_ledger A) b) in ret (e, None, i)
    end fs =
      Ok ((extracted om b, remaining om b, left_item (af_ledger A) b (left_bal om b)), fs') ∧
    RepX (Some (b_id b)) fs' (l_extract om b A).
Proof.
  intros HR Hb. destruct om as [m|]; simpl.
  - destruct (decrease_fund_balance_rep fs A b m HR Hb) as (fs' & Heq & HR').
    exists fs'. split; [|done]. unfold bind, ret. rewrite Heq.
    unfold left_bal; simpl. by replace (b_bal b - N.min m (b_bal b)) with (b_bal b - m) by lia.
  - destruct (delete_fund_rep fs A b HR Hb) as (fs' & Heq & HR').
    exists fs'. split; [|done]. unfold bind, ret. rewrite Heq.
    unfold left_item, left_bal; simpl. by rewrite N.sub_diag.
Qed.

Lemma af_max_l_extract om b A : af_max (l_extract om b A) = af_max A.
Proof. by destruct (l_extract_cases om b A) as [[_ ->]|[_ ->]]. Qed.

Lemma split_convert_individual_fund_rep fs A b om d :
  Rep fs A → b ∈ af_ledger A → type_key b ≠ fund_type d →
  af_max A + 1 < usize_max_plus_1 →
  ∃ fs' i,
    split_convert_individual_fund om d (item_of (af_ledger A) b) fs =
      Ok ((remaining om b, i), fs') ∧
    Rep (fund_by_id_set (b_id b) i fs') (l_convert om d b A).
Proof.
  intros HR Hb Hd Hmax. destruct (extract_rep fs A b om HR Hb) as (fs1 & Heq & HR1).
  destruct (increase_fund_balance_rep _ fs1 _ (b_user b) d (extracted om b) HR1)
    as (fs' & Heq' & HR').
  { apply hole_free_extract; [apply (rep_nodup HR)|done|done]. }
  { by rewrite af_max_l_extract. }
  exists fs', (left_item (af_ledger A) b (left_bal om b)). split.
  - unfold split_convert_individual_fund. unfold bind at 1. rewrite Heq.
    unfold bind, ret. by rewrite left_item_user, Heq'.
  - by eapply convert_close.
Qed.
