(* ===== verification/FundLoops.v ===== *)
(** * The fund store refines the ledger: the loops

    Every loop of the fund module walks one linked list while converting or
    deleting the items it visits.  On the ledger the walk is a fold over the
    buckets of the list as it was when the loop started, cut off when the
    maximum amount is drained or when the caller interrupts.  The theorems show
    that the loops run without error, within their bound, and implement it. *)
From stdpp Require Import base numbers list gmap sets strings sorting.
From S2P Require Import Prelude PtrList FundTypes FundModule FundLedger FundRep.

(** ** Walking a group of the ledger *)

(** A group in the order in which a loop visits it. *)
Definition dgrp {K} `{EqDecision K} (dir : SwapDirection) (k : Bucket → K) (κ : K)
    (L : Ledger) : Ledger :=
  match dir with
  | Forwards => grp k κ L
  | Backwards => reverse (grp k κ L)
  end.

Definition dptr {K} `{EqDecision K} (dir : SwapDirection) (k : Bucket → K)
    (L : Ledger) (b : Bucket) : N :=
  match dir with
  | Forwards => nxt k L b
  | Backwards => prv k L b
  end.

Section Walk.
Context {K : Type} `{EqDecision K} (k : Bucket → K).

Lemma elem_of_dgrp dir κ L b : b ∈ dgrp dir k κ L ↔ k b = κ ∧ b ∈ L.
Proof. destruct dir; simpl; rewrite ?elem_of_reverse; apply elem_of_grp. Qed.

Lemma ids_dgrp dir κ L :
  ids (dgrp dir k κ L) =
    match dir with
    | Forwards => ids (grp k κ L)
    | Backwards => reverse (ids (grp k κ L))
    end.
Proof. destruct dir; [done|]. apply fmap_reverse. Qed.

Lemma nodup_dgrp dir κ L : NoDup (ids L) → NoDup (ids (dgrp dir k κ L)).
Proof.
  intros Hnd%(nodup_grp k κ). rewrite ids_dgrp.
  destruct dir; [done|]. by rewrite reverse_Permutation.
Qed.

(** The pointer of a visited bucket leads to the next one of the walk. *)
Lemma dptr_walk dir κ L pre b bs :
  NoDup (ids L) → dgrp dir k κ L = pre ++ b :: bs →
  dptr dir k L b = head0 (ids bs).
Proof.
  intros Hnd Heq.
  assert (k b = κ) as Hk.
  { eapply elem_of_dgrp. rewrite Heq. set_solver. }
  pose proof (nodup_dgrp dir κ L Hnd) as Hnd'. rewrite Heq in Hnd'.
  assert (dptr dir k L b = next_of (ids (dgrp dir k κ L)) (b_id b)) as ->.
  { rewrite ids_dgrp. unfold dptr, nxt, prv. rewrite Hk. by destruct dir. }
  rewrite Heq. unfold ids in *. rewrite fmap_app, fmap_cons in *.
  apply next_of_split. apply NoDup_app in Hnd' as (_ & Hd & _).
  intros Hin. apply (Hd _ Hin). set_solver.
Qed.

Lemma remove_bucket_app d L1 L2 :
  remove_bucket d (L1 ++ L2) = remove_bucket d L1 ++ remove_bucket d L2.
Proof. apply filter_app. Qed.

Lemma dgrp_remove dir κ d L :
  dgrp dir k κ (remove_bucket d L) = remove_bucket d (dgrp dir k κ L).
Proof.
  destruct dir; simpl; rewrite grp_remove; [done|]. symmetry. apply filter_reverse.
Qed.

Hypothesis k_with_bal : ∀ v b, k (with_bal v b) = k b.

Lemma dgrp_set_bal dir κ d v L :
  dgrp dir k κ (set_bucket_bal d v L) = set_bucket_bal d v (dgrp dir k κ L).
Proof.
  destruct dir; simpl; rewrite grp_set_bucket_bal by done; [done|].
  symmetry. apply fmap_reverse.
Qed.

(** After an extraction the rest of the walk is still there. *)
Lemma walk_extract dir κ A pre b bs om :
  NoDup (ids (af_ledger A)) → dgrp dir k κ (af_ledger A) = pre ++ b :: bs →
  ∃ pre', dgrp dir k κ (af_ledger (l_extract om b A)) = pre' ++ bs.
Proof.
  intros Hnd Heq. pose proof (nodup_dgrp dir κ _ Hnd) as Hg.
  rewrite Heq, ids_app in Hg. apply NoDup_app in Hg as (_ & Hd & Hg).
  unfold ids in Hg; simpl in Hg. apply NoDup_cons in Hg as [Hbs _].
  assert (b_id b ∉ ids pre) as Hpre.
  { intros Hin. apply (Hd _ Hin). unfold ids. set_solver. }
  destruct (l_extract_cases om b A) as [[_ ->]|[_ ->]]; simpl.
  - exists pre. rewrite dgrp_remove, Heq, remove_bucket_app.
    rewrite (remove_bucket_not_elem _ pre) by done. unfold remove_bucket.
    rewrite filter_cons_False by naive_solver. f_equal.
    by apply remove_bucket_not_elem.
  - exists (pre ++ [with_bal (left_bal om b) b]).
    rewrite dgrp_set_bal, Heq. unfold set_bucket_bal.
    rewrite fmap_app, fmap_cons, decide_True by done.
    fold (set_bucket_bal (b_id b) (left_bal om b) pre).
    fold (set_bucket_bal (b_id b) (left_bal om b) bs).
    rewrite !set_bucket_bal_not_elem by done. by rewrite <-(assoc_L (++)).
Qed.

Lemma walk_convert dir κ A pre b bs om d :
  NoDup (ids (af_ledger A)) → dgrp dir k κ (af_ledger A) = pre ++ b :: bs →
  (∀ c, type_key c = fund_type d → k c ≠ κ) →
  ∃ pre', dgrp dir k κ (af_ledger (l_convert om d b A)) = pre' ++ bs.
Proof.
  intros Hnd Heq Hd. destruct (walk_extract dir κ A pre b bs om Hnd Heq) as [pre' Hp].
  exists pre'. rewrite <-Hp. unfold l_convert.
  pose proof (nodup_l_extract om b A Hnd).
  destruct dir; simpl; by rewrite grp_l_increase.
Qed.
End Walk.

(** ** Folds on the ledger *)

(** The buckets that a loop with maximum [om] looks at, in order. *)
Fixpoint visited (f : Bucket → option FundDescription) (om : option N)
    (bs : list Bucket) : list Bucket :=
  match bs with
  | [] => []
  | b :: bs =>
      if drained om then [] else
      b :: visited f (match f b with Some _ => remaining om b | None => om end) bs
  end.

(** Converting all of [bs], one after the other. *)
Fixpoint l_convert_all (f : Bucket → option FundDescription) (om : option N)
    (bs : list Bucket) (A : AFunds) : option N * AFunds :=
  match bs with
  | [] => (om, A)
  | b :: bs =>
      match f b with
      | Some d => l_convert_all f (remaining om b) bs (l_convert om d b A)
      | None => l_convert_all f om bs A
      end
  end.

(** What remains of the maximum does not depend on the ledger. *)
Fixpoint l_remaining_all (f : Bucket → option FundDescription) (om : option N)
    (bs : list Bucket) : option N :=
  match bs with
  | [] => om
  | b :: bs =>
      l_remaining_all f (match f b with Some _ => remaining om b | None => om end) bs
  end.

Lemma l_convert_all_fst f om bs A :
  fst (l_convert_all f om bs A) = l_remaining_all f om bs.
Proof. revert om A. induction bs as [|b bs IH]; intros; simpl; [done|]. by case_match. Qed.

Definition l_remove_all (bs : list Bucket) (A : AFunds) : AFunds :=
  foldl (λ A b, l_remove (b_id b) A) A bs.

Fixpoint l_extracted_all (f : Bucket → option FundDescription) (om : option N)
    (bs : list Bucket) : N :=
  match bs with
  | [] => 0
  | b :: bs =>
      match f b with
      | Some d => extracted om b + l_extracted_all f (remaining om b) bs
      | None => l_extracted_all f om bs
      end
  end.

Lemma rep_length fs A : Rep fs A → (length (af_ledger A) ≤ size (fs_fund_by_id fs))%nat.
Proof.
  intros HR. rewrite <-size_dom, <-(length_fmap b_id).
  rewrite <-(size_list_to_set (C:=gset N)) by apply (rep_nodup HR).
  apply subseteq_size. intros i Hi%elem_of_list_to_set.
  apply elem_of_ids in Hi as (b & Hb & <-). apply elem_of_dom.
  rewrite (rep_item _ _ _ HR) by done. eauto.
Qed.

Lemma dgrp_length {K} `{EqDecision K} dir (k : Bucket → K) κ L :
  (length (dgrp dir k κ L) ≤ length L)%nat.
Proof. destruct dir; simpl; rewrite ?length_reverse; apply length_filter. Qed.

Lemma af_max_l_convert om d b A : af_max (l_convert om d b A) ≤ af_max A + 1.
Proof.
  unfold l_convert, l_increase, l_create.
  repeat case_match; simpl; rewrite af_max_l_extract; lia.
Qed.

(** ** The loops

    [P] is what the caller keeps true of the rest of the storage, whatever the
    fund store holds; [stops] is the condition under which an interrupt may
    stop a loop ([False] for loops that are never interrupted). *)
Section LoopSpecs.
Context {S : Type} `{Lens S FundStore} (P : S → Prop) (stops : Prop).
Hypothesis P_funds : ∀ fs s, P s → P (lens_set fs s).

(** Running [m] with result [a], leaving the fund store alone. *)
Definition returns {A} (m : M S A) (s : S) (Q : A → Prop) : Prop :=
  runs m s (λ a s', Q a ∧ P s' ∧ (lens_get s' : FundStore) = lens_get s).

Variable interrupt : M S bool.
Hypothesis interrupt_ok : ∀ s, P s → returns interrupt s (λ stop, stop = true → stops).

Definition funds (s : S) : FundStore := lens_get s.

Lemma zoom_gets {A} (g : FundStore → A) s : zoom (gets g) s = Ok (g (funds s), s).
Proof. unfold zoom, gets. by rewrite lens_set_get. Qed.

Lemma zoom_ok {A} (m : M FundStore A) s a fs :
  m (funds s) = Ok (a, fs) → zoom m s = Ok (a, lens_set fs s).
Proof. unfold zoom, funds. by intros ->. Qed.

Lemma zoom_modify (g : FundStore → FundStore) s :
  zoom (modify g) s = Ok (tt, lens_set (g (funds s)) s).
Proof. done. Qed.

Section ByType.
Variable dir : SwapDirection.
Variable t : FundType.
Variable filter_transform : FundItem → M S (option FundDescription).
Variable f : Bucket → option FundDescription.
Hypothesis filter_ok : ∀ s A b, P s → Rep (funds s) A → b ∈ af_ledger A →
  returns (filter_transform (item_of (af_ledger A) b)) s (λ o, o = f b).
Hypothesis target_ok : ∀ b d, f b = Some d → fund_type d ≠ t.

Lemma type_list_step_item L b :
  type_list_step dir (item_of L b) = dptr dir type_key L b.
Proof. by destruct dir. Qed.

(** One visit of the loop: the new state represents the converted ledger. *)
Lemma visit_rep s A b om aff :
  P s → Rep (funds s) A → b ∈ af_ledger A → type_key b = t →
  af_max A + 1 < usize_max_plus_1 → N.of_nat (length aff) < MAX_AFFECTED_USERS →
  runs (update_fund_in (b_id b) (λ fund_item,
          let! affected_users :=
            match try_push aff (user_id fund_item) with
            | Some v => ret v
            | None => sc_panic "affected user capacity exceeded"
            end in
          let next_id := type_list_step dir fund_item in
          let! opt_transformed := filter_transform fund_item in
          match opt_transformed with
          | Some transformed =>
              let! '(opt_max_amount, fund_item) :=
                zoom (split_convert_individual_fund om transformed fund_item) in
              ret ((next_id, opt_max_amount, affected_users), fund_item)
          | None => ret ((next_id, om, affected_users), fund_item)
          end)) s (λ r s',
    r = (dptr dir type_key (af_ledger A) b,
         match f b with Some _ => remaining om b | None => om end,
         aff ++ [b_user b]) ∧
    P s' ∧
    Rep (funds s') (match f b with Some d => l_convert om d b A | None => A end)).
Proof.
  intros HP HR Hb Ht Hmax Haff. unfold update_fund_in, mapper_update.
  apply runs_bind. eapply runs_eq; [apply zoom_gets|].
  rewrite (rep_fund_by_id HR) by done. apply runs_bind.
  unfold try_push. rewrite (proj2 (N.ltb_lt _ _)) by done.
  apply runs_bind, runs_ret, runs_bind.
  eapply runs_mono; [by apply filter_ok|]. intros o s1 (-> & HP1 & Hf1). cbv beta.
  rewrite type_list_step_item.
  assert (Rep (funds s1) A) as HR1 by (unfold funds; by rewrite Hf1).
  destruct (f b) as [d|] eqn:Hfb.
  - destruct (split_convert_individual_fund_rep (funds s1) A b om d)
      as (fs2 & i & Heq & HR2); [done|done| |done|].
    { rewrite Ht. intros Hd. by apply (target_ok b d). }
    apply runs_bind. eapply runs_eq; [by apply zoom_ok|].
    apply runs_ret, runs_bind. eapply runs_eq; [apply zoom_modify|].
    apply runs_ret. split_and!; [done|by apply P_funds, P_funds|].
    unfold funds. by rewrite !lens_get_set.
  - apply runs_ret, runs_bind. eapply runs_eq; [apply zoom_modify|].
    apply runs_ret. split_and!; [done|by apply P_funds|].
    unfold funds in *. rewrite lens_get_set, fund_by_id_set_same; [done| |].
    + by apply HR1.
    + by apply HR1.
Qed.

Lemma head0_ids_pos fs A pre b bs :
  Rep fs A → dgrp dir type_key t (af_ledger A) = pre ++ b :: bs →
  b ∈ af_ledger A ∧ type_key b = t ∧ 0 < b_id b.
Proof.
  intros HR Heq. assert (b ∈ dgrp dir type_key t (af_ledger A)) as [? ?]%elem_of_dgrp
    by (rewrite Heq; set_solver).
  split_and!; [done|done|by apply (rep_id_pos HR)].
Qed.

(** The one error of a loop: the vector of affected users is full. *)
Definition too_many_affected (n : nat) (e : Error) : Prop :=
  e = Panic "affected user capacity exceeded" ∧ MAX_AFFECTED_USERS < N.of_nat n.

Lemma visit_full s A b aff :
  Rep (funds s) A → b ∈ af_ledger A → MAX_AFFECTED_USERS ≤ N.of_nat (length aff) →
  ∀ (k : AffectedUserIdVec → FundItem → M S (N * option N * AffectedUserIdVec * FundItem)),
  update_fund_in (b_id b) (λ fund_item,
    let! affected_users :=
      match try_push aff (user_id fund_item) with
      | Some v => ret v
      | None => sc_panic "affected user capacity exceeded"
      end in
    k affected_users fund_item) s = Err (Panic "affected user capacity exceeded").
Proof.
  intros HR Hb Haff k. unfold update_fund_in, mapper_update. unfold bind at 1.
  rewrite zoom_gets. unfold try_push. rewrite (proj2 (N.ltb_ge _ _)) by done. done.
Qed.

Lemma by_type_loop_outcome bs : ∀ fuel s A pre om aff,
  P s → Rep (funds s) A → dgrp dir type_key t (af_ledger A) = pre ++ bs →
  (length bs < fuel)%nat → af_max A + N.of_nat (length bs) < usize_max_plus_1 →
  outcome (split_convert_max_by_type_loop dir filter_transform interrupt false fuel
             (head0 (ids bs)) om aff) s
    (too_many_affected (length aff + length (visited f om bs)))
    (λ r s', ∃ vs,
      vs `prefix_of` visited f om bs ∧ (vs = visited f om bs ∨ stops) ∧
      r = (aff ++ (b_user <$> vs), fst (l_convert_all f om vs A)) ∧
      P s' ∧ Rep (funds s') (snd (l_convert_all f om vs A))).
Proof.
  induction bs as [|b bs IH]; intros fuel s A pre om aff HP HR Hg Hfuel Hmax;
    (destruct fuel as [|fuel]; [simpl in Hfuel; lia|]); simpl.
  { apply runs_outcome, runs_ret. exists []. rewrite app_nil_r. by split_and!; try left. }
  destruct (head0_ids_pos _ _ _ _ _ HR Hg) as (Hb & Ht & Hpos).
  rewrite (proj2 (N.ltb_lt 0 (b_id b))) by done. simpl.
  apply outcome_bind, runs_outcome. eapply runs_mono; [by apply interrupt_ok|].
  intros stop s1 (Hstop & HP1 & Hf1). cbv beta.
  assert (Rep (funds s1) A) as HR1 by (unfold funds; by rewrite Hf1).
  destruct stop.
  { apply runs_outcome, runs_ret. exists []. rewrite app_nil_r.
    split_and!; [by apply prefix_nil|right; by apply Hstop|done..]. }
  destruct (drained om) eqn:Hdr.
  { apply runs_outcome, runs_ret. exists []. rewrite app_nil_r. by split_and!; try left. }
  simpl in Hfuel, Hmax. apply outcome_bind.
  destruct (N.lt_ge_cases (N.of_nat (length aff)) MAX_AFFECTED_USERS) as [Haff|Hfull].
  2: { unfold outcome. rewrite (visit_full s1 A b aff) by done.
       split; [done|]. simpl. lia. }
  apply runs_outcome. eapply runs_mono.
  { apply (visit_rep s1 A b om aff); try done; lia. }
  intros r s2 (-> & HP2 & HR2). cbv beta iota.
  rewrite (dptr_walk type_key dir t _ pre b bs) by (done || apply (rep_nodup HR)).
  assert (∃ pre', dgrp dir type_key t (af_ledger
    match f b with Some d => l_convert om d b A | None => A end) = pre' ++ bs)
    as [pre' Hg'].
  { destruct (f b) as [d|] eqn:Hfb.
    - eapply walk_convert; [done|apply (rep_nodup HR)|done|].
      intros c -> Hc. by apply (target_ok b d).
    - exists (pre ++ [b]). by rewrite <-(assoc_L (++)). }
  eapply outcome_mono; [eapply (IH fuel s2); [done|done|done|lia|]| |].
  { destruct (f b) as [d|]; [|lia]. pose proof (af_max_l_convert om d b A). lia. }
  { intros e [-> He]. split; [done|]. rewrite length_app in He. simpl in *. lia. }
  intros r s' (vs & Hvs & Hst & -> & HP' & HR'). exists (b :: vs).
  rewrite fmap_cons, <-(assoc_L (++)). simpl.
  split_and!; [by apply prefix_cons|destruct Hst; [left; by f_equal|by right]| |done|].
  - by destruct (f b).
  - by destruct (f b).
Qed.

(** The whole loop, from the stored list header. *)
Lemma split_convert_max_by_type_outcome s A om :
  let bs := dgrp dir type_key t (af_ledger A) in
  P s → Rep (funds s) A →
  af_max A + N.of_nat (length bs) < usize_max_plus_1 →
  outcome (split_convert_max_by_type om t dir filter_transform interrupt false) s
    (too_many_affected (length (visited f om bs)))
    (λ r s', ∃ vs,
      vs `prefix_of` visited f om bs ∧ (vs = visited f om bs ∨ stops) ∧
      r = (affected_users_sort_dedup (b_user <$> vs), fst (l_convert_all f om vs A)) ∧
      P s' ∧ Rep (funds s') (snd (l_convert_all f om vs A))).
Proof.
  intros bs HP HR Hmax. unfold split_convert_max_by_type.
  apply outcome_bind, runs_outcome. eapply runs_eq; [apply zoom_gets|].
  apply outcome_bind, runs_outcome. eapply runs_eq; [apply zoom_gets|].
  assert (first_id_of_type t dir (funds s) = head0 (ids bs)) as ->.
  { unfold first_id_of_type. rewrite (rep_type _ _ _ HR).
    unfold bs. rewrite ids_dgrp. by destruct dir. }
  apply outcome_bind. eapply outcome_mono; [|by intros e He; exact He|].
  { apply (by_type_loop_outcome bs (loop_fuel (funds s)) s A []); try done.
    unfold loop_fuel. pose proof (rep_length _ _ HR).
    pose proof (dgrp_length dir type_key t (af_ledger A)). unfold bs. lia. }
  intros r s' (vs & ? & ? & -> & ? & ?). apply runs_outcome, runs_ret. by exists vs.
Qed.

Lemma split_convert_max_by_type_rep s A om :
  let bs := dgrp dir type_key t (af_ledger A) in
  P s → Rep (funds s) A →
  af_max A + N.of_nat (length bs) < usize_max_plus_1 →
  N.of_nat (length (visited f om bs)) ≤ MAX_AFFECTED_USERS →
  runs (split_convert_max_by_type om t dir filter_transform interrupt false) s
    (λ r s', ∃ vs,
      vs `prefix_of` visited f om bs ∧ (vs = visited f om bs ∨ stops) ∧
      r = (affected_users_sort_dedup (b_user <$> vs), fst (l_convert_all f om vs A)) ∧
      P s' ∧ Rep (funds s') (snd (l_convert_all f om vs A))).
Proof.
  intros bs HP HR Hmax Haff. apply outcome_runs.
  eapply outcome_mono; [by apply split_convert_max_by_type_outcome| |done].
  intros e [_ ?]. unfold bs in *. lia.
Qed.

(** The dry run: the same visits and the same rest, but no conversion. *)
Lemma decrease_max_amount_item L b om :
  decrease_max_amount om (item_of L b) = remaining om b.
Proof.
  destruct om as [m|]; simpl; [|done].
  destruct (N.leb_spec m (b_bal b)); f_equal; lia.
Qed.

Lemma dry_visit_rep s A b om aff :
  P s → Rep (funds s) A → b ∈ af_ledger A →
  N.of_nat (length aff) < MAX_AFFECTED_USERS →
  runs (update_fund_in (b_id b) (λ fund_item,
          let! affected_users :=
            match try_push aff (user_id fund_item) with
            | Some v => ret v
            | None => sc_panic "affected user capacity exceeded"
            end in
          let next_id := type_list_step dir fund_item in
          let! opt_transformed := filter_transform fund_item in
          match opt_transformed with
          | Some _ =>
              ret ((next_id, decrease_max_amount om fund_item, affected_users),
                   fund_item)
          | None => ret ((next_id, om, affected_users), fund_item)
          end)) s (λ r s',
    r = (dptr dir type_key (af_ledger A) b,
         match f b with Some _ => remaining om b | None => om end,
         aff ++ [b_user b]) ∧ P s' ∧ funds s' = funds s).
Proof.
  intros HP HR Hb Haff. unfold update_fund_in, mapper_update.
  apply runs_bind. eapply runs_eq; [apply zoom_gets|].
  rewrite (rep_fund_by_id HR) by done. apply runs_bind.
  unfold try_push. rewrite (proj2 (N.ltb_lt _ _)) by done.
  apply runs_bind, runs_ret, runs_bind.
  eapply runs_mono; [by apply filter_ok|]. intros o s1 (-> & HP1 & Hf1). cbv beta.
  rewrite type_list_step_item, decrease_max_amount_item.
  apply (runs_mono _ _ (λ r s', r = (dptr dir type_key (af_ledger A) b,
         match f b with Some _ => remaining om b | None => om end,
         aff ++ [b_user b], item_of (af_ledger A) b) ∧ s' = s1)).
  { by destruct (f b); apply runs_ret. }
  intros r s2 [-> ->]. cbv beta iota. apply runs_bind. eapply runs_eq; [apply zoom_modify|].
  apply runs_ret. split_and!; [done|by apply P_funds|].
  unfold funds in *. rewrite lens_get_set, Hf1. apply fund_by_id_set_same; by apply HR.
Qed.

Lemma dry_loop_outcome bs : ∀ fuel s A pre om aff,
  P s → Rep (funds s) A → dgrp dir type_key t (af_ledger A) = pre ++ bs →
  (length bs < fuel)%nat →
  outcome (split_convert_max_by_type_loop dir filter_transform interrupt true fuel
          (head0 (ids bs)) om aff) s
    (too_many_affected (length aff + length (visited f om bs))) (λ r s', ∃ vs,
    vs `prefix_of` visited f om bs ∧ (vs = visited f om bs ∨ stops) ∧
    r = (aff ++ (b_user <$> vs), l_remaining_all f om vs) ∧
    P s' ∧ funds s' = funds s).
Proof.
  induction bs as [|b bs IH]; intros fuel s A pre om aff HP HR Hg Hfuel;
    (destruct fuel as [|fuel]; [simpl in Hfuel; lia|]); simpl.
  { apply outcome_ret. exists []. rewrite app_nil_r. by split_and!; try left. }
  destruct (head0_ids_pos _ _ _ _ _ HR Hg) as (Hb & Ht & Hpos).
  rewrite (proj2 (N.ltb_lt 0 (b_id b))) by done. simpl.
  eapply outcome_after; [by apply interrupt_ok|].
  intros stop s1 (Hstop & HP1 & Hf1). cbv beta.
  assert (Rep (funds s1) A) as HR1 by (unfold funds; by rewrite Hf1).
  destruct stop.
  { apply outcome_ret. exists []. rewrite app_nil_r.
    split_and!; [by apply prefix_nil|right; by apply Hstop|done..]. }
  destruct (drained om) eqn:Hdr.
  { apply outcome_ret. exists []. rewrite app_nil_r. by split_and!; try left. }
  simpl in Hfuel.
  destruct (N.lt_ge_cases (N.of_nat (length aff)) MAX_AFFECTED_USERS) as [Haff|Hfull].
  2: { apply outcome_bind. unfold outcome. rewrite (visit_full s1 A b aff) by done.
       split; [done|]. simpl. lia. }
  eapply outcome_after; [by apply (dry_visit_rep s1 A b om aff)|].
  intros r s2 (-> & HP2 & Hf2). cbv beta iota.
  rewrite (dptr_walk type_key dir t _ pre b bs) by (done || apply (rep_nodup HR)).
  eapply outcome_mono; [eapply (IH fuel s2 A (pre ++ [b]));
    [done|by rewrite Hf2|by rewrite <-(assoc_L (++))|lia]| |].
  { intros e [-> He]. split; [done|]. rewrite length_app in He. simpl in *. lia. }
  intros r s' (vs & Hvs & Hst & -> & HP' & Hf'). exists (b :: vs).
  rewrite fmap_cons, <-(assoc_L (++)). simpl.
  split_and!; [by apply prefix_cons|destruct Hst; [left; by f_equal|by right]|done|done|].
  rewrite Hf', Hf2. done.
Qed.

Lemma dry_run_outcome s A om :
  let bs := dgrp dir type_key t (af_ledger A) in
  P s → Rep (funds s) A →
  outcome (split_convert_max_by_type om t dir filter_transform interrupt true) s
    (too_many_affected (length (visited f om bs)))
    (λ r s', ∃ vs,
      vs `prefix_of` visited f om bs ∧ (vs = visited f om bs ∨ stops) ∧
      r = (affected_users_sort_dedup (b_user <$> vs), l_remaining_all f om vs) ∧
      P s' ∧ funds s' = funds s).
Proof.
  intros bs HP HR. unfold split_convert_max_by_type.
  apply outcome_bind. eapply outcome_eq; [apply zoom_gets|].
  apply outcome_bind. eapply outcome_eq; [apply zoom_gets|].
  assert (first_id_of_type t dir (funds s) = head0 (ids bs)) as ->.
  { unfold first_id_of_type. rewrite (rep_type _ _ _ HR).
    unfold bs. rewrite ids_dgrp. by destruct dir. }
  apply outcome_bind. eapply outcome_post.
  { apply (dry_loop_outcome bs (loop_fuel (funds s)) s A []); try done.
    unfold loop_fuel. pose proof (rep_length _ _ HR).
    pose proof (dgrp_length dir type_key t (af_ledger A)). unfold bs. lia. }
  intros r s' (vs & ? & ? & -> & ? & ?). apply outcome_ret. exists vs. done.
Qed.

Lemma dry_run_rep s A om :
  let bs := dgrp dir type_key t (af_ledger A) in
  P s → Rep (funds s) A →
  N.of_nat (length (visited f om bs)) ≤ MAX_AFFECTED_USERS →
  runs (split_convert_max_by_type om t dir filter_transform interrupt true) s
    (λ r s', ∃ vs,
      vs `prefix_of` visited f om bs ∧ (vs = visited f om bs ∨ stops) ∧
      r = (affected_users_sort_dedup (b_user <$> vs), l_remaining_all f om vs) ∧
      P s' ∧ funds s' = funds s).
Proof.
  intros bs HP HR Haff. apply outcome_runs.
  eapply outcome_mono; [by apply dry_run_outcome| |done].
  intros e [_ ?]. unfold bs in *. lia.
Qed.

End ByType.

Section ByUser.
Variable dir : SwapDirection.
Variable u : N.
Variable t : FundType.
Variable fd : FundDescription → option FundDescription.
Hypothesis target_ok : ∀ d d', fd d = Some d' → fund_type d' ≠ t.

Let f (b : Bucket) := fd (b_desc b).

Lemma user_list_step_item L b :
  user_list_step dir (item_of L b) = dptr dir user_key L b.
Proof. by destruct dir. Qed.

Lemma head0_ids_user fs A pre b bs :
  Rep fs A → dgrp dir user_key (u, t) (af_ledger A) = pre ++ b :: bs →
  b ∈ af_ledger A ∧ user_key b = (u, t) ∧ 0 < b_id b.
Proof.
  intros HR Heq. assert (b ∈ dgrp dir user_key (u, t) (af_ledger A)) as [? ?]%elem_of_dgrp
    by (rewrite Heq; set_solver).
  split_and!; [done|done|by apply (rep_id_pos HR)].
Qed.

(** Converting the fund item that the loop has read. *)
Lemma user_convert_rep s A b om total d :
  P s → Rep (funds s) A → b ∈ af_ledger A → type_key b ≠ fund_type d →
  af_max A + 1 < usize_max_plus_1 →
  runs (let! '(extracted_balance, opt_max_amount, fund_item) :=
          match om with
          | Some max_amount =>
              let! '(extracted, max_amount, fund_item) :=
                zoom (decrease_fund_balance max_amount (item_of (af_ledger A) b)) in
              ret (extracted, Some max_amount, fund_item)
          | None =>
              let! '(extracted, fund_item) :=
                zoom (delete_fund (item_of (af_ledger A) b)) in
              ret (extracted, None, fund_item)
          end in
        zoom (increase_fund_balance (user_id fund_item) d extracted_balance) ;;;
        ret (opt_max_amount, total + extracted_balance, fund_item)) s
    (λ r s', ∃ i, r = (remaining om b, total + extracted om b, i) ∧ P s' ∧
       Rep (fund_by_id_set (b_id b) i (funds s')) (l_convert om d b A)).
Proof.
  intros HP HR Hb Hd Hmax. destruct (extract_rep (funds s) A b om HR Hb)
    as (fs1 & Heq & HR1).
  destruct (increase_fund_balance_rep _ fs1 _ (b_user b) d (extracted om b) HR1)
    as (fs' & Heq' & HR').
  { apply hole_free_extract; [apply (rep_nodup HR)|done|done]. }
  { by rewrite af_max_l_extract. }
  set (i := left_item (af_ledger A) b (left_bal om b)) in *.
  apply runs_bind.
  apply (runs_eq _ _ (extracted om b, remaining om b, i) (lens_set fs1 s)).
  { destruct om as [m|]; unfold bind, ret, zoom, funds in *.
    - by destruct (decrease_fund_balance m _ _) as [[[[??]?]?]|]; simplify_eq.
    - by destruct (delete_fund _ _) as [[[??]?]|]; simplify_eq. }
  apply runs_bind. eapply runs_eq.
  { apply zoom_ok. unfold funds, i. rewrite lens_get_set, left_item_user. done. }
  apply runs_ret. exists i. split_and!; [done|by apply P_funds, P_funds|].
  unfold funds. rewrite !lens_get_set. by eapply convert_close.
Qed.

Lemma by_user_loop_rep bs : ∀ fuel s A pre om total,
  P s → Rep (funds s) A → dgrp dir user_key (u, t) (af_ledger A) = pre ++ bs →
  (length bs < fuel)%nat → af_max A + N.of_nat (length bs) < usize_max_plus_1 →
  runs (split_convert_max_by_user_loop dir fd interrupt fuel (head0 (ids bs)) om total) s
    (λ r s', ∃ vs,
      vs `prefix_of` visited f om bs ∧ (vs = visited f om bs ∨ stops) ∧
      r = (total + l_extracted_all f om vs, fst (l_convert_all f om vs A)) ∧
      P s' ∧ Rep (funds s') (snd (l_convert_all f om vs A))).
Proof.
  induction bs as [|b bs IH]; intros fuel s A pre om total HP HR Hg Hfuel Hmax;
    (destruct fuel as [|fuel]; [simpl in Hfuel; lia|]); simpl.
  { apply runs_ret. exists []. rewrite N.add_0_r. by split_and!; try left. }
  destruct (head0_ids_user _ _ _ _ _ HR Hg) as (Hb & Hk & Hpos).
  assert (type_key b = t) as Ht by (by injection Hk).
  rewrite (proj2 (N.ltb_lt 0 (b_id b))) by done. simpl.
  apply runs_bind. eapply runs_mono; [by apply interrupt_ok|].
  intros stop s1 (Hstop & HP1 & Hf1). cbv beta.
  assert (Rep (funds s1) A) as HR1 by (unfold funds; by rewrite Hf1).
  destruct stop.
  { apply runs_ret. exists []. rewrite N.add_0_r.
    split_and!; [by apply prefix_nil|right; by apply Hstop|done..]. }
  destruct (drained om) eqn:Hdr.
  { apply runs_ret. exists []. rewrite N.add_0_r. by split_and!; try left. }
  simpl in Hfuel, Hmax.
  apply runs_bind. eapply runs_eq; [apply zoom_gets|].
  rewrite (rep_fund_by_id HR1), user_list_step_item by done.
  rewrite (dptr_walk user_key dir (u, t) _ pre b bs) by (done || apply (rep_nodup HR)).
  change (fund_desc (item_of _ b)) with (b_desc b). fold (f b).
  apply runs_bind. destruct (f b) as [d|] eqn:Hfb.
  - assert (type_key b ≠ fund_type d) as Hd.
    { rewrite Ht. intros Heq. by apply (target_ok (b_desc b) d). }
    eapply runs_mono; [apply user_convert_rep; try done; lia|].
    intros r s2 (i & -> & HP2 & HR2). cbv beta iota.
    apply runs_bind. eapply runs_eq; [apply zoom_modify|].
    assert (∀ c, type_key c = fund_type d → user_key c ≠ (u, t)) as Hne.
    { intros c Hc [= _ Hct]. by apply (target_ok (b_desc b) d); [|rewrite <-Hc]. }
    destruct (walk_convert user_key (λ _ _, eq_refl) dir (u, t) A pre b bs om d
      (rep_nodup HR) Hg Hne) as [pre' Hg'].
    eapply runs_mono; [eapply (IH fuel); [by apply P_funds| |done|lia|]|].
    { unfold funds. by rewrite lens_get_set. }
    { pose proof (af_max_l_convert om d b A). lia. }
    intros r s' (vs & Hvs & Hst & -> & HP' & HR'). exists (b :: vs). simpl.
    rewrite Hfb, <-N.add_assoc.
    by split_and!; [apply prefix_cons|destruct Hst; [left; f_equal|right]|..].
  - apply runs_ret, runs_bind. eapply runs_eq; [apply zoom_modify|].
    rewrite fund_by_id_set_same; [|by apply HR1|by apply HR1].
    eapply runs_mono; [eapply (IH fuel _ A (pre ++ [b]));
      [by apply P_funds| |by rewrite <-(assoc_L (++))|lia|lia]|].
    { unfold funds. by rewrite lens_get_set. }
    intros r s' (vs & Hvs & Hst & -> & HP' & HR'). exists (b :: vs). simpl. rewrite Hfb.
    by split_and!; [apply prefix_cons|destruct Hst; [left; f_equal|right]|..].
Qed.

Lemma split_convert_max_by_user_rep s A om :
  let bs := dgrp dir user_key (u, t) (af_ledger A) in
  P s → Rep (funds s) A →
  af_max A + N.of_nat (length bs) < usize_max_plus_1 →
  runs (split_convert_max_by_user om u t dir fd interrupt) s
    (λ r s', ∃ vs,
      vs `prefix_of` visited f om bs ∧ (vs = visited f om bs ∨ stops) ∧
      r = (l_extracted_all f om vs, fst (l_convert_all f om vs A)) ∧
      P s' ∧ Rep (funds s') (snd (l_convert_all f om vs A))).
Proof.
  intros bs HP HR Hmax. unfold split_convert_max_by_user.
  apply runs_bind. eapply runs_eq; [apply zoom_gets|].
  apply runs_bind. eapply runs_eq; [apply zoom_gets|].
  assert (first_id_of_user_type u t dir (funds s) = head0 (ids bs)) as ->.
  { unfold first_id_of_user_type. rewrite (rep_user _ _ _ HR).
    unfold bs. rewrite ids_dgrp. by destruct dir. }
  apply (by_user_loop_rep bs (loop_fuel (funds s)) s A []); try done.
  unfold loop_fuel. pose proof (rep_length _ _ HR).
  pose proof (dgrp_length dir user_key (u, t) (af_ledger A)). unfold bs. lia.
Qed.

End ByUser.

Section Destroy.
Variable u : N.
Variable t : FundType.

(** *** Destroying all funds of a user and type *)
Lemma destroy_visit_rep s A b :
  P s → Rep (funds s) A → b ∈ af_ledger A →
  runs (update_fund_in (b_id b) (λ fund_item,
          let next_id := user_list_next fund_item in
          let! '(fund_balance, fund_item) := zoom (delete_fund fund_item) in
          ret ((next_id, fund_balance), fund_item))) s
    (λ r s', r = (nxt user_key (af_ledger A) b, b_bal b) ∧ P s' ∧
             Rep (funds s') (l_remove (b_id b) A)).
Proof.
  intros HP HR Hb. unfold update_fund_in, mapper_update.
  apply runs_bind. eapply runs_eq; [apply zoom_gets|].
  rewrite (rep_fund_by_id HR) by done. apply runs_bind, runs_bind.
  destruct (delete_fund_rep (funds s) A b HR Hb) as (fs' & Heq & HR').
  eapply runs_eq; [by apply zoom_ok|]. apply runs_ret, runs_bind.
  eapply runs_eq; [apply zoom_modify|]. apply runs_ret.
  split_and!; [done|by apply P_funds, P_funds|].
  unfold funds. rewrite !lens_get_set. apply close_hole; [done|].
  left. split; [|done]. simpl. rewrite ids_filter_id.
  by intros [? _]%elem_of_remove_id.
Qed.

Lemma destroy_loop_rep bs : ∀ fuel s A pre acc,
  P s → Rep (funds s) A → grp user_key (u, t) (af_ledger A) = pre ++ bs →
  (length bs < fuel)%nat →
  runs (destroy_all_loop interrupt fuel (head0 (ids bs)) acc) s
    (λ r s', ∃ vs, vs `prefix_of` bs ∧ (vs = bs ∨ stops) ∧
       r = acc + total vs ∧ P s' ∧ Rep (funds s') (l_remove_all vs A)).
Proof.
  induction bs as [|b bs IH]; intros fuel s A pre acc HP HR Hg Hfuel;
    (destruct fuel as [|fuel]; [simpl in Hfuel; lia|]); simpl.
  { apply runs_ret. exists []. rewrite N.add_0_r. by split_and!; try left. }
  assert (b ∈ grp user_key (u, t) (af_ledger A)) as [Hk Hb]%elem_of_grp
    by (rewrite Hg; set_solver).
  rewrite (proj2 (N.ltb_lt 0 (b_id b))) by (by apply (rep_id_pos HR)). simpl.
  apply runs_bind. eapply runs_mono; [by apply interrupt_ok|].
  intros stop s1 (Hstop & HP1 & Hf1). cbv beta.
  assert (Rep (funds s1) A) as HR1 by (unfold funds; by rewrite Hf1).
  destruct stop.
  { apply runs_ret. exists []. rewrite N.add_0_r.
    split_and!; [by apply prefix_nil|right; by apply Hstop|done..]. }
  simpl in Hfuel.
  apply runs_bind. eapply runs_mono; [by apply destroy_visit_rep|].
  intros r s2 (-> & HP2 & HR2). cbv beta iota.
  change (nxt user_key (af_ledger A) b) with (dptr Forwards user_key (af_ledger A) b).
  rewrite (dptr_walk user_key Forwards (u, t) _ pre b bs) by (done || apply (rep_nodup HR)).
  destruct (walk_extract user_key (λ _ _, eq_refl) Forwards (u, t) A pre b bs None
    (rep_nodup HR) Hg) as [pre' Hg'].
  eapply runs_mono; [eapply (IH fuel s2); [done|done|done|lia]|].
  intros r s' (vs & Hvs & Hst & -> & HP' & HR'). exists (b :: vs). simpl.
  rewrite N.add_assoc.
  by split_and!; [apply prefix_cons|destruct Hst; [left; f_equal|right]|..].
Qed.

Lemma destroy_all_for_user_rep s A :
  let bs := grp user_key (u, t) (af_ledger A) in
  P s → Rep (funds s) A →
  runs (destroy_all_for_user u t interrupt) s
    (λ r s', ∃ vs, vs `prefix_of` bs ∧ (vs = bs ∨ stops) ∧
       r = total vs ∧ P s' ∧ Rep (funds s') (l_remove_all vs A)).
Proof.
  intros bs HP HR. unfold destroy_all_for_user.
  apply runs_bind. eapply runs_eq; [apply zoom_gets|].
  apply runs_bind. eapply runs_eq; [apply zoom_gets|].
  assert (first_id_of_user_type u t Forwards (funds s) = head0 (ids bs)) as ->.
  { unfold first_id_of_user_type. by rewrite (rep_user _ _ _ HR). }
  apply (destroy_loop_rep bs (loop_fuel (funds s)) s A [] 0); try done.
  unfold loop_fuel. pose proof (rep_length _ _ HR).
  pose proof (dgrp_length Forwards user_key (u, t) (af_ledger A)).
  unfold bs. simpl in *. lia.
Qed.
End Destroy.
End LoopSpecs.

(** ** The loop with a checkpoint

    Here the filter may use and change the rest of the storage in ways that
    depend on the funds: [I] relates the storage to the ledger it represents,
    each visit included. *)
Definition converted (f : Bucket → option FundDescription) (b : Bucket) (A : AFunds) : AFunds :=
  match f b with Some d => l_convert None d b A | None => A end.

Lemma l_convert_all_cons f b bs A :
  snd (l_convert_all f None (b :: bs) A) = snd (l_convert_all f None bs (converted f b A)).
Proof. unfold converted. simpl. by destruct (f b). Qed.

Section Checkpoint.
Context {S : Type} `{Lens S FundStore} (I : S → AFunds → Prop) (stops : Prop).
Variables (dir : SwapDirection) (t : FundType).
Variable interrupt : M S bool.
Variable filter_transform : FundItem → M S (option FundDescription).
Variable f : Bucket → option FundDescription.
Hypothesis I_rep : ∀ s A, I s A → Rep (funds s) A.
Hypothesis interrupt_ok : ∀ s A, I s A →
  runs interrupt s (λ stop s', (stop = true → stops) ∧ I s' A).
Hypothesis filter_ok : ∀ s A b, I s A → b ∈ af_ledger A → type_key b = t →
  runs (filter_transform (item_of (af_ledger A) b)) s (λ o s', o = f b ∧ I s' A ∧
    ∀ d fs, f b = Some d → Rep fs (l_convert None d b A) →
      I (lens_set fs s') (l_convert None d b A)).
Hypothesis target_ok : ∀ b d, f b = Some d → fund_type d ≠ t.

(** One visit of the loop: the new state represents the converted ledger. *)
Lemma checkpoint_visit_rep s A b :
  I s A → b ∈ af_ledger A → type_key b = t → af_max A + 1 < usize_max_plus_1 →
  runs (update_fund_in (b_id b) (λ fund_item,
          let next_id := type_list_step dir fund_item in
          let! opt_transformed := filter_transform fund_item in
          match opt_transformed with
          | Some transformed =>
              let! '(_, fund_item) :=
                zoom (split_convert_individual_fund None transformed fund_item) in
              ret (next_id, fund_item)
          | None => ret (next_id, fund_item)
          end)) s (λ r s', r = dptr dir type_key (af_ledger A) b ∧ I s' (converted f b A)).
Proof.
  intros HI Hb Ht Hmax. unfold update_fund_in, mapper_update, converted.
  apply runs_bind. eapply runs_eq; [apply zoom_gets|].
  rewrite (rep_fund_by_id (I_rep _ _ HI)) by done. apply runs_bind, runs_bind.
  eapply runs_mono; [by apply filter_ok|]. intros o s1 (-> & HI1 & Hconv). cbv beta.
  rewrite type_list_step_item. pose proof (I_rep _ _ HI1) as HR1.
  destruct (f b) as [d|] eqn:Hfb.
  - destruct (split_convert_individual_fund_rep (funds s1) A b None d)
      as (fs2 & i & Heq & HR2); [done|done| |done|].
    { rewrite Ht. intros Hd. by apply (target_ok b d). }
    apply runs_bind. eapply runs_eq; [by apply zoom_ok|].
    apply runs_ret, runs_bind. eapply runs_eq; [apply zoom_modify|].
    apply runs_ret. split; [done|]. rewrite lens_set_set. apply Hconv; [done|].
    unfold funds. by rewrite lens_get_set.
  - apply runs_ret, runs_bind. eapply runs_eq; [apply zoom_modify|].
    apply runs_ret. split; [done|].
    rewrite fund_by_id_set_same; [|by apply HR1..]. unfold funds. by rewrite lens_set_get.
Qed.

Lemma checkpoint_loop_rep bs : ∀ fuel s A pre,
  I s A → dgrp dir type_key t (af_ledger A) = pre ++ bs →
  (length bs < fuel)%nat → af_max A + N.of_nat (length bs) < usize_max_plus_1 →
  runs (checkpoint_loop dir filter_transform interrupt fuel (head0 (ids bs))) s
    (λ r s', ∃ vs rest, bs = vs ++ rest ∧ (rest = [] ∨ stops) ∧
      r = head0 (ids rest) ∧ I s' (snd (l_convert_all f None vs A))).
Proof.
  induction bs as [|b bs IH]; intros fuel s A pre HI Hg Hfuel Hmax;
    (destruct fuel as [|fuel]; [simpl in Hfuel; lia|]); simpl.
  { apply runs_ret. exists [], []. by split_and!; try left. }
  assert (b ∈ dgrp dir type_key t (af_ledger A)) as [Ht Hb]%elem_of_dgrp
    by (rewrite Hg; set_solver).
  pose proof (rep_id_pos (I_rep _ _ HI) b Hb) as Hpos.
  rewrite (proj2 (N.ltb_lt 0 (b_id b))) by done. simpl.
  apply runs_bind. eapply runs_mono; [by apply interrupt_ok|].
  intros stop s1 (Hstop & HI1). cbv beta. destruct stop.
  { apply runs_ret. exists [], (b :: bs).
    split_and!; [done|right; by apply Hstop|done..]. }
  simpl in Hfuel, Hmax.
  apply runs_bind. eapply runs_mono; [apply (checkpoint_visit_rep s1 A b); try done; lia|].
  intros r s2 (-> & HI2). cbv beta iota.
  rewrite (dptr_walk type_key dir t _ pre b bs)
    by (done || apply (rep_nodup (I_rep _ _ HI))).
  assert (∃ pre', dgrp dir type_key t (af_ledger (converted f b A)) = pre' ++ bs) as [pre' Hg'].
  { unfold converted. destruct (f b) as [d|] eqn:Hfb.
    - eapply walk_convert; [done|apply (rep_nodup (I_rep _ _ HI))|done|].
      intros c -> Hc. by apply (target_ok b d).
    - exists (pre ++ [b]). by rewrite <-(assoc_L (++)). }
  eapply runs_mono; [eapply (IH fuel s2); [done|done|lia|]|].
  { unfold converted. destruct (f b) as [d|]; [|lia]. pose proof (af_max_l_convert None d b A). lia. }
  intros r s' (vs & rest & -> & Hst & -> & HI'). exists (b :: vs), rest.
  split_and!; [done|done|done|]. by rewrite l_convert_all_cons.
Qed.

Lemma split_convert_checkpoint_rep s A cur pre bs :
  I s A → dgrp dir type_key t (af_ledger A) = pre ++ bs →
  (if cur =? 0 then pre = [] else cur = head0 (ids bs)) →
  af_max A + N.of_nat (length bs) < usize_max_plus_1 →
  runs (split_convert_max_by_type_with_checkpoint cur t dir filter_transform interrupt) s
    (λ r s', ∃ vs rest, bs = vs ++ rest ∧ (rest = [] ∨ stops) ∧
      r = head0 (ids rest) ∧ I s' (snd (l_convert_all f None vs A))).
Proof.
  intros HI Hg Hcur Hmax. unfold split_convert_max_by_type_with_checkpoint.
  pose proof (I_rep _ _ HI) as HR.
  apply runs_bind. apply (runs_eq _ _ (head0 (ids bs)) s).
  { destruct (cur =? 0); [|by rewrite Hcur].
    rewrite zoom_gets. unfold first_id_of_type. rewrite (rep_type _ _ _ HR).
    rewrite Hcur in Hg. simpl in Hg. rewrite <-Hg, ids_dgrp. by destruct dir. }
  apply runs_bind. eapply runs_eq; [apply zoom_gets|].
  apply (checkpoint_loop_rep bs _ s A pre); try done.
  unfold loop_fuel. pose proof (rep_length _ _ HR).
  pose proof (dgrp_length dir type_key t (af_ledger A)) as Hlen.
  rewrite Hg, length_app in Hlen. lia.
Qed.
End Checkpoint.

(** A stored id is a place in the list of the type of its fund. *)
Lemma stored_split {fs A} dir t id :
  Rep fs A → (id = 0 ∨ ∃ i, fs_fund_by_id fs !! id = Some i ∧ fund_type (fund_desc i) = t) →
  ∃ pre bs, dgrp dir type_key t (af_ledger A) = pre ++ bs ∧
    (if id =? 0 then pre = [] else id = head0 (ids bs)).
Proof.
  intros HR [->|(i & Hi & Ht)]; [by exists [], (dgrp dir type_key t (af_ledger A))|].
  destruct (decide (id ∈ ids (af_ledger A))) as [(b & Hid & Hb)%list_elem_of_fmap|Hno].
  2: { by rewrite (rep_none _ _ _ HR id) in Hi. }
  pose proof (rep_item _ _ _ HR b Hb ltac:(done)) as Hib. rewrite <-Hid, Hi in Hib.
  injection Hib as ->.
  assert (b ∈ dgrp dir type_key t (af_ledger A)) as Hin by (by apply elem_of_dgrp).
  apply list_elem_of_split in Hin as (pre & post & Hg). exists pre, (b :: post).
  split; [done|]. pose proof (rep_id_pos HR b Hb).
  by rewrite (proj2 (N.eqb_neq id 0)) by lia.
Qed.
