(* ===== verification/FundTotals.v ===== *)
(** * Amounts of the ledger and how the operations move them

    An amount of the ledger is the sum of the balances whose user and
    description satisfy a predicate: the totals of the list headers are such
    amounts.  Operations never change a user or a description in place, so each
    one adds to an amount or takes from it what the predicate says. *)
From stdpp Require Import base numbers list gmap sets.
From S2P Require Import Prelude PtrList FundTypes FundModule FundLedger FundRep FundLoops.

Abbreviation Sel := (N → FundDescription → bool).

Definition share (p : Sel) (u : N) (d : FundDescription) (v : N) : N :=
  if p u d then v else 0.
Definition worth (p : Sel) (b : Bucket) : N := share p (b_user b) (b_desc b) (b_bal b).
Definition amount (p : Sel) (L : Ledger) : N := foldr (λ b s, worth p b + s) 0 L.

(** The selections of the list headers, and everything a user owns. *)
Definition of_type (t : FundType) : Sel := λ _ d, bool_decide (fund_type d = t).
Definition of_user_type (u : N) (t : FundType) : Sel :=
  λ u' d, bool_decide (u' = u) && bool_decide (fund_type d = t).
Definition of_user (u : N) : Sel := λ u' _, bool_decide (u' = u).

Lemma worth_le p b : worth p b ≤ b_bal b.
Proof. unfold worth, share. case_match; lia. Qed.

Lemma amount_app p L L' : amount p (L ++ L') = amount p L + amount p L'.
Proof. induction L as [|b L IH]; simpl; [done|]. rewrite IH. lia. Qed.

Lemma amount_elem p b L : b ∈ L → worth p b ≤ amount p L.
Proof. induction 1; simpl; lia. Qed.

Lemma amount_ext p q L :
  (∀ b, b ∈ L → p (b_user b) (b_desc b) = q (b_user b) (b_desc b)) →
  amount p L = amount q L.
Proof.
  induction L as [|b L IH]; intros Hpq; simpl; [done|].
  unfold worth, share. rewrite Hpq by set_solver. rewrite IH by set_solver. done.
Qed.

Lemma amount_total p L :
  (∀ b, b ∈ L → p (b_user b) (b_desc b) = true) → amount p L = total L.
Proof.
  induction L as [|b L IH]; intros Hp; simpl; [done|].
  unfold worth, share. rewrite Hp by set_solver. rewrite IH by set_solver. done.
Qed.

Lemma amount_grp {K} `{EqDecision K} (k : Bucket → K) κ p L :
  (∀ b, p (b_user b) (b_desc b) = bool_decide (k b = κ)) →
  total (grp k κ L) = amount p L.
Proof.
  intros Hp. unfold grp. induction L as [|b L IH]; simpl; [done|].
  unfold worth, share. rewrite Hp. case_bool_decide.
  - rewrite filter_cons_True by done. simpl. by rewrite IH.
  - rewrite filter_cons_False by done. by rewrite IH.
Qed.

Lemma info_type_amount t L :
  total_balance (info type_key t L) = amount (of_type t) L.
Proof. by apply amount_grp. Qed.

Lemma of_user_type_spec u t b :
  of_user_type u t (b_user b) (b_desc b) = bool_decide (user_key b = (u, t)).
Proof.
  unfold of_user_type, user_key. repeat case_bool_decide; naive_solver.
Qed.

Lemma info_user_amount u t L :
  total_balance (info user_key (u, t) L) = amount (of_user_type u t) L.
Proof. apply amount_grp, of_user_type_spec. Qed.

(** ** Changes of the ledger *)
Lemma amount_remove p L b :
  NoDup (ids L) → b ∈ L → amount p (remove_bucket (b_id b) L) + worth p b = amount p L.
Proof.
  induction L as [|c L IH]; [set_solver|]. unfold ids; simpl.
  intros [Hc Hnd]%NoDup_cons [->|Hb]%elem_of_cons; unfold remove_bucket.
  - rewrite filter_cons_False by naive_solver. fold (remove_bucket (b_id c) L).
    rewrite remove_bucket_not_elem by done. lia.
  - rewrite filter_cons_True.
    + simpl. fold (remove_bucket (b_id b) L). rewrite <-(IH Hnd Hb). lia.
    + intros Heq. destruct Hc. rewrite Heq. by apply elem_of_ids_2.
Qed.

Lemma amount_set_bal p L b v :
  NoDup (ids L) → b ∈ L →
  amount p (set_bucket_bal (b_id b) v L) + worth p b =
    amount p L + share p (b_user b) (b_desc b) v.
Proof.
  induction L as [|c L IH]; [set_solver|]. unfold ids; simpl.
  intros [Hc Hnd]%NoDup_cons [->|Hb]%elem_of_cons.
  - rewrite decide_True by done. fold (set_bucket_bal (b_id c) v L).
    rewrite set_bucket_bal_not_elem by done.
    change (worth p (with_bal v c)) with (share p (b_user c) (b_desc c) v). lia.
  - rewrite decide_False.
    + fold (set_bucket_bal (b_id b) v L). pose proof (IH Hnd Hb). lia.
    + intros Heq. destruct Hc. rewrite Heq. by apply elem_of_ids_2.
Qed.

Lemma share_add p u d v w : share p u d (v + w) = share p u d v + share p u d w.
Proof. unfold share. case_match; lia. Qed.

Lemma amount_l_increase p u d v A :
  NoDup (ids (af_ledger A)) →
  amount p (af_ledger (l_increase u d v A)) = amount p (af_ledger A) + share p u d v.
Proof.
  intros Hnd. unfold l_increase, l_create.
  destruct (N.eqb_spec v 0) as [->|_]; [unfold share; case_match; lia|].
  destruct (coalesce_target u d (af_ledger A)) as [b|] eqn:Hc; simpl.
  - apply coalesce_target_elem in Hc as (_ & Hb & <- & <- & _).
    pose proof (amount_set_bal p _ b (b_bal b + v) Hnd Hb) as Heq.
    rewrite share_add in Heq. unfold worth in Heq. lia.
  - rewrite amount_app. simpl. unfold worth; simpl. lia.
Qed.

Lemma amount_l_extract p om b A :
  NoDup (ids (af_ledger A)) → b ∈ af_ledger A →
  amount p (af_ledger (l_extract om b A)) + share p (b_user b) (b_desc b) (extracted om b) =
    amount p (af_ledger A).
Proof.
  intros Hnd Hb. pose proof (amount_elem p b _ Hb) as Hle.
  destruct (l_extract_cases om b A) as [[Hl ->]|[Hl ->]]; simpl.
  - rewrite <-(amount_remove p _ b Hnd Hb). f_equal. unfold worth. f_equal.
    unfold left_bal in Hl. assert (extracted om b ≤ b_bal b); [|lia].
    unfold extracted. case_match; lia.
  - pose proof (amount_set_bal p _ b (left_bal om b) Hnd Hb) as Heq.
    assert (worth p b = share p (b_user b) (b_desc b) (left_bal om b)
                        + share p (b_user b) (b_desc b) (extracted om b)) as Hw.
    { rewrite <-share_add. unfold worth. f_equal. unfold left_bal in *. lia. }
    lia.
Qed.

(** ** Well-formed abstract funds *)
Record af_ok (A : AFunds) : Prop := {
  ok_nodup : NoDup (ids (af_ledger A));
  ok_le b : b ∈ af_ledger A → b_id b ≤ af_max A;
}.

Lemma rep_af_ok h fs A : RepX h fs A → af_ok A.
Proof. intros HR. split; [apply (rep_nodup HR)|apply HR]. Qed.

Lemma af_ok_increase u d v A : af_ok A → af_ok (l_increase u d v A).
Proof.
  intros [Hnd Hle]. unfold l_increase, l_create. case_match; [done|].
  destruct (coalesce_target u d (af_ledger A)) as [b|] eqn:Hc; split; simpl.
  - by rewrite ids_set_bucket_bal.
  - intros c (c' & Hc' & ->)%elem_of_set_bucket_bal. case_decide; simpl; auto.
  - rewrite ids_snoc. apply NoDup_app. split_and!; [done| |apply NoDup_singleton].
    intros i (b & Hb%Hle & <-)%elem_of_ids Heq%list_elem_of_singleton. simpl in Heq. lia.
  - intros b [Hb|Hb%list_elem_of_singleton]%elem_of_app; [|subst b; simpl; lia].
    specialize (Hle b Hb). lia.
Qed.

Lemma af_ok_extract om b A : af_ok A → af_ok (l_extract om b A).
Proof.
  intros [Hnd Hle]. split; [by apply nodup_l_extract|].
  intros c Hc. rewrite af_max_l_extract.
  destruct (l_extract_cases om b A) as [[_ He]|[_ He]]; rewrite He in Hc; simpl in Hc.
  - apply elem_of_remove_bucket in Hc as [_ ?]. auto.
  - apply elem_of_set_bucket_bal in Hc as (c' & ? & ->). case_decide; simpl; auto.
Qed.

Lemma af_ok_convert om d b A : af_ok A → af_ok (l_convert om d b A).
Proof. intros. by apply af_ok_increase, af_ok_extract. Qed.

Lemma amount_l_convert p om d b A :
  af_ok A → b ∈ af_ledger A →
  amount p (af_ledger (l_convert om d b A))
    + share p (b_user b) (b_desc b) (extracted om b) =
  amount p (af_ledger A) + share p (b_user b) d (extracted om b).
Proof.
  intros Hok Hb. unfold l_convert.
  rewrite amount_l_increase by apply af_ok_extract, Hok.
  pose proof (amount_l_extract p om b A (ok_nodup _ Hok) Hb). lia.
Qed.

(** ** Converting many buckets *)

(** What a sequence of conversions moves, counted by [g] on the bucket and its
    new description. *)
Fixpoint flow (g : Bucket → FundDescription → bool) (f : Bucket → option FundDescription)
    (om : option N) (bs : list Bucket) : N :=
  match bs with
  | [] => 0
  | b :: bs =>
      match f b with
      | Some d => (if g b d then extracted om b else 0) + flow g f (remaining om b) bs
      | None => flow g f om bs
      end
  end.

Definition flow_out (p : Sel) := flow (λ b _, p (b_user b) (b_desc b)).
Definition flow_in (p : Sel) := flow (λ b d, p (b_user b) d).

Lemma flow_ext g g' f om bs :
  (∀ b d, b ∈ bs → f b = Some d → g b d = g' b d) → flow g f om bs = flow g' f om bs.
Proof.
  revert om. induction bs as [|b bs IH]; intros om Hg; simpl; [done|].
  destruct (f b) as [d|] eqn:Hf; [|apply IH; set_solver].
  rewrite Hg by set_solver. rewrite IH by set_solver. done.
Qed.

Lemma flow_true f om bs : flow (λ _ _, true) f om bs = l_extracted_all f om bs.
Proof.
  revert om. induction bs as [|b bs IH]; intros om; simpl; [done|].
  destruct (f b); [by rewrite IH|apply IH].
Qed.

Lemma flow_false f om bs : flow (λ _ _, false) f om bs = 0.
Proof.
  revert om. induction bs as [|b bs IH]; intros om; simpl; [done|].
  destruct (f b); [by rewrite IH|apply IH].
Qed.

Lemma amount_convert_all {K} `{EqDecision K} (k : Bucket → K) dir κ p f post bs : ∀ om A pre,
  (∀ v b, k (with_bal v b) = k b) →
  (∀ b d c, f b = Some d → type_key c = fund_type d → k c ≠ κ) →
  af_ok A → dgrp dir k κ (af_ledger A) = pre ++ bs ++ post →
  af_ok (snd (l_convert_all f om bs A)) ∧
  amount p (af_ledger (snd (l_convert_all f om bs A))) + flow_out p f om bs =
    amount p (af_ledger A) + flow_in p f om bs.
Proof.
  unfold flow_out, flow_in.
  induction bs as [|b bs IH]; intros om A pre Hk Hf Hok Hg; simpl; [split; [done|lia]|].
  assert (b ∈ af_ledger A) as Hb.
  { eapply (elem_of_dgrp k dir κ). rewrite Hg. set_solver. }
  destruct (f b) as [d|] eqn:Hfb.
  - destruct (walk_convert k Hk dir κ A pre b (bs ++ post) om d (ok_nodup _ Hok) Hg) as [pre' Hg'].
    { intros c. by apply (Hf b d). }
    destruct (IH (remaining om b) (l_convert om d b A) pre' Hk Hf (af_ok_convert _ _ _ _ Hok)
      Hg') as [Hok' IH'].
    split; [done|]. pose proof (amount_l_convert p om d b A Hok Hb) as Heq.
    unfold share in Heq. lia.
  - apply (IH om A (pre ++ [b])); try done. by rewrite <-(assoc_L (++)).
Qed.

Lemma af_max_convert_all f bs : ∀ om A,
  af_max (snd (l_convert_all f om bs A)) ≤ af_max A + N.of_nat (length bs).
Proof.
  induction bs as [|b bs IH]; intros om A; simpl; [lia|].
  destruct (f b) as [d|].
  - pose proof (IH (remaining om b) (l_convert om d b A)).
    pose proof (af_max_l_convert om d b A). lia.
  - pose proof (IH om A). lia.
Qed.

(** ** How much a bounded walk extracts *)

(** A walk takes what it can: the maximum, or everything that it may take. *)
Definition takeable (f : Bucket → option FundDescription) (bs : list Bucket) : N :=
  total (filter (λ b, is_Some (f b)) bs).

Lemma takeable_cons f b bs :
  takeable f (b :: bs) = match f b with Some _ => b_bal b | None => 0 end + takeable f bs.
Proof.
  unfold takeable. destruct (f b) eqn:Hf.
  - rewrite filter_cons_True by (rewrite Hf; eauto). done.
  - rewrite filter_cons_False; [done|]. rewrite Hf. by intros [??].
Qed.

Lemma visited_amounts f bs : ∀ om,
  let vs := visited f om bs in
  l_extracted_all f om vs = match om with Some m => N.min m (takeable f bs) | None => takeable f bs end ∧
  l_remaining_all f om vs = match om with Some m => Some (m - takeable f bs) | None => None end.
Proof.
  induction bs as [|b bs IH]; intros om; simpl.
  { unfold takeable; simpl. destruct om; split; try done; [lia|]. f_equal. lia. }
  rewrite takeable_cons. destruct om as [m|]; simpl.
  - destruct (N.eqb_spec m 0) as [->|Hm]; simpl; [split; [lia|done]|].
    destruct (f b) as [d|] eqn:Hf; simpl.
    + destruct (IH (Some (m - b_bal b))) as [-> ->]. split; [lia|]. f_equal. lia.
    + destruct (IH (Some m)) as [-> ->]. done.
  - destruct (f b) as [d|] eqn:Hf; simpl.
    + destruct (IH None) as [-> ->]. split; [lia|done].
    + destruct (IH None) as [-> ->]. done.
Qed.

(** Without a maximum, what is taken adds up along the walk. *)
Lemma extracted_all_takeable f bs : l_extracted_all f None bs = takeable f bs.
Proof.
  induction bs as [|b bs IH]; [done|]. rewrite takeable_cons. simpl.
  destruct (f b); rewrite IH; done.
Qed.

Lemma takeable_prefix f vs bs : vs `prefix_of` bs → takeable f vs ≤ takeable f bs.
Proof.
  intros [post ->]. unfold takeable. rewrite filter_app, total_app. lia.
Qed.

Lemma takeable_amount {K} `{EqDecision K} (k : Bucket → K) κ p f L :
  (∀ b, p (b_user b) (b_desc b) = bool_decide (k b = κ) && bool_decide (is_Some (f b))) →
  takeable f (grp k κ L) = amount p L.
Proof.
  intros Hp. unfold grp. induction L as [|b L IH]; [done|]. simpl.
  unfold worth at 1, share. rewrite Hp, filter_cons.
  case_decide as Hk; [rewrite (bool_decide_true (k b = κ)) by done|by rewrite bool_decide_false].
  rewrite takeable_cons, IH. by destruct (f b).
Qed.

Lemma takeable_all f bs : (∀ b, b ∈ bs → is_Some (f b)) → takeable f bs = total bs.
Proof.
  intros Hf. unfold takeable. induction bs as [|b bs IH]; [done|].
  rewrite filter_cons_True by set_solver. simpl. rewrite IH by set_solver. done.
Qed.

Lemma total_dgrp {K} `{EqDecision K} dir (k : Bucket → K) κ L :
  total (dgrp dir k κ L) = total (grp k κ L).
Proof.
  destruct dir; simpl; [done|]. induction (grp k κ L) as [|b bs IH]; [done|].
  rewrite reverse_cons, total_app, IH. simpl. lia.
Qed.

Lemma visited_prefix f bs : ∀ om, visited f om bs `prefix_of` bs.
Proof.
  induction bs as [|b bs IH]; intros om; simpl; [done|].
  case_match; [apply prefix_nil|]. by apply prefix_cons.
Qed.

(** Nothing flows to or from users and descriptions that no conversion touches. *)
Lemma flow_none g f om bs :
  (∀ b d, b ∈ bs → f b = Some d → g b d = false) → flow g f om bs = 0.
Proof. intros. rewrite (flow_ext g (λ _ _, false)); [apply flow_false|done]. Qed.

Lemma flow_all g f om bs :
  (∀ b d, b ∈ bs → f b = Some d → g b d = true) →
  flow g f om bs = l_extracted_all f om bs.
Proof. intros. rewrite (flow_ext g (λ _ _, true)); [apply flow_true|done]. Qed.

(** ** Removing many buckets *)
Lemma amount_remove_all p bs : ∀ A,
  af_ok A → NoDup (ids bs) → bs ⊆ af_ledger A →
  af_ok (l_remove_all bs A) ∧
  amount p (af_ledger (l_remove_all bs A)) + amount p bs = amount p (af_ledger A).
Proof.
  induction bs as [|b bs IH]; intros A Hok Hnd Hsub; simpl; [split; [done|lia]|].
  unfold ids in Hnd; simpl in Hnd. apply NoDup_cons in Hnd as [Hb Hnd].
  pose proof (af_ok_extract None b A Hok) as Hok'.
  destruct (IH (l_remove (b_id b) A) Hok' Hnd) as [Hok'' Heq].
  { intros c Hc. apply elem_of_remove_bucket. split; [|set_solver].
    intros Hid. destruct Hb. rewrite <-Hid. by apply elem_of_ids_2. }
  split; [done|]. simpl in *.
  pose proof (amount_remove p _ b (ok_nodup _ Hok) ltac:(set_solver)). lia.
Qed.
