(* ===== verification/FundMoves.v ===== *)
(** * Moving amounts between fund types

    [moved src dst v mv A A']: from [A] to [A'] an amount [v] moved from type
    [src] to type [dst], [mv u] of it for user [u]; nothing else changed.  The
    conversions and the destruction of funds in these terms. *)
From stdpp Require Import base numbers list gmap sets strings.
From S2P Require Import Prelude PtrList FundTypes FundModule FundLedger FundRep FundLoops.
From S2P Require Import FundTotals.

Definition tt_of (t : FundType) (A : AFunds) : N := amount (of_type t) (af_ledger A).
Definition ut_of (u : N) (t : FundType) (A : AFunds) : N :=
  amount (of_user_type u t) (af_ledger A).

Record moved (src dst : FundType) (v : N) (mv : N → N) (A A' : AFunds) : Prop := {
  mv_src : tt_of src A' + v = tt_of src A;
  mv_dst : tt_of dst A' = tt_of dst A + v;
  mv_other t : t ≠ src → t ≠ dst → tt_of t A' = tt_of t A;
  mv_user_src u : ut_of u src A' + mv u = ut_of u src A;
  mv_user_dst u : ut_of u dst A' = ut_of u dst A + mv u;
  mv_user_other u t : t ≠ src → t ≠ dst → ut_of u t A' = ut_of u t A;
}.

(** A store's headers are these amounts. *)
Section Headers.
Context {h : option N} {fs : FundStore} {A : AFunds} (HR : RepX h fs A).

Lemma rep_tt t : total_balance (fund_list_by_type t fs) = tt_of t A.
Proof. by rewrite (rep_type _ _ _ HR), info_type_amount. Qed.

Lemma rep_ut u t : total_balance (fund_list_by_user u t fs) = ut_of u t A.
Proof. by rewrite (rep_user _ _ _ HR), info_user_amount. Qed.
End Headers.

Lemma ut_le_tt u t A : ut_of u t A ≤ tt_of t A.
Proof.
  unfold ut_of, tt_of. induction (af_ledger A) as [|b L IH]; simpl; [lia|].
  assert (worth (of_user_type u t) b ≤ worth (of_type t) b); [|lia].
  unfold worth, share, of_user_type, of_type. repeat case_bool_decide; simpl; lia.
Qed.

(** What user [u] moves in a walk. *)
Definition flow_of (u : N) := flow (λ b _, bool_decide (b_user b = u)).

Lemma flow_of_absent u f om bs : u ∉ b_user <$> bs → flow_of u f om bs = 0.
Proof.
  intros Hu. apply flow_none. intros b d Hb _. case_bool_decide as Heq; [|done].
  destruct Hu. rewrite <-Heq. by apply list_elem_of_fmap_2.
Qed.

Section Moves.
Context {K : Type} `{EqDecision K} (k : Bucket → K).
Variables (f : Bucket → option FundDescription) (src dst : FundType).
Hypothesis k_with_bal : ∀ v b, k (with_bal v b) = k b.
Hypothesis f_dst : ∀ b d, f b = Some d → fund_type d = dst.
Hypothesis src_dst : src ≠ dst.

Lemma convert_all_moved dir κ om bs A pre post :
  (∀ c, k c = κ → type_key c = src) →
  af_ok A → dgrp dir k κ (af_ledger A) = pre ++ bs ++ post →
  moved src dst (l_extracted_all f om bs) (λ u, flow_of u f om bs) A
    (snd (l_convert_all f om bs A)).
Proof.
  intros Hκ Hok Hg.
  assert (∀ b, b ∈ bs → type_key b = src) as Hsrc.
  { intros b Hb. apply Hκ. eapply (elem_of_dgrp k dir κ). rewrite Hg. set_solver. }
  assert (∀ p, amount p (af_ledger (snd (l_convert_all f om bs A))) + flow_out p f om bs =
    amount p (af_ledger A) + flow_in p f om bs) as Ham.
  { intros p. apply (amount_convert_all k dir κ p f post bs om A pre); try done.
    intros b d c Hf Hc Hk. apply src_dst. rewrite <-(Hκ c Hk), Hc. by eapply f_dst. }
  unfold flow_out, flow_in in Ham.
  split; intros; unfold tt_of, ut_of, flow_of.
  - rewrite <-flow_true. specialize (Ham (of_type src)).
    rewrite (flow_none (λ b d, of_type src (b_user b) d)) in Ham.
    + rewrite (flow_ext _ (λ _ _, true)) in Ham; [lia|].
      intros b d Hb _. unfold of_type. apply bool_decide_true. by apply Hsrc.
    + intros b d _ Hd%f_dst. unfold of_type. apply bool_decide_false. congruence.
  - rewrite <-flow_true. specialize (Ham (of_type dst)).
    rewrite (flow_none (λ b _, of_type dst (b_user b) (b_desc b))) in Ham.
    + rewrite (flow_ext _ (λ _ _, true)) in Ham; [lia|].
      intros b d _ Hd%f_dst. unfold of_type. by apply bool_decide_true.
    + intros b d Hb%Hsrc _. unfold of_type. apply bool_decide_false.
      unfold type_key in Hb. congruence.
  - specialize (Ham (of_type t)). rewrite !flow_none in Ham; [lia|..].
    + intros b d _ Hd%f_dst. unfold of_type. apply bool_decide_false. congruence.
    + intros b d Hb%Hsrc _. unfold of_type. apply bool_decide_false.
      unfold type_key in Hb. congruence.
  - specialize (Ham (of_user_type u src)).
    rewrite (flow_none (λ b d, of_user_type u src (b_user b) d)) in Ham.
    + rewrite (flow_ext _ (λ b _, bool_decide (b_user b = u))) in Ham; [lia|].
      intros b d Hb%Hsrc _. unfold of_user_type, type_key in *.
      by rewrite (bool_decide_true (_ = src)), andb_true_r.
    + intros b d _ Hd%f_dst. unfold of_user_type.
      rewrite (bool_decide_false (_ = src)), andb_false_r by congruence. done.
  - specialize (Ham (of_user_type u dst)).
    rewrite (flow_none (λ b _, of_user_type u dst (b_user b) (b_desc b))) in Ham.
    + rewrite (flow_ext _ (λ b _, bool_decide (b_user b = u))) in Ham; [lia|].
      intros b d _ Hd%f_dst. unfold of_user_type.
      by rewrite (bool_decide_true (_ = dst)), andb_true_r.
    + intros b d Hb%Hsrc _. unfold of_user_type, type_key in *.
      rewrite (bool_decide_false (_ = dst)), andb_false_r by congruence. done.
  - specialize (Ham (of_user_type u t)). rewrite !flow_none in Ham; [lia|..].
    + intros b d _ Hd%f_dst. unfold of_user_type.
      rewrite (bool_decide_false (_ = t)), andb_false_r by congruence. done.
    + intros b d Hb%Hsrc _. unfold of_user_type, type_key in *.
      rewrite (bool_decide_false (_ = t)), andb_false_r by congruence. done.
Qed.
End Moves.

(** The amount that a walk over a whole group takes. *)
Lemma extracted_visited_all f om bs :
  (∀ b, b ∈ bs → is_Some (f b)) →
  l_extracted_all f om (visited f om bs) =
    match om with Some m => N.min m (total bs) | None => total bs end ∧
  l_remaining_all f om (visited f om bs) =
    match om with Some m => Some (m - total bs) | None => None end.
Proof.
  intros Hf. destruct (visited_amounts f bs om) as [-> ->]. by rewrite takeable_all.
Qed.

Lemma total_dgrp_type dir t A : total (dgrp dir type_key t (af_ledger A)) = tt_of t A.
Proof. rewrite total_dgrp. by apply amount_grp. Qed.

Lemma total_dgrp_user dir u t A :
  total (dgrp dir user_key (u, t) (af_ledger A)) = ut_of u t A.
Proof. rewrite total_dgrp. apply amount_grp, of_user_type_spec. Qed.

(** A prefix of a walk is a prefix of the group. *)
Lemma dgrp_prefix {K} `{EqDecision K} dir (k : Bucket → K) κ L f om :
  ∃ post, dgrp dir k κ L = [] ++ visited f om (dgrp dir k κ L) ++ post.
Proof. apply (visited_prefix f (dgrp dir k κ L) om). Qed.

(** ** How the lists grow *)
Definition klen {K} `{EqDecision K} (k : Bucket → K) (κ : K) (A : AFunds) : N :=
  N.of_nat (length (grp k κ (af_ledger A))).
Definition len_of (t : FundType) (A : AFunds) : N := klen type_key t A.
Definition ulen_of (u : N) (t : FundType) (A : AFunds) : N := klen user_key (u, t) A.

(** The items of a type in the storage. *)
Definition count_of (t : FundType) (fs : FundStore) : N :=
  N.of_nat (size (filter (λ p, fund_type (fund_desc p.2) = t) (fs_fund_by_id fs))).

Lemma rep_count fs A t : Rep fs A → count_of t fs = len_of t A.
Proof.
  intros HR. unfold count_of, len_of, klen. f_equal.
  rewrite <-size_dom, <-(length_fmap b_id (grp type_key t (af_ledger A))).
  fold (ids (grp type_key t (af_ledger A))). rewrite <-(size_list_to_set (C:=gset N)).
  - f_equal. apply set_eq. intros i. rewrite elem_of_list_to_set, elem_of_dom.
    rewrite elem_of_ids. split.
    + intros [it [Hi Ht]%map_lookup_filter_Some].
      destruct (decide (i ∈ ids (af_ledger A))) as [(b & Hb & <-)%elem_of_ids|Hn].
      * exists b. rewrite (rep_item _ _ _ HR b Hb ltac:(done)) in Hi. injection Hi as <-.
        split; [apply elem_of_grp; done|done].
      * by rewrite (rep_none _ _ _ HR i Hn ltac:(done)) in Hi.
    + intros (b & [Ht Hb]%elem_of_grp & <-). eexists.
      apply map_lookup_filter_Some. split; [by apply (rep_item _ _ _ HR)|done].
  - apply nodup_grp, (rep_ids _ _ _ HR).
Qed.

Lemma ulen_le u t A : ulen_of u t A ≤ len_of t A.
Proof.
  unfold ulen_of, len_of, klen, grp. induction (af_ledger A) as [|b L IH]; [done|].
  rewrite !filter_cons. unfold user_key, type_key in *.
  repeat case_decide; simpl; try congruence; lia.
Qed.

(** At most [n] new items, all in lists of type [dst]. *)
Record grown (dst : FundType) (n : N) (A A' : AFunds) : Prop := {
  gr_max : af_max A' ≤ af_max A + n;
  gr_dst : len_of dst A' ≤ len_of dst A + n;
  gr_other t : t ≠ dst → len_of t A' ≤ len_of t A;
  gr_user u t : t ≠ dst → ulen_of u t A' ≤ ulen_of u t A;
}.

Lemma grown_trans dst n m A1 A2 A3 :
  grown dst n A1 A2 → grown dst m A2 A3 → grown dst (n + m) A1 A3.
Proof.
  intros [M1 D1 O1 U1] [M2 D2 O2 U2].
  split; [lia|lia| |].
  - intros t Ht. etrans; [by apply O2|by apply O1].
  - intros u t Ht. etrans; [by apply U2|by apply U1].
Qed.

Lemma grown_weaken dst n m A A' : n ≤ m → grown dst n A A' → grown dst m A A'.
Proof. intros ? []. split; [lia|lia|done|done]. Qed.

Section Grow.
Context {K : Type} `{EqDecision K} (k : Bucket → K).
Hypothesis k_with_bal : ∀ v b, k (with_bal v b) = k b.

Lemma klen_extract κ om b A : klen k κ (l_extract om b A) ≤ klen k κ A.
Proof.
  assert (∀ n m, (n ≤ m)%nat → N.of_nat n ≤ N.of_nat m) as Hle by lia. apply Hle.
  destruct (l_extract_cases om b A) as [[_ ->]|[_ ->]]; simpl.
  - rewrite grp_remove. apply length_filter.
  - rewrite grp_set_bucket_bal by done. unfold set_bucket_bal. by rewrite length_fmap.
Qed.

Lemma klen_increase κ u d v A :
  klen k κ (l_increase u d v A) ≤
    klen k κ A + if decide (k (mk_Bucket (af_max A + 1) u d v) = κ) then 1 else 0.
Proof.
  unfold klen, l_increase, l_create. case_match; [lia|].
  destruct (coalesce_target u d (af_ledger A)) as [b|]; simpl.
  - rewrite grp_set_bucket_bal by done. unfold set_bucket_bal. rewrite length_fmap. lia.
  - rewrite grp_snoc, length_app. case_decide; simpl; lia.
Qed.
End Grow.

Lemma grown_increase u d v A : grown (fund_type d) 1 A (l_increase u d v A).
Proof.
  split.
  - unfold l_increase, l_create. repeat case_match; simpl; lia.
  - pose proof (klen_increase type_key (λ _ _, eq_refl) (fund_type d) u d v A) as Hl.
    by rewrite decide_True in Hl.
  - intros t Ht. pose proof (klen_increase type_key (λ _ _, eq_refl) t u d v A) as Hl.
    rewrite decide_False in Hl by (unfold type_key; simpl; congruence).
    by rewrite N.add_0_r in Hl.
  - intros w t Ht. pose proof (klen_increase user_key (λ _ _, eq_refl) (w, t) u d v A) as Hl.
    rewrite decide_False in Hl by (unfold user_key; simpl; congruence).
    by rewrite N.add_0_r in Hl.
Qed.

Lemma grown_convert om d b A : grown (fund_type d) 1 A (l_convert om d b A).
Proof.
  unfold l_convert. destruct (grown_increase (b_user b) d (extracted om b) (l_extract om b A))
    as [Hm Hd Ho Hu].
  pose proof (λ t, klen_extract type_key (λ _ _, eq_refl) t om b A) as Ht.
  pose proof (λ κ, klen_extract user_key (λ _ _, eq_refl) κ om b A) as Hk.
  rewrite af_max_l_extract in Hm. split; [done| | |].
  - etrans; [exact Hd|]. specialize (Ht (fund_type d)). unfold len_of. lia.
  - intros t Hne. etrans; [by apply Ho|apply Ht].
  - intros u t Hne. etrans; [by apply Hu|apply Hk].
Qed.

Lemma grown_convert_all f dst bs : (∀ b d, f b = Some d → fund_type d = dst) →
  ∀ om A, grown dst (N.of_nat (length bs)) A (snd (l_convert_all f om bs A)).
Proof.
  intros Hf. induction bs as [|b bs IH]; intros om A; simpl.
  - by split; [lia|lia|..].
  - assert (∀ A1 A2, grown dst (N.of_nat (length bs)) A1 A2 →
      grown dst (N.of_nat (S (length bs))) A1 A2) as Hmono.
    { intros A1 A2. apply grown_weaken. lia. }
    destruct (f b) as [d|] eqn:Hfb; [|apply Hmono, IH].
    replace (N.of_nat (S (length bs))) with (1 + N.of_nat (length bs)) by lia.
    eapply grown_trans; [|apply IH]. rewrite <-(Hf b d Hfb). apply grown_convert.
Qed.

(** ** Uninterrupted conversions inside a larger storage *)
Section InStorage.
Context {S : Type} `{Lens S FundStore}.
Implicit Type s : S.

(** Only the fund store has changed. *)
Definition only_funds (s s' : S) : Prop := s' = lens_set (funds s') s.

Lemma only_funds_refl s : only_funds s s.
Proof. unfold only_funds, funds. by rewrite lens_set_get. Qed.

Lemma only_funds_set fs s s' : only_funds s s' → only_funds s (lens_set fs s').
Proof.
  unfold only_funds, funds. intros Heq. rewrite lens_get_set, Heq. by rewrite lens_set_set.
Qed.

Lemma only_funds_trans s1 s2 s3 :
  only_funds s1 s2 → only_funds s2 s3 → only_funds s1 s3.
Proof.
  unfold only_funds, funds. intros H12 H23. rewrite H23, lens_get_set, H12.
  by rewrite lens_set_set.
Qed.

Lemma never_ok s0 s (stops : Prop) : only_funds s0 s →
  returns (only_funds s0) (ret false) s (λ stop, stop = true → stops).
Proof. intros. by exists false, s. Qed.

(** A filter that transforms every description of type [t] into one of type
    [dst] without looking at anything else. *)
Definition transforms (filter : FundItem → M S (option FundDescription))
    (fd : FundDescription → option FundDescription) (t dst : FundType) : Prop :=
  (∀ i s, filter i s = Ok (fd (fund_desc i), s)) ∧
  (∀ d d', fd d = Some d' → fund_type d' = dst) ∧
  (∀ d, fund_type d = t → is_Some (fd d)).

(** What the uninterrupted walk over a whole type list visits. *)
Definition walk_of (dir : SwapDirection) (t : FundType)
    (fd : FundDescription → option FundDescription) (m : N) (A : AFunds) : list Bucket :=
  visited (λ b, fd (b_desc b)) (Some m) (dgrp dir type_key t (af_ledger A)).

(** The vector of affected users may run out of room: an operation that visits [n]
    funds has it, or else it may fail, if [full] allows that, with the one error. *)
Definition vec_room (full : Prop) (n : N) : Prop := n ≤ MAX_AFFECTED_USERS ∨ full.
Definition crowded (full : Prop) (e : Error) : Prop :=
  full ∧ e = Panic "affected user capacity exceeded".

Lemma vec_room_le full n m : n ≤ m → vec_room full m → vec_room full n.
Proof. intros ? [?|?]; [left; lia|by right]. Qed.
Lemma vec_room_0 full : vec_room full 0.
Proof. left. lia. Qed.
Lemma vec_room_any n : vec_room True n.
Proof. by right. Qed.
Lemma vec_room_over n m : n ≤ m → vec_room (MAX_AFFECTED_USERS < m) n.
Proof. intros. destruct (N.le_gt_cases n MAX_AFFECTED_USERS); [by left|right; lia]. Qed.
Lemma vec_room_crowded full n m e :
  vec_room full n → (m ≤ N.to_nat n)%nat → too_many_affected m e → crowded full e.
Proof. intros [?|?] ? [-> ?]; [exfalso; lia|done]. Qed.
Lemma crowded_false (P : Prop) e : crowded False e → P.
Proof. by intros [? _]. Qed.

(** Without the error the operation returns. *)
Lemma uncrowded {X} (m : M S X) s Q : outcome m s (crowded False) Q → runs m s Q.
Proof. intros Hm. apply outcome_runs. eapply outcome_mono; [exact Hm|by intros e [? _]|done]. Qed.

(** The ids that a walk may give out, and the affected users. *)
Definition roomy (full : Prop) (t : FundType) (A : AFunds) : Prop :=
  af_max A + len_of t A < usize_max_plus_1 ∧ vec_room full (len_of t A).

Lemma length_dgrp {K} `{EqDecision K} dir (k : Bucket → K) κ L :
  length (dgrp dir k κ L) = length (grp k κ L).
Proof. destruct dir; simpl; [done|]. apply length_reverse. Qed.

Lemma length_walk dir t fd m A :
  (length (walk_of dir t fd m A) ≤ length (grp type_key t (af_ledger A)))%nat.
Proof.
  unfold walk_of. rewrite <-(length_dgrp dir). apply prefix_length, visited_prefix.
Qed.

Section Convert.
Variables (full : Prop) (dir : SwapDirection) (t dst : FundType).
Variable filter : FundItem → M S (option FundDescription).
Variable fd : FundDescription → option FundDescription.
Hypothesis Hfd : transforms filter fd t dst.
Hypothesis t_dst : t ≠ dst.

Lemma transforms_returns s0 s A b : only_funds s0 s →
  returns (only_funds s0) (filter (item_of (af_ledger A) b)) s (λ o, o = fd (b_desc b)).
Proof.
  intros HP. exists (fd (b_desc b)), s. split_and!; [|done..]. by rewrite (proj1 Hfd).
Qed.

Lemma transforms_target b d : fd (b_desc b) = Some d → fund_type d ≠ t.
Proof. intros Hd ?. apply t_dst. by rewrite <-(proj1 (proj2 Hfd) _ _ Hd). Qed.

(** The conversion in either mode returns the users it visits and what is
    left of the maximum; the real one moves the amount. *)
Lemma convert_type_moves s A m :
  Rep (funds s) A → roomy full t A →
  outcome (split_convert_max_by_type (Some m) t dir filter (ret false) false) s (crowded full)
    (λ r s', r = (affected_users_sort_dedup (b_user <$> walk_of dir t fd m A),
                  Some (m - tt_of t A)) ∧
      only_funds s s' ∧
      ∃ A', Rep (funds s') A' ∧
        grown dst (len_of t A) A A' ∧
        moved t dst (N.min m (tt_of t A))
          (λ u, flow_of u (λ b, fd (b_desc b)) (Some m) (walk_of dir t fd m A)) A A').
Proof.
  intros HR [Hroom Haff].
  eapply outcome_mono.
  { apply (split_convert_max_by_type_outcome (only_funds s) False (λ fs s', only_funds_set fs s s')
      (ret false) (λ s', never_ok s s' False) dir t filter (λ b, fd (b_desc b))
      (λ s' A' b HP _ _, transforms_returns s s' A' b HP) transforms_target s A (Some m)).
    - apply only_funds_refl.
    - done.
    - by rewrite length_dgrp. }
  { intros e. apply (vec_room_crowded full (len_of t A)); [done|].
    pose proof (length_walk dir t fd m A). unfold walk_of, len_of, klen in *. lia. }
  intros r s' (vs & _ & [->|[]] & -> & HP & HR').
  fold (walk_of dir t fd m A) in *.
  destruct (extracted_visited_all (λ b, fd (b_desc b)) (Some m)
    (dgrp dir type_key t (af_ledger A))) as [Hext Hrem].
  { intros b [Hb _]%elem_of_dgrp. by apply Hfd. }
  fold (walk_of dir t fd m A) in *.
  rewrite total_dgrp_type in *. split_and!; [|done|].
  - by rewrite l_convert_all_fst, Hrem.
  - eexists. split_and!; [exact HR'| |].
    + eapply grown_weaken; [|apply grown_convert_all; intros; by eapply Hfd].
      pose proof (length_walk dir t fd m A). unfold len_of, klen. lia.
    + rewrite <-Hext. destruct (dgrp_prefix dir type_key t (af_ledger A)
        (λ b, fd (b_desc b)) (Some m)) as [post Hg].
      eapply (convert_all_moved type_key (λ b, fd (b_desc b)) t dst (λ _ _, eq_refl)
        (λ b, proj1 (proj2 Hfd) (b_desc b)) t_dst dir t (Some m) _ A [] post).
      * done.
      * by eapply rep_af_ok.
      * exact Hg.
Qed.

Lemma convert_type_dry s A m :
  Rep (funds s) A → roomy full t A →
  outcome (split_convert_max_by_type (Some m) t dir filter (ret false) true) s (crowded full)
    (λ r s', r = (affected_users_sort_dedup (b_user <$> walk_of dir t fd m A),
                  Some (m - tt_of t A)) ∧ s' = s).
Proof.
  intros HR [Hroom Haff].
  eapply outcome_mono.
  { apply (dry_run_outcome (only_funds s) False (λ fs s', only_funds_set fs s s')
      (ret false) (λ s', never_ok s s' False) dir t filter (λ b, fd (b_desc b))
      (λ s' A' b HP _ _, transforms_returns s s' A' b HP) transforms_target s A (Some m)).
    - apply only_funds_refl.
    - done. }
  { intros e. apply (vec_room_crowded full (len_of t A)); [done|].
    pose proof (length_walk dir t fd m A). unfold walk_of, len_of, klen in *. lia. }
  intros r s' (vs & _ & [->|[]] & -> & HP & Hf).
  fold (walk_of dir t fd m A) in *.
  destruct (extracted_visited_all (λ b, fd (b_desc b)) (Some m)
    (dgrp dir type_key t (af_ledger A))) as [_ Hrem].
  { intros b [Hb _]%elem_of_dgrp. by apply Hfd. }
  fold (walk_of dir t fd m A) in *.
  rewrite total_dgrp_type in Hrem. split; [by rewrite Hrem|].
  rewrite HP, Hf. unfold funds. apply lens_set_get.
Qed.
End Convert.

(** Users that the walk does not visit move nothing. *)
Lemma walk_users u dir t fd m A :
  u ∉ affected_users_sort_dedup (b_user <$> walk_of dir t fd m A) →
  flow_of u (λ b, fd (b_desc b)) (Some m) (walk_of dir t fd m A) = 0.
Proof. rewrite elem_of_sort_dedup. apply flow_of_absent. Qed.

Section ConvertUser.
Variables (dir : SwapDirection) (u : N) (t dst : FundType).
Variable fd : FundDescription → option FundDescription.
Hypothesis fd_dst : ∀ d d', fd d = Some d' → fund_type d' = dst.
Hypothesis fd_all : ∀ d, fund_type d = t → is_Some (fd d).
Hypothesis t_dst : t ≠ dst.

Lemma flow_of_single om v bs : (∀ b, b ∈ bs → b_user b = v) →
  ∀ u', flow_of u' (λ b, fd (b_desc b)) om bs =
    if decide (u' = v) then l_extracted_all (λ b, fd (b_desc b)) om bs else 0.
Proof.
  intros Hv u'. unfold flow_of. case_decide as Hu.
  - apply flow_all. intros b d Hb _. apply bool_decide_true. rewrite Hu. auto.
  - apply flow_none. intros b d Hb _. apply bool_decide_false. rewrite (Hv b Hb). congruence.
Qed.

Lemma convert_user_moves s A m :
  Rep (funds s) A →
  af_max A + N.of_nat (length (grp user_key (u, t) (af_ledger A))) < usize_max_plus_1 →
  runs (split_convert_max_by_user (Some m) u t dir fd (ret false)) s
    (λ r s', r = (N.min m (ut_of u t A), Some (m - ut_of u t A)) ∧
      only_funds s s' ∧
      ∃ A', Rep (funds s') A' ∧
        grown dst (ulen_of u t A) A A' ∧
        moved t dst (N.min m (ut_of u t A))
          (λ u', if decide (u' = u) then N.min m (ut_of u t A) else 0) A A').
Proof.
  intros HR Hroom. set (f := λ b, fd (b_desc b)).
  set (bs := dgrp dir user_key (u, t) (af_ledger A)).
  eapply runs_mono.
  { apply (split_convert_max_by_user_rep (only_funds s) False
      (λ fs s', only_funds_set fs s s') (ret false) (λ s', never_ok s s' False) dir u t fd
      (λ d d' Hd Ht, t_dst (eq_trans (eq_sym Ht) (fd_dst d d' Hd))) s A (Some m)).
    - apply only_funds_refl.
    - done.
    - by rewrite length_dgrp. }
  intros r s' (vs & _ & [->|[]] & -> & HP & HR'). fold f bs in HR' |- *.
  destruct (extracted_visited_all f (Some m) bs) as [Hext Hrem].
  { intros b [[= _ Hb] _]%elem_of_dgrp. by apply fd_all. }
  unfold bs in Hext, Hrem. rewrite total_dgrp_user in Hext, Hrem. fold bs in Hext, Hrem.
  split_and!; [|done|].
  - by rewrite l_convert_all_fst, Hrem, Hext.
  - eexists. split_and!; [exact HR'| |].
    + eapply grown_weaken; [|apply grown_convert_all; intros; by eapply fd_dst].
      pose proof (prefix_length _ _ (visited_prefix f bs (Some m))) as Hlen.
      unfold bs, ulen_of, klen in *. rewrite length_dgrp in Hlen. lia.
    + rewrite <-Hext. destruct (dgrp_prefix dir user_key (u, t) (af_ledger A) f (Some m))
        as [post Hg].
      assert (∀ b, b ∈ visited f (Some m) bs → b_user b = u) as Husers.
      { intros b Hb. assert (b ∈ bs) as [[= ? _] _]%elem_of_dgrp; [|done].
        destruct (visited_prefix f bs (Some m)) as [k ->]. set_solver. }
      pose proof (convert_all_moved user_key f t dst (λ _ _, eq_refl)
        (λ b, fd_dst (b_desc b)) t_dst dir (u, t) (Some m) (visited f (Some m) bs) A [] post)
        as Hm.
      destruct Hm as [? ? ? Hs Hd ?]; [by intros c [= _ ?]|by eapply rep_af_ok|exact Hg|].
      pose proof (flow_of_single (Some m) u _ Husers) as Hfs. fold f in Hfs.
      split; try done; intros u'; rewrite <-Hfs; [apply Hs|apply Hd].
Qed.
End ConvertUser.
End InStorage.
