(* ===== verification/FundSpec.v ===== *)
(** * What the fund module promises

    The theorems about the operations of fund_module.rs, stated for stores that
    represent a ledger, and the stores that the operations reach. *)
From stdpp Require Import base numbers list gmap sets strings sorting relations.
From S2P Require Import Prelude PtrList FundTypes FundModule FundLedger FundRep FundLoops.
From S2P Require Import FundTotals.

(** ** Runs with a schedule of interrupts

    A loop asks its caller before each step whether to stop.  [Sched] is a fund
    store together with the answers still to come; after them nothing stops. *)
Definition Sched : Type := FundStore * list bool.

#[export] Program Instance sched_lens : Lens Sched FundStore := {|
  lens_get := fst; lens_set fs s := (fs, snd s) |}.
Next Obligation. done. Qed.
Next Obligation. by intros []. Qed.
Next Obligation. done. Qed.

Definition scheduled : M Sched bool := λ s,
  match snd s with
  | [] => Ok (false, s)
  | b :: bs => Ok (b, (fst s, bs))
  end.

(** A filter that looks at the owner, the description and the balance. *)
Abbreviation ItemFilter := (N → FundDescription → N → option FundDescription).
Definition item_filter {S} (g : ItemFilter) (i : FundItem) : M S (option FundDescription) :=
  ret (g (user_id i) (fund_desc i) (balance i)).
Definition bucket_filter (g : ItemFilter) (b : Bucket) : option FundDescription :=
  g (b_user b) (b_desc b) (b_bal b).

(** No description that the filter gives is of the source type. *)
Definition leaves (g : ItemFilter) (t : FundType) : Prop :=
  ∀ u d v d', g u d v = Some d' → fund_type d' ≠ t.

Section Scheduled.
Variable sched : list bool.

Definition sched_P (s : Sched) : Prop := snd s ⊆ sched.

Lemma sched_P_funds fs s : sched_P s → sched_P (lens_set fs s).
Proof. done. Qed.

Lemma scheduled_ok s :
  sched_P s → returns sched_P scheduled s (λ stop, stop = true → true ∈ sched).
Proof.
  unfold sched_P, returns, scheduled. destruct s as [fs [|b bs]]; simpl; intros Hs.
  - exists false, (fs, []). by split_and!.
  - exists b, (fs, bs). split_and!; set_solver.
Qed.

Lemma item_filter_ok g s A b :
  sched_P s → returns sched_P (item_filter g (item_of (af_ledger A) b)) s
    (λ o, o = bucket_filter g b).
Proof. intros HP. eexists _, _. by split_and!. Qed.

Lemma checkpoint_scheduled fs A cur t dir g pre bs :
  Rep fs A → leaves g t → dgrp dir type_key t (af_ledger A) = pre ++ bs →
  (if cur =? 0 then pre = [] else cur = head0 (ids bs)) →
  af_max A + N.of_nat (length bs) < usize_max_plus_1 →
  runs (split_convert_max_by_type_with_checkpoint cur t dir (item_filter g) scheduled) (fs, sched)
    (λ r s', ∃ vs rest, bs = vs ++ rest ∧ (rest = [] ∨ true ∈ sched) ∧
      r = head0 (ids rest) ∧ Rep (fst s') (snd (l_convert_all (bucket_filter g) None vs A))).
Proof.
  intros HR Hg Hd Hcur Hmax. eapply runs_mono.
  { apply (split_convert_checkpoint_rep (λ s A, sched_P s ∧ Rep (fst s) A) (true ∈ sched)
      dir t scheduled (item_filter g) (bucket_filter g)) with (A := A) (pre := pre) (bs := bs);
      try done.
    - by intros s A' [_ ?].
    - intros s A' [HP HR']. eapply runs_mono; [by apply scheduled_ok|].
      intros stop s' (Hst & HP' & Hfs). split_and!; [done..|]. simpl in Hfs. by rewrite Hfs.
    - intros s A' b [HP HR'] _ _. apply runs_ret. by split_and!.
    - intros b d. apply Hg.
    - split; [by intros ?|done]. }
  intros r s' (vs & rest & Hbs & Hst & Hr & _ & HR'). by exists vs, rest.
Qed.
End Scheduled.

(** ** Stores to start from *)
Definition empty_funds : AFunds := mk_AFunds 0 [].

Lemma empty_rep : Rep empty_FundStore empty_funds.
Proof. split; try done; simpl; try set_solver. by split; [apply NoDup_nil|set_solver]. Qed.

Definition increase_all (ops : list (N * FundDescription * N)) : M FundStore unit :=
  for_each ops tt (λ '(u, d, v) _, increase_fund_balance u d v).
Definition l_increase_all (ops : list (N * FundDescription * N)) (A : AFunds) : AFunds :=
  foldl (λ A '(u, d, v), l_increase u d v A) A ops.

Lemma af_max_l_increase u d v A : af_max (l_increase u d v A) ≤ af_max A + 1.
Proof. unfold l_increase, l_create. repeat case_match; simpl; lia. Qed.

Lemma increase_all_rep ops : ∀ fs A,
  Rep fs A → af_max A + N.of_nat (length ops) < usize_max_plus_1 →
  ∃ fs', increase_all ops fs = Ok (tt, fs') ∧ Rep fs' (l_increase_all ops A).
Proof.
  unfold increase_all.
  induction ops as [|[[u d] v] ops IH]; intros fs A HR Hmax; simpl; [by exists fs|].
  simpl in Hmax.
  destruct (increase_fund_balance_rep None fs A u d v HR) as (fs1 & Heq & HR1);
    [apply hole_free_None|lia|].
  pose proof (af_max_l_increase u d v A).
  destruct (IH fs1 _ HR1) as (fs' & Heq' & HR'); [lia|].
  exists fs'. unfold bind. by rewrite Heq.
Qed.

Definition store_after (ops : list (N * FundDescription * N)) : FundStore :=
  match increase_all ops empty_FundStore with
  | Ok (_, fs) => fs
  | Err _ => empty_FundStore
  end.

Lemma store_after_rep ops :
  N.of_nat (length ops) < usize_max_plus_1 →
  Rep (store_after ops) (l_increase_all ops empty_funds).
Proof.
  intros Hmax. unfold store_after.
  destruct (increase_all_rep ops _ _ empty_rep) as (fs & -> & HR); [|done].
  simpl. lia.
Qed.

(** A store for the concrete inputs: two users, coalesced payments included. *)
Definition demo_ops : list (N * FundDescription * N) :=
  [(1, FundDescription.Waiting 5, 10); (2, FundDescription.Waiting 6, 20);
   (1, FundDescription.Active, 7); (1, FundDescription.WithdrawOnly, 3);
   (1, FundDescription.WithdrawOnly, 4); (2, FundDescription.DeferredPayment 9, 8);
   (1, FundDescription.Waiting 7, 30)].
Definition demo_store : FundStore := store_after demo_ops.
Definition demo_funds : AFunds := l_increase_all demo_ops empty_funds.

Lemma demo_rep : Rep demo_store demo_funds.
Proof. by apply store_after_rep. Qed.

Definition to_active : ItemFilter := λ _ _ _, Some FundDescription.Active.

Lemma to_active_leaves : leaves to_active FundType.Waiting.
Proof. by intros u d v d' [= <-]. Qed.

(** ** Folding over a list *)
Lemma fold_list_rep {B K} `{EqDecision K} (k : Bucket → K) κ (next : FundItem → N)
    (g : B → FundItem → B) fs A :
  (∀ b, next (item_of (af_ledger A) b) = nxt k (af_ledger A) b) →
  Rep fs A →
  ∀ bs pre fuel acc,
  grp k κ (af_ledger A) = pre ++ bs → (length bs < fuel)%nat →
  fold_list fs next g fuel (head0 (ids bs)) acc =
    Ok (foldl (λ a b, g a (item_of (af_ledger A) b)) acc bs).
Proof.
  intros Hnext HR bs.
  induction bs as [|b bs IH]; intros pre fuel acc Hg Hfuel;
    (destruct fuel as [|fuel]; [simpl in Hfuel; lia|]); simpl; [done|].
  assert (b ∈ grp k κ (af_ledger A)) as [Hk Hb]%elem_of_grp by (rewrite Hg; set_solver).
  rewrite (proj2 (N.ltb_lt 0 (b_id b))) by (by apply (rep_id_pos HR)).
  rewrite (rep_fund_by_id HR), Hnext by done.
  change (nxt k (af_ledger A) b) with (dptr Forwards k (af_ledger A) b).
  rewrite (dptr_walk k Forwards κ _ pre b bs) by (done || apply (rep_nodup HR)).
  simpl in Hfuel. apply (IH (pre ++ [b])); [by rewrite <-(assoc_L (++))|lia].
Qed.

Lemma fold_type_list_rep {B} (g : B → FundItem → B) fs A t acc :
  Rep fs A →
  fold_list fs type_list_next g (loop_fuel fs) (first (fund_list_by_type t fs)) acc =
    Ok (foldl (λ a b, g a (item_of (af_ledger A) b)) acc (grp type_key t (af_ledger A))).
Proof.
  intros HR. rewrite (rep_type _ _ _ HR).
  apply (fold_list_rep type_key t _ _ fs A) with (pre := []); try done.
  pose proof (rep_length fs A HR).
  pose proof (dgrp_length Forwards type_key t (af_ledger A)).
  unfold loop_fuel. simpl in *. lia.
Qed.

Lemma fold_user_list_rep {B} (g : B → FundItem → B) fs A u t acc :
  Rep fs A →
  fold_list fs user_list_next g (loop_fuel fs) (first (fund_list_by_user u t fs)) acc =
    Ok (foldl (λ a b, g a (item_of (af_ledger A) b)) acc
          (grp user_key (u, t) (af_ledger A))).
Proof.
  intros HR. rewrite (rep_user _ _ _ HR).
  apply (fold_list_rep user_key (u, t) _ _ fs A) with (pre := []); try done.
  pose proof (rep_length fs A HR).
  pose proof (dgrp_length Forwards user_key (u, t) (af_ledger A)).
  unfold loop_fuel. simpl in *. lia.
Qed.

Lemma foldl_sum {X} (w : X → N) l acc :
  foldl (λ a x, a + w x) acc l = acc + foldr (λ x s, w x + s) 0 l.
Proof. revert acc. induction l as [|x l IH]; intros acc; simpl; [lia|]. rewrite IH. lia. Qed.

Lemma foldl_sum_if (w : Bucket → N) (p : Bucket → bool) l acc :
  foldl (λ a b, if p b then a + w b else a) acc l =
    acc + foldr (λ b s, (if p b then w b else 0) + s) 0 l.
Proof.
  revert acc. induction l as [|b l IH]; intros acc; simpl; [lia|].
  rewrite IH. case_match; lia.
Qed.

Lemma amount_grp_and {K} `{EqDecision K} (k : Bucket → K) κ p q L :
  (∀ b, q (b_user b) (b_desc b) = bool_decide (k b = κ)) →
  amount p (grp k κ L) = amount (λ u d, q u d && p u d) L.
Proof.
  intros Hq. unfold grp. induction L as [|b L IH]; simpl; [done|].
  unfold worth at 1, share. rewrite Hq. case_bool_decide.
  - rewrite filter_cons_True by done. simpl. by rewrite IH.
  - rewrite filter_cons_False by done. by rewrite IH.
Qed.

(** ** The operations implement their ledger counterparts *)

(** C28: crediting a user with an amount, by a new fund item at the end of both
    lists or by topping up the user's last item, runs without error and leaves
    a store that represents the ledger with that amount added. *)
Theorem increase_fund_balance_refines fs A u d v :
  Rep fs A → af_max A + 1 < usize_max_plus_1 →
  ∃ fs', increase_fund_balance u d v fs = Ok (tt, fs') ∧ Rep fs' (l_increase u d v A).
Proof. intros. by apply increase_fund_balance_rep; [|apply hole_free_None|]. Qed.

Lemma increase_fund_balance_refines_witness :
  ∃ fs', increase_fund_balance 1 FundDescription.WithdrawOnly 6 demo_store = Ok (tt, fs') ∧
    Rep fs' (l_increase 1 FundDescription.WithdrawOnly 6 demo_funds).
Proof. apply increase_fund_balance_refines; [apply demo_rep|by vm_compute]. Defined.



(** C27: the conversion of one user's funds of a type does the same on the list
    of that user and type, and returns the total amount it converted. *)
Theorem split_convert_max_by_user_refines fs A om u t dir fd sched :
  let f := λ b, fd (b_desc b) in
  let bs := dgrp dir user_key (u, t) (af_ledger A) in
  Rep fs A → (∀ d d', fd d = Some d' → fund_type d' ≠ t) →
  af_max A + N.of_nat (length bs) < usize_max_plus_1 →
  ∃ vs fs' sched',
    split_convert_max_by_user om u t dir fd scheduled (fs, sched) =
      Ok ((l_extracted_all f om vs, fst (l_convert_all f om vs A)), (fs', sched')) ∧
    vs `prefix_of` visited f om bs ∧ (vs = visited f om bs ∨ true ∈ sched) ∧
    Rep fs' (snd (l_convert_all f om vs A)).
Proof.
  intros f bs HR Hfd Hmax.
  destruct (split_convert_max_by_user_rep (sched_P sched) (true ∈ sched)
    (sched_P_funds sched) scheduled (scheduled_ok sched) dir u t fd Hfd (fs, sched) A om)
    as (r & [fs' sched'] & Heq & vs & Hvs & Hst & -> & _ & HR'); [by intros ?|done|done|].
  by exists vs, fs', sched'.
Qed.

Lemma split_convert_max_by_user_refines_witness :
  let fd := λ d, match d with
                 | FundDescription.Waiting _ => Some FundDescription.WithdrawOnly
                 | _ => None end in
  let f := λ b, fd (b_desc b) in
  let bs := dgrp Backwards user_key (1, FundType.Waiting) (af_ledger demo_funds) in
  ∃ vs fs' sched',
    split_convert_max_by_user (Some 35) 1 FundType.Waiting Backwards fd scheduled
      (demo_store, []) =
      Ok ((l_extracted_all f (Some 35) vs, fst (l_convert_all f (Some 35) vs demo_funds)),
          (fs', sched')) ∧
    vs `prefix_of` visited f (Some 35) bs ∧ (vs = visited f (Some 35) bs ∨ true ∈ []) ∧
    Rep fs' (snd (l_convert_all f (Some 35) vs demo_funds)).
Proof.
  apply split_convert_max_by_user_refines; [apply demo_rep| |by vm_compute].
  by intros [] d' [= <-].
Defined.

(** The conversion with a checkpoint, started at the list's end or at an id
    of the list, converts every bucket from there on that the filter accepts
    and returns the id to continue from: null exactly when the list is done,
    and otherwise the first bucket it did not visit. *)
Theorem split_convert_checkpoint_refines fs A cur t dir g pre bs sched :
  let f := bucket_filter g in
  Rep fs A → leaves g t →
  dgrp dir type_key t (af_ledger A) = pre ++ bs →
  (if cur =? 0 then pre = [] else cur = head0 (ids bs)) →
  af_max A + N.of_nat (length bs) < usize_max_plus_1 →
  ∃ vs rest fs' sched',
    split_convert_max_by_type_with_checkpoint cur t dir (item_filter g) scheduled
      (fs, sched) = Ok (head0 (ids rest), (fs', sched')) ∧
    bs = vs ++ rest ∧ (rest = [] ∨ true ∈ sched) ∧
    Rep fs' (snd (l_convert_all f None vs A)).
Proof.
  intros f HR Hg Hd Hcur Hmax.
  destruct (checkpoint_scheduled sched fs A cur t dir g pre bs HR Hg Hd Hcur Hmax)
    as (r & [fs' sched'] & Heq & vs & rest & Hbs & Hst & -> & HR').
  by exists vs, rest, fs', sched'.
Qed.

Definition dust_to_withdraw : ItemFilter := λ _ _ v,
  if v <? 25 then Some FundDescription.WithdrawOnly else None.

Lemma split_convert_checkpoint_refines_witness :
  let f := bucket_filter dust_to_withdraw in
  let bs := dgrp Backwards type_key FundType.Waiting (af_ledger demo_funds) in
  ∃ vs rest fs' sched',
    split_convert_max_by_type_with_checkpoint 0 FundType.Waiting Backwards
      (item_filter dust_to_withdraw) scheduled (demo_store, [false; false; true]) =
      Ok (head0 (ids rest), (fs', sched')) ∧
    bs = vs ++ rest ∧ (rest = [] ∨ true ∈ [false; false; true]) ∧
    Rep fs' (snd (l_convert_all f None vs demo_funds)).
Proof.
  apply (split_convert_checkpoint_refines _ _ 0 _ _ _ []);
    [apply demo_rep| |done|done|by vm_compute].
  intros u d v d'. unfold dust_to_withdraw. case_match; [|done]. by intros [= <-].
Defined.

(** Destroying the funds of a user and type removes them in list order (all
    of them unless an interrupt fires) and returns exactly their total. *)
Theorem destroy_all_for_user_refines fs A u t sched :
  let bs := grp user_key (u, t) (af_ledger A) in
  Rep fs A →
  ∃ vs fs' sched',
    destroy_all_for_user u t scheduled (fs, sched) = Ok (total vs, (fs', sched')) ∧
    vs `prefix_of` bs ∧ (vs = bs ∨ true ∈ sched) ∧ Rep fs' (l_remove_all vs A).
Proof.
  intros bs HR.
  destruct (destroy_all_for_user_rep (sched_P sched) (true ∈ sched)
    (sched_P_funds sched) scheduled (scheduled_ok sched) u t (fs, sched) A)
    as (r & [fs' sched'] & Heq & vs & Hvs & Hst & -> & _ & HR'); [by intros ?|done|].
  by exists vs, fs', sched'.
Qed.

Lemma destroy_all_for_user_refines_witness :
  let bs := grp user_key (1, FundType.WithdrawOnly) (af_ledger demo_funds) in
  ∃ vs fs' sched',
    destroy_all_for_user 1 FundType.WithdrawOnly scheduled (demo_store, []) =
      Ok (total vs, (fs', sched')) ∧
    vs `prefix_of` bs ∧ (vs = bs ∨ true ∈ []) ∧ Rep fs' (l_remove_all vs demo_funds).
Proof. apply destroy_all_for_user_refines, demo_rep. Defined.

(** C29: an uninterrupted dry run predicts the conversion: it returns the same
    affected users and the same rest of the maximum, and changes nothing. *)
Theorem dry_run_agrees fs A om t dir g :
  let f := bucket_filter g in
  let bs := dgrp dir type_key t (af_ledger A) in
  Rep fs A → leaves g t →
  af_max A + N.of_nat (length bs) < usize_max_plus_1 →
  N.of_nat (length (visited f om bs)) ≤ MAX_AFFECTED_USERS →
  ∃ r fs',
    split_convert_max_by_type om t dir (item_filter g) (ret false) true fs = Ok (r, fs) ∧
    split_convert_max_by_type om t dir (item_filter g) (ret false) false fs = Ok (r, fs').
Proof.
  intros f bs HR Hg Hmax Haff.
  assert (∀ s : FundStore, True →
    returns (λ _, True) (ret false) s (λ stop, stop = true → False)) as Hint.
  { intros s _. by exists false, s. }
  assert (∀ (s : FundStore) B b, True → Rep (funds s) B → b ∈ af_ledger B →
    returns (λ _, True) (item_filter g (item_of (af_ledger B) b)) s (λ o, o = f b)) as Hf.
  { intros. eexists _, s. by split_and!. }
  destruct (dry_run_rep (λ _, True) False (λ _ _ _, I) (ret false) Hint dir t
    (item_filter g) f Hf (λ b d, Hg _ _ _ d) fs A om)
    as (r & s & Heq & vs & _ & Hst & -> & _ & Hs); try done.
  destruct (split_convert_max_by_type_rep (λ _, True) False (λ _ _ _, I) (ret false) Hint
    dir t (item_filter g) f Hf (λ b d, Hg _ _ _ d) fs A om)
    as (r & fs' & Heq' & vs' & _ & Hst' & -> & _ & _); try done.
  destruct Hst as [->|[]], Hst' as [->|[]]. unfold funds in Hs. simpl in Hs. subst s.
  eexists _, fs'. split; [exact Heq|]. by rewrite Heq', l_convert_all_fst.
Qed.

Lemma dry_run_agrees_witness :
  ∃ r fs',
    split_convert_max_by_type (Some 25) FundType.Waiting Forwards (item_filter to_active)
      (ret false) true demo_store = Ok (r, demo_store) ∧
    split_convert_max_by_type (Some 25) FundType.Waiting Forwards (item_filter to_active)
      (ret false) false demo_store = Ok (r, fs').
Proof.
  eapply dry_run_agrees; [apply demo_rep|apply to_active_leaves|by vm_compute|by vm_compute].
Defined.
