(* ===== verification/FundInvariant.v ===== *)
(** * Reachable fund stores

    The consistency check of the fund storage (the one that its tests run after
    every operation), the stores that the operations reach from an empty one,
    and the sums and counts that the queries compute on them. *)
From stdpp Require Import base numbers list gmap sets strings sorting relations.
From S2P Require Import Prelude PtrList FundTypes FundModule FundLedger FundRep FundLoops.
From S2P Require Import FundTotals FundMoves FundSpec.

(** ** The consistency check

    One walk over a list: every item's previous pointer leads back to the item
    before it, the last item is the list's last, all items satisfy [ok], and
    the balances add up.  [None] when the walk does not end in its bound. *)
Fixpoint check_list (fs : FundStore) (next prev : FundItem → N) (ok : FundItem → bool)
    (list_last : N) (fuel : nat) (id prev_id sum : N) : option (bool * N) :=
  match fuel with
  | O => None
  | S fuel =>
      if 0 <? id then
        let fund_item := fund_by_id id fs in
        match check_list fs next prev ok list_last fuel (next fund_item) id
                (sum + balance fund_item) with
        | Some (b, total) =>
            Some (ok fund_item && (prev fund_item =? prev_id)
                  && (if next fund_item =? 0 then list_last =? id else true) && b, total)
        | None => None
        end
      else Some (true, sum)
  end.

Definition passed (r : option (bool * N)) (total : N) : bool :=
  match r with Some (b, sum) => b && (sum =? total) | None => false end.

Definition check_consistency_for_type (fs : FundStore) (t : FundType) : bool :=
  let type_list := fund_list_by_type t fs in
  passed (check_list fs type_list_next type_list_prev (λ _, true) (last type_list)
            (loop_fuel fs) (first type_list) 0 0) (total_balance type_list).

Definition check_consistency_for_user_type (fs : FundStore) (user : N) (t : FundType)
    : bool :=
  let user_type_list := fund_list_by_user user t fs in
  passed (check_list fs user_list_next user_list_prev (λ i, user_id i =? user)
            (last user_type_list) (loop_fuel fs) (first user_type_list) 0 0)
    (total_balance user_type_list).

Definition check_consistency (fs : FundStore) (num_users : N) : bool :=
  forallb (λ t,
    check_consistency_for_type fs t
    && forallb (λ u, check_consistency_for_user_type fs u t) (ids_up_to num_users))
    ALL_TYPES.

Section CheckRep.
Context {K : Type} `{EqDecision K} (k : Bucket → K) (κ : K).
Context (next prev : FundItem → N) (ok : FundItem → bool).
Context {fs : FundStore} {A : AFunds} (HR : Rep fs A).
Let L := af_ledger A.
Hypothesis Hnext : ∀ b, next (item_of L b) = nxt k L b.
Hypothesis Hprev : ∀ b, prev (item_of L b) = prv k L b.
Hypothesis Hok : ∀ b, k b = κ → ok (item_of L b) = true.

Lemma check_list_rep bs : ∀ pre fuel sum,
  grp k κ L = pre ++ bs → (length bs < fuel)%nat →
  check_list fs next prev ok (last0 (ids (grp k κ L))) fuel
    (head0 (ids bs)) (last0 (ids pre)) sum = Some (true, sum + total bs).
Proof.
  induction bs as [|b bs IH]; intros pre fuel sum Hg Hfuel;
    (destruct fuel as [|fuel]; [simpl in Hfuel; lia|]); simpl.
  { by rewrite N.add_0_r. }
  assert (b ∈ grp k κ L) as [Hk Hb]%elem_of_grp by (rewrite Hg; set_solver).
  pose proof (rep_nodup HR) as Hnd. pose proof (nodup_grp k κ L Hnd) as Hndg.
  rewrite (proj2 (N.ltb_lt 0 (b_id b))) by (by apply (rep_id_pos HR)).
  rewrite (rep_fund_by_id HR) by done. fold L. rewrite Hnext, Hprev, Hok by done.
  assert (nxt k L b = head0 (ids bs)) as Hn
    by (exact (dptr_walk k Forwards κ L pre b bs Hnd Hg)).
  assert (prv k L b = last0 (ids pre)) as Hp.
  { unfold last0. unfold ids. rewrite <-fmap_reverse.
    apply (dptr_walk k Backwards κ L (reverse bs) b (reverse pre) Hnd).
    simpl. by rewrite Hg, reverse_app, reverse_cons, <-(assoc_L (++)). }
  rewrite Hn, Hp, N.eqb_refl. simpl.
  pose proof (IH (pre ++ [b]) fuel (sum + b_bal b)) as IHb.
  rewrite ids_snoc, last0_snoc in IHb.
  rewrite IHb; [|by rewrite <-(assoc_L (++))|simpl in Hfuel; lia].
  rewrite Hg. destruct bs as [|c bs]; simpl.
  - rewrite ids_snoc, last0_snoc, N.eqb_refl. simpl. do 2 f_equal. lia.
  - destruct (N.eqb_spec (b_id c) 0) as [H0|_].
    + assert (c ∈ L) as Hc%(rep_id_pos HR); [|lia].
      eapply (elem_of_grp k). rewrite Hg. set_solver.
    + simpl. do 2 f_equal. lia.
Qed.

Lemma check_list_whole :
  passed (check_list fs next prev ok (last0 (ids (grp k κ L))) (loop_fuel fs)
            (head0 (ids (grp k κ L))) 0 0) (total (grp k κ L)) = true.
Proof.
  pose proof (rep_length fs A HR).
  pose proof (dgrp_length Forwards k κ (af_ledger A)) as Hlen. simpl in Hlen.
  pose proof (check_list_rep (grp k κ L) [] (loop_fuel fs) 0 eq_refl) as Hc.
  change (last0 (ids [])) with 0 in Hc.
  rewrite Hc; [|unfold loop_fuel, L; lia]. simpl. apply N.eqb_refl.
Qed.
End CheckRep.

Lemma check_type_rep fs A t : Rep fs A → check_consistency_for_type fs t = true.
Proof.
  intros HR. unfold check_consistency_for_type. rewrite (rep_type _ _ _ HR).
  by apply (check_list_whole type_key t).
Qed.

Lemma check_user_type_rep fs A u t :
  Rep fs A → check_consistency_for_user_type fs u t = true.
Proof.
  intros HR. unfold check_consistency_for_user_type. rewrite (rep_user _ _ _ HR).
  apply (check_list_whole user_key (u, t)); try done.
  intros b [= Hu _]. simpl. rewrite Hu. apply N.eqb_refl.
Qed.

Lemma check_rep fs A n : Rep fs A → check_consistency fs n = true.
Proof.
  intros HR. unfold check_consistency. apply forallb_forall. intros t _.
  rewrite (check_type_rep fs A) by done. simpl. apply forallb_forall. intros u _.
  by eapply check_user_type_rep.
Qed.

(** ** The steps of a fund store

    Every operation of the module with any arguments and schedule of interrupts and
    any filter that changes the type of what it converts, as long as the ids that
    it may give out do not wrap around.  A conversion with a checkpoint starts
    from the beginning (0) or from any stored fund, whose list it then walks; the
    id of a deleted fund is left out, which corrupts the lists (see Findings.v). *)
Definition ids_left (fs : FundStore) : Prop :=
  fs_fund_max_id fs + N.of_nat (size (fs_fund_by_id fs)) + 1 < usize_max_plus_1.

Lemma ids_left_dgrp {K} `{EqDecision K} fs A dir (k : Bucket → K) κ :
  Rep fs A → ids_left fs →
  af_max A + N.of_nat (length (dgrp dir k κ (af_ledger A))) < usize_max_plus_1.
Proof.
  unfold ids_left. intros HR. rewrite (rep_max _ _ _ HR).
  pose proof (rep_length fs A HR). pose proof (dgrp_length dir k κ (af_ledger A)). lia.
Qed.
Lemma ids_left_walk fs A dir t pre bs :
  Rep fs A → ids_left fs → dgrp dir type_key t (af_ledger A) = pre ++ bs →
  af_max A + N.of_nat (length bs) < usize_max_plus_1.
Proof.
  intros HR Hl Hg. pose proof (ids_left_dgrp fs A dir type_key t HR Hl) as Hd.
  rewrite Hg, length_app in Hd. lia.
Qed.

(** The list that a conversion of funds of type [t] from [id] walks. *)
Definition walks (id : N) (t : FundType) (fs : FundStore) (walked : FundType) : Prop :=
  id = 0 ∧ walked = t ∨
  ∃ i, fs_fund_by_id fs !! id = Some i ∧ walked = fund_type (fund_desc i).

Inductive fund_step : FundStore → FundStore → Prop :=
| step_increase fs u d v fs' :
    ids_left fs → increase_fund_balance u d v fs = Ok (tt, fs') → fund_step fs fs'
| step_convert_by_type fs om t dir g sched r fs' sched' :
    ids_left fs → leaves g t →
    split_convert_max_by_type om t dir (item_filter g) scheduled false (fs, sched) =
      Ok (r, (fs', sched')) → fund_step fs fs'
| step_convert_from fs id t walked dir g sched r fs' sched' :
    ids_left fs → walks id t fs walked → leaves g walked →
    split_convert_max_by_type_with_checkpoint id t dir (item_filter g) scheduled (fs, sched) =
      Ok (r, (fs', sched')) → fund_step fs fs'
| step_convert_by_user fs om u t dir fd sched r fs' sched' :
    ids_left fs → (∀ d d', fd d = Some d' → fund_type d' ≠ t) →
    split_convert_max_by_user om u t dir fd scheduled (fs, sched) =
      Ok (r, (fs', sched')) → fund_step fs fs'
| step_destroy fs u t sched r fs' sched' :
    destroy_all_for_user u t scheduled (fs, sched) = Ok (r, (fs', sched')) →
    fund_step fs fs'.

Definition fund_reachable : FundStore → Prop := rtc fund_step empty_FundStore.

Lemma converted_from fs A id t walked dir g sched r fs' sched' :
  Rep fs A → ids_left fs → walks id t fs walked → leaves g walked →
  split_convert_max_by_type_with_checkpoint id t dir (item_filter g) scheduled (fs, sched) =
    Ok (r, (fs', sched')) → ∃ A', Rep fs' A'.
Proof.
  intros HR Hl Hw Hg Heq.
  destruct (stored_split dir walked id HR) as (pre & bs & Hsplit & Hcur).
  { destruct Hw as [[-> _]|(i & Hi & ->)]; [by left|right; by exists i]. }
  assert (split_convert_max_by_type_with_checkpoint id walked dir (item_filter g) scheduled
    (fs, sched) = Ok (r, (fs', sched'))) as Heq'.
  { rewrite <-Heq. unfold split_convert_max_by_type_with_checkpoint.
    destruct Hw as [[_ ->]|(i & Hi & _)]; [done|]. destruct (N.eqb_spec id 0) as [->|]; [|done].
    rewrite (rep_none _ _ _ HR 0) in Hi; [done| |done].
    intros (b & Hz & Hb)%list_elem_of_fmap. pose proof (rep_id_pos HR b Hb). lia. }
  destruct (runs_inv _ _ _ _ _ (checkpoint_scheduled sched fs A id walked dir g pre bs
    HR Hg Hsplit Hcur (ids_left_walk fs A dir walked pre bs HR Hl Hsplit)) Heq')
    as (vs & rest & _ & _ & _ & HR'). eauto.
Qed.

Lemma fund_step_rep fs fs' A : Rep fs A → fund_step fs fs' → ∃ A', Rep fs' A'.
Proof.
  intros HR Hstep.
  inversion Hstep as [? u d v ? Hl Heq|? om t dir g sched r ? sched' Hl Hg Heq
    |? id t walked dir g sched r ? sched' Hl Hw Hg Heq|? om u t dir fd sched r ? sched' Hl Hfd Heq
    |? u t sched r ? sched' Heq]; subst.
  - destruct (increase_fund_balance_rep None fs A u d v HR) as (fs1 & Heq' & HR1);
      [apply hole_free_None| |rewrite Heq in Heq'; injection Heq' as ->; eauto].
    unfold ids_left in Hl. rewrite (rep_max _ _ _ HR) in Hl. lia.
  - pose proof (split_convert_max_by_type_outcome (sched_P sched) (true ∈ sched)
      (sched_P_funds sched) scheduled (scheduled_ok sched) dir t (item_filter g)
      (bucket_filter g) (λ s A b HP _ _, item_filter_ok sched g s A b HP)
      (λ b d, Hg _ _ _ d) (fs, sched) A om (λ _ H, H) HR (ids_left_dgrp fs A _ _ _ HR Hl)) as Ho.
    unfold outcome in Ho. rewrite Heq in Ho. destruct Ho as (vs & _ & _ & _ & _ & HR').
    eauto.
  - by eapply converted_from.
  - destruct (runs_inv _ _ _ _ _ (split_convert_max_by_user_rep (sched_P sched)
      (true ∈ sched) (sched_P_funds sched) scheduled (scheduled_ok sched) dir u t fd Hfd
      (fs, sched) A om (λ _ H, H) HR (ids_left_dgrp fs A _ _ _ HR Hl)) Heq)
      as (vs & _ & _ & _ & _ & HR'). eauto.
  - destruct (runs_inv _ _ _ _ _ (destroy_all_for_user_rep (sched_P sched) (true ∈ sched)
      (sched_P_funds sched) scheduled (scheduled_ok sched) u t (fs, sched) A
      (λ _ H, H) HR) Heq) as (vs & _ & _ & _ & _ & HR'). eauto.
Qed.

(** C25: every store that the operations reach from an empty one passes the
    consistency check, for any number of users: all lists are doubly linked from
    first to last, belong to their user, and add up to their headers.  The
    operations are all of the fund storage with any arguments and interrupts: new
    balances, conversions along the list of a type, from its beginning or from any
    stored fund, along the list of a user and type, and the destruction of a
    user's funds; their filters change the type of what they convert, ids last,
    and no conversion is resumed at a deleted fund. *)
Theorem reachable_consistent fs n : fund_reachable fs → check_consistency fs n = true.
Proof.
  intros Hr. assert (∃ A, Rep fs A) as [A HR]; [|by eapply check_rep].
  revert fs Hr. apply (rtc_ind_r (R:=fund_step) (λ fs, ∃ A, Rep fs A) empty_FundStore);
    [|intros fs1 fs2 _ Hstep [A HR]].
  - eexists. apply empty_rep.
  - by eapply fund_step_rep.
Qed.

(** Three users wait; a conversion of active funds is resumed at the fund of the
    second one, and converts the dust that waits. *)
Definition waiting_stakes (n : nat) : FundStore :=
  store_after (take n [(1, FundDescription.Waiting 3, 7); (2, FundDescription.Waiting 4, 70);
    (3, FundDescription.Waiting 5, 9)]).
Definition resumed_at_2 : result (N * Sched) :=
  split_convert_max_by_type_with_checkpoint 2 FundType.Active Backwards
    (item_filter dust_to_withdraw) scheduled (waiting_stakes 3, []).

Definition resumed_store : FundStore :=
  match resumed_at_2 with Ok (_, (fs, _)) => fs | Err _ => empty_FundStore end.

Lemma reachable_consistent_witness :
  resumed_at_2 = Ok (0, (resumed_store, [])) ∧ fund_reachable resumed_store ∧
  total_balance (fund_list_by_type FundType.WithdrawOnly resumed_store) = 7 ∧
  total_balance (fund_list_by_type FundType.Waiting resumed_store) = 79 ∧
  check_consistency resumed_store 3 = true.
Proof.
  assert (resumed_at_2 = Ok (0, (resumed_store, []))) as Hrun by (vm_compute; reflexivity).
  assert (fund_reachable resumed_store) as Hr.
  { apply (rtc_l _ _ (waiting_stakes 1)); [|apply (rtc_l _ _ (waiting_stakes 2));
      [|apply (rtc_l _ _ (waiting_stakes 3)); [|apply rtc_once]]].
    - apply (step_increase _ 1 (FundDescription.Waiting 3) 7); vm_compute; reflexivity.
    - apply (step_increase _ 2 (FundDescription.Waiting 4) 70); vm_compute; reflexivity.
    - apply (step_increase _ 3 (FundDescription.Waiting 5) 9); vm_compute; reflexivity.
    - apply (step_convert_from _ 2 FundType.Active FundType.Waiting Backwards dust_to_withdraw
        [] 0 _ []); [vm_compute; reflexivity| | |exact Hrun].
      + right. exists (fund_by_id 2 (waiting_stakes 3)). split; vm_compute; reflexivity.
      + intros u d v d'. unfold dust_to_withdraw. case_match; [|done]. by intros [= <-]. }
  split; [exact Hrun|]. split; [exact Hr|]. split; [vm_compute; reflexivity|].
  split; [vm_compute; reflexivity|]. exact (reachable_consistent _ 3 Hr).
Defined.

(** ** Queries *)

(** A sum over all ids sees every bucket once. *)
Lemma grp_id_nil L i : i ∉ ids L → grp b_id i L = [].
Proof.
  unfold grp. induction L as [|b L IH]; intros Hi; [done|].
  unfold ids in Hi; simpl in Hi. rewrite filter_cons_False by set_solver.
  apply IH. set_solver.
Qed.

Lemma grp_id_single L b : NoDup (ids L) → b ∈ L → grp b_id (b_id b) L = [b].
Proof.
  induction L as [|c L IH]; [set_solver|]. unfold ids; simpl.
  intros [Hc Hnd]%NoDup_cons [->|Hb]%elem_of_cons; unfold grp.
  - rewrite filter_cons_True by done. f_equal. by apply grp_id_nil.
  - rewrite filter_cons_False; [by apply IH|]. intros Heq. destruct Hc. rewrite Heq.
    by apply elem_of_ids_2.
Qed.

Lemma sum_indicator (w j : N) (l : list N) :
  NoDup l → foldr (λ i s, (if decide (j = i) then w else 0) + s) 0 l =
            if decide (j ∈ l) then w else 0.
Proof.
  induction l as [|i l IH]; intros Hnd; [by rewrite decide_False by set_solver|].
  apply NoDup_cons in Hnd as [Hi Hnd]. simpl. rewrite IH by done.
  destruct (decide (j = i)) as [->|Hne].
  - rewrite decide_False, decide_True by set_solver. lia.
  - rewrite N.add_0_l. apply decide_ext. set_solver.
Qed.

Lemma foldr_plus {X} (v w : X → N) l :
  foldr (λ x s, (v x + w x) + s) 0 l =
    foldr (λ x s, v x + s) 0 l + foldr (λ x s, w x + s) 0 l.
Proof. induction l as [|x l IH]; simpl; [done|]. rewrite IH. lia. Qed.

Lemma sum_grp_id p L l :
  NoDup l → ids L ⊆ l → foldr (λ i s, amount p (grp b_id i L) + s) 0 l = amount p L.
Proof.
  intros Hnd. induction L as [|b L IH]; intros Hsub; simpl.
  - clear. induction l; simpl; [done|lia].
  - unfold ids in Hsub; simpl in Hsub.
    transitivity (foldr (λ i s, ((if decide (b_id b = i) then worth p b else 0)
      + amount p (grp b_id i L)) + s) 0 l).
    { clear. induction l as [|i l IHl]; simpl; [done|]. rewrite IHl. f_equal.
      unfold grp. case_decide.
      - by rewrite filter_cons_True.
      - by rewrite filter_cons_False. }
    rewrite foldr_plus, IH, sum_indicator by set_solver.
    by rewrite decide_True by set_solver.
Qed.

Lemma brute_force_rep fs A p :
  Rep fs A → query_sum_all_funds_brute_force p fs = amount p (af_ledger A).
Proof.
  intros HR. unfold query_sum_all_funds_brute_force. rewrite (rep_max _ _ _ HR).
  transitivity (foldl (λ a i, a + amount p (grp b_id i (af_ledger A))) 0
    (ids_up_to (af_max A))).
  - generalize 0 as acc. induction (ids_up_to (af_max A)) as [|i l IH]; intros acc; [done|].
    simpl. rewrite <-IH. f_equal. destruct (decide (i ∈ ids (af_ledger A))) as [Hi|Hi].
    + apply elem_of_ids in Hi as (b & Hb & <-).
      rewrite (rep_fund_by_id HR) by done. rewrite grp_id_single; [|apply (rep_nodup HR)|done].
      simpl. unfold worth, share. case_match; lia.
    + rewrite grp_id_nil by done. unfold fund_by_id. rewrite (rep_none _ _ _ HR) by done.
      simpl. case_match; lia.
  - rewrite foldl_sum, N.add_0_l. apply sum_grp_id; [apply nodup_ids_up_to|].
    intros i (b & Hb & <-)%elem_of_ids. apply elem_of_ids_up_to.
    pose proof (rep_id_pos HR b Hb). pose proof (rep_le _ _ _ HR b Hb). lia.
Qed.

Lemma query_user_rep fs A u t q :
  Rep fs A →
  query_sum_funds_by_user_type u t q fs =
    Ok (amount (λ u' d, of_user_type u t u' d && q d) (af_ledger A)).
Proof.
  intros HR. unfold query_sum_funds_by_user_type. rewrite (fold_user_list_rep _ fs A) by done.
  f_equal. change (foldl (λ a b, if q (b_desc b) then a + b_bal b else a) 0
    (grp user_key (u, t) (af_ledger A)) =
    amount (λ u' d, of_user_type u t u' d && q d) (af_ledger A)).
  rewrite (foldl_sum_if b_bal (λ b, q (b_desc b))).
  rewrite <-(amount_grp_and user_key (u, t) (λ _ d, q d)); [done|].
  apply of_user_type_spec.
Qed.

(** On a store that represents a ledger the queries return exactly the sums
    of the matching balances, whichever way they look for them: along the list
    of a type, along the list of a user and type, or over all ids. *)
Theorem queries_exact fs A u t p q :
  Rep fs A →
  query_sum_funds_by_type t p fs = Ok (amount (λ u d, of_type t u d && p u d) (af_ledger A)) ∧
  query_sum_funds_by_user_type u t q fs =
    Ok (amount (λ u' d, of_user_type u t u' d && q d) (af_ledger A)) ∧
  query_sum_all_funds_brute_force p fs = amount p (af_ledger A).
Proof.
  intros HR. split_and!.
  - unfold query_sum_funds_by_type. rewrite (fold_type_list_rep _ fs A) by done. f_equal.
    change (foldl (λ a b, if p (b_user b) (b_desc b) then a + b_bal b else a) 0
      (grp type_key t (af_ledger A)) = amount (λ u d, of_type t u d && p u d) (af_ledger A)).
    rewrite (foldl_sum_if b_bal (λ b, p (b_user b) (b_desc b))).
    by rewrite <-(amount_grp_and type_key t p).
  - by apply query_user_rep.
  - by apply brute_force_rep.
Qed.

Lemma queries_exact_witness :
  query_sum_funds_by_type FundType.Waiting (λ u _, u =? 1) demo_store =
    Ok (amount (λ u d, of_type FundType.Waiting u d && (u =? 1)) (af_ledger demo_funds)) ∧
  query_sum_funds_by_user_type 1 FundType.Waiting (λ _, true) demo_store =
    Ok (amount (λ u d, of_user_type 1 FundType.Waiting u d && true) (af_ledger demo_funds)) ∧
  query_sum_all_funds_brute_force (λ u _, u =? 1) demo_store =
    amount (λ u _, u =? 1) (af_ledger demo_funds).
Proof.
  exact (queries_exact demo_store demo_funds 1 FundType.Waiting (λ u _, u =? 1) (λ _, true) demo_rep).
Defined.

(** The affected users of a conversion, collected with repetitions along the
    way, come out sorted and without repetitions, and none is lost or added. *)
Theorem affected_users_exact v :
  StronglySorted N.lt (affected_users_sort_dedup v) ∧
  ∀ u, u ∈ affected_users_sort_dedup v ↔ u ∈ v.
Proof. split; [apply sort_dedup_sorted|intros u; apply elem_of_sort_dedup]. Qed.
