(* ===== verification/UserData.v ===== *)
(** * The user data module (user-fund-storage/src/user_data.rs)

    The two mappings between user addresses and user ids.  An address stands
    for its 32 bytes, read as a number. *)
From stdpp Require Import base numbers list gmap strings.
From S2P Require Import Prelude.

Abbreviation Address := N (only parsing).

Record UserStore := mk_UserStore {
  us_user_id : gmap Address N;
  us_user_address : gmap N Address;
  us_num_users : N;
}.

Definition empty_UserStore : UserStore := mk_UserStore ∅ ∅ 0.

Definition get_user_id (address : Address) (us : UserStore) : N :=
  default 0 (us_user_id us !! address).
Definition set_user_id (address : Address) (user_id : N) (us : UserStore) : UserStore :=
  mk_UserStore (<[address := user_id]> (us_user_id us)) (us_user_address us)
    (us_num_users us).
Definition set_user_address (user_id : N) (address : Address) (us : UserStore)
    : UserStore :=
  mk_UserStore (us_user_id us) (<[user_id := address]> (us_user_address us))
    (us_num_users us).
Definition is_empty_user_address (user_id : N) (us : UserStore) : bool :=
  match us_user_address us !! user_id with Some _ => false | None => true end.
Definition set_num_users (n : N) (us : UserStore) : UserStore :=
  mk_UserStore (us_user_id us) (us_user_address us) n.

(** An empty entry does not decode to an address. *)
Definition get_user_address (user_id : N) : M UserStore Address := λ us,
  match us_user_address us !! user_id with
  | Some address => Ok (address, us)
  | None => Err (VmError "storage decode error: bad array length")
  end.

Definition new_user : M UserStore N :=
  let! num_users := gets us_num_users in
  let num_users := usize_add num_users 1 in
  modify (set_num_users num_users) ;;;
  ret num_users.

Definition get_or_create_user (address : Address) : M UserStore N :=
  let! user_id := gets (get_user_id address) in
  if user_id =? 0 then
    let! user_id := new_user in
    modify (set_user_id address user_id) ;;;
    modify (set_user_address user_id address) ;;;
    ret user_id
  else
    let! empty := gets (is_empty_user_address user_id) in
    (if empty then modify (set_user_address user_id address) else ret tt) ;;;
    ret user_id.

(** Returns the numbers of updated, not updated and not found addresses. *)
Definition update_user_address (addresses : list Address) : M UserStore (N * N * N) :=
  for_each addresses (0, 0, 0) (λ address '(num_updated, num_not_updated, num_not_found),
    let! user_id := gets (get_user_id address) in
    if 0 <? user_id then
      let! empty := gets (is_empty_user_address user_id) in
      if empty then
        modify (set_user_address user_id address) ;;;
        ret (usize_add num_updated 1, num_not_updated, num_not_found)
      else ret (num_updated, usize_add num_not_updated 1, num_not_found)
    else ret (num_updated, num_not_updated, usize_add num_not_found 1)).

Definition user_ids_without_address (us : UserStore) : list N :=
  filter (λ user_id, is_empty_user_address user_id us = true) (ids_up_to (us_num_users us)).
