(* ===== verification/UserSpec.v ===== *)
(** * Users: ids and addresses (user-fund-storage/src/user_data.rs)

    Addresses have distinct ids; the entries from ids back to addresses, which
    may be missing for users of the genesis, agree with them. *)
From stdpp Require Import base numbers list gmap strings.
From S2P Require Import Prelude UserData.

Record users_ok (us : UserStore) : Prop := {
  uo_range a : get_user_id a us ≤ us_num_users us;
  uo_inj a b : get_user_id a us = get_user_id b us → get_user_id a us ≠ 0 → a = b;
  uo_address u a : us_user_address us !! u = Some a → get_user_id a us = u ∧ u ≠ 0;
}.

Lemma get_user_id_set a u us b :
  get_user_id b (set_user_id a u us) = if decide (a = b) then u else get_user_id b us.
Proof. unfold get_user_id; simpl. rewrite lookup_insert. by case_decide. Qed.

Lemma users_ok_address us a :
  users_ok us → get_user_id a us ≠ 0 →
  users_ok (set_user_address (get_user_id a us) a us).
Proof.
  intros [Hr Hi Ha] Hne. split; [exact Hr|exact Hi|].
  intros u b. simpl. rewrite lookup_insert. case_decide as Hu; [|apply Ha].
  intros [= <-]. split; [exact Hu|congruence].
Qed.

Lemma users_ok_new us a :
  users_ok us → get_user_id a us = 0 →
  users_ok (set_user_address (us_num_users us + 1) a
    (set_user_id a (us_num_users us + 1) (set_num_users (us_num_users us + 1) us))).
Proof.
  intros [Hr Hi Ha] Hz. set (n := us_num_users us + 1).
  assert (∀ b, get_user_id b (set_user_address n a (set_user_id a n (set_num_users n us))) =
    if decide (a = b) then n else get_user_id b us) as Hid.
  { intros b. exact (get_user_id_set a n (set_num_users n us) b). }
  assert (∀ b, get_user_id b us < n) as Hlt by (intros b; specialize (Hr b); lia).
  split.
  - intros b. rewrite Hid. change (us_num_users _) with n. specialize (Hlt b).
    case_decide; lia.
  - intros b c. rewrite !Hid. specialize (Hlt b) as Hb. specialize (Hlt c) as Hc.
    case_decide; case_decide; try congruence; try lia. apply Hi.
  - intros u b. simpl. rewrite lookup_insert. case_decide as Hu.
    + intros [= <-]. rewrite Hid, decide_True by done. split; [done|lia].
    + intros Hb. destruct (Ha u b Hb) as [Hub Hu0]. rewrite Hid, decide_False; [done|].
      intros <-. lia.
Qed.

Lemma get_user_address_some us u a :
  us_user_address us !! u = Some a → get_user_address u us = Ok (a, us).
Proof. unfold get_user_address. by intros ->. Qed.

(** Looking up or creating the user of an address always gives the address an
    id, from which the address can be read back; no two addresses share an id,
    and nobody else's id changes. *)
Theorem get_or_create_user_roundtrip us a :
  users_ok us → us_num_users us + 1 < usize_max_plus_1 →
  runs (get_or_create_user a) us (λ u us',
    users_ok us' ∧ u ≠ 0 ∧ get_user_id a us' = u ∧ get_user_address u us' = Ok (a, us') ∧
    ∀ b, b ≠ a → get_user_id b us' = get_user_id b us).
Proof.
  intros Hus Hmax. run_gets. destruct (N.eqb_spec (get_user_id a us) 0) as [Hz|Hz].
  - apply runs_bind. unfold new_user. apply runs_bind, runs_gets, runs_bind, runs_modify, runs_ret.
    assert (usize_add (us_num_users us) 1 = us_num_users us + 1) as -> by (apply N.mod_small; lia).
    do 2 apply runs_bind, runs_modify. apply runs_ret. split_and!.
    + by apply users_ok_new.
    + lia.
    + unfold get_user_id; simpl. by rewrite lookup_insert, decide_True.
    + apply get_user_address_some. simpl. by rewrite lookup_insert, decide_True.
    + intros b Hb. unfold get_user_id; simpl. by rewrite lookup_insert, decide_False.
  - apply runs_bind, runs_gets, runs_bind. unfold is_empty_user_address.
    destruct (us_user_address us !! get_user_id a us) as [a'|] eqn:Ha.
    + apply runs_ret, runs_ret. split_and!; try done. apply get_user_address_some.
      destruct (uo_address us Hus _ _ Ha) as [Heq _]. by rewrite Ha, (uo_inj us Hus a' a) by congruence.
    + apply runs_modify, runs_ret. split_and!; try done.
      * by apply users_ok_address.
      * apply get_user_address_some. simpl. by rewrite lookup_insert, decide_True.
Qed.

(** Filling in missing addresses changes no id, keeps the entries consistent,
    counts every argument exactly once, and leaves every known argument with its
    entry. *)
Theorem update_user_address_ok us addresses :
  users_ok us → N.of_nat (length addresses) < usize_max_plus_1 →
  runs (update_user_address addresses) us (λ '(updated, not_updated, not_found) us',
    users_ok us' ∧ updated + not_updated + not_found = N.of_nat (length addresses) ∧
    not_found = N.of_nat (length (filter (λ a, get_user_id a us = 0) addresses)) ∧
    (∀ a, get_user_id a us' = get_user_id a us) ∧
    (∀ a, a ∈ addresses → get_user_id a us ≠ 0 →
       get_user_address (get_user_id a us) us' = Ok (a, us'))).
Proof.
  intros Hus Hmax. unfold update_user_address. eapply runs_mono.
  { apply (runs_for_each _ (λ dn '(x, y, z) us', users_ok us' ∧
      x + y + z = N.of_nat (length dn) ∧
      z = N.of_nat (length (filter (λ a, get_user_id a us = 0) dn)) ∧
      (∀ a, get_user_id a us' = get_user_id a us) ∧
      (∀ a, a ∈ dn → get_user_id a us ≠ 0 → us_user_address us' !! get_user_id a us = Some a))).
    - split_and!; try done. by intros a ?%not_elem_of_nil.
    - intros dn a rest [[x y] z] us' -> (Hok & Hsum & Hz & Hid & Hadr).
      rewrite length_app in Hmax. simpl in Hmax.
      assert (∀ v, v ≤ N.of_nat (length dn) → usize_add v 1 = v + 1) as Hadd.
      { intros v Hv. apply N.mod_small. lia. }
      assert (N.of_nat (length (dn ++ [a])) = N.of_nat (length dn) + 1) as Hlen.
      { rewrite length_app. simpl. lia. }
      run_gets. rewrite Hid.
      destruct (N.ltb_spec 0 (get_user_id a us)) as [Hpos|Hneg].
      + assert (filter (λ b, get_user_id b us = 0) (dn ++ [a]) =
          filter (λ b, get_user_id b us = 0) dn) as Hfilter.
        { rewrite filter_app, (filter_cons_False _ a []) by lia. by rewrite app_nil_r. }
        run_gets. unfold is_empty_user_address.
        destruct (us_user_address us' !! get_user_id a us) as [b|] eqn:Hb.
        * apply runs_ret. rewrite Hfilter, Hlen, Hadd by lia. split_and!; try done; [lia|].
          intros c [Hc| ->%list_elem_of_singleton]%elem_of_app Hnz; [by apply Hadr|].
          destruct (uo_address us' Hok _ _ Hb) as [Heq _].
          rewrite Hb. f_equal. apply (uo_inj us' Hok); rewrite !Hid in *; congruence.
        * apply runs_bind, runs_modify, runs_ret. rewrite Hfilter, Hlen, Hadd by lia.
          split_and!; try done; [|lia|].
          -- rewrite <-(Hid a). apply users_ok_address; [done|rewrite Hid; lia].
          -- intros c [Hc| ->%list_elem_of_singleton]%elem_of_app Hnz; simpl;
               rewrite lookup_insert; [|by rewrite decide_True].
             case_decide as Heq; [|by apply Hadr].
             f_equal. apply (uo_inj us' Hok); rewrite !Hid; [done|lia].
      + assert (get_user_id a us = 0) as Hz0 by lia.
        apply runs_ret. rewrite Hlen, Hadd by lia. split_and!; try done; [lia| |].
        * rewrite filter_app, length_app, (filter_cons_True _ a []) by done. simpl. lia.
        * intros c [Hc| ->%list_elem_of_singleton]%elem_of_app Hnz; [by apply Hadr|done]. }
  intros [[x y] z] us' (? & ? & ? & ? & Hadr). split_and!; try done.
  intros a Ha Hnz. by apply get_user_address_some, Hadr.
Qed.

(** ** The theorems applied to three users, one without an entry *)
Definition genesis_users : UserStore :=
  mk_UserStore {[100 := 1; 200 := 2; 300 := 3]} {[1 := 100; 3 := 300]} 3.

Lemma genesis_users_ok : users_ok genesis_users.
Proof.
  assert (∀ a, get_user_id a genesis_users =
    if decide (a = 100) then 1 else if decide (a = 200) then 2
    else if decide (a = 300) then 3 else 0) as Hid.
  { intros a. unfold get_user_id. simpl. rewrite !lookup_insert, lookup_singleton.
    repeat case_decide; simpl; congruence. }
  split.
  - intros a. rewrite Hid. simpl. repeat case_decide; lia.
  - intros a b. rewrite !Hid. repeat case_decide; congruence.
  - intros u a. rewrite Hid. simpl. rewrite lookup_insert, lookup_singleton.
    repeat case_decide; naive_solver.
Qed.

Lemma get_or_create_user_roundtrip_witness :
  runs (get_or_create_user 200) genesis_users (λ u us',
    users_ok us' ∧ u ≠ 0 ∧ get_user_id 200 us' = u ∧ get_user_address u us' = Ok (200, us') ∧
    ∀ b, b ≠ 200 → get_user_id b us' = get_user_id b genesis_users).
Proof.
  apply get_or_create_user_roundtrip; [exact genesis_users_ok|vm_compute; reflexivity].
Defined.

Lemma update_user_address_ok_witness :
  let addresses := [200; 400; 100] in
  runs (update_user_address addresses) genesis_users (λ '(updated, not_updated, not_found) us',
    users_ok us' ∧ updated + not_updated + not_found = N.of_nat (length addresses) ∧
    not_found = N.of_nat (length (filter (λ a, get_user_id a genesis_users = 0) addresses)) ∧
    (∀ a, get_user_id a us' = get_user_id a genesis_users) ∧
    (∀ a, a ∈ addresses → get_user_id a genesis_users ≠ 0 →
       get_user_address (get_user_id a genesis_users) us' = Ok (a, us'))).
Proof.
  apply update_user_address_ok; [exact genesis_users_ok|vm_compute; reflexivity].
Defined.

(** ** Contracts without genesis users

    Every user registered by this contract has an address on record. *)
Record addressed (us : UserStore) : Prop := {
  adr_ok : users_ok us;
  adr_known u : 1 ≤ u ≤ us_num_users us → is_Some (us_user_address us !! u);
}.

(** What a change of the addresses of known users keeps. *)
Record more_addresses (us us' : UserStore) : Prop := {
  ma_num : us_num_users us' = us_num_users us;
  ma_ids a : get_user_id a us' = get_user_id a us;
  ma_address u : is_Some (us_user_address us !! u) → is_Some (us_user_address us' !! u);
}.
#[export] Instance more_addresses_preorder : PreOrder more_addresses.
Proof. split; [by split|]. intros us1 us2 us3 [] []. split; [congruence..|auto]. Qed.

Lemma more_addresses_set u a us : more_addresses us (set_user_address u a us).
Proof.
  split; [done..|]. intros v Hv. simpl. destruct (decide (u = v)) as [->|].
  - by rewrite lookup_insert_eq.
  - by rewrite lookup_insert_ne.
Qed.

Lemma addressed_more us us' :
  addressed us → users_ok us' → more_addresses us us' → addressed us'.
Proof. intros [_ Ha] Hok [Hn _ Hm]. split; [done|]. rewrite Hn. auto. Qed.

Lemma get_or_create_addressed us a :
  addressed us → us_num_users us + 1 < usize_max_plus_1 →
  ensures (get_or_create_user a) us (λ _ us', addressed us').
Proof.
  intros Hus Hmax. pose proof (adr_ok us Hus) as Hok. apply ensures_bind, ensures_gets.
  destruct (N.eqb_spec (get_user_id a us) 0) as [Hz|Hz].
  - unfold new_user. apply ensures_bind, ensures_bind, ensures_gets, ensures_bind, ensures_modify.
    apply ensures_ret, ensures_bind, ensures_modify, ensures_bind, ensures_modify, ensures_ret.
    assert (usize_add (us_num_users us) 1 = us_num_users us + 1) as -> by (apply N.mod_small; lia).
    split; [by apply users_ok_new|]. intros u Hu. simpl in *.
    destruct (decide (us_num_users us + 1 = u)) as [->|Hne]; [by rewrite lookup_insert_eq|].
    rewrite lookup_insert_ne by done. apply (adr_known us Hus). lia.
  - apply ensures_bind, ensures_gets, ensures_bind.
    destruct (is_empty_user_address _ us); [apply ensures_modify|apply ensures_ret];
      apply ensures_ret; [|done].
    apply (addressed_more us); [done|by apply users_ok_address|apply more_addresses_set].
Qed.

Lemma update_user_address_addressed us addresses :
  addressed us →
  ensures (update_user_address addresses) us (λ _ us', addressed us' ∧ more_addresses us us').
Proof.
  intros Hus. apply (ensures_for_each _ (λ _ _ us', addressed us' ∧ more_addresses us us')).
  - by split.
  - intros dn a [[x y] z] us' [Hus' Hm]. apply ensures_bind, ensures_gets.
    destruct (N.ltb_spec 0 (get_user_id a us')); [|by apply ensures_ret].
    apply ensures_bind, ensures_gets. destruct (is_empty_user_address _ us').
    2: { by apply ensures_ret. }
    apply ensures_bind, ensures_modify, ensures_ret.
    pose proof (more_addresses_set (get_user_id a us') a us'). split; [|by etrans].
    apply (addressed_more us'); [done| |done]. apply users_ok_address; [apply Hus'|lia].
Qed.
