(* ===== verification/NodeConfig.v ===== *)
(** * The node configuration module (node-storage/src)

    The validator nodes: their ids, BLS keys, signatures and states.  A BLS key
    (96 bytes) and a signature (48 bytes) stand for their bytes, read as a
    number. *)
From stdpp Require Import base numbers list gmap strings.
From S2P Require Import Prelude.

Abbreviation BLSKey := N (only parsing).
Abbreviation BLSSignature := N (only parsing).

Module NodeState.
Inductive NodeState : Set :=
| Inactive
| PendingActivation
| ActivationFailed
| Active
| PendingDeactivation
| UnBondPeriod (started : N)
| PendingUnBond (unbond_started : N)
| Removed.
End NodeState.
Abbreviation NodeState := NodeState.NodeState.

#[export] Instance NodeState_eq_dec : EqDecision NodeState.
Proof. solve_decision. Defined.

Definition discriminant (s : NodeState) : N :=
  match s with
  | NodeState.Inactive => 0
  | NodeState.PendingActivation => 1
  | NodeState.ActivationFailed => 2
  | NodeState.Active => 3
  | NodeState.PendingDeactivation => 4
  | NodeState.UnBondPeriod _ => 5
  | NodeState.PendingUnBond _ => 6
  | NodeState.Removed => 7
  end.

Definition MAX_NODES_PER_OPERATION : N := 100.

(** An [ArrayVec] of capacity [MAX_NODES_PER_OPERATION]. *)
Abbreviation NodeIndexArrayVec := (list N).

(** [ArrayVec::push] panics when the vector is full. *)
Definition push_node {S} (v : NodeIndexArrayVec) (id : N) : M S NodeIndexArrayVec :=
  if N.of_nat (length v) <? MAX_NODES_PER_OPERATION then ret (v ++ [id])
  else sc_panic "panic occurred".

(** [swap_remove]: the last element takes the place of the removed one. *)
Definition swap_remove (pos : nat) (v : list N) : list N :=
  match list.last v with
  | Some x => take (length v - 1) (<[pos := x]> v)
  | None => v
  end.

(** ** Storage *)
Record NodeStore := mk_NodeStore {
  ns_num_nodes : N;
  ns_node_bls_to_id : gmap BLSKey N;
  ns_node_id_to_bls : gmap N BLSKey;
  ns_node_signature : gmap N BLSSignature;
  ns_node_state : gmap N NodeState;
}.

Definition empty_NodeStore : NodeStore := mk_NodeStore 0 ∅ ∅ ∅ ∅.

Definition set_num_nodes (n : N) (ns : NodeStore) : NodeStore :=
  mk_NodeStore n (ns_node_bls_to_id ns) (ns_node_id_to_bls ns) (ns_node_signature ns)
    (ns_node_state ns).
Definition get_node_id (bls_key : BLSKey) (ns : NodeStore) : N :=
  default 0 (ns_node_bls_to_id ns !! bls_key).
Definition set_node_bls_to_id (bls_key : BLSKey) (node_id : N) (ns : NodeStore) : NodeStore :=
  mk_NodeStore (ns_num_nodes ns) (<[bls_key := node_id]> (ns_node_bls_to_id ns))
    (ns_node_id_to_bls ns) (ns_node_signature ns) (ns_node_state ns).
Definition set_node_id_to_bls (node_id : N) (bls_key : BLSKey) (ns : NodeStore) : NodeStore :=
  mk_NodeStore (ns_num_nodes ns) (ns_node_bls_to_id ns)
    (<[node_id := bls_key]> (ns_node_id_to_bls ns)) (ns_node_signature ns)
    (ns_node_state ns).
Definition set_node_signature (node_id : N) (sig : BLSSignature) (ns : NodeStore) : NodeStore :=
  mk_NodeStore (ns_num_nodes ns) (ns_node_bls_to_id ns) (ns_node_id_to_bls ns)
    (<[node_id := sig]> (ns_node_signature ns)) (ns_node_state ns).
Definition get_node_state (node_id : N) (ns : NodeStore) : NodeState :=
  default NodeState.Inactive (ns_node_state ns !! node_id).
Definition set_node_state (node_id : N) (st : NodeState) (ns : NodeStore) : NodeStore :=
  mk_NodeStore (ns_num_nodes ns) (ns_node_bls_to_id ns) (ns_node_id_to_bls ns)
    (ns_node_signature ns) (<[node_id := st]> (ns_node_state ns)).

(** Empty entries do not decode to byte arrays. *)
Definition get_node_id_to_bls (node_id : N) : M NodeStore BLSKey := λ ns,
  match ns_node_id_to_bls ns !! node_id with
  | Some k => Ok (k, ns)
  | None => Err (VmError "storage decode error: bad array length")
  end.
Definition get_node_signature (node_id : N) : M NodeStore BLSSignature := λ ns,
  match ns_node_signature ns !! node_id with
  | Some s => Ok (s, ns)
  | None => Err (VmError "storage decode error: bad array length")
  end.

(** ** Views *)
Definition get_node_signature_endpoint (bls_key : BLSKey)
    : M NodeStore (option BLSSignature) :=
  let! node_id := gets (get_node_id bls_key) in
  if node_id =? 0 then ret None
  else let! s := get_node_signature node_id in ret (Some s).

Definition get_node_state_endpoint (bls_key : BLSKey) (ns : NodeStore) : NodeState :=
  let node_id := get_node_id bls_key ns in
  if node_id =? 0 then NodeState.Removed else get_node_state node_id ns.

Definition get_all_node_states : M NodeStore (list (BLSKey * N)) :=
  let! num_nodes := gets ns_num_nodes in
  for_each (ids_up_to num_nodes) [] (λ i result,
    let! k := get_node_id_to_bls i in
    let! st := gets (get_node_state i) in
    ret (result ++ [(k, discriminant st)])).

Definition get_node_bl_nonce_of_unstake_endpoint (bls_key : BLSKey) (ns : NodeStore)
    : option N :=
  let node_id := get_node_id bls_key ns in
  if node_id =? 0 then None
  else match get_node_state node_id ns with
       | NodeState.UnBondPeriod started => Some started
       | _ => None
       end.

(** ** Registering and removing nodes (called by the owner) *)
Definition add_node (arg : BLSKey * BLSSignature) (num_nodes : N) : M NodeStore N :=
  let '(bls_key, bls_sig) := arg in
  let! node_id := gets (get_node_id bls_key) in
  if node_id =? 0 then
    let num_nodes := usize_add num_nodes 1 in
    let node_id := num_nodes in
    modify (set_node_bls_to_id bls_key node_id) ;;;
    modify (set_node_id_to_bls node_id bls_key) ;;;
    modify (set_node_state node_id NodeState.Inactive) ;;;
    modify (set_node_signature node_id bls_sig) ;;;
    ret num_nodes
  else
    let! st := gets (get_node_state node_id) in
    if decide (st = NodeState.Removed) then
      modify (set_node_state node_id NodeState.Inactive) ;;;
      modify (set_node_signature node_id bls_sig) ;;;
      ret num_nodes
    else sc_panic "node already registered".

Definition add_nodes (bls_keys_signatures : list (BLSKey * BLSSignature))
    : M NodeStore unit :=
  let! num_nodes := gets ns_num_nodes in
  let! num_nodes := for_each bls_keys_signatures num_nodes add_node in
  modify (set_num_nodes num_nodes).

Definition remove_node (bls_key : BLSKey) (_ : unit) : M NodeStore unit :=
  let! node_id := gets (get_node_id bls_key) in
  require (negb (node_id =? 0)) "node not registered" ;;;
  let! st := gets (get_node_state node_id) in
  require (bool_decide (st = NodeState.Inactive)) "only inactive nodes can be removed" ;;;
  modify (set_node_state node_id NodeState.Removed).

Definition remove_nodes (bls_keys : list BLSKey) : M NodeStore unit :=
  for_each bls_keys tt remove_node.

(** ** Splitting the nodes of a call by the statuses that the auction returns *)
Definition split_node_by_err (arg : BLSKey * N) (acc : NodeIndexArrayVec * NodeIndexArrayVec)
    : M NodeStore (NodeIndexArrayVec * NodeIndexArrayVec) :=
  let '(bls_key, status) := arg in
  let '(node_ids, failed_node_ids) := acc in
  if negb (status =? 0) then
    let! node_id := gets (get_node_id bls_key) in
    match list_find (λ x, x = node_id) node_ids with
    | Some (pos, _) =>
        let node_ids := swap_remove pos node_ids in
        let! failed_node_ids := push_node failed_node_ids node_id in
        ret (node_ids, failed_node_ids)
    | None => ret (node_ids, failed_node_ids)
    end
  else ret (node_ids, failed_node_ids).

Definition split_node_ids_by_err (node_ids : NodeIndexArrayVec)
    (node_status_args : list (BLSKey * N))
    : M NodeStore (NodeIndexArrayVec * NodeIndexArrayVec) :=
  for_each node_status_args (node_ids, []) split_node_by_err.
