(* ===== verification/Settings.v ===== *)
(** * Settings (latest/src/settings.rs) and global operation checkpoints
    (latest/src/reset_checkpoint_types.rs, reset_checkpoint_state.rs) *)
From stdpp Require Import base numbers list gmap strings.
From S2P Require Import Prelude UserData.

Definition PERCENTAGE_DENOMINATOR : N := 10000.
Definition OWNER_USER_ID : N := 1.
Definition USER_STAKE_TOTALS_ID : N := 0.

Record SettingsStore := mk_SettingsStore {
  auction_addr : Address;
  service_fee : N;
  total_delegation_cap : N;
  bootstrap_mode : bool;
  owner_min_stake_share : N;
  n_blocks_before_unbond : N;
  min_stake : N;
}.

Definition empty_SettingsStore : SettingsStore := mk_SettingsStore 0 0 0 false 0 0 0.

Definition set_auction_addr (v : Address) (s : SettingsStore) : SettingsStore :=
  mk_SettingsStore v (service_fee s) (total_delegation_cap s) (bootstrap_mode s)
    (owner_min_stake_share s) (n_blocks_before_unbond s) (min_stake s).
Definition set_service_fee (v : N) (s : SettingsStore) : SettingsStore :=
  mk_SettingsStore (auction_addr s) v (total_delegation_cap s) (bootstrap_mode s)
    (owner_min_stake_share s) (n_blocks_before_unbond s) (min_stake s).
Definition set_total_delegation_cap (v : N) (s : SettingsStore) : SettingsStore :=
  mk_SettingsStore (auction_addr s) (service_fee s) v (bootstrap_mode s)
    (owner_min_stake_share s) (n_blocks_before_unbond s) (min_stake s).
Definition set_bootstrap_mode (v : bool) (s : SettingsStore) : SettingsStore :=
  mk_SettingsStore (auction_addr s) (service_fee s) (total_delegation_cap s) v
    (owner_min_stake_share s) (n_blocks_before_unbond s) (min_stake s).
Definition set_owner_min_stake_share (v : N) (s : SettingsStore) : SettingsStore :=
  mk_SettingsStore (auction_addr s) (service_fee s) (total_delegation_cap s)
    (bootstrap_mode s) v (n_blocks_before_unbond s) (min_stake s).
Definition set_n_blocks_before_unbond (v : N) (s : SettingsStore) : SettingsStore :=
  mk_SettingsStore (auction_addr s) (service_fee s) (total_delegation_cap s)
    (bootstrap_mode s) (owner_min_stake_share s) v (min_stake s).
Definition set_minimum_stake (v : N) (s : SettingsStore) : SettingsStore :=
  mk_SettingsStore (auction_addr s) (service_fee s) (total_delegation_cap s)
    (bootstrap_mode s) (owner_min_stake_share s) (n_blocks_before_unbond s) v.

Definition set_owner_min_stake_share_validated (owner_min_stake_share_per_10000 : N)
    : M SettingsStore unit :=
  require (owner_min_stake_share_per_10000 <=? PERCENTAGE_DENOMINATOR)
    "owner min stake share out of range" ;;;
  modify (set_owner_min_stake_share owner_min_stake_share_per_10000).

(** ** Interrupted global operations (reset_checkpoint_types.rs) *)
Record ComputeAllRewardsData := mk_ComputeAllRewardsData {
  last_id : N;
  sum_unclaimed : N;
  rewards_checkpoint : N;
}.

Definition ComputeAllRewardsData_new (rewards_checkpoint : N) : ComputeAllRewardsData :=
  mk_ComputeAllRewardsData 0 0 rewards_checkpoint.

Module ModifyDelegationCapStep.
Inductive ModifyDelegationCapStep : Set :=
| ComputeAllRewards (car_data : ComputeAllRewardsData)
| SwapWaitingToActive
| SwapUnstakedToDeferredPayment
| SwapActiveToDeferredPayment.
End ModifyDelegationCapStep.
Abbreviation ModifyDelegationCapStep := ModifyDelegationCapStep.ModifyDelegationCapStep.

Record ModifyTotalDelegationCapData := mk_ModifyTotalDelegationCapData {
  new_delegation_cap : N;
  remaining_swap_waiting_to_active : N;
  remaining_swap_active_to_def_p : N;
  remaining_swap_unstaked_to_def_p : N;
  step : ModifyDelegationCapStep;
}.

Module GlobalOpCheckpoint.
Inductive GlobalOpCheckpoint : Set :=
| None
| ModifyTotalDelegationCap (data : ModifyTotalDelegationCapData)
| ChangeServiceFee (new_service_fee : N) (compute_rewards_data : ComputeAllRewardsData).
End GlobalOpCheckpoint.
Abbreviation GlobalOpCheckpoint := GlobalOpCheckpoint.GlobalOpCheckpoint.

Definition is_none (orc : GlobalOpCheckpoint) : bool :=
  match orc with GlobalOpCheckpoint.None => true | _ => false end.

Definition with_step (st : ModifyDelegationCapStep) (d : ModifyTotalDelegationCapData)
    : ModifyTotalDelegationCapData :=
  mk_ModifyTotalDelegationCapData (new_delegation_cap d)
    (remaining_swap_waiting_to_active d) (remaining_swap_active_to_def_p d)
    (remaining_swap_unstaked_to_def_p d) st.
Definition with_remaining_waiting (v : N) (d : ModifyTotalDelegationCapData)
    : ModifyTotalDelegationCapData :=
  mk_ModifyTotalDelegationCapData (new_delegation_cap d) v
    (remaining_swap_active_to_def_p d) (remaining_swap_unstaked_to_def_p d) (step d).
Definition with_remaining_active (v : N) (d : ModifyTotalDelegationCapData)
    : ModifyTotalDelegationCapData :=
  mk_ModifyTotalDelegationCapData (new_delegation_cap d)
    (remaining_swap_waiting_to_active d) v (remaining_swap_unstaked_to_def_p d) (step d).
Definition with_remaining_unstaked (v : N) (d : ModifyTotalDelegationCapData)
    : ModifyTotalDelegationCapData :=
  mk_ModifyTotalDelegationCapData (new_delegation_cap d)
    (remaining_swap_waiting_to_active d) (remaining_swap_active_to_def_p d) v (step d).
