(* ===== verification/Chain.v ===== *)
(** * The blockchain interface

    What the contract relies on from the virtual machine and from the library
    modules (pause, feature flags), as a typeclass over an abstract chain state
    [C].  [ChainLaws] states the documented behaviour the theorems use;
    [SimpleChain] is a concrete instance. *)
From stdpp Require Import base numbers list gmap strings relations.
From S2P Require Import Prelude UserData NodeConfig.

(** ** Events (latest/src/events.rs) *)
Inductive Event : Set :=
| stake_event (delegator : Address) (amount : N)
| unstake_event (delegator : Address) (amount : N)
| stake_node_ok_event
| stake_node_fail_event (reason : string)
| unstake_node_ok_event
| unstake_node_fail_event (reason : string)
| unbond_node_ok_event
| unbond_node_fail_event (reason : string)
| unstake_tokens_event (amount : N)
| unbond_tokens_event (amount : N)
| claim_rewards_event (user : Address) (amount : N).

(** ** Calls to the auction contract (latest/src/auction_proxy.rs) *)
Inductive AuctionCall : Set :=
| auction_stake (num_nodes : N) (bls_keys_signatures : list (BLSKey * BLSSignature))
| auction_unstake (bls_keys : list BLSKey)
| auction_unstake_nodes (bls_keys : list BLSKey)
| auction_unbond (bls_keys : list BLSKey)
| auction_unbond_nodes (bls_keys : list BLSKey)
| auction_unstake_tokens (amount : N)
| auction_unbond_tokens (amount : N)
| auction_claim
| auction_unjail (bls_keys : list BLSKey).

(** The callbacks registered with an asynchronous call. *)
Inductive Callback : Set :=
| auction_stake_callback (node_ids : NodeIndexArrayVec)
| auction_unstake_callback (node_ids : NodeIndexArrayVec)
| auction_unbond_callback (node_ids : NodeIndexArrayVec).

Record AsyncCall : Set := mk_AsyncCall {
  ac_to : Address;
  ac_call : AuctionCall;
  ac_egld : N;
  ac_callback : option Callback;
}.

Class Chain (C : Type) := {
  get_caller : C → Address;
  get_owner_address : C → Address;
  get_block_nonce : C → N;
  get_cumulated_validator_rewards : C → N;
  get_sc_balance : C → N;
  get_gas_left : C → N * C;
  direct_egld : Address → N → C → result C;
  emit : Event → C → C;
  call_and_exit : AsyncCall → C → C;
  not_paused : C → bool;
  feature_on : string → bool → C → bool;
  feature_off : string → Error;        (* how the features module refuses a call *)
}.

(** What an observer of the block sees, apart from gas and outgoing calls. *)
Definition chain_view {C} `{Chain C} (c : C) : Address * Address * N * N :=
  (get_caller c, get_owner_address c, get_block_nonce c,
   get_cumulated_validator_rewards c).

(** [payments_of] records the payments that the contract has sent, in order. *)
Class ChainLaws (C : Type) `{Chain C} := {
  payments_of : C → list (Address * N);
  gas_payments c : payments_of (snd (get_gas_left c)) = payments_of c;
  emit_payments e c : payments_of (emit e c) = payments_of c;
  call_payments a c : payments_of (call_and_exit a c) = payments_of c;
  gas_view c : chain_view (snd (get_gas_left c)) = chain_view c;
  gas_balance c : get_sc_balance (snd (get_gas_left c)) = get_sc_balance c;
  emit_view e c : chain_view (emit e c) = chain_view c;
  emit_balance e c : get_sc_balance (emit e c) = get_sc_balance c;
  direct_egld_ok to amount c :
    amount ≤ get_sc_balance c →
    ∃ c', direct_egld to amount c = Ok c' ∧ chain_view c' = chain_view c ∧
          get_sc_balance c' = get_sc_balance c - amount ∧
          payments_of c' = payments_of c ++ [(to, amount)];
  direct_egld_enough to amount c c' :
    direct_egld to amount c = Ok c' → amount ≤ get_sc_balance c;
}.

(** The payment of an amount, if there is anything to pay. *)
Definition payout (to : Address) (amount : N) : list (Address * N) :=
  if 0 <? amount then [(to, amount)] else [].

(** The asynchronous calls that a chain state has recorded. *)
Class CallLog (C : Type) `{Chain C} := {
  calls_of : C → list AsyncCall;
  calls_gas c : calls_of (snd (get_gas_left c)) = calls_of c;
  calls_emit e c : calls_of (emit e c) = calls_of c;
  calls_direct to amount c c' : direct_egld to amount c = Ok c' → calls_of c' = calls_of c;
  calls_call a c : calls_of (call_and_exit a c) = calls_of c ++ [a];
  call_view a c : chain_view (call_and_exit a c) = chain_view c;
}.

(** Readings of the gas, the only effect of the loops that watch it. *)
Definition reads {C} `{Chain C} : C → C → Prop := rtc (λ c c', c' = snd (get_gas_left c)).

(** One of the next readings finds less gas than [limit]. *)
Definition low_gas {C} `{Chain C} (limit : N) (c : C) : Prop :=
  ∃ c', reads c c' ∧ fst (get_gas_left c') < limit.

Lemma low_gas_reads {C} `{Chain C} limit (c c' : C) :
  reads c c' → low_gas limit c' → low_gas limit c.
Proof. intros Hr (c'' & ? & ?). exists c''. split; [by etrans|done]. Qed.

Lemma low_gas_now {C} `{Chain C} limit (c : C) : fst (get_gas_left c) < limit → low_gas limit c.
Proof. intros. exists c. split; [apply rtc_refl|done]. Qed.

(** ** A concrete chain *)
Record SimpleChain : Set := mk_SimpleChain {
  sc_caller : Address;
  sc_owner : Address;
  sc_nonce : N;
  sc_rewards : N;
  sc_balance : N;
  sc_gas : list N;                     (* the successive readings of the gas left *)
  sc_transfers : list (Address * N);
  sc_events : list Event;
  sc_calls : list AsyncCall;
}.

(** Readings after the listed ones give a large amount of gas. *)
#[export] Instance SimpleChain_chain : Chain SimpleChain := {|
  get_caller := sc_caller;
  get_owner_address := sc_owner;
  get_block_nonce := sc_nonce;
  get_cumulated_validator_rewards := sc_rewards;
  get_sc_balance := sc_balance;
  get_gas_left c :=
    match sc_gas c with
    | [] => (10 ^ 12, c)
    | g :: gs =>
        (g, mk_SimpleChain (sc_caller c) (sc_owner c) (sc_nonce c) (sc_rewards c)
              (sc_balance c) gs (sc_transfers c) (sc_events c) (sc_calls c))
    end;
  direct_egld to amount c :=
    if amount <=? sc_balance c then
      Ok (mk_SimpleChain (sc_caller c) (sc_owner c) (sc_nonce c) (sc_rewards c)
            (sc_balance c - amount) (sc_gas c) (sc_transfers c ++ [(to, amount)])
            (sc_events c) (sc_calls c))
    else Err (VmError "insufficient funds");
  emit e c :=
    mk_SimpleChain (sc_caller c) (sc_owner c) (sc_nonce c) (sc_rewards c)
      (sc_balance c) (sc_gas c) (sc_transfers c) (sc_events c ++ [e]) (sc_calls c);
  call_and_exit a c :=
    mk_SimpleChain (sc_caller c) (sc_owner c) (sc_nonce c) (sc_rewards c)
      (sc_balance c - ac_egld a) (sc_gas c) (sc_transfers c) (sc_events c)
      (sc_calls c ++ [a]);
  not_paused _ := true;
  feature_on _ default _ := default;
  feature_off name := Panic (name +:+ " currently disabled");
|}.

#[export] Program Instance SimpleChain_laws : ChainLaws SimpleChain :=
  {| payments_of := sc_transfers |}.
Next Obligation. intros c. simpl. by destruct (sc_gas c). Qed.
Next Obligation. done. Qed.
Next Obligation. done. Qed.
Next Obligation. intros c. simpl. by destruct (sc_gas c). Qed.
Next Obligation. intros c. simpl. by destruct (sc_gas c). Qed.
Next Obligation. done. Qed.
Next Obligation. done. Qed.
Next Obligation.
  intros to amount c Hle. simpl in *. rewrite (proj2 (N.leb_le _ _)) by done.
  eexists. by split.
Qed.
Next Obligation. intros to amount c c'. simpl. by destruct (N.leb_spec amount (sc_balance c)). Qed.

#[export] Program Instance SimpleChain_log : CallLog SimpleChain := {| calls_of := sc_calls |}.
Next Obligation. intros c. simpl. by destruct (sc_gas c). Qed.
Next Obligation. done. Qed.
Next Obligation.
  intros to amount c c'. simpl. destruct (amount <=? sc_balance c); [by intros [= <-]|done].
Qed.
Next Obligation. done. Qed.
Next Obligation. done. Qed.
