(* ===== verification/State.v ===== *)
(** * The storage of the contract

    The contract of latest_full/src/lib.rs is one storage to which every module
    contributes its entries.  [State C] is that storage together with the chain
    it runs on; each component's storage is a lens into it. *)
From stdpp Require Import base numbers list gmap strings.
From S2P Require Import Prelude FundTypes FundModule UserData NodeConfig Settings Chain.

(** Storage of rewards_state.rs. *)
Record RewardStore := mk_RewardStore {
  rs_user_rew_unclaimed : gmap N N;
  rs_user_rew_checkpoint : gmap N N;
  rs_sent_rewards : N;
}.

Definition empty_RewardStore : RewardStore := mk_RewardStore ∅ ∅ 0.

Record State (C : Type) := mk_State {
  st_funds : FundStore;
  st_users : UserStore;
  st_nodes : NodeStore;
  st_settings : SettingsStore;
  st_rewards : RewardStore;
  st_global_op_checkpoint : GlobalOpCheckpoint;
  st_dust_cleanup_checkpoint : N;
  st_chain : C;
}.
Arguments mk_State {C}.
Arguments st_funds {C}.
Arguments st_users {C}.
Arguments st_nodes {C}.
Arguments st_settings {C}.
Arguments st_rewards {C}.
Arguments st_global_op_checkpoint {C}.
Arguments st_dust_cleanup_checkpoint {C}.
Arguments st_chain {C}.

Definition initial_State {C} (c : C) : State C :=
  mk_State empty_FundStore empty_UserStore empty_NodeStore empty_SettingsStore
    empty_RewardStore GlobalOpCheckpoint.None 0 c.

Section Lenses.
Context {C : Type}.
Implicit Type s : State C.

#[export] Program Instance funds_lens : Lens (State C) FundStore := {|
  lens_get := st_funds;
  lens_set a s := mk_State a (st_users s) (st_nodes s) (st_settings s) (st_rewards s)
    (st_global_op_checkpoint s) (st_dust_cleanup_checkpoint s) (st_chain s) |}.
Next Obligation. done. Qed.
Next Obligation. by intros []. Qed.
Next Obligation. done. Qed.

#[export] Program Instance users_lens : Lens (State C) UserStore := {|
  lens_get := st_users;
  lens_set a s := mk_State (st_funds s) a (st_nodes s) (st_settings s) (st_rewards s)
    (st_global_op_checkpoint s) (st_dust_cleanup_checkpoint s) (st_chain s) |}.
Next Obligation. done. Qed.
Next Obligation. by intros []. Qed.
Next Obligation. done. Qed.

#[export] Program Instance nodes_lens : Lens (State C) NodeStore := {|
  lens_get := st_nodes;
  lens_set a s := mk_State (st_funds s) (st_users s) a (st_settings s) (st_rewards s)
    (st_global_op_checkpoint s) (st_dust_cleanup_checkpoint s) (st_chain s) |}.
Next Obligation. done. Qed.
Next Obligation. by intros []. Qed.
Next Obligation. done. Qed.

#[export] Program Instance settings_lens : Lens (State C) SettingsStore := {|
  lens_get := st_settings;
  lens_set a s := mk_State (st_funds s) (st_users s) (st_nodes s) a (st_rewards s)
    (st_global_op_checkpoint s) (st_dust_cleanup_checkpoint s) (st_chain s) |}.
Next Obligation. done. Qed.
Next Obligation. by intros []. Qed.
Next Obligation. done. Qed.

#[export] Program Instance rewards_lens : Lens (State C) RewardStore := {|
  lens_get := st_rewards;
  lens_set a s := mk_State (st_funds s) (st_users s) (st_nodes s) (st_settings s) a
    (st_global_op_checkpoint s) (st_dust_cleanup_checkpoint s) (st_chain s) |}.
Next Obligation. done. Qed.
Next Obligation. by intros []. Qed.
Next Obligation. done. Qed.
End Lenses.

(** Assignments to the entries that are not component storages. *)
Definition set_global_op_checkpoint {C} (orc : GlobalOpCheckpoint) (s : State C) : State C :=
  mk_State (st_funds s) (st_users s) (st_nodes s) (st_settings s) (st_rewards s)
    orc (st_dust_cleanup_checkpoint s) (st_chain s).
Definition set_dust_cleanup_checkpoint {C} (id : N) (s : State C) : State C :=
  mk_State (st_funds s) (st_users s) (st_nodes s) (st_settings s) (st_rewards s)
    (st_global_op_checkpoint s) id (st_chain s).
Definition set_chain {C} (c : C) (s : State C) : State C :=
  mk_State (st_funds s) (st_users s) (st_nodes s) (st_settings s) (st_rewards s)
    (st_global_op_checkpoint s) (st_dust_cleanup_checkpoint s) c.

(** reset_checkpoint_state.rs: the entry is empty iff no operation is stored. *)
Definition is_global_op_in_progress {C} (s : State C) : bool :=
  negb (is_none (st_global_op_checkpoint s)).

(** ** The chain operations in the contract's monad *)
Section ChainOps.
Context {C : Type} `{Chain C}.

Definition gas_left : M (State C) N := λ s,
  let '(g, c) := get_gas_left (st_chain s) in Ok (g, set_chain c s).
Definition gas_below (limit : N) : M (State C) bool :=
  let! g := gas_left in ret (g <? limit).
Definition log_event (e : Event) : M (State C) unit :=
  modify (λ s, set_chain (emit e (st_chain s)) s).
Definition send_egld (to : Address) (amount : N) : M (State C) unit := λ s,
  match direct_egld to amount (st_chain s) with
  | Ok c => Ok (tt, set_chain c s)
  | Err e => Err e
  end.
Definition async_call (a : AsyncCall) : M (State C) unit :=
  modify (λ s, set_chain (call_and_exit a (st_chain s)) s).

Definition current_caller : M (State C) Address := gets (λ s, get_caller (st_chain s)).
Definition current_bl_nonce : M (State C) N := gets (λ s, get_block_nonce (st_chain s)).
Definition current_owner : M (State C) Address :=
  gets (λ s, get_owner_address (st_chain s)).

(** The check that [#[only_owner]] puts in front of an endpoint; the message is that
    of the compiled contract, latest_full/output/delegation_latest_full.wasm. *)
Definition only_owner : M (State C) unit :=
  let! caller := current_caller in
  let! owner := current_owner in
  require (caller =? owner) "Endpoint can only be called by owner".

Definition require_not_paused : M (State C) unit :=
  let! b := gets (λ s, not_paused (st_chain s)) in
  require b "contract paused".
Definition check_feature_on (name : string) (default : bool) : M (State C) unit :=
  let! b := gets (λ s, feature_on name default (st_chain s)) in
  if b then ret tt else fail (feature_off name).
Definition require_no_global_op (msg : string) : M (State C) unit :=
  let! b := gets is_global_op_in_progress in
  require (negb b) msg.

(** The guards, when they let a call through. *)
Lemma owner_only_runs {A} (m : M (State C) A) (s : State C) Q :
  get_caller (st_chain s) = get_owner_address (st_chain s) → runs m s Q →
  runs (only_owner ;;; m) s Q.
Proof.
  intros Ho Hm. unfold only_owner.
  apply runs_bind, runs_bind, runs_gets, runs_bind, runs_gets, runs_require; [by apply N.eqb_eq|].
  exact Hm.
Qed.

Lemma owner_only_outcome {A} (m : M (State C) A) (s : State C) E Q :
  get_caller (st_chain s) = get_owner_address (st_chain s) → outcome m s E Q →
  outcome (only_owner ;;; m) s E Q.
Proof.
  intros Ho Hm. unfold outcome, only_owner, bind, gets, require, current_caller, current_owner.
  unfold gets. by rewrite (proj2 (N.eqb_eq _ _) Ho).
Qed.

Lemma owner_only_ensures {A} (m : M (State C) A) (s : State C) Q :
  (get_caller (st_chain s) = get_owner_address (st_chain s) → ensures m s Q) →
  ensures (only_owner ;;; m) s Q.
Proof.
  intros Hm. apply ensures_bind, ensures_bind, ensures_gets, ensures_bind, ensures_gets.
  apply ensures_require. intros Ho%N.eqb_eq. by apply Hm.
Qed.

(** The guards of a call that succeeds held. *)
Lemma no_global_op_ensures {A} (m : M (State C) A) msg (s : State C) Q :
  (st_global_op_checkpoint s = GlobalOpCheckpoint.None → ensures m s Q) →
  ensures (require_no_global_op msg ;;; m) s Q.
Proof.
  intros Hm. apply ensures_bind, ensures_bind, ensures_gets, ensures_require.
  unfold is_global_op_in_progress. intros Ho. apply Hm.
  by destruct (st_global_op_checkpoint s).
Qed.

Lemma not_paused_ensures {A} (m : M (State C) A) (s : State C) Q :
  (not_paused (st_chain s) = true → ensures m s Q) →
  ensures (require_not_paused ;;; m) s Q.
Proof.
  intros Hm. apply ensures_bind, ensures_bind, ensures_gets, ensures_require. exact Hm.
Qed.

Lemma feature_on_ensures {A} (m : M (State C) A) name default (s : State C) Q :
  (feature_on name default (st_chain s) = true → ensures m s Q) →
  ensures (check_feature_on name default ;;; m) s Q.
Proof.
  intros Hm. apply ensures_bind, ensures_bind, ensures_gets.
  destruct (feature_on name default (st_chain s)); [by apply Hm|done].
Qed.

Lemma no_global_op_ok (s : State C) msg :
  st_global_op_checkpoint s = GlobalOpCheckpoint.None →
  require_no_global_op msg s = Ok (tt, s).
Proof.
  intros Ho. unfold require_no_global_op, is_global_op_in_progress, bind, gets.
  by rewrite Ho.
Qed.
End ChainOps.

(** A transaction: an aborted call leaves the storage as it was. *)
Definition transact {S A} (m : M S A) (s : S) : S :=
  match m s with Ok (_, s') => s' | Err _ => s end.
