(* ===== verification/FundTransf.v ===== *)
(** * Fund transformations (user-fund-storage/src/fund_transf_module.rs)

    The conversions between fund types that the contract performs.  An amount
    passed as [&mut BigUint] is a value that the operation returns. *)
From stdpp Require Import base numbers list gmap strings.
From S2P Require Import Prelude FundTypes FundModule Chain State.

(** The value of an optional [&mut] maximum after the call. *)
Definition rest_of (before : N) (after : option N) : N := default before after.

Section FundTransf.
Context {C : Type} `{Chain C}.

Definition never : M (State C) bool := ret false.

Definition create_waiting (user : N) (bal : N) : M (State C) unit :=
  let! current_bl_nonce := current_bl_nonce in
  zoom (increase_fund_balance user (FundDescription.Waiting current_bl_nonce) bal).

Definition liquidate_all_withdraw_only (user : N) (interrupt : M (State C) bool)
    : M (State C) N :=
  destroy_all_for_user user FundType.WithdrawOnly interrupt.

Definition swap_user_active_to_unstaked (unstake_user_id : N) (amount : N)
    : M (State C) N :=
  let! current_bl_nonce := current_bl_nonce in
  let! '(_, rest) :=
    split_convert_max_by_user (Some amount) unstake_user_id FundType.Active Forwards
      (λ _, Some (FundDescription.UnStaked current_bl_nonce)) never in
  ret (rest_of amount rest).

Definition swap_waiting_to_active (remaining : N) (interrupt : M (State C) bool)
    : M (State C) (AffectedUserIdVec * N) :=
  let! '(affected_users, rest) :=
    split_convert_max_by_type (Some remaining) FundType.Waiting Forwards
      (λ _, ret (Some FundDescription.Active)) interrupt false in
  ret (affected_users, rest_of remaining rest).

Definition swap_user_waiting_to_withdraw_only (user : N) (remaining : N)
    : M (State C) N :=
  let! '(_, rest) :=
    split_convert_max_by_user (Some remaining) user FundType.Waiting Backwards
      (λ _, Some FundDescription.WithdrawOnly) never in
  ret (rest_of remaining rest).

(** Applies transformation to all funds below given threshold. *)
Definition swap_dust (current_id : N) (dust_limit : N) (source_type : FundType)
    (filter_transform : FundItem → M (State C) (option FundDescription))
    (interrupt : M (State C) bool) : M (State C) N :=
  split_convert_max_by_type_with_checkpoint current_id source_type Backwards
    (λ fund_item,
      if balance fund_item <? dust_limit then filter_transform fund_item
      else ret None)
    interrupt.

Definition get_affected_users_of_swap_waiting_to_active (amount : N)
    (interrupt : M (State C) bool) : M (State C) (AffectedUserIdVec * N) :=
  let stake_to_activate := amount in
  let! '(affected_users, rest) :=
    split_convert_max_by_type (Some stake_to_activate) FundType.Waiting Forwards
      (λ _, ret (Some FundDescription.Active)) interrupt true in
  ret (affected_users, rest_of stake_to_activate rest).

Definition swap_unstaked_to_deferred_payment (remaining : N)
    (interrupt : M (State C) bool) : M (State C) N :=
  let! '(_, rest) :=
    split_convert_max_by_type (Some remaining) FundType.UnStaked Forwards
      (λ fund_info,
        match fund_desc fund_info with
        | FundDescription.UnStaked created =>
            ret (Some (FundDescription.DeferredPayment created))
        | _ => ret None
        end) interrupt false in
  ret (rest_of remaining rest).

Definition swap_active_to_deferred_payment (remaining : N)
    (interrupt : M (State C) bool) : M (State C) N :=
  let! current_bl_nonce := current_bl_nonce in
  let! '(_, rest) :=
    split_convert_max_by_type (Some remaining) FundType.Active Backwards
      (λ _, ret (Some (FundDescription.DeferredPayment current_bl_nonce)))
      interrupt false in
  ret (rest_of remaining rest).

(** Whether a deferred payment can be withdrawn at block [nonce]. *)
Definition eligible (nonce n_blocks_before_claim : N) (d : FundDescription) : bool :=
  match d with
  | FundDescription.DeferredPayment created =>
      u64_add created n_blocks_before_claim <=? nonce
  | _ => false
  end.

Definition swap_eligible_deferred_to_withdraw (user : N) (n_blocks_before_claim : N)
    (interrupt : M (State C) bool) : M (State C) N :=
  let! current_bl_nonce := current_bl_nonce in
  let! '(total, _) :=
    split_convert_max_by_user None user FundType.DeferredPayment Forwards
      (λ fund_desc,
        if eligible current_bl_nonce n_blocks_before_claim fund_desc
        then Some FundDescription.WithdrawOnly else None) interrupt in
  ret total.
End FundTransf.
