(* ===== verification/FundView.v ===== *)
(** * Fund views (user-fund-storage/src/fund_view_module.rs) *)
From stdpp Require Import base numbers list gmap strings.
From S2P Require Import Prelude FundTypes FundModule UserData Settings Chain State FundTransf.

(** The five numbers, one for each stake type. *)
Abbreviation StakeByTypeResult := (N * N * N * N * N)%type.

(** ** Sums, read from the list headers *)
Definition get_user_stake_of_type (user : N) (t : FundType) (fs : FundStore) : N :=
  if user =? USER_STAKE_TOTALS_ID then total_balance (fund_list_by_type t fs)
  else total_balance (fund_list_by_user user t fs).

Definition get_user_total_stake (user : N) (fs : FundStore) : N :=
  0 + get_user_stake_of_type user FundType.WithdrawOnly fs
    + get_user_stake_of_type user FundType.Waiting fs
    + get_user_stake_of_type user FundType.Active fs
    + get_user_stake_of_type user FundType.UnStaked fs
    + get_user_stake_of_type user FundType.DeferredPayment fs.

Definition get_total_stake (fs : FundStore) : N :=
  get_user_total_stake USER_STAKE_TOTALS_ID fs.

Definition get_user_stake_by_type (user : N) (fs : FundStore) : StakeByTypeResult :=
  (get_user_stake_of_type user FundType.WithdrawOnly fs,
   get_user_stake_of_type user FundType.Waiting fs,
   get_user_stake_of_type user FundType.Active fs,
   get_user_stake_of_type user FundType.UnStaked fs,
   get_user_stake_of_type user FundType.DeferredPayment fs).

Definition get_total_waiting_stake (fs : FundStore) : N :=
  get_user_stake_of_type USER_STAKE_TOTALS_ID FundType.Waiting fs.
Definition get_total_active_stake (fs : FundStore) : N :=
  get_user_stake_of_type USER_STAKE_TOTALS_ID FundType.Active fs.
Definition get_total_unstaked_stake (fs : FundStore) : N :=
  get_user_stake_of_type USER_STAKE_TOTALS_ID FundType.UnStaked fs.
Definition get_total_deferred_payment_stake (fs : FundStore) : N :=
  get_user_stake_of_type USER_STAKE_TOTALS_ID FundType.DeferredPayment fs.
Definition get_total_withdraw_only_stake (fs : FundStore) : N :=
  get_user_stake_of_type USER_STAKE_TOTALS_ID FundType.WithdrawOnly fs.
Definition get_total_stake_by_type_endpoint (fs : FundStore) : StakeByTypeResult :=
  get_user_stake_by_type USER_STAKE_TOTALS_ID fs.

Section FundView.
Context {C : Type} `{Chain C}.
Implicit Type s : State C.

Definition stake_of_type (user : N) (t : FundType) : M (State C) N :=
  gets (λ s, get_user_stake_of_type user t (st_funds s)).

(** ** Views by address *)
Definition get_user_total_stake_endpoint (user_address : Address) s : N :=
  let user := get_user_id user_address (st_users s) in
  if user =? 0 then 0 else get_user_total_stake user (st_funds s).

Definition get_user_stake_of_type_by_address (user_address : Address) (t : FundType) s : N :=
  let user := get_user_id user_address (st_users s) in
  if user =? 0 then 0 else get_user_stake_of_type user t (st_funds s).

Definition get_user_withdraw_only_stake (a : Address) s : N :=
  get_user_stake_of_type_by_address a FundType.WithdrawOnly s.
Definition get_user_waiting_stake (a : Address) s : N :=
  get_user_stake_of_type_by_address a FundType.Waiting s.
Definition get_user_active_stake (a : Address) s : N :=
  get_user_stake_of_type_by_address a FundType.Active s.
Definition get_user_unstaked_stake (a : Address) s : N :=
  get_user_stake_of_type_by_address a FundType.UnStaked s.
Definition get_user_deferred_payment_stake (a : Address) s : N :=
  get_user_stake_of_type_by_address a FundType.DeferredPayment s.

Definition get_user_stake_by_type_endpoint (a : Address) s : StakeByTypeResult :=
  let user := get_user_id a (st_users s) in
  if user =? 0 then (0, 0, 0, 0, 0) else get_user_stake_by_type user (st_funds s).

Definition get_all_user_stake_by_type : M (State C) (list (Address * StakeByTypeResult)) :=
  let! num_users := gets (λ s, us_num_users (st_users s)) in
  for_each (ids_up_to num_users) [] (λ user result,
    let! a := zoom (get_user_address user) in
    let! r := gets (λ s, get_user_stake_by_type user (st_funds s)) in
    ret (result ++ [(a, r)])).

(** ** Lists *)
Definition get_user_deferred_payment_list (a : Address) : M (State C) (list (N * N)) :=
  let! user := gets (λ s, get_user_id a (st_users s)) in
  if 0 <? user then
    foreach_fund_by_user_type user FundType.DeferredPayment Forwards
      (λ fund_item result,
        match fund_desc fund_item with
        | FundDescription.DeferredPayment created =>
            ret (result ++ [(balance fund_item, created)])
        | _ => ret result
        end) []
  else ret [].

Definition eligible_deferred_payment (user : N) (n_blocks_before_claim : N)
    : M (State C) N :=
  let! current_bl_nonce := current_bl_nonce in
  let! r := gets (λ s, query_sum_funds_by_user_type user FundType.DeferredPayment
                         (eligible current_bl_nonce n_blocks_before_claim) (st_funds s)) in
  of_result r.

Definition get_full_waiting_list : M (State C) (list (Address * N * N)) :=
  foreach_fund_by_type FundType.Waiting Forwards
    (λ fund_item result,
      match fund_desc fund_item with
      | FundDescription.Waiting created =>
          let! a := zoom (get_user_address (user_id fund_item)) in
          ret (result ++ [(a, balance fund_item, created)])
      | _ => ret result
      end) [].

Definition get_full_active_list : M (State C) (list (Address * N)) :=
  foreach_fund_by_type FundType.Active Forwards
    (λ fund_item result,
      match fund_desc fund_item with
      | FundDescription.Active =>
          let! empty := gets (λ s, is_empty_user_address (user_id fund_item) (st_users s)) in
          if empty then ret (result ++ [(0, balance fund_item)])
          else
            let! a := zoom (get_user_address (user_id fund_item)) in
            ret (result ++ [(a, balance fund_item)])
      | _ => ret result
      end) [].
End FundView.
