(* ===== verification/Rewards.v ===== *)
(** * Rewards (latest/src/rewards_state.rs) *)
From stdpp Require Import base numbers list gmap strings.
From S2P Require Import Prelude FundTypes FundModule UserData Settings Chain State FundTransf.
From S2P Require Import FundView.

Record UserRewardData := mk_UserRewardData {
  reward_checkpoint : N;
  unclaimed_rewards : N;
}.

(** ** Storage *)
Definition get_user_rew_unclaimed (user : N) (rs : RewardStore) : N :=
  default 0 (rs_user_rew_unclaimed rs !! user).
Definition set_user_rew_unclaimed (user v : N) (rs : RewardStore) : RewardStore :=
  mk_RewardStore (<[user := v]> (rs_user_rew_unclaimed rs)) (rs_user_rew_checkpoint rs)
    (rs_sent_rewards rs).
Definition get_user_rew_checkpoint (user : N) (rs : RewardStore) : N :=
  default 0 (rs_user_rew_checkpoint rs !! user).
Definition set_user_rew_checkpoint (user v : N) (rs : RewardStore) : RewardStore :=
  mk_RewardStore (rs_user_rew_unclaimed rs) (<[user := v]> (rs_user_rew_checkpoint rs))
    (rs_sent_rewards rs).
Definition set_sent_rewards (v : N) (rs : RewardStore) : RewardStore :=
  mk_RewardStore (rs_user_rew_unclaimed rs) (rs_user_rew_checkpoint rs) v.

Definition load_user_reward_data (user : N) (rs : RewardStore) : UserRewardData :=
  let u_rew_checkp := get_user_rew_checkpoint user rs in
  let u_rew_unclmd := get_user_rew_unclaimed user rs in
  mk_UserRewardData u_rew_checkp u_rew_unclmd.

Section Rewards.
Context {C : Type} `{Chain C}.

Definition store_user_reward_data (user : N) (data : UserRewardData)
    : M (State C) unit :=
  zoom (modify (set_user_rew_checkpoint user (reward_checkpoint data))) ;;;
  zoom (modify (set_user_rew_unclaimed user (unclaimed_rewards data))).

Definition get_total_cumulated_rewards : M (State C) N :=
  gets (λ s, get_cumulated_validator_rewards (st_chain s)).

(** The service reward and the reward of the delegators, both rounded down. *)
Definition split_service_reward (tot_rewards : N) : M (State C) (N * N) :=
  let! service_fee := gets (λ s, service_fee (st_settings s)) in
  let perc_denominator := PERCENTAGE_DENOMINATOR in
  let service_rewards := service_fee * tot_rewards in
  let! service_rewards := big_div service_rewards perc_denominator in
  let! total_delegators_rewards := big_sub perc_denominator service_fee in
  let total_delegators_rewards := total_delegators_rewards * tot_rewards in
  let! total_delegators_rewards := big_div total_delegators_rewards perc_denominator in
  ret (service_rewards, total_delegators_rewards).

(** Does not update storage. *)
Definition load_updated_user_rewards (user : N) : M (State C) UserRewardData :=
  let! user_data := gets (λ s, load_user_reward_data user (st_rewards s)) in
  let! tot_cumul_rewards := get_total_cumulated_rewards in
  let! tot_new_rewards := big_sub tot_cumul_rewards (reward_checkpoint user_data) in
  if tot_new_rewards =? 0 then ret user_data else
  let! '(service_rewards, total_delegators_rewards) :=
    split_service_reward tot_new_rewards in
  let! delegation_cap := gets (λ s, total_delegation_cap (st_settings s)) in
  let unclaimed := unclaimed_rewards user_data in
  let! unclaimed :=
    if user =? OWNER_USER_ID then
      let unclaimed := unclaimed + service_rewards in
      let! tot_stake_active := stake_of_type USER_STAKE_TOTALS_ID FundType.Active in
      if tot_stake_active <? delegation_cap then
        let! missing_stake := big_sub delegation_cap tot_stake_active in
        let owner_unstaked_rewards := total_delegators_rewards * missing_stake in
        let! owner_unstaked_rewards := big_div owner_unstaked_rewards delegation_cap in
        ret (unclaimed + owner_unstaked_rewards)
      else ret unclaimed
    else ret unclaimed in
  let! u_stake_active := stake_of_type user FundType.Active in
  let! unclaimed :=
    if 0 <? u_stake_active then
      let delegator_new_rewards := total_delegators_rewards * u_stake_active in
      let! delegator_new_rewards := big_div delegator_new_rewards delegation_cap in
      ret (unclaimed + delegator_new_rewards)
    else ret unclaimed in
  ret (mk_UserRewardData tot_cumul_rewards unclaimed).

Definition compute_one_user_reward (user : N) : M (State C) unit :=
  let! user_data := load_updated_user_rewards user in
  store_user_reward_data user user_data.

Definition get_claimable_rewards (a : Address) : M (State C) N :=
  let! user := gets (λ s, get_user_id a (st_users s)) in
  if user =? 0 then ret 0 else
  let! user_data := load_updated_user_rewards user in
  ret (unclaimed_rewards user_data).

Definition get_total_unclaimed_rewards : M (State C) N :=
  let! num_users := gets (λ s, us_num_users (st_users s)) in
  for_each (ids_up_to num_users) 0 (λ user sum_unclaimed,
    let! user_data := load_updated_user_rewards user in
    ret (sum_unclaimed + unclaimed_rewards user_data)).

Definition total_unprotected : M (State C) N :=
  let! sent_rewards := gets (λ s, rs_sent_rewards (st_rewards s)) in
  let! total_rewards := get_total_cumulated_rewards in
  let! total_waiting := stake_of_type USER_STAKE_TOTALS_ID FundType.Waiting in
  let! total_deferred := stake_of_type USER_STAKE_TOTALS_ID FundType.DeferredPayment in
  let! total_withdraw := stake_of_type USER_STAKE_TOTALS_ID FundType.WithdrawOnly in
  let! balance := gets (λ s, get_sc_balance (st_chain s)) in
  let unprotected := balance + sent_rewards in
  let! unprotected := big_sub unprotected total_rewards in
  let! unprotected := big_sub unprotected total_waiting in
  let! unprotected := big_sub unprotected total_deferred in
  big_sub unprotected total_withdraw.

(** ** Claiming (latest/src/rewards_endpoints.rs) *)
Definition send_rewards (to : Address) (amount : N) : M (State C) unit :=
  send_egld to amount ;;;
  let! sent_rewards := gets (λ s, rs_sent_rewards (st_rewards s)) in
  let sent_rewards := sent_rewards + amount in
  zoom (modify (set_sent_rewards sent_rewards)).

Definition claim_rewards : M (State C) unit :=
  require_not_paused ;;;
  check_feature_on "claimRewards" true ;;;
  let! caller := current_caller in
  let! user := gets (λ s, get_user_id caller (st_users s)) in
  require (negb (user =? 0)) "unknown caller" ;;;
  require_no_global_op "claim rewards is temporarily paused as checkpoint is reset" ;;;
  let! user_data := load_updated_user_rewards user in
  let! user_data :=
    if 0 <? unclaimed_rewards user_data then
      log_event (claim_rewards_event caller (unclaimed_rewards user_data)) ;;;
      send_rewards caller (unclaimed_rewards user_data) ;;;
      ret (mk_UserRewardData (reward_checkpoint user_data) 0)
    else ret user_data in
  store_user_reward_data user user_data.
End Rewards.
