(* ===== verification/UserStake.v ===== *)
(** * Staking, unstaking and dust cleanup (latest/src/user_stake_state.rs,
    user_stake_endpoints.rs, user_stake_dust_cleanup.rs) *)
From stdpp Require Import base numbers list gmap strings.
From S2P Require Import Prelude FundTypes FundModule UserData Settings Chain State FundTransf.
From S2P Require Import FundView Rewards.

Definition UNBOND_GASLIMIT : N := 50000000.
Definition DUST_GASLIMIT : N := 20000000.

Section UserStake.
Context {C : Type} `{Chain C}.

Definition is_bootstrap_mode : M (State C) bool :=
  gets (λ s, bootstrap_mode (st_settings s)).
Definition get_total_delegation_cap : M (State C) N :=
  gets (λ s, total_delegation_cap (st_settings s)).
Definition get_minimum_stake : M (State C) N := gets (λ s, min_stake (st_settings s)).

(** ** user_stake_state.rs *)

(** Swaps waiting stake to active within given limits,
    and also computes rewards for all affected users before the swap itself. *)
Definition swap_waiting_to_active_compute_rewards (swappable : N) : M (State C) unit :=
  let! '(affected_users, remaining) :=
    get_affected_users_of_swap_waiting_to_active swappable never in
  require (remaining =? 0) "error swapping waiting to active" ;;;
  compute_one_user_reward OWNER_USER_ID ;;;
  for_each affected_users tt (λ user _,
    require (negb (user =? 0)) "bad user_id" ;;;
    compute_one_user_reward user) ;;;
  let! '(_, remaining) := swap_waiting_to_active swappable never in
  require (remaining =? 0) "error swapping waiting to active".

Definition use_waiting_to_replace_unstaked : M (State C) unit :=
  let! total_waiting := stake_of_type USER_STAKE_TOTALS_ID FundType.Waiting in
  let! total_unstaked := stake_of_type USER_STAKE_TOTALS_ID FundType.UnStaked in
  let! bootstrap := is_bootstrap_mode in
  if bootstrap then
    let! total_unstaked := swap_unstaked_to_deferred_payment total_unstaked never in
    require (total_unstaked =? 0) "error swapping unstaked to deferred payment" ;;;
    let! total_active := stake_of_type USER_STAKE_TOTALS_ID FundType.Active in
    let! cap := get_total_delegation_cap in
    let! fillable_active_stake := big_sub cap total_active in
    let! '(_, fillable_active_stake) :=
      swap_waiting_to_active fillable_active_stake never in
    if fillable_active_stake =? 0 then zoom (modify (set_bootstrap_mode false))
    else ret tt
  else
    let swappable := N.min total_waiting total_unstaked in
    if swappable =? 0 then ret tt else
    let! unstaked_swap_remaining :=
      swap_unstaked_to_deferred_payment swappable never in
    require (unstaked_swap_remaining =? 0)
      "error swapping unstaked to deferred payment" ;;;
    swap_waiting_to_active_compute_rewards swappable.

(** The code reads the total active stake, not the user's. *)
Definition validate_user_minimum_stake (user : N) : M (State C) unit :=
  let! waiting := stake_of_type user FundType.Waiting in
  let! active := stake_of_type USER_STAKE_TOTALS_ID FundType.Active in
  let relevant_stake := waiting + active in
  let! minimum := get_minimum_stake in
  require ((relevant_stake =? 0) || (minimum <=? relevant_stake))
    "cannot have waiting + active stake less than minimum stake".

Definition validate_owner_stake_share : M (State C) unit :=
  let! owner_active := stake_of_type OWNER_USER_ID FundType.Active in
  let! total_active := stake_of_type USER_STAKE_TOTALS_ID FundType.Active in
  let! share := gets (λ s, owner_min_stake_share (st_settings s)) in
  require (total_active * share <=? owner_active * PERCENTAGE_DENOMINATOR)
    "owner doesn't have enough stake in the contract".

Definition validate_unstake_amount (user : N) (amount : N) : M (State C) unit :=
  let! waiting := stake_of_type user FundType.Waiting in
  let! active := stake_of_type user FundType.Active in
  let max_unstake := waiting + active in
  match amount ?= max_unstake with
  | Gt => sc_panic "cannot unstake more than the user waiting + active stake"
  | Eq => ret tt
  | Lt =>
      let! minimum := get_minimum_stake in
      require (minimum <=? amount) "cannot unstake less than minimum stake"
  end.

Definition validate_delegation_cap_invariant : M (State C) unit :=
  let! total_active := stake_of_type USER_STAKE_TOTALS_ID FundType.Active in
  let! total_unstaked := stake_of_type USER_STAKE_TOTALS_ID FundType.UnStaked in
  let! cap := get_total_delegation_cap in
  let! bootstrap := is_bootstrap_mode in
  if bootstrap then
    require (total_active + total_unstaked <? cap) "delegation cap invariant violated"
  else
    require (total_active + total_unstaked =? cap) "delegation cap invariant violated".

Definition process_stake (payment : N) : M (State C) unit :=
  let! caller := current_caller in
  let! user := zoom (get_or_create_user caller) in
  log_event (stake_event caller payment) ;;;
  create_waiting user payment ;;;
  validate_delegation_cap_invariant ;;;
  use_waiting_to_replace_unstaked.

(** ** user_stake_endpoints.rs *)

Definition stake_endpoint (payment : N) : M (State C) unit :=
  require_not_paused ;;;
  let! minimum := get_minimum_stake in
  require (minimum <=? payment) "cannot stake less than minimum stake" ;;;
  require_no_global_op "staking is temporarily paused as checkpoint is reset" ;;;
  process_stake payment.

Definition unstake_endpoint (amount : N) : M (State C) unit :=
  require_not_paused ;;;
  require_no_global_op "unstaking is temporarily paused as checkpoint is reset" ;;;
  let! caller := current_caller in
  let! unstake_user_id := gets (λ s, get_user_id caller (st_users s)) in
  require (negb (unstake_user_id =? 0)) "only delegators can unstake" ;;;
  validate_unstake_amount unstake_user_id amount ;;;
  let remaining := amount in
  let! remaining := swap_user_waiting_to_withdraw_only unstake_user_id remaining in
  if remaining =? 0 then ret tt else
  compute_one_user_reward OWNER_USER_ID ;;;
  compute_one_user_reward unstake_user_id ;;;
  let! remaining := swap_user_active_to_unstaked unstake_user_id remaining in
  require (remaining =? 0) "error converting Active to UnStaked" ;;;
  use_waiting_to_replace_unstaked ;;;
  validate_user_minimum_stake unstake_user_id.

Definition get_unstakeable (a : Address) (s : State C) : N :=
  let user := get_user_id a (st_users s) in
  if user =? 0 then 0
  else get_user_stake_of_type user FundType.Waiting (st_funds s)
       + get_user_stake_of_type user FundType.Active (st_funds s).

Definition unbond_user : M (State C) N :=
  require_not_paused ;;;
  let! caller := current_caller in
  let! caller_id := gets (λ s, get_user_id caller (st_users s)) in
  require (0 <? caller_id) "unknown caller" ;;;
  let! n_blocks_before_unbond := gets (λ s, n_blocks_before_unbond (st_settings s)) in
  let! _ := swap_eligible_deferred_to_withdraw caller_id n_blocks_before_unbond
              (gas_below UNBOND_GASLIMIT) in
  let! amount_liquidated :=
    liquidate_all_withdraw_only caller_id (gas_below UNBOND_GASLIMIT) in
  (if 0 <? amount_liquidated then send_egld caller amount_liquidated else ret tt) ;;;
  ret amount_liquidated.

Definition get_unbondable (a : Address) : M (State C) N :=
  let! user := gets (λ s, get_user_id a (st_users s)) in
  if user =? 0 then ret 0 else
  let! n_blocks_before_unbond := gets (λ s, n_blocks_before_unbond (st_settings s)) in
  let! deferred := eligible_deferred_payment user n_blocks_before_unbond in
  let! withdraw_only := stake_of_type user FundType.WithdrawOnly in
  ret (deferred + withdraw_only).

(** ** user_stake_dust_cleanup.rs *)

Definition count_dust_items_waiting_list (dust_limit : N) (fs : FundStore) : result N :=
  count_fund_items_by_type FundType.Waiting (λ i, balance i <? dust_limit) fs.
Definition count_dust_items_active (dust_limit : N) (fs : FundStore) : result N :=
  count_fund_items_by_type FundType.Active (λ i, balance i <? dust_limit) fs.

(** [dust_cleanup_checkpoint().update(..)] *)
Definition update_dust_checkpoint (f : N → M (State C) N) : M (State C) unit :=
  mapper_update (gets st_dust_cleanup_checkpoint)
    (λ id, modify (set_dust_cleanup_checkpoint id))
    (λ checkpoint, let! checkpoint := f checkpoint in ret (tt, checkpoint)).

Definition dust_cleanup_waiting_list (dust_limit : N) : M (State C) unit :=
  only_owner ;;;
  require_no_global_op "contract is temporarily paused as checkpoint is reset" ;;;
  update_dust_checkpoint (λ checkpoint,
    swap_dust checkpoint dust_limit FundType.Waiting
      (λ _, ret (Some FundDescription.WithdrawOnly))
      (gas_below DUST_GASLIMIT)).

Definition dust_cleanup_active (dust_limit : N) : M (State C) unit :=
  only_owner ;;;
  require_no_global_op "contract is temporarily paused as checkpoint is reset" ;;;
  let! gas := gas_left in
  let reserved_gas := u64_add (gas / 2) DUST_GASLIMIT in
  compute_one_user_reward OWNER_USER_ID ;;;
  update_dust_checkpoint (λ checkpoint,
    swap_dust checkpoint dust_limit FundType.Active
      (λ fund_item,
        if negb (user_id fund_item =? 0) then
          compute_one_user_reward (user_id fund_item) ;;;
          ret (Some (FundDescription.UnStaked 0))
        else ret None)
      (gas_below reserved_gas)) ;;;
  use_waiting_to_replace_unstaked.
End UserStake.
