(* ===== verification/ResetCheckpoint.v ===== *)
(** * Global operations: the delegation cap and the service fee
    (latest/src/reset_checkpoint_endpoints.rs) *)
From stdpp Require Import base numbers list gmap strings.
From S2P Require Import Prelude FundTypes FundModule UserData Settings Chain State FundTransf.
From S2P Require Import FundView Rewards UserStake.

Definition STOP_AT_GASLIMIT : N := 100000000.

Module OperationCompletionStatus.
Inductive OperationCompletionStatus : Set :=
| Completed
| InterruptedBeforeOutOfGas.
End OperationCompletionStatus.
Abbreviation OperationCompletionStatus :=
  OperationCompletionStatus.OperationCompletionStatus.

#[export] Instance OperationCompletionStatus_eq_dec : EqDecision OperationCompletionStatus.
Proof. solve_decision. Defined.

Section ResetCheckpoint.
Context {C : Type} `{Chain C}.

(** ** Bringing the rewards of all users up to date *)

(** The loop over the users; [inl] when interrupted with the data to resume
    from, [inr] when all users are done. *)
Fixpoint compute_all_rewards_loop (fuel : nat) (num_nodes : N)
    (data : ComputeAllRewardsData)
    : M (State C) (ComputeAllRewardsData + ComputeAllRewardsData) :=
  match fuel with
  | O => fail OutOfFuel
  | S fuel =>
      if last_id data <? num_nodes then
        let! stop := gas_below STOP_AT_GASLIMIT in
        if stop then ret (inl data) else
        let current_user_id := usize_add (last_id data) 1 in
        let! user_data := load_updated_user_rewards current_user_id in
        store_user_reward_data current_user_id user_data ;;;
        compute_all_rewards_loop fuel num_nodes
          (mk_ComputeAllRewardsData current_user_id
            (sum_unclaimed data + unclaimed_rewards user_data)
            (rewards_checkpoint data))
      else ret (inr data)
  end.

(** Returns something if there is more computing to be done. *)
Definition compute_all_rewards (data : ComputeAllRewardsData)
    : M (State C) (option ComputeAllRewardsData) :=
  let! curr_rewards_checkpoint := get_total_cumulated_rewards in
  let data :=
    if negb (rewards_checkpoint data =? curr_rewards_checkpoint) then
      mk_ComputeAllRewardsData 0 0 curr_rewards_checkpoint
    else data in
  let! num_nodes := gets (λ s, us_num_users (st_users s)) in
  let! r := compute_all_rewards_loop (S (N.to_nat num_nodes)) num_nodes data in
  match r with
  | inl data => ret (Some data)
  | inr data =>
      let! total := get_total_cumulated_rewards in
      let! sent_rewards := gets (λ s, rs_sent_rewards (st_rewards s)) in
      let! remainder := big_sub total (sum_unclaimed data) in
      let! remainder := big_sub remainder sent_rewards in
      (if 0 <? remainder then
         let! node_unclaimed :=
           gets (λ s, get_user_rew_unclaimed OWNER_USER_ID (st_rewards s)) in
         let node_unclaimed := node_unclaimed + remainder in
         zoom (modify (set_user_rew_unclaimed OWNER_USER_ID node_unclaimed))
       else ret tt) ;;;
      ret None
  end.

(** ** Steps of a global operation *)

Definition continue_modify_total_delegation_cap_step
    (mdcap_data : ModifyTotalDelegationCapData)
    : M (State C) (OperationCompletionStatus * GlobalOpCheckpoint) :=
  match step mdcap_data with
  | ModifyDelegationCapStep.ComputeAllRewards car_data =>
      let! more := compute_all_rewards car_data in
      match more with
      | Some more_computation =>
          ret (OperationCompletionStatus.InterruptedBeforeOutOfGas,
               GlobalOpCheckpoint.ModifyTotalDelegationCap
                 (with_step (ModifyDelegationCapStep.ComputeAllRewards more_computation)
                    mdcap_data))
      | None =>
          ret (OperationCompletionStatus.Completed,
               GlobalOpCheckpoint.ModifyTotalDelegationCap
                 (with_step ModifyDelegationCapStep.SwapWaitingToActive mdcap_data))
      end
  | ModifyDelegationCapStep.SwapWaitingToActive =>
      let! '(_, remaining) :=
        swap_waiting_to_active (remaining_swap_waiting_to_active mdcap_data)
          (gas_below STOP_AT_GASLIMIT) in
      let mdcap_data := with_remaining_waiting remaining mdcap_data in
      if 0 <? remaining_swap_waiting_to_active mdcap_data then
        ret (OperationCompletionStatus.InterruptedBeforeOutOfGas,
             GlobalOpCheckpoint.ModifyTotalDelegationCap mdcap_data)
      else
        ret (OperationCompletionStatus.Completed,
             GlobalOpCheckpoint.ModifyTotalDelegationCap
               (with_step ModifyDelegationCapStep.SwapUnstakedToDeferredPayment
                  mdcap_data))
  | ModifyDelegationCapStep.SwapUnstakedToDeferredPayment =>
      let! remaining :=
        swap_unstaked_to_deferred_payment (remaining_swap_unstaked_to_def_p mdcap_data)
          (gas_below STOP_AT_GASLIMIT) in
      let mdcap_data := with_remaining_unstaked remaining mdcap_data in
      if 0 <? remaining_swap_unstaked_to_def_p mdcap_data then
        ret (OperationCompletionStatus.InterruptedBeforeOutOfGas,
             GlobalOpCheckpoint.ModifyTotalDelegationCap mdcap_data)
      else
        ret (OperationCompletionStatus.Completed,
             GlobalOpCheckpoint.ModifyTotalDelegationCap
               (with_step ModifyDelegationCapStep.SwapActiveToDeferredPayment mdcap_data))
  | ModifyDelegationCapStep.SwapActiveToDeferredPayment =>
      let! remaining :=
        swap_active_to_deferred_payment (remaining_swap_active_to_def_p mdcap_data)
          (gas_below STOP_AT_GASLIMIT) in
      let mdcap_data := with_remaining_active remaining mdcap_data in
      if 0 <? remaining_swap_active_to_def_p mdcap_data then
        ret (OperationCompletionStatus.InterruptedBeforeOutOfGas,
             GlobalOpCheckpoint.ModifyTotalDelegationCap mdcap_data)
      else
        zoom (modify (set_total_delegation_cap (new_delegation_cap mdcap_data))) ;;;
        ret (OperationCompletionStatus.Completed, GlobalOpCheckpoint.None)
  end.

Definition continue_global_operation_step (orc : GlobalOpCheckpoint)
    : M (State C) (OperationCompletionStatus * GlobalOpCheckpoint) :=
  match orc with
  | GlobalOpCheckpoint.None => ret (OperationCompletionStatus.Completed, orc)
  | GlobalOpCheckpoint.ModifyTotalDelegationCap mdcap_data =>
      continue_modify_total_delegation_cap_step mdcap_data
  | GlobalOpCheckpoint.ChangeServiceFee new_service_fee compute_rewards_data =>
      let! more := compute_all_rewards compute_rewards_data in
      match more with
      | Some more_computation =>
          ret (OperationCompletionStatus.InterruptedBeforeOutOfGas,
               GlobalOpCheckpoint.ChangeServiceFee new_service_fee more_computation)
      | None =>
          zoom (modify (set_service_fee new_service_fee)) ;;;
          ret (OperationCompletionStatus.Completed, GlobalOpCheckpoint.None)
      end
  end.

(** Each completed step moves on to the next of at most four, so five steps
    and the exit are enough. *)
Definition GLOBAL_OP_FUEL : nat := 6.

Fixpoint continue_global_operation_loop (fuel : nat) (status : OperationCompletionStatus)
    (orc : GlobalOpCheckpoint)
    : M (State C) (OperationCompletionStatus * GlobalOpCheckpoint) :=
  match fuel with
  | O => fail OutOfFuel
  | S fuel =>
      if bool_decide (status = OperationCompletionStatus.Completed) && negb (is_none orc)
      then
        let! '(new_status, new_orc) := continue_global_operation_step orc in
        continue_global_operation_loop fuel new_status new_orc
      else ret (status, orc)
  end.

Definition continue_global_operation (orc : GlobalOpCheckpoint)
    : M (State C) OperationCompletionStatus :=
  let! '(status, orc) :=
    continue_global_operation_loop GLOBAL_OP_FUEL OperationCompletionStatus.Completed orc in
  modify (set_global_op_checkpoint orc) ;;;
  ret status.

Definition continue_global_operation_endpoint : M (State C) OperationCompletionStatus :=
  check_feature_on "continueGlobalOperation" true ;;;
  let! orc := gets st_global_op_checkpoint in
  continue_global_operation orc.

(** ** Starting a global operation *)

Definition modify_total_delegation_cap (new_total_cap : N)
    : M (State C) OperationCompletionStatus :=
  only_owner ;;;
  require_no_global_op "cannot modify total delegation cap when last is in progress" ;;;
  let! total_waiting := stake_of_type USER_STAKE_TOTALS_ID FundType.Waiting in
  let! total_active := stake_of_type USER_STAKE_TOTALS_ID FundType.Active in
  let! total_unstaked := stake_of_type USER_STAKE_TOTALS_ID FundType.UnStaked in
  let max_available := (total_active + total_waiting) + total_unstaked in
  let! bootstrap := is_bootstrap_mode in
  (* [None]: the call returns early, the new cap being set *)
  let! opt_previous_total_cap :=
    if bootstrap then
      if max_available <? new_total_cap then
        zoom (modify (set_total_delegation_cap new_total_cap)) ;;;
        ret None
      else
        zoom (modify (set_bootstrap_mode false)) ;;;
        ret (Some max_available)
    else
      require (new_total_cap <=? max_available)
        "new delegation cap must be less or equal to total active + waiting" ;;;
      let! cap := get_total_delegation_cap in
      ret (Some cap) in
  match opt_previous_total_cap with
  | None => ret OperationCompletionStatus.Completed
  | Some previous_total_cap =>
      match new_total_cap ?= previous_total_cap with
      | Eq => ret OperationCompletionStatus.Completed
      | Gt =>
          require (total_unstaked =? 0)
            "no unstaked funds should be present when increasing delegation cap" ;;;
          let! swap_amount := big_sub new_total_cap previous_total_cap in
          let! total := get_total_cumulated_rewards in
          continue_global_operation
            (GlobalOpCheckpoint.ModifyTotalDelegationCap
              (mk_ModifyTotalDelegationCapData new_total_cap swap_amount 0 0
                (ModifyDelegationCapStep.ComputeAllRewards
                  (ComputeAllRewardsData_new total))))
      | Lt =>
          let! swap_amount := big_sub previous_total_cap new_total_cap in
          let! unprotected := total_unprotected in
          require (swap_amount <=? unprotected)
            "not enough funds in contract to pay those who are forced unstaked" ;;;
          let! '(swap_active_to_def_p, swap_unstaked_to_def_p) :=
            if swap_amount <=? total_unstaked then ret (0, swap_amount)
            else
              let! d := big_sub swap_amount total_unstaked in
              ret (d, total_unstaked) in
          let! total := get_total_cumulated_rewards in
          continue_global_operation
            (GlobalOpCheckpoint.ModifyTotalDelegationCap
              (mk_ModifyTotalDelegationCapData new_total_cap 0
                swap_active_to_def_p swap_unstaked_to_def_p
                (ModifyDelegationCapStep.ComputeAllRewards
                  (ComputeAllRewardsData_new total))))
      end
  end.

(** Note: the source does not restrict this endpoint to the owner. *)
Definition set_service_fee_endpoint (service_fee_per_10000 : N)
    : M (State C) OperationCompletionStatus :=
  require (service_fee_per_10000 <=? PERCENTAGE_DENOMINATOR)
    "service fee out of range" ;;;
  require_no_global_op "global checkpoint is in progress" ;;;
  let new_service_fee := service_fee_per_10000 in
  let! fee := gets (λ s, service_fee (st_settings s)) in
  if fee =? new_service_fee then ret OperationCompletionStatus.Completed else
  let! bootstrap := is_bootstrap_mode in
  if bootstrap then
    zoom (modify (set_service_fee new_service_fee)) ;;;
    ret OperationCompletionStatus.Completed
  else
    let! total := get_total_cumulated_rewards in
    continue_global_operation
      (GlobalOpCheckpoint.ChangeServiceFee new_service_fee
        (ComputeAllRewardsData_new total)).
End ResetCheckpoint.
