(* ===== verification/NodeActivation.v ===== *)
(** * Node operations (latest/src/node_activation.rs)

    The owner drives the validator nodes through their states by asynchronous
    calls to the auction contract: the endpoint moves the nodes to a pending
    state and leaves with a call, the callback settles each node by the status
    that the auction returns for it. *)
From stdpp Require Import base numbers list gmap strings.
From S2P Require Import Prelude FundTypes FundModule UserData NodeConfig Settings Chain State.
From S2P Require Import FundTransf FundView Rewards UserStake.

(** [ManagedAsyncCallResult]: the returned values, or the error message. *)
Inductive CallResult : Type :=
| CallOk (node_status_args : list (BLSKey * N))
| CallErr (err_msg : string).

Section NodeActivation.
Context {C : Type} `{Chain C}.

Definition node_state (node_id : N) : M (State C) NodeState :=
  gets (λ s, get_node_state node_id (st_nodes s)).
Definition put_node_state (node_id : N) (st : NodeState) : M (State C) unit :=
  zoom (modify (set_node_state node_id st)).
Definition node_id_of (bls_key : BLSKey) : M (State C) N :=
  gets (λ s, get_node_id bls_key (st_nodes s)).
Definition auction_contract_addr : M (State C) Address :=
  gets (λ s, auction_addr (st_settings s)).

Definition no_node_op_during_reset : M (State C) unit :=
  require_no_global_op "node operations are temporarily paused as checkpoint is reset".

(** Setting all nodes of a vector to one state. *)
Definition set_all_states (node_ids : NodeIndexArrayVec) (st : NodeState)
    : M (State C) unit :=
  for_each node_ids tt (λ node_id _, put_node_state node_id st).

(** ** Staking *)
Definition perform_stake_nodes (node_ids : NodeIndexArrayVec)
    (bls_keys_signatures : list (BLSKey * BLSSignature)) (amount_to_stake : N)
    : M (State C) unit :=
  let num_nodes := N.of_nat (length node_ids) in
  let! addr := auction_contract_addr in
  async_call (mk_AsyncCall addr (auction_stake num_nodes bls_keys_signatures)
    amount_to_stake (Some (auction_stake_callback node_ids))).

Definition stake_one_node (bls_key : BLSKey)
    (acc : NodeIndexArrayVec * list (BLSKey * BLSSignature))
    : M (State C) (NodeIndexArrayVec * list (BLSKey * BLSSignature)) :=
  let '(node_ids, bls_keys_signatures) := acc in
  let! node_id := node_id_of bls_key in
  require (negb (node_id =? 0)) "unknown node provided" ;;;
  let! st := node_state node_id in
  require (bool_decide (st = NodeState.Inactive)) "node must be inactive" ;;;
  let! node_ids := push_node node_ids node_id in
  let! bls_signature := zoom (get_node_signature node_id) in
  put_node_state node_id NodeState.PendingActivation ;;;
  ret (node_ids, bls_keys_signatures ++ [(bls_key, bls_signature)]).

Definition stake_nodes (amount_to_stake : N) (bls_keys : list BLSKey)
    : M (State C) unit :=
  only_owner ;;;
  let! bootstrap := is_bootstrap_mode in
  require (negb bootstrap) "cannot stake nodes in bootstrap mode" ;;;
  no_node_op_during_reset ;;;
  let! unprotected := total_unprotected in
  require (amount_to_stake <=? unprotected)
    "not enough funds in contract to stake nodes" ;;;
  validate_owner_stake_share ;;;
  let! '(node_ids, bls_keys_signatures) := for_each bls_keys ([], []) stake_one_node in
  perform_stake_nodes node_ids bls_keys_signatures amount_to_stake.

Definition auction_stake_callback_ok (node_ids : NodeIndexArrayVec) : M (State C) unit :=
  match node_ids with
  | [] => ret tt
  | _ =>
      set_all_states node_ids NodeState.Active ;;;
      log_event stake_node_ok_event
  end.

Definition auction_stake_callback_fail (node_ids : NodeIndexArrayVec) (err_msg : string)
    : M (State C) unit :=
  match node_ids with
  | [] => ret tt
  | _ =>
      set_all_states node_ids NodeState.Inactive ;;;
      log_event (stake_node_fail_event err_msg)
  end.

Definition run_auction_stake_callback (node_ids : NodeIndexArrayVec)
    (call_result : CallResult) : M (State C) unit :=
  match call_result with
  | CallOk node_status_args =>
      let! '(node_ids_ok, node_ids_fail) :=
        zoom (split_node_ids_by_err node_ids node_status_args) in
      auction_stake_callback_ok node_ids_ok ;;;
      auction_stake_callback_fail node_ids_fail "staking failed for some nodes"
  | CallErr err_msg => auction_stake_callback_fail node_ids err_msg
  end.

(** ** Unstaking *)
Definition perform_unstake_nodes (unstake_tokens : bool) (node_ids : NodeIndexArrayVec)
    (bls_keys : list BLSKey) : M (State C) unit :=
  for_each node_ids tt (λ node_id _,
    let! st := node_state node_id in
    require (bool_decide (st = NodeState.Active)) "node not active" ;;;
    put_node_state node_id NodeState.PendingDeactivation) ;;;
  let! addr := auction_contract_addr in
  async_call (mk_AsyncCall addr
    (if unstake_tokens then auction_unstake bls_keys else auction_unstake_nodes bls_keys)
    0 (Some (auction_unstake_callback node_ids))).

(** The ids of the given keys, in a vector. *)
Definition known_node_id (bls_key : BLSKey) (node_ids : NodeIndexArrayVec)
    : M (State C) NodeIndexArrayVec :=
  let! node_id := node_id_of bls_key in
  require (negb (node_id =? 0)) "unknown node provided" ;;;
  push_node node_ids node_id.

Definition unstake_nodes (unstake_tokens : bool) (bls_keys : list BLSKey)
    : M (State C) unit :=
  no_node_op_during_reset ;;;
  let! node_ids := for_each bls_keys [] known_node_id in
  perform_unstake_nodes unstake_tokens node_ids bls_keys.

Definition unstake_nodes_endpoint (bls_keys : list BLSKey) : M (State C) unit :=
  only_owner ;;; unstake_nodes false bls_keys.
Definition unstake_nodes_and_tokens_endpoint (bls_keys : list BLSKey)
    : M (State C) unit :=
  only_owner ;;; unstake_nodes true bls_keys.

Definition auction_unstake_callback_ok (node_ids : NodeIndexArrayVec)
    : M (State C) unit :=
  match node_ids with
  | [] => ret tt
  | _ =>
      let! bl_nonce := current_bl_nonce in
      set_all_states node_ids (NodeState.UnBondPeriod bl_nonce) ;;;
      log_event unstake_node_ok_event
  end.

Definition force_node_unbond_period (bls_keys : list BLSKey) : M (State C) unit :=
  only_owner ;;;
  for_each bls_keys tt (λ bls_key _,
    let! node_id := node_id_of bls_key in
    require (negb (node_id =? 0)) "unknown node provided" ;;;
    put_node_state node_id (NodeState.UnBondPeriod 0)).

Definition auction_unstake_callback_fail (node_ids : NodeIndexArrayVec) (err_msg : string)
    : M (State C) unit :=
  match node_ids with
  | [] => ret tt
  | _ =>
      set_all_states node_ids NodeState.Active ;;;
      log_event (unstake_node_fail_event err_msg)
  end.

Definition run_auction_unstake_callback (node_ids : NodeIndexArrayVec)
    (call_result : CallResult) : M (State C) unit :=
  match call_result with
  | CallOk node_status_args =>
      let! '(node_ids_ok, node_ids_fail) :=
        zoom (split_node_ids_by_err node_ids node_status_args) in
      auction_unstake_callback_ok node_ids_ok ;;;
      auction_unstake_callback_fail node_ids_fail "unstaking failed for some nodes"
  | CallErr err_msg => auction_unstake_callback_fail node_ids err_msg
  end.

(** ** Unbonding *)
Definition prepare_node_for_unbond_if_possible (node_id : N) : M (State C) bool :=
  let! st := node_state node_id in
  match st with
  | NodeState.UnBondPeriod started =>
      put_node_state node_id (NodeState.PendingUnBond started) ;;;
      ret true
  | _ => ret false
  end.

Definition perform_unbond (node_ids : NodeIndexArrayVec) (bls_keys : list BLSKey)
    : M (State C) unit :=
  let! addr := auction_contract_addr in
  async_call (mk_AsyncCall addr (auction_unbond_nodes bls_keys) 0
    (Some (auction_unbond_callback node_ids))).

Definition unbond_one_node (bls_key : BLSKey) (node_ids : NodeIndexArrayVec)
    : M (State C) NodeIndexArrayVec :=
  let! node_id := node_id_of bls_key in
  require (negb (node_id =? 0)) "unknown node provided" ;;;
  let! possible := prepare_node_for_unbond_if_possible node_id in
  require possible "node cannot be unbonded" ;;;
  push_node node_ids node_id.

Definition unbond_specific_nodes_endpoint (bls_keys : list BLSKey) : M (State C) unit :=
  only_owner ;;;
  no_node_op_during_reset ;;;
  require (negb (bool_decide (bls_keys = []))) "no BLS keys provided" ;;;
  let! node_ids := for_each bls_keys [] unbond_one_node in
  perform_unbond node_ids bls_keys.

(** The descending loop over all node ids. *)
Definition unbond_if_possible (node_id : N) (acc : NodeIndexArrayVec * list BLSKey)
    : M (State C) (NodeIndexArrayVec * list BLSKey) :=
  let '(node_ids, bls_keys) := acc in
  let! possible := prepare_node_for_unbond_if_possible node_id in
  if possible then
    let! node_ids := push_node node_ids node_id in
    let! bls_key := zoom (get_node_id_to_bls node_id) in
    ret (node_ids, bls_keys ++ [bls_key])
  else ret (node_ids, bls_keys).

Definition unbond_all_possible_nodes : M (State C) unit :=
  only_owner ;;;
  no_node_op_during_reset ;;;
  let! num_nodes := gets (λ s, ns_num_nodes (st_nodes s)) in
  let! '(node_ids, bls_keys) :=
    for_each (reverse (ids_up_to num_nodes)) ([], []) unbond_if_possible in
  match node_ids with
  | [] => ret tt
  | _ => perform_unbond node_ids bls_keys
  end.

Definition auction_unbond_callback_ok (node_ids : NodeIndexArrayVec) : M (State C) unit :=
  match node_ids with
  | [] => ret tt
  | _ =>
      set_all_states node_ids NodeState.Inactive ;;;
      log_event unbond_node_ok_event
  end.

Definition auction_unbond_callback_fail (node_ids : NodeIndexArrayVec) (err_msg : string)
    : M (State C) unit :=
  match node_ids with
  | [] => ret tt
  | _ =>
      for_each node_ids tt (λ node_id _,
        let! st := node_state node_id in
        match st with
        | NodeState.PendingUnBond unbond_started =>
            put_node_state node_id (NodeState.UnBondPeriod unbond_started)
        | _ => sc_panic "node not pending unbond"
        end) ;;;
      log_event (unbond_node_fail_event err_msg)
  end.

Definition run_auction_unbond_callback (node_ids : NodeIndexArrayVec)
    (call_result : CallResult) : M (State C) unit :=
  match call_result with
  | CallOk node_status_args =>
      let! '(node_ids_ok, node_ids_fail) :=
        zoom (split_node_ids_by_err node_ids node_status_args) in
      auction_unbond_callback_ok node_ids_ok ;;;
      auction_unbond_callback_fail node_ids_fail "unbonding failed for some nodes"
  | CallErr err_msg => auction_unbond_callback_fail node_ids err_msg
  end.

(** The callback that an asynchronous call registered, run with its result. *)
Definition run_callback (cb : Callback) (call_result : CallResult) : M (State C) unit :=
  match cb with
  | auction_stake_callback node_ids => run_auction_stake_callback node_ids call_result
  | auction_unstake_callback node_ids => run_auction_unstake_callback node_ids call_result
  | auction_unbond_callback node_ids => run_auction_unbond_callback node_ids call_result
  end.

(** ** The other calls to the auction *)
Definition plain_call (call : AuctionCall) (amount : N) : M (State C) unit :=
  let! addr := auction_contract_addr in
  async_call (mk_AsyncCall addr call amount None).

Definition claim_unused_funds : M (State C) unit :=
  only_owner ;;;
  no_node_op_during_reset ;;;
  plain_call auction_claim 0.

Definition unjail_nodes (bls_keys : list BLSKey) (fine_payment : N) : M (State C) unit :=
  only_owner ;;;
  for_each bls_keys tt (λ bls_key _,
    let! node_id := node_id_of bls_key in
    require (negb (node_id =? 0)) "unknown node provided" ;;;
    let! st := node_state node_id in
    require (bool_decide (st = NodeState.Active)) "node must be active") ;;;
  plain_call (auction_unjail bls_keys) fine_payment.

(** The source does not restrict the next two endpoints to the owner. *)
Definition unstake_tokens (amount : N) : M (State C) unit :=
  log_event (unstake_tokens_event amount) ;;;
  plain_call (auction_unstake_tokens amount) 0.
Definition unbond_tokens (amount : N) : M (State C) unit :=
  log_event (unbond_tokens_event amount) ;;;
  plain_call (auction_unbond_tokens amount) 0.
End NodeActivation.
