(* ===== verification/Contract.v ===== *)
(** * The deployed contracts (latest_full/src/lib.rs, latest_update/src/lib.rs)

    The constructor, the upgrade, and the owner's endpoints that only guard an
    operation of a module. *)
From stdpp Require Import base numbers list gmap strings.
From S2P Require Import Prelude FundTypes FundModule UserData NodeConfig Settings Chain State.
From S2P Require Import FundTransf FundView Rewards UserStake NodeActivation ResetCheckpoint.

Section Contract.
Context {C : Type} `{Chain C}.

(** latest_full: the constructor. *)
Definition init (auction_contract_addr : Address)
    (service_fee_per_10000 owner_min_stake_share_per_10000 : N)
    (n_blocks_before_unbond minimum_stake total_delegation_cap : N)
    : M (State C) unit :=
  let! owner := current_caller in
  zoom (modify (set_user_id owner OWNER_USER_ID)) ;;;
  zoom (modify (set_user_address OWNER_USER_ID owner)) ;;;
  zoom (modify (set_num_users 1)) ;;;
  zoom (modify (set_auction_addr auction_contract_addr)) ;;;
  require (service_fee_per_10000 <=? PERCENTAGE_DENOMINATOR)
    "service fee out of range" ;;;
  let next_service_fee := service_fee_per_10000 in
  zoom (modify (set_service_fee next_service_fee)) ;;;
  zoom (set_owner_min_stake_share_validated owner_min_stake_share_per_10000) ;;;
  zoom (modify (set_n_blocks_before_unbond n_blocks_before_unbond)) ;;;
  zoom (modify (set_minimum_stake minimum_stake)) ;;;
  zoom (modify (set_total_delegation_cap total_delegation_cap)) ;;;
  zoom (modify (set_bootstrap_mode true)).

(** latest_update: the constructor run by an upgrade. *)
Definition update_total_delegation_cap_if_necessary : M (State C) unit :=
  let! cap := get_total_delegation_cap in
  if cap =? 0 then
    let! total_active := stake_of_type USER_STAKE_TOTALS_ID FundType.Active in
    let! total_unstaked := stake_of_type USER_STAKE_TOTALS_ID FundType.UnStaked in
    zoom (modify (set_total_delegation_cap (total_active + total_unstaked)))
  else ret tt.

Definition update_init : M (State C) unit := update_total_delegation_cap_if_necessary.

(** ** Guarded operations *)
Definition add_nodes_endpoint (bls_keys_signatures : list (BLSKey * BLSSignature))
    : M (State C) unit :=
  only_owner ;;; zoom (add_nodes bls_keys_signatures).
Definition remove_nodes_endpoint (bls_keys : list BLSKey) : M (State C) unit :=
  only_owner ;;; zoom (remove_nodes bls_keys).
Definition set_n_blocks_before_unbond_endpoint (n_blocks_before_unbond : N)
    : M (State C) unit :=
  only_owner ;;; zoom (modify (set_n_blocks_before_unbond n_blocks_before_unbond)).
Definition set_minimum_stake_endpoint (minimum_stake : N) : M (State C) unit :=
  only_owner ;;; zoom (modify (set_minimum_stake minimum_stake)).
End Contract.
