(* ===== verification/Frame.v ===== *)
(** * What an operation leaves alone

    [within R m]: whenever [m] returns, its final state is related to the initial
    one by [R].  For a preorder [R] this composes along the monad, so that a
    frame condition of an endpoint is a matter of looking at what it writes.
    The operations on money never touch the nodes nor call the auction
    ([nodes_kept]), and the operations on nodes never touch money, users,
    rewards or settings ([money_kept]). *)
From stdpp Require Import base numbers list gmap strings.
From S2P Require Import Prelude FundTypes FundModule UserData NodeConfig Settings Chain State.
From S2P Require Import FundTransf FundView Rewards UserStake ResetCheckpoint NodeActivation Contract.

(** ** Composition *)
Definition within {S A} (R : relation S) (m : M S A) : Prop :=
  ∀ s, ensures m s (λ _ s', R s s').

Section Within.
Context {S : Type} {R : relation S} `{!PreOrder R}.

Lemma within_ret {A} (a : A) : within R (ret a).
Proof. intros s. apply ensures_ret. reflexivity. Qed.
Lemma within_fail {A} e : within R (fail e : M S A).
Proof. intros s. apply ensures_fail. Qed.
Lemma within_gets {A} (f : S → A) : within R (gets f).
Proof. intros s. apply ensures_gets. reflexivity. Qed.
Lemma within_require b msg : within R (require b msg).
Proof. unfold require. destruct b; [apply within_ret|apply within_fail]. Qed.
Lemma within_big_sub a b : within R (big_sub a b).
Proof. unfold big_sub. case_match; [apply within_fail|apply within_ret]. Qed.
Lemma within_big_div a b : within R (big_div a b).
Proof. unfold big_div. case_match; [apply within_fail|apply within_ret]. Qed.
Lemma within_of_result {A} (r : result A) : within R (of_result r).
Proof. intros s. unfold of_result, ensures, outcome. by destruct r. Qed.
Lemma within_modify f : (∀ s, R s (f s)) → within R (modify f).
Proof. intros Hf s. apply ensures_modify, Hf. Qed.

Lemma within_bind {A B} (m : M S A) (k : A → M S B) :
  within R m → (∀ a, within R (k a)) → within R (bind m k).
Proof.
  intros Hm Hk s. apply ensures_bind. eapply ensures_mono; [apply Hm|].
  intros a s' Hs. eapply ensures_mono; [apply Hk|]. intros b s'' Hs'. transitivity s'; assumption.
Qed.

Lemma within_for_each {X A} (l : list X) (acc : A) f :
  (∀ x acc, within R (f x acc)) → within R (for_each l acc f).
Proof.
  intros Hf. revert acc. induction l as [|x l IH]; intros acc; simpl; [apply within_ret|].
  apply within_bind; [apply Hf|done].
Qed.

(** A storage that fails to decode. *)
Lemma within_decode {A} (f : S → option A) e :
  within R (λ s, match f s with Some a => Ok (a, s) | None => Err e end).
Proof. intros s. unfold ensures, outcome. destruct (f s); [reflexivity|done]. Qed.

Lemma within_zoom {A X} `{Lens S A} (m : M A X) :
  (∀ s a, R s (lens_set a s)) → within R (zoom m).
Proof.
  intros Hset s. apply ensures_zoom. unfold ensures, outcome.
  destruct (m (lens_get s)) as [[x a]|e]; [apply Hset|done].
Qed.

(** A component that only reads. *)
Lemma within_zoom_read {A X} `{Lens S A} (m : M A X) :
  within eq m → within R (zoom m).
Proof.
  intros Hm s. apply ensures_zoom. eapply ensures_mono; [apply Hm|].
  intros x a <-. rewrite lens_set_get. reflexivity.
Qed.

Lemma within_mapper_update {V X} get set (f : V → M S (X * V)) :
  within R get → (∀ v, within R (f v)) → (∀ v, within R (set v)) →
  within R (mapper_update get set f).
Proof.
  intros Hg Hf Hs. unfold mapper_update. apply within_bind; [done|]. intros v.
  apply within_bind; [done|]. intros [x v']. apply within_bind; [done|].
  intros _. apply within_ret.
Qed.
End Within.

(** One step through a program. *)
Ltac within_step :=
  match goal with
  | |- within _ (bind _ _) => apply within_bind; [|intros]
  | |- within _ (ret _) => apply within_ret
  | |- within _ (fail _) => apply within_fail
  | |- within _ (sc_panic _) => apply within_fail
  | |- within _ (gets _) => apply within_gets
  | |- within _ (require _ _) => apply within_require
  | |- within _ (big_sub _ _) => apply within_big_sub
  | |- within _ (big_div _ _) => apply within_big_div
  | |- within _ (of_result _) => apply within_of_result
  | |- within _ (for_each _ _ _) => apply within_for_each; intros
  | |- within _ (mapper_update _ _ _) => apply within_mapper_update; intros
  | |- within _ (match ?x with _ => _ end) => destruct x
  end.

Create HintDb within.
Ltac within := repeat first [solve [auto with within nocore] | within_step].

(** ** The loops of the fund storage *)
Section FundReads.
Context {S : Type} `{Lens S FundStore} {R : relation S} `{!PreOrder R}.

Lemma within_get_funds {X} (f : FundStore → X) : within R (zoom (gets f)).
Proof. apply within_zoom_read, within_gets. Qed.
#[local] Hint Resolve within_get_funds : within.

Lemma within_foreach_step {X} (closure : FundItem → X → M S X) next n id acc :
  (∀ i x, within R (closure i x)) → within R (foreach_step closure next n id acc).
Proof.
  intros Hc. revert id acc. induction n as [|n IH]; intros id acc; [apply within_fail|].
  simpl. within; auto.
Qed.

Lemma within_foreach_by_type {X} t dir (closure : FundItem → X → M S X) acc :
  (∀ i x, within R (closure i x)) → within R (foreach_fund_by_type t dir closure acc).
Proof. intros Hc. unfold foreach_fund_by_type. within. by apply within_foreach_step. Qed.
Lemma within_foreach_by_user_type {X} u t dir (closure : FundItem → X → M S X) acc :
  (∀ i x, within R (closure i x)) → within R (foreach_fund_by_user_type u t dir closure acc).
Proof. intros Hc. unfold foreach_fund_by_user_type. within. by apply within_foreach_step. Qed.
End FundReads.

Section FundLoops.
Context {S : Type} `{Lens S FundStore} {R : relation S} `{!PreOrder R}.
Hypothesis funds_free : ∀ s (fs : FundStore), R s (lens_set fs s).

Lemma within_funds {X} (m : M FundStore X) : within R (zoom m).
Proof. by apply within_zoom. Qed.
#[local] Hint Resolve within_funds : within.

Lemma within_update_fund {X} id (f : FundItem → M S (X * FundItem)) :
  (∀ i, within R (f i)) → within R (update_fund_in id f).
Proof. intros Hf. unfold update_fund_in. within. Qed.

Lemma within_by_type om t dir f interrupt dry :
  (∀ i, within R (f i)) → within R interrupt →
  within R (split_convert_max_by_type om t dir f interrupt dry).
Proof.
  intros Hf Hi. unfold split_convert_max_by_type. within.
  match goal with |- within _ (split_convert_max_by_type_loop _ _ _ _ ?n ?id _ ?l) =>
    generalize l, id, om; induction n as [|n IH]; intros; simpl end; within.
  apply within_update_fund. intros. within.
Qed.

Lemma within_checkpoint id t dir f interrupt :
  (∀ i, within R (f i)) → within R interrupt →
  within R (split_convert_max_by_type_with_checkpoint id t dir f interrupt).
Proof.
  intros Hf Hi. unfold split_convert_max_by_type_with_checkpoint. within.
  match goal with |- within _ (checkpoint_loop _ _ _ ?n ?id) =>
    generalize id; induction n as [|n IH]; intros; simpl end; within.
  apply within_update_fund. intros. within.
Qed.

Lemma within_by_user om u t dir f interrupt :
  within R interrupt → within R (split_convert_max_by_user om u t dir f interrupt).
Proof.
  intros Hi. unfold split_convert_max_by_user. within.
  match goal with |- within _ (split_convert_max_by_user_loop _ _ _ ?n ?id _ ?v) =>
    generalize v, id, om; induction n as [|n IH]; intros; simpl end; within.
Qed.

Lemma within_destroy u t interrupt :
  within R interrupt → within R (destroy_all_for_user u t interrupt).
Proof.
  intros Hi. unfold destroy_all_for_user. within.
  match goal with |- within _ (destroy_all_loop _ ?n ?id ?v) =>
    generalize v, id; induction n as [|n IH]; intros; simpl end; within.
  apply within_update_fund. intros. within.
Qed.
End FundLoops.

(** ** Operations on money

    What a relation needs for the operations on money to stay within it: they
    write funds, settings and the rewards of users freely, read the gas and log
    events.  Only staking also registers a user, and only withdrawing and claiming
    also send money, to [to], and record it. *)
Class MoneyFrame {C} `{Chain C} (R : relation (State C)) := {
  mf_preorder :: PreOrder R;
  mf_funds s (fs : FundStore) : R s (lens_set fs s);
  mf_settings s (st : SettingsStore) : R s (lens_set st s);
  mf_rewards s (rs : RewardStore) :
    rs_sent_rewards rs = rs_sent_rewards (st_rewards s) → R s (lens_set rs s);
  mf_op s orc : R s (set_global_op_checkpoint orc s);
  mf_dust s id : R s (set_dust_cleanup_checkpoint id s);
  mf_gas : within R gas_left;
  mf_log e : within R (log_event e);
}.

Class PayFrame {C} `{Chain C} (R : relation (State C)) (to : Address) := {
  pf_money :: MoneyFrame R;
  pf_sent s v : R s (lens_set (set_sent_rewards v (st_rewards s)) s);
  pf_send amount : within R (send_egld to amount);
}.

Section MoneyFrame.
Context {C : Type} `{Chain C} (R : relation (State C)) `{!MoneyFrame R}.
#[local] Abbreviation quiet m := (within R m).

Lemma quiet_fund_store {X} (m : M FundStore X) : quiet (zoom m).
Proof. apply within_zoom, mf_funds. Qed.
Lemma quiet_settings {X} (m : M SettingsStore X) : quiet (zoom m).
Proof. apply within_zoom, mf_settings. Qed.
Lemma quiet_rewards f :
  (∀ rs, rs_sent_rewards (f rs) = rs_sent_rewards rs) → quiet (zoom (modify f)).
Proof. intros Hf s. apply ensures_zoom, ensures_modify, mf_rewards, Hf. Qed.
Lemma quiet_op orc : quiet (modify (set_global_op_checkpoint orc)).
Proof. apply within_modify. intros s. apply mf_op. Qed.
Lemma quiet_dust id : quiet (modify (set_dust_cleanup_checkpoint id)).
Proof. apply within_modify. intros s. apply mf_dust. Qed.
Lemma quiet_gas : quiet gas_left.
Proof. apply mf_gas. Qed.
Lemma quiet_log e : quiet (log_event e).
Proof. apply mf_log. Qed.
#[local] Hint Resolve quiet_fund_store quiet_settings quiet_op quiet_dust
  quiet_gas quiet_log : within.
#[local] Hint Extern 1 (within _ (zoom (@modify RewardStore _))) =>
  by apply quiet_rewards : within.

Lemma quiet_gas_below limit : quiet (gas_below limit).
Proof. unfold gas_below. within. Qed.
Lemma quiet_never : quiet never.
Proof. apply within_ret. Qed.
#[local] Hint Resolve quiet_gas_below quiet_never : within.

Lemma quiet_by_type om t dir f interrupt dry :
  (∀ i, quiet (f i)) → quiet interrupt → quiet (split_convert_max_by_type om t dir f interrupt dry).
Proof. apply within_by_type; apply mf_funds. Qed.
Lemma quiet_checkpoint id t dir f interrupt :
  (∀ i, quiet (f i)) → quiet interrupt →
  quiet (split_convert_max_by_type_with_checkpoint id t dir f interrupt).
Proof. apply within_checkpoint; apply mf_funds. Qed.
Lemma quiet_by_user om u t dir f interrupt :
  quiet interrupt → quiet (split_convert_max_by_user om u t dir f interrupt).
Proof. apply within_by_user; apply mf_funds. Qed.
Lemma quiet_destroy u t interrupt : quiet interrupt → quiet (destroy_all_for_user u t interrupt).
Proof. apply within_destroy; apply mf_funds. Qed.

(** The walks of fund_transf_module.rs, with their filters. *)
#[local] Hint Extern 1 (within _ (split_convert_max_by_type _ _ _ _ _ _)) =>
  apply quiet_by_type; [intros; within|] : within.
#[local] Hint Extern 1 (within _ (split_convert_max_by_user _ _ _ _ _ _)) =>
  apply quiet_by_user : within.

Lemma quiet_waiting_to_active m interrupt :
  quiet interrupt → quiet (swap_waiting_to_active m interrupt).
Proof. intros. unfold swap_waiting_to_active. within. Qed.
Lemma quiet_affected m interrupt :
  quiet interrupt → quiet (get_affected_users_of_swap_waiting_to_active m interrupt).
Proof. intros. unfold get_affected_users_of_swap_waiting_to_active. within. Qed.
Lemma quiet_unstaked m interrupt :
  quiet interrupt → quiet (swap_unstaked_to_deferred_payment m interrupt).
Proof. intros. unfold swap_unstaked_to_deferred_payment. within. Qed.
Lemma quiet_active_to_deferred m interrupt :
  quiet interrupt → quiet (swap_active_to_deferred_payment m interrupt).
Proof. intros. unfold swap_active_to_deferred_payment, current_bl_nonce. within. Qed.
Lemma quiet_user_active u m : quiet (swap_user_active_to_unstaked u m).
Proof. unfold swap_user_active_to_unstaked, current_bl_nonce. within. Qed.
Lemma quiet_user_waiting u m : quiet (swap_user_waiting_to_withdraw_only u m).
Proof. unfold swap_user_waiting_to_withdraw_only. within. Qed.
Lemma quiet_eligible u n interrupt :
  quiet interrupt → quiet (swap_eligible_deferred_to_withdraw u n interrupt).
Proof. intros. unfold swap_eligible_deferred_to_withdraw, current_bl_nonce. within. Qed.
Lemma quiet_liquidate u interrupt :
  quiet interrupt → quiet (liquidate_all_withdraw_only u interrupt).
Proof. apply quiet_destroy. Qed.
#[local] Hint Resolve quiet_waiting_to_active quiet_affected quiet_unstaked
  quiet_active_to_deferred quiet_user_active quiet_user_waiting quiet_eligible
  quiet_liquidate : within.

(** Rewards. *)
Lemma quiet_load u : quiet (load_updated_user_rewards u).
Proof.
  unfold load_updated_user_rewards, get_total_cumulated_rewards, split_service_reward,
    stake_of_type. within.
Qed.
Lemma quiet_store u d : quiet (store_user_reward_data u d).
Proof. unfold store_user_reward_data. within. Qed.
#[local] Hint Resolve quiet_load quiet_store : within.
Lemma quiet_compute u : quiet (compute_one_user_reward u).
Proof. unfold compute_one_user_reward. within. Qed.
Lemma quiet_unprotected : quiet total_unprotected.
Proof. unfold total_unprotected, get_total_cumulated_rewards, stake_of_type. within. Qed.
#[local] Hint Resolve quiet_compute quiet_unprotected : within.

(** Guards. *)
Lemma quiet_only_owner : quiet only_owner.
Proof. unfold only_owner, current_caller, current_owner. within. Qed.
Lemma quiet_not_paused : quiet require_not_paused.
Proof. unfold require_not_paused. within. Qed.
Lemma quiet_no_op msg : quiet (require_no_global_op msg).
Proof. unfold require_no_global_op. within. Qed.
Lemma quiet_feature name default : quiet (check_feature_on name default).
Proof. unfold check_feature_on. within. Qed.
#[local] Hint Resolve quiet_only_owner quiet_not_paused quiet_no_op quiet_feature : within.

(** Staking and its endpoints. *)
Lemma quiet_activation m : quiet (swap_waiting_to_active_compute_rewards m).
Proof. unfold swap_waiting_to_active_compute_rewards. within. Qed.
#[local] Hint Resolve quiet_activation : within.
Lemma quiet_use_waiting : quiet use_waiting_to_replace_unstaked.
Proof.
  unfold use_waiting_to_replace_unstaked, stake_of_type, is_bootstrap_mode,
    get_total_delegation_cap. within.
Qed.
#[local] Hint Resolve quiet_use_waiting : within.

Lemma quiet_create_waiting u amount : quiet (create_waiting u amount).
Proof. unfold create_waiting, current_bl_nonce. within. Qed.
Lemma quiet_cap : quiet validate_delegation_cap_invariant.
Proof.
  unfold validate_delegation_cap_invariant, stake_of_type, get_total_delegation_cap,
    is_bootstrap_mode. within.
Qed.
#[local] Hint Resolve quiet_create_waiting quiet_cap : within.

Lemma quiet_stake payment :
  (∀ a, quiet (zoom (get_or_create_user a))) → quiet (stake_endpoint payment).
Proof.
  intros Hu. unfold stake_endpoint, process_stake, get_minimum_stake, current_caller. within.
Qed.
Lemma quiet_unstake amount : quiet (unstake_endpoint amount).
Proof.
  unfold unstake_endpoint, current_caller, validate_unstake_amount, validate_user_minimum_stake,
    stake_of_type, get_minimum_stake. within.
Qed.
Lemma quiet_unbond s :
  PayFrame R (get_caller (st_chain s)) → ensures unbond_user s (λ _ s', R s s').
Proof.
  intros Hpay. unfold unbond_user, require_not_paused, current_caller.
  apply ensures_bind, ensures_bind, ensures_gets, ensures_require. intros _.
  apply ensures_bind, ensures_gets, ensures_bind, ensures_gets.
  match goal with |- ensures ?m _ _ => enough (quiet m) as Hm by apply Hm end.
  within. apply pf_send.
Qed.
Lemma quiet_claim s :
  PayFrame R (get_caller (st_chain s)) → ensures claim_rewards s (λ _ s', R s s').
Proof.
  intros Hpay. unfold claim_rewards, current_caller.
  apply not_paused_ensures. intros _. apply feature_on_ensures. intros _.
  apply ensures_bind, ensures_gets, ensures_bind, ensures_gets.
  match goal with |- ensures ?m _ _ => enough (quiet m) as Hm by apply Hm end.
  unfold send_rewards. within; [apply pf_send|].
  intros s1. apply ensures_zoom, ensures_modify, pf_sent.
Qed.

(** The dust cleanup. *)
Lemma quiet_update_dust f : (∀ id, quiet (f id)) → quiet (update_dust_checkpoint f).
Proof. intros Hf. unfold update_dust_checkpoint. within. Qed.
Lemma quiet_dust_waiting limit : quiet (dust_cleanup_waiting_list limit).
Proof.
  unfold dust_cleanup_waiting_list. within. apply quiet_update_dust. intros id.
  unfold swap_dust. apply quiet_checkpoint; intros; within.
Qed.
Lemma quiet_dust_active limit : quiet (dust_cleanup_active limit).
Proof.
  unfold dust_cleanup_active. within. apply quiet_update_dust. intros id.
  unfold swap_dust. apply quiet_checkpoint; intros; within.
Qed.

(** Global operations. *)
Lemma quiet_compute_all d : quiet (compute_all_rewards d).
Proof.
  unfold compute_all_rewards, get_total_cumulated_rewards. within.
  match goal with |- within _ (compute_all_rewards_loop ?n _ ?d) =>
    generalize d; generalize n as k; intros k; induction k as [|k IH]; intros; simpl end; within.
Qed.
#[local] Hint Resolve quiet_compute_all : within.
Lemma quiet_continue orc : quiet (continue_global_operation orc).
Proof.
  unfold continue_global_operation. within.
  match goal with |- within _ (continue_global_operation_loop ?n ?st ?o) =>
    generalize o, st; generalize n as k; intros k; induction k as [|k IH]; intros; simpl end; within.
  unfold continue_global_operation_step, continue_modify_total_delegation_cap_step. within.
Qed.
#[local] Hint Resolve quiet_continue : within.
Lemma quiet_continue_endpoint : quiet continue_global_operation_endpoint.
Proof. unfold continue_global_operation_endpoint. within. Qed.
Lemma quiet_set_fee fee : quiet (set_service_fee_endpoint fee).
Proof. unfold set_service_fee_endpoint, is_bootstrap_mode, get_total_cumulated_rewards. within. Qed.
Lemma quiet_modify_cap cap : quiet (modify_total_delegation_cap cap).
Proof.
  unfold modify_total_delegation_cap, stake_of_type, is_bootstrap_mode,
    get_total_delegation_cap, get_total_cumulated_rewards. within.
Qed.

(** Settings and addresses. *)
Lemma quiet_n_blocks n : quiet (set_n_blocks_before_unbond_endpoint n).
Proof. unfold set_n_blocks_before_unbond_endpoint. within. Qed.
Lemma quiet_min_stake n : quiet (set_minimum_stake_endpoint n).
Proof. unfold set_minimum_stake_endpoint. within. Qed.
End MoneyFrame.

(** Operations on money leave the nodes alone, and call nobody. *)
Record nodes_kept {C} `{CallLog C} (s s' : State C) : Prop := {
  nk_nodes : st_nodes s' = st_nodes s;
  nk_calls : calls_of (st_chain s') = calls_of (st_chain s);
}.

#[export] Instance nodes_kept_preorder {C} `{CallLog C} : PreOrder (@nodes_kept C _ _).
Proof. split; [by split|]. intros s1 s2 s3 [] []. split; congruence. Qed.

#[export] Instance nodes_kept_frame {C} `{CallLog C} : MoneyFrame (@nodes_kept C _ _).
Proof.
  split; try by split.
  - apply _.
  - intros s. unfold gas_left, ensures, outcome. pose proof (calls_gas (st_chain s)) as Hc.
    destruct (get_gas_left (st_chain s)) as [g c]. by split.
  - intros e. apply within_modify. intros s. split; [done|apply calls_emit].
Qed.

#[export] Instance nodes_kept_pay {C} `{CallLog C} to : PayFrame (@nodes_kept C _ _) to.
Proof.
  split; [apply _|by split|].
  intros amount s. unfold send_egld, ensures, outcome.
  destruct (direct_egld to amount (st_chain s)) as [c|e] eqn:Hd; [|done].
  split; [done|]. simpl. by eapply calls_direct.
Qed.

(** Operations on money register nobody, staking apart. *)
Definition users_kept {C} (s s' : State C) : Prop := st_users s' = st_users s.
#[export] Instance users_kept_preorder {C} : PreOrder (@users_kept C).
Proof. split; [by intros s|]. unfold users_kept. intros s1 s2 s3. congruence. Qed.

#[export] Instance users_kept_frame {C} `{Chain C} : MoneyFrame (@users_kept C).
Proof.
  split; try done.
  - apply _.
  - intros s. unfold gas_left, ensures, outcome. by destruct (get_gas_left (st_chain s)).
Qed.

#[export] Instance users_kept_pay {C} `{Chain C} to : PayFrame (@users_kept C) to.
Proof.
  split; [apply _|done|]. intros amount s. unfold send_egld, ensures, outcome.
  by destruct (direct_egld to amount (st_chain s)).
Qed.

(** Operations on money see the chain that they started on, apart from its gas
    and its balance. *)
Definition view_kept {C} `{Chain C} (s s' : State C) : Prop :=
  chain_view (st_chain s') = chain_view (st_chain s).
#[export] Instance view_kept_preorder {C} `{Chain C} : PreOrder (@view_kept C _).
Proof. split; [by intros s|]. unfold view_kept. intros s1 s2 s3. congruence. Qed.

#[export] Instance view_kept_frame {C} `{ChainLaws C} : MoneyFrame (@view_kept C _).
Proof.
  split; try done.
  - apply _.
  - intros s. unfold gas_left, ensures, outcome. pose proof (gas_view (st_chain s)) as Hv.
    by destruct (get_gas_left (st_chain s)).
  - intros e s. apply ensures_modify. apply emit_view.
Qed.

#[export] Instance view_kept_pay {C} `{ChainLaws C} to : PayFrame (@view_kept C _) to.
Proof.
  split; [apply _|done|]. intros amount s. unfold send_egld, ensures, outcome.
  destruct (direct_egld to amount (st_chain s)) as [c|e] eqn:Hd; [|done].
  destruct (direct_egld_ok to amount (st_chain s)) as (c' & Hc & Hv & _);
    [by eapply direct_egld_enough|].
  assert (c = c') as -> by congruence. exact Hv.
Qed.

Lemma stake_endpoint_users {C} `{Chain C} payment (s : State C) (Q : UserStore → Prop) :
  ensures (get_or_create_user (get_caller (st_chain s))) (st_users s) (λ _, Q) →
  ensures (stake_endpoint payment) s (λ _ s', Q (st_users s')).
Proof.
  intros HQ. unfold stake_endpoint, process_stake, require_not_paused, get_minimum_stake,
    require_no_global_op, current_caller.
  repeat first [apply ensures_bind|apply ensures_gets|apply ensures_require; intros _].
  apply ensures_zoom. eapply ensures_mono; [exact HQ|]. intros u us Hus.
  apply ensures_bind. eapply ensures_mono; [apply (quiet_log users_kept)|].
  intros v1 s1 E1. apply ensures_bind.
  eapply ensures_mono; [apply (quiet_create_waiting users_kept)|].
  intros v2 s2 E2. apply ensures_bind. eapply ensures_mono; [apply (quiet_cap users_kept)|].
  intros v3 s3 E3. eapply ensures_mono; [apply (quiet_use_waiting users_kept)|].
  intros v4 s4 E4. unfold users_kept in *. by rewrite E4, E3, E2, E1.
Qed.

Lemma quiet_init {C} `{CallLog C} auction fee share n_blocks minimum cap :
  within (@nodes_kept C _ _) (init auction fee share n_blocks minimum cap).
Proof.
  unfold init, set_owner_min_stake_share_validated, current_caller.
  repeat first [within_step|by apply within_zoom].
Qed.

(** ** Operations on nodes

    They write the nodes, log events and call the auction, all but two of them
    without sending it anything. *)
Class NodeFrame {C} `{Chain C} (R : relation (State C)) := {
  nf_preorder :: PreOrder R;
  nf_nodes s (ns : NodeStore) : R s (lens_set ns s);
  nf_log e : within R (log_event e);
  nf_call a : ac_egld a = 0 → within R (async_call a);
}.

Section NodeFrame.
Context {C : Type} `{Chain C} (R : relation (State C)) `{!NodeFrame R}.
#[local] Abbreviation thrifty m := (within R m).

Lemma thrifty_nodes {X} (m : M NodeStore X) : thrifty (zoom m).
Proof. apply within_zoom, nf_nodes. Qed.
Lemma thrifty_log e : thrifty (log_event e).
Proof. apply nf_log. Qed.
Lemma thrifty_call to call cb : thrifty (async_call (mk_AsyncCall to call 0 cb)).
Proof. by apply nf_call. Qed.
#[local] Hint Resolve thrifty_nodes thrifty_log thrifty_call : within.

Lemma thrifty_only_owner : thrifty only_owner.
Proof. unfold only_owner, current_caller, current_owner. within. Qed.
Lemma thrifty_no_op msg : thrifty (require_no_global_op msg).
Proof. unfold require_no_global_op. within. Qed.
Lemma thrifty_put id st : thrifty (put_node_state id st).
Proof. apply thrifty_nodes. Qed.
Lemma thrifty_push v id : thrifty (push_node v id).
Proof. unfold push_node. within. Qed.
Lemma thrifty_unprotected : thrifty total_unprotected.
Proof. unfold total_unprotected, get_total_cumulated_rewards, stake_of_type. within. Qed.
Lemma thrifty_share : thrifty validate_owner_stake_share.
Proof. unfold validate_owner_stake_share, stake_of_type. within. Qed.
#[local] Hint Resolve thrifty_only_owner thrifty_no_op thrifty_put thrifty_push
  thrifty_unprotected thrifty_share : within.

Lemma thrifty_prepare id : thrifty (prepare_node_for_unbond_if_possible id).
Proof. unfold prepare_node_for_unbond_if_possible, node_state. within. Qed.
Lemma thrifty_perform_unbond ids keys : thrifty (perform_unbond ids keys).
Proof. unfold perform_unbond, auction_contract_addr. within. Qed.
Lemma thrifty_plain call : thrifty (plain_call call 0).
Proof. unfold plain_call, auction_contract_addr. within. Qed.
Lemma thrifty_set_all ids st : thrifty (set_all_states ids st).
Proof. unfold set_all_states. within. Qed.
#[local] Hint Resolve thrifty_prepare thrifty_perform_unbond thrifty_plain
  thrifty_set_all : within.

Lemma thrifty_add_nodes args : thrifty (add_nodes_endpoint args).
Proof. unfold add_nodes_endpoint. within. Qed.
Lemma thrifty_remove_nodes keys : thrifty (remove_nodes_endpoint keys).
Proof. unfold remove_nodes_endpoint. within. Qed.
Lemma thrifty_stake_nodes amount keys :
  (∀ to call cb, thrifty (async_call (mk_AsyncCall to call amount cb))) →
  thrifty (stake_nodes amount keys).
Proof.
  intros Hcall. unfold stake_nodes, is_bootstrap_mode, no_node_op_during_reset, stake_one_node, node_id_of,
    node_state, perform_stake_nodes, auction_contract_addr. within.
Qed.
Lemma thrifty_unstake_nodes b keys : thrifty (unstake_nodes b keys).
Proof.
  unfold unstake_nodes, no_node_op_during_reset, known_node_id, node_id_of,
    perform_unstake_nodes, node_state, auction_contract_addr. within.
Qed.
#[local] Hint Resolve thrifty_unstake_nodes : within.
Lemma thrifty_unstake_endpoint keys : thrifty (unstake_nodes_endpoint keys).
Proof. unfold unstake_nodes_endpoint. within. Qed.
Lemma thrifty_unstake_tokens_endpoint keys : thrifty (unstake_nodes_and_tokens_endpoint keys).
Proof. unfold unstake_nodes_and_tokens_endpoint. within. Qed.
Lemma thrifty_force keys : thrifty (force_node_unbond_period keys).
Proof. unfold force_node_unbond_period, node_id_of. within. Qed.
Lemma thrifty_unbond_specific keys : thrifty (unbond_specific_nodes_endpoint keys).
Proof.
  unfold unbond_specific_nodes_endpoint, no_node_op_during_reset, unbond_one_node, node_id_of.
  within.
Qed.
Lemma thrifty_unbond_all : thrifty unbond_all_possible_nodes.
Proof. unfold unbond_all_possible_nodes, no_node_op_during_reset, unbond_if_possible. within. Qed.
Lemma thrifty_claim_unused : thrifty claim_unused_funds.
Proof. unfold claim_unused_funds, no_node_op_during_reset. within. Qed.
Lemma thrifty_unjail keys fine :
  (∀ to call cb, thrifty (async_call (mk_AsyncCall to call fine cb))) →
  thrifty (unjail_nodes keys fine).
Proof.
  intros Hcall. unfold unjail_nodes, plain_call, auction_contract_addr, node_id_of, node_state.
  within.
Qed.
Lemma thrifty_unstake_tokens amount : thrifty (unstake_tokens amount).
Proof. unfold unstake_tokens. within. Qed.
Lemma thrifty_unbond_tokens amount : thrifty (unbond_tokens amount).
Proof. unfold unbond_tokens. within. Qed.

Lemma thrifty_callback cb res : thrifty (run_callback cb res).
Proof.
  unfold run_callback, run_auction_stake_callback, run_auction_unstake_callback,
    run_auction_unbond_callback, auction_stake_callback_ok, auction_stake_callback_fail,
    auction_unstake_callback_ok, auction_unstake_callback_fail, auction_unbond_callback_ok,
    auction_unbond_callback_fail, node_state, current_bl_nonce. within.
Qed.
End NodeFrame.

(** Operations on nodes leave the money alone. *)
Record money_kept {C} `{Chain C} (s s' : State C) : Prop := {
  mk_funds : st_funds s' = st_funds s;
  mk_users : st_users s' = st_users s;
  mk_settings : st_settings s' = st_settings s;
  mk_rewards : st_rewards s' = st_rewards s;
  mk_op : st_global_op_checkpoint s' = st_global_op_checkpoint s;
  mk_dust : st_dust_cleanup_checkpoint s' = st_dust_cleanup_checkpoint s;
  mk_view : chain_view (st_chain s') = chain_view (st_chain s);
}.

#[export] Instance money_kept_preorder {C} `{Chain C} : PreOrder (@money_kept C _).
Proof. split; [by split|]. intros s1 s2 s3 [] []. split; congruence. Qed.

Lemma money_kept_call {C} `{CallLog C} a : within (@money_kept C _) (async_call a).
Proof. apply within_modify. intros s. split; try done. apply call_view. Qed.

#[export] Instance money_kept_frame {C} `{!Chain C, !ChainLaws C, !CallLog C} :
  NodeFrame (@money_kept C _).
Proof.
  split; [apply _|by split| |].
  - intros e. apply within_modify. intros s. split; try done. apply emit_view.
  - intros a _. apply money_kept_call.
Qed.

(** ** Payments

    Only [send_egld] sends money. *)
Definition unpaid {C} `{ChainLaws C} (s s' : State C) : Prop :=
  payments_of (st_chain s') = payments_of (st_chain s).

#[export] Instance unpaid_preorder {C} `{ChainLaws C} : PreOrder (@unpaid C _ _).
Proof. split; [by intros s|]. unfold unpaid. intros s1 s2 s3. congruence. Qed.

Lemma unpaid_log {C} `{ChainLaws C} e : within (@unpaid C _ _) (log_event e).
Proof. apply within_modify. intros s. apply emit_payments. Qed.
Lemma unpaid_call {C} `{ChainLaws C} a : within (@unpaid C _ _) (async_call a).
Proof. apply within_modify. intros s. apply call_payments. Qed.

#[export] Instance unpaid_money {C} `{ChainLaws C} : MoneyFrame (@unpaid C _ _).
Proof.
  split; try done; [apply _| |apply unpaid_log].
  intros s. unfold gas_left, ensures, outcome. pose proof (gas_payments (st_chain s)) as Hp.
  by destruct (get_gas_left (st_chain s)).
Qed.

#[export] Instance unpaid_nodes {C} `{ChainLaws C} : NodeFrame (@unpaid C _ _).
Proof. split; [apply _|done|apply unpaid_log|]. intros a _. apply unpaid_call. Qed.
