(* ===== verification/Dispatch.v ===== *)
(** * The exported endpoints (latest_full/wasm/src/lib.rs, latest_update/wasm/src/lib.rs)

    Both contracts export the same endpoints.  A call names an exported endpoint
    and gives its arguments; [dispatch] runs the endpoint behind the name and
    collects its results.  The endpoints of the framework's modules (DNS,
    features, pause) are not in the repository; [callBack] runs the callback that
    a call to the auction registered ([run_callback]). *)
From stdpp Require Import base numbers list gmap strings.
From S2P Require Import Prelude FundTypes FundModule UserData NodeConfig Settings Chain State.
From S2P Require Import FundTransf FundView Rewards UserStake ResetCheckpoint NodeActivation Contract.

(** ** Exports *)
Definition exports_full : list string :=
  ["version"; "getNumNodes"; "getNodeId"; "getNodeSignature"; "getNodeState";
   "getAllNodeStates"; "getNodeBlockNonceOfUnstake"; "addNodes"; "removeNodes";
   "getUserId"; "getUserAddress"; "getNumUsers"; "updateUserAddress";
   "userIdsWithoutAddress"; "fundById"; "totalStake"; "getUserStake";
   "getUserWithdrawOnlyStake"; "getUserWaitingStake"; "getUserActiveStake";
   "getUserUnstakedStake"; "getUserDeferredPaymentStake"; "getTotalWithdrawOnlyStake";
   "getTotalWaitingStake"; "getTotalActiveStake"; "getTotalUnstakedStake";
   "getTotalDeferredPaymentStake"; "getUserStakeByType"; "getTotalStakeByType";
   "getAllUserStakeByType"; "getUserDeferredPaymentList"; "getFullWaitingList";
   "getFullActiveList"; "stakeNodes"; "unStakeNodes"; "unStakeNodesAndTokens";
   "forceNodeUnBondPeriod"; "unBondNodes"; "unBondAllPossibleNodes"; "claimUnusedFunds";
   "unJailNodes"; "unStakeTokens"; "unBondTokens"; "getAuctionContractAddress";
   "getServiceFee"; "getTotalDelegationCap"; "isBootstrapMode"; "getOwnerMinStakeShare";
   "getNumBlocksBeforeUnBond"; "setNumBlocksBeforeUnBond"; "getMinimumStake";
   "setMinimumStake"; "getGlobalOperationCheckpoint"; "isGlobalOperationInProgress";
   "getTotalCumulatedRewards"; "getClaimableRewards"; "getTotalUnclaimedRewards";
   "getTotalUnProtected"; "validateOwnerStakeShare"; "validateDelegationCapInvariant";
   "continueGlobalOperation"; "modifyTotalDelegationCap"; "setServiceFee"; "claimRewards";
   "stake"; "unStake"; "getUnStakeable"; "unBond"; "getUnBondable";
   "dustCleanupCheckpoint"; "countDustItemsWaitingList"; "countDustItemsActive";
   "dustCleanupWaitingList"; "dustCleanupActive"; "dnsRegister"; "setFeatureFlag"; "pause";
   "unpause"; "isPaused"; "callBack"]%string.

(** latest_update exports the same names. *)
Definition exports_update : list string :=
  ["version"; "getNumNodes"; "getNodeId"; "getNodeSignature"; "getNodeState";
   "getAllNodeStates"; "getNodeBlockNonceOfUnstake"; "addNodes"; "removeNodes";
   "getUserId"; "getUserAddress"; "getNumUsers"; "updateUserAddress";
   "userIdsWithoutAddress"; "fundById"; "totalStake"; "getUserStake";
   "getUserWithdrawOnlyStake"; "getUserWaitingStake"; "getUserActiveStake";
   "getUserUnstakedStake"; "getUserDeferredPaymentStake"; "getTotalWithdrawOnlyStake";
   "getTotalWaitingStake"; "getTotalActiveStake"; "getTotalUnstakedStake";
   "getTotalDeferredPaymentStake"; "getUserStakeByType"; "getTotalStakeByType";
   "getAllUserStakeByType"; "getUserDeferredPaymentList"; "getFullWaitingList";
   "getFullActiveList"; "stakeNodes"; "unStakeNodes"; "unStakeNodesAndTokens";
   "forceNodeUnBondPeriod"; "unBondNodes"; "unBondAllPossibleNodes"; "claimUnusedFunds";
   "unJailNodes"; "unStakeTokens"; "unBondTokens"; "getAuctionContractAddress";
   "getServiceFee"; "getTotalDelegationCap"; "isBootstrapMode"; "getOwnerMinStakeShare";
   "getNumBlocksBeforeUnBond"; "setNumBlocksBeforeUnBond"; "getMinimumStake";
   "setMinimumStake"; "getGlobalOperationCheckpoint"; "isGlobalOperationInProgress";
   "getTotalCumulatedRewards"; "getClaimableRewards"; "getTotalUnclaimedRewards";
   "getTotalUnProtected"; "validateOwnerStakeShare"; "validateDelegationCapInvariant";
   "continueGlobalOperation"; "modifyTotalDelegationCap"; "setServiceFee"; "claimRewards";
   "stake"; "unStake"; "getUnStakeable"; "unBond"; "getUnBondable";
   "dustCleanupCheckpoint"; "countDustItemsWaitingList"; "countDustItemsActive";
   "dustCleanupWaitingList"; "dustCleanupActive"; "dnsRegister"; "setFeatureFlag"; "pause";
   "unpause"; "isPaused"; "callBack"]%string.

(** The endpoints of the framework, and the entry point of callbacks. *)
Definition framework_endpoints : list string :=
  ["dnsRegister"; "setFeatureFlag"; "pause"; "unpause"; "isPaused"; "callBack"]%string.

(** ** Calls

    [unJailNodes] and [stake] take a payment, their last argument. *)
Module Call.
Inductive Call : Set :=
| version
| getNumNodes
| getNodeId (bls_key : BLSKey)
| getNodeSignature (bls_key : BLSKey)
| getNodeState (bls_key : BLSKey)
| getAllNodeStates
| getNodeBlockNonceOfUnstake (bls_key : BLSKey)
| addNodes (bls_keys_signatures : list (BLSKey * BLSSignature))
| removeNodes (bls_keys : list BLSKey)
| getUserId (address : Address)
| getUserAddress (user_id : N)
| getNumUsers
| updateUserAddress (addresses : list Address)
| userIdsWithoutAddress
| fundById (id : N)
| totalStake
| getUserStake (user_address : Address)
| getUserWithdrawOnlyStake (user_address : Address)
| getUserWaitingStake (user_address : Address)
| getUserActiveStake (user_address : Address)
| getUserUnstakedStake (user_address : Address)
| getUserDeferredPaymentStake (user_address : Address)
| getTotalWithdrawOnlyStake
| getTotalWaitingStake
| getTotalActiveStake
| getTotalUnstakedStake
| getTotalDeferredPaymentStake
| getUserStakeByType (user_address : Address)
| getTotalStakeByType
| getAllUserStakeByType
| getUserDeferredPaymentList (user_address : Address)
| getFullWaitingList
| getFullActiveList
| stakeNodes (amount_to_stake : N) (bls_keys : list BLSKey)
| unStakeNodes (bls_keys : list BLSKey)
| unStakeNodesAndTokens (bls_keys : list BLSKey)
| forceNodeUnBondPeriod (bls_keys : list BLSKey)
| unBondNodes (bls_keys : list BLSKey)
| unBondAllPossibleNodes
| claimUnusedFunds
| unJailNodes (bls_keys : list BLSKey) (fine_payment : N)
| unStakeTokens (value : N)
| unBondTokens (value : N)
| getAuctionContractAddress
| getServiceFee
| getTotalDelegationCap
| isBootstrapMode
| getOwnerMinStakeShare
| getNumBlocksBeforeUnBond
| setNumBlocksBeforeUnBond (n_blocks : N)
| getMinimumStake
| setMinimumStake (minimum_stake : N)
| getGlobalOperationCheckpoint
| isGlobalOperationInProgress
| getTotalCumulatedRewards
| getClaimableRewards (user : Address)
| getTotalUnclaimedRewards
| getTotalUnProtected
| validateOwnerStakeShare
| validateDelegationCapInvariant
| continueGlobalOperation
| modifyTotalDelegationCap (new_total_cap : N)
| setServiceFee (service_fee_per_10000 : N)
| claimRewards
| stake (payment : N)
| unStake (value : N)
| getUnStakeable (user_address : Address)
| unBond
| getUnBondable (user_address : Address)
| dustCleanupCheckpoint
| countDustItemsWaitingList (dust_limit : N)
| countDustItemsActive (dust_limit : N)
| dustCleanupWaitingList (dust_limit : N)
| dustCleanupActive (dust_limit : N).
End Call.
Abbreviation Call := Call.Call.

(** The name under which the endpoint of a call is exported. *)
Definition call_name (call : Call) : string :=
  match call with
  | Call.version => "version"
  | Call.getNumNodes => "getNumNodes"
  | Call.getNodeId _ => "getNodeId"
  | Call.getNodeSignature _ => "getNodeSignature"
  | Call.getNodeState _ => "getNodeState"
  | Call.getAllNodeStates => "getAllNodeStates"
  | Call.getNodeBlockNonceOfUnstake _ => "getNodeBlockNonceOfUnstake"
  | Call.addNodes _ => "addNodes"
  | Call.removeNodes _ => "removeNodes"
  | Call.getUserId _ => "getUserId"
  | Call.getUserAddress _ => "getUserAddress"
  | Call.getNumUsers => "getNumUsers"
  | Call.updateUserAddress _ => "updateUserAddress"
  | Call.userIdsWithoutAddress => "userIdsWithoutAddress"
  | Call.fundById _ => "fundById"
  | Call.totalStake => "totalStake"
  | Call.getUserStake _ => "getUserStake"
  | Call.getUserWithdrawOnlyStake _ => "getUserWithdrawOnlyStake"
  | Call.getUserWaitingStake _ => "getUserWaitingStake"
  | Call.getUserActiveStake _ => "getUserActiveStake"
  | Call.getUserUnstakedStake _ => "getUserUnstakedStake"
  | Call.getUserDeferredPaymentStake _ => "getUserDeferredPaymentStake"
  | Call.getTotalWithdrawOnlyStake => "getTotalWithdrawOnlyStake"
  | Call.getTotalWaitingStake => "getTotalWaitingStake"
  | Call.getTotalActiveStake => "getTotalActiveStake"
  | Call.getTotalUnstakedStake => "getTotalUnstakedStake"
  | Call.getTotalDeferredPaymentStake => "getTotalDeferredPaymentStake"
  | Call.getUserStakeByType _ => "getUserStakeByType"
  | Call.getTotalStakeByType => "getTotalStakeByType"
  | Call.getAllUserStakeByType => "getAllUserStakeByType"
  | Call.getUserDeferredPaymentList _ => "getUserDeferredPaymentList"
  | Call.getFullWaitingList => "getFullWaitingList"
  | Call.getFullActiveList => "getFullActiveList"
  | Call.stakeNodes _ _ => "stakeNodes"
  | Call.unStakeNodes _ => "unStakeNodes"
  | Call.unStakeNodesAndTokens _ => "unStakeNodesAndTokens"
  | Call.forceNodeUnBondPeriod _ => "forceNodeUnBondPeriod"
  | Call.unBondNodes _ => "unBondNodes"
  | Call.unBondAllPossibleNodes => "unBondAllPossibleNodes"
  | Call.claimUnusedFunds => "claimUnusedFunds"
  | Call.unJailNodes _ _ => "unJailNodes"
  | Call.unStakeTokens _ => "unStakeTokens"
  | Call.unBondTokens _ => "unBondTokens"
  | Call.getAuctionContractAddress => "getAuctionContractAddress"
  | Call.getServiceFee => "getServiceFee"
  | Call.getTotalDelegationCap => "getTotalDelegationCap"
  | Call.isBootstrapMode => "isBootstrapMode"
  | Call.getOwnerMinStakeShare => "getOwnerMinStakeShare"
  | Call.getNumBlocksBeforeUnBond => "getNumBlocksBeforeUnBond"
  | Call.setNumBlocksBeforeUnBond _ => "setNumBlocksBeforeUnBond"
  | Call.getMinimumStake => "getMinimumStake"
  | Call.setMinimumStake _ => "setMinimumStake"
  | Call.getGlobalOperationCheckpoint => "getGlobalOperationCheckpoint"
  | Call.isGlobalOperationInProgress => "isGlobalOperationInProgress"
  | Call.getTotalCumulatedRewards => "getTotalCumulatedRewards"
  | Call.getClaimableRewards _ => "getClaimableRewards"
  | Call.getTotalUnclaimedRewards => "getTotalUnclaimedRewards"
  | Call.getTotalUnProtected => "getTotalUnProtected"
  | Call.validateOwnerStakeShare => "validateOwnerStakeShare"
  | Call.validateDelegationCapInvariant => "validateDelegationCapInvariant"
  | Call.continueGlobalOperation => "continueGlobalOperation"
  | Call.modifyTotalDelegationCap _ => "modifyTotalDelegationCap"
  | Call.setServiceFee _ => "setServiceFee"
  | Call.claimRewards => "claimRewards"
  | Call.stake _ => "stake"
  | Call.unStake _ => "unStake"
  | Call.getUnStakeable _ => "getUnStakeable"
  | Call.unBond => "unBond"
  | Call.getUnBondable _ => "getUnBondable"
  | Call.dustCleanupCheckpoint => "dustCleanupCheckpoint"
  | Call.countDustItemsWaitingList _ => "countDustItemsWaitingList"
  | Call.countDustItemsActive _ => "countDustItemsActive"
  | Call.dustCleanupWaitingList _ => "dustCleanupWaitingList"
  | Call.dustCleanupActive _ => "dustCleanupActive"
  end%string.

(** ** Results *)
Inductive Value : Set :=
| num (n : N)
| flag (b : bool)
| text (s : string)
| state (st : NodeState)
| fund (i : FundItem)
| checkpoint (orc : GlobalOpCheckpoint)
| status (st : OperationCompletionStatus).

(** [OptionalValue]: nothing or one value. *)
Definition optional (o : option N) : list Value :=
  match o with Some v => [num v] | None => [] end.

(** [MultiValue5] of a breakdown by type. *)
Definition by_type (r : StakeByTypeResult) : list Value :=
  let '(withdraw_only, waiting, active, unstaked, deferred) := r in
  [num withdraw_only; num waiting; num active; num unstaked; num deferred].

Definition CARGO_PKG_VERSION : string := "0.5.8".

Section Dispatch.
Context {C : Type} `{Chain C}.

Definition nothing (m : M (State C) unit) : M (State C) (list Value) := m ;;; ret [].
Definition amount (f : State C → N) : M (State C) (list Value) :=
  let! v := gets f in ret [num v].

Definition dispatch (call : Call) : M (State C) (list Value) :=
  match call with
  | Call.version =>
      ret [text CARGO_PKG_VERSION]
  | Call.getNumNodes =>
      let! n := gets (λ s, ns_num_nodes (st_nodes s)) in ret [num n]
  | Call.getNodeId bls_key =>
      let! n := node_id_of bls_key in ret [num n]
  | Call.getNodeSignature bls_key =>
      let! o := zoom (get_node_signature_endpoint bls_key) in
      ret (optional o)
  | Call.getNodeState bls_key =>
      let! st := gets (λ s, get_node_state_endpoint bls_key (st_nodes s)) in
      ret [state st]
  | Call.getAllNodeStates =>
      let! l := zoom get_all_node_states in
      ret (l ≫= λ '(k, st), [num k; num st])
  | Call.getNodeBlockNonceOfUnstake bls_key =>
      let! o := gets (λ s, get_node_bl_nonce_of_unstake_endpoint bls_key (st_nodes s)) in
      ret (optional o)
  | Call.addNodes bls_keys_signatures =>
      nothing (add_nodes_endpoint bls_keys_signatures)
  | Call.removeNodes bls_keys =>
      nothing (remove_nodes_endpoint bls_keys)
  | Call.getUserId address =>
      let! n := gets (λ s, get_user_id address (st_users s)) in ret [num n]
  | Call.getUserAddress user_id =>
      let! a := zoom (get_user_address user_id) in ret [num a]
  | Call.getNumUsers =>
      let! n := gets (λ s, us_num_users (st_users s)) in ret [num n]
  | Call.updateUserAddress addresses =>
      let! '(num_updated, num_not_updated, num_not_found) :=
        zoom (update_user_address addresses) in
      ret [num num_updated; num num_not_updated; num num_not_found]
  | Call.userIdsWithoutAddress =>
      let! l := gets (λ s, user_ids_without_address (st_users s)) in
      ret (num <$> l)
  | Call.fundById id =>
      let! i := gets (λ s, fund_by_id id (st_funds s)) in ret [fund i]
  | Call.totalStake =>
      amount (λ s, get_total_stake (st_funds s))
  | Call.getUserStake user_address =>
      amount (get_user_total_stake_endpoint user_address)
  | Call.getUserWithdrawOnlyStake user_address =>
      amount (get_user_withdraw_only_stake user_address)
  | Call.getUserWaitingStake user_address =>
      amount (get_user_waiting_stake user_address)
  | Call.getUserActiveStake user_address =>
      amount (get_user_active_stake user_address)
  | Call.getUserUnstakedStake user_address =>
      amount (get_user_unstaked_stake user_address)
  | Call.getUserDeferredPaymentStake user_address =>
      amount (get_user_deferred_payment_stake user_address)
  | Call.getTotalWithdrawOnlyStake =>
      amount (λ s, get_total_withdraw_only_stake (st_funds s))
  | Call.getTotalWaitingStake =>
      amount (λ s, get_total_waiting_stake (st_funds s))
  | Call.getTotalActiveStake =>
      amount (λ s, get_total_active_stake (st_funds s))
  | Call.getTotalUnstakedStake =>
      amount (λ s, get_total_unstaked_stake (st_funds s))
  | Call.getTotalDeferredPaymentStake =>
      amount (λ s, get_total_deferred_payment_stake (st_funds s))
  | Call.getUserStakeByType user_address =>
      let! r := gets (get_user_stake_by_type_endpoint user_address) in
      ret (by_type r)
  | Call.getTotalStakeByType =>
      let! r := gets (λ s, get_total_stake_by_type_endpoint (st_funds s)) in
      ret (by_type r)
  | Call.getAllUserStakeByType =>
      let! l := get_all_user_stake_by_type in
      ret (l ≫= λ '(a, r), num a :: by_type r)
  | Call.getUserDeferredPaymentList user_address =>
      let! l := get_user_deferred_payment_list user_address in
      ret (l ≫= λ '(v, created), [num v; num created])
  | Call.getFullWaitingList =>
      let! l := get_full_waiting_list in
      ret (l ≫= λ '(a, v, created), [num a; num v; num created])
  | Call.getFullActiveList =>
      let! l := get_full_active_list in
      ret (l ≫= λ '(a, v), [num a; num v])
  | Call.stakeNodes amount_to_stake bls_keys =>
      nothing (stake_nodes amount_to_stake bls_keys)
  | Call.unStakeNodes bls_keys =>
      nothing (unstake_nodes_endpoint bls_keys)
  | Call.unStakeNodesAndTokens bls_keys =>
      nothing (unstake_nodes_and_tokens_endpoint bls_keys)
  | Call.forceNodeUnBondPeriod bls_keys =>
      nothing (force_node_unbond_period bls_keys)
  | Call.unBondNodes bls_keys =>
      nothing (unbond_specific_nodes_endpoint bls_keys)
  | Call.unBondAllPossibleNodes =>
      nothing unbond_all_possible_nodes
  | Call.claimUnusedFunds =>
      nothing claim_unused_funds
  | Call.unJailNodes bls_keys fine_payment =>
      nothing (unjail_nodes bls_keys fine_payment)
  | Call.unStakeTokens value =>
      nothing (unstake_tokens value)
  | Call.unBondTokens value =>
      nothing (unbond_tokens value)
  | Call.getAuctionContractAddress =>
      let! a := auction_contract_addr in ret [num a]
  | Call.getServiceFee =>
      amount (λ s, service_fee (st_settings s))
  | Call.getTotalDelegationCap =>
      amount (λ s, total_delegation_cap (st_settings s))
  | Call.isBootstrapMode =>
      let! b := is_bootstrap_mode in ret [flag b]
  | Call.getOwnerMinStakeShare =>
      amount (λ s, owner_min_stake_share (st_settings s))
  | Call.getNumBlocksBeforeUnBond =>
      amount (λ s, n_blocks_before_unbond (st_settings s))
  | Call.setNumBlocksBeforeUnBond n_blocks =>
      nothing (set_n_blocks_before_unbond_endpoint n_blocks)
  | Call.getMinimumStake =>
      amount (λ s, min_stake (st_settings s))
  | Call.setMinimumStake minimum_stake =>
      nothing (set_minimum_stake_endpoint minimum_stake)
  | Call.getGlobalOperationCheckpoint =>
      let! orc := gets st_global_op_checkpoint in ret [checkpoint orc]
  | Call.isGlobalOperationInProgress =>
      let! b := gets is_global_op_in_progress in ret [flag b]
  | Call.getTotalCumulatedRewards =>
      let! v := get_total_cumulated_rewards in ret [num v]
  | Call.getClaimableRewards user =>
      let! v := get_claimable_rewards user in ret [num v]
  | Call.getTotalUnclaimedRewards =>
      let! v := get_total_unclaimed_rewards in ret [num v]
  | Call.getTotalUnProtected =>
      let! v := total_unprotected in ret [num v]
  | Call.validateOwnerStakeShare =>
      nothing validate_owner_stake_share
  | Call.validateDelegationCapInvariant =>
      nothing validate_delegation_cap_invariant
  | Call.continueGlobalOperation =>
      let! st := continue_global_operation_endpoint in ret [status st]
  | Call.modifyTotalDelegationCap new_total_cap =>
      let! st := modify_total_delegation_cap new_total_cap in
      ret [status st]
  | Call.setServiceFee service_fee_per_10000 =>
      let! st := set_service_fee_endpoint service_fee_per_10000 in
      ret [status st]
  | Call.claimRewards =>
      nothing claim_rewards
  | Call.stake payment =>
      nothing (stake_endpoint payment)
  | Call.unStake value =>
      nothing (unstake_endpoint value)
  | Call.getUnStakeable user_address =>
      amount (get_unstakeable user_address)
  | Call.unBond =>
      let! v := unbond_user in ret [num v]
  | Call.getUnBondable user_address =>
      let! v := get_unbondable user_address in ret [num v]
  | Call.dustCleanupCheckpoint =>
      amount st_dust_cleanup_checkpoint
  | Call.countDustItemsWaitingList dust_limit =>
      let! r := gets (λ s, count_dust_items_waiting_list dust_limit (st_funds s)) in
      let! n := of_result r in
      ret [num n]
  | Call.countDustItemsActive dust_limit =>
      let! r := gets (λ s, count_dust_items_active dust_limit (st_funds s)) in
      let! n := of_result r in
      ret [num n]
  | Call.dustCleanupWaitingList dust_limit =>
      nothing (dust_cleanup_waiting_list dust_limit)
  | Call.dustCleanupActive dust_limit =>
      nothing (dust_cleanup_active dust_limit)
  end.
End Dispatch.
