(* ===== verification/TransfSpec.v ===== *)
(** * The fund transformations move amounts between types

    What the operations of fund_transf_module.rs do to the ledger when they are
    not interrupted: which amount moves, whose it is, and that nothing but the
    fund store changes. *)
From stdpp Require Import base numbers list gmap strings sorting.
From S2P Require Import Prelude PtrList FundTypes FundModule FundLedger FundRep FundLoops.
From S2P Require Import FundTotals FundMoves UserData NodeConfig Settings Chain State FundTransf.

(** ** Crediting *)

(** [credited u d v A A']: user [u] has [v] more with description [d]. *)
Record credited (u : N) (t : FundType) (v : N) (A A' : AFunds) : Prop := {
  cr_type : tt_of t A' = tt_of t A + v;
  cr_type_other t' : t' ≠ t → tt_of t' A' = tt_of t' A;
  cr_user : ut_of u t A' = ut_of u t A + v;
  cr_user_other u' t' : (u', t') ≠ (u, t) → ut_of u' t' A' = ut_of u' t' A;
}.

Lemma l_increase_credited u d v A :
  NoDup (ids (af_ledger A)) → credited u (fund_type d) v A (l_increase u d v A).
Proof.
  intros Hnd. split; intros; unfold tt_of, ut_of; rewrite amount_l_increase by done;
    unfold share, of_type, of_user_type.
  - by rewrite bool_decide_true.
  - rewrite bool_decide_false by done. lia.
  - by rewrite !bool_decide_true.
  - case_match eqn:E; [|lia]. apply andb_true_iff in E as [E1 E2].
    apply bool_decide_eq_true in E1, E2. congruence.
Qed.

Section TransfSpec.
Context {C : Type} `{Chain C}.
Implicit Type s : State C.

Lemma create_waiting_spec s A u v :
  Rep (st_funds s) A → af_max A + 1 < usize_max_plus_1 →
  runs (create_waiting u v) s (λ _ s',
    only_funds s s' ∧ ∃ A', Rep (st_funds s') A' ∧ grown FundType.Waiting 1 A A' ∧
      credited u FundType.Waiting v A A').
Proof.
  intros HR Hmax. unfold create_waiting. run_gets.
  set (d := FundDescription.Waiting _).
  destruct (increase_fund_balance_rep None (st_funds s) A u d v HR) as (fs' & Heq & HR');
    [apply hole_free_None|done|].
  eapply runs_eq; [by apply zoom_ok|]. split; [apply only_funds_set, only_funds_refl|].
  exists (l_increase u d v A). split_and!; [done|apply (grown_increase u d)|].
  exact (l_increase_credited u d v A (rep_nodup HR)).
Qed.

(** *** The type-wide swaps *)
Lemma to_active_transforms :
  transforms (S:=State C) (λ _, ret (Some FundDescription.Active))
    (λ _, Some FundDescription.Active) FundType.Waiting FundType.Active.
Proof. split_and!; [done|by intros d d' [= <-]|eauto]. Qed.

Definition activated (m : N) (A : AFunds) : list Bucket :=
  walk_of Forwards FundType.Waiting (λ _, Some FundDescription.Active) m A.

(** The users that an activation of [m] affects, and what each one moves. *)
Definition activated_users (m : N) (A : AFunds) : list N :=
  affected_users_sort_dedup (b_user <$> activated m A).
Definition activated_of (m : N) (A : AFunds) (u : N) : N :=
  flow_of u (λ _, Some FundDescription.Active) (Some m) (activated m A).

Lemma activated_of_0 m A u : u ∉ activated_users m A → activated_of m A u = 0.
Proof. apply walk_users. Qed.

Lemma swap_waiting_to_active_spec full s A m :
  Rep (st_funds s) A → roomy full FundType.Waiting A →
  outcome (swap_waiting_to_active m never) s (crowded full) (λ r s',
    r = (activated_users m A, m - tt_of FundType.Waiting A) ∧ only_funds s s' ∧
    ∃ A', Rep (st_funds s') A' ∧
      grown FundType.Active (len_of FundType.Waiting A) A A' ∧
      moved FundType.Waiting FundType.Active (N.min m (tt_of FundType.Waiting A))
        (activated_of m A) A A').
Proof.
  intros HR Hroom. unfold swap_waiting_to_active. apply outcome_bind.
  eapply outcome_post; [by apply (convert_type_moves full Forwards FundType.Waiting FundType.Active
    _ _ to_active_transforms ltac:(done) s A m)|].
  intros r s' (-> & HP & HA). apply outcome_ret. by split_and!.
Qed.

Lemma get_affected_users_spec full s A m :
  Rep (st_funds s) A → roomy full FundType.Waiting A →
  outcome (get_affected_users_of_swap_waiting_to_active m never) s (crowded full) (λ r s',
    r = (activated_users m A, m - tt_of FundType.Waiting A) ∧ s' = s).
Proof.
  intros HR Hroom. unfold get_affected_users_of_swap_waiting_to_active. apply outcome_bind.
  eapply outcome_post; [by apply (convert_type_dry full Forwards FundType.Waiting FundType.Active
    _ _ to_active_transforms ltac:(done) s A m)|].
  intros r s' (-> & ->). apply outcome_ret. by split_and!.
Qed.

Definition unstaked_to_deferred (d : FundDescription) : option FundDescription :=
  match d with
  | FundDescription.UnStaked created => Some (FundDescription.DeferredPayment created)
  | _ => None
  end.

Lemma unstaked_transforms :
  transforms (S:=State C)
    (λ fund_info, match fund_desc fund_info with
                  | FundDescription.UnStaked created =>
                      ret (Some (FundDescription.DeferredPayment created))
                  | _ => ret None
                  end)
    unstaked_to_deferred FundType.UnStaked FundType.DeferredPayment.
Proof.
  split_and!.
  - intros i s. by destruct (fund_desc i).
  - by intros [] d' [= <-].
  - intros [] [=]; simpl; eauto.
Qed.

Lemma swap_unstaked_to_deferred_payment_spec full s A m :
  Rep (st_funds s) A → roomy full FundType.UnStaked A →
  outcome (swap_unstaked_to_deferred_payment m never) s (crowded full) (λ r s',
    r = m - tt_of FundType.UnStaked A ∧ only_funds s s' ∧
    ∃ A' mv, Rep (st_funds s') A' ∧
      grown FundType.DeferredPayment (len_of FundType.UnStaked A) A A' ∧
      moved FundType.UnStaked FundType.DeferredPayment
        (N.min m (tt_of FundType.UnStaked A)) mv A A').
Proof.
  intros HR Hroom. unfold swap_unstaked_to_deferred_payment. apply outcome_bind.
  eapply outcome_post; [by apply (convert_type_moves full Forwards FundType.UnStaked
    FundType.DeferredPayment _ _ unstaked_transforms ltac:(done) s A m)|].
  intros r s' (-> & HP & A' & HA). apply outcome_ret. split_and!; [done..|by eexists _, _].
Qed.

(** *** One user's swaps *)
Definition user_roomy (u : N) (t : FundType) (A : AFunds) : Prop :=
  af_max A + ulen_of u t A < usize_max_plus_1.

Lemma swap_user_active_to_unstaked_spec s A u m :
  Rep (st_funds s) A → user_roomy u FundType.Active A →
  runs (swap_user_active_to_unstaked u m) s (λ r s',
    r = m - ut_of u FundType.Active A ∧ only_funds s s' ∧
    ∃ A', Rep (st_funds s') A' ∧
      grown FundType.UnStaked (ulen_of u FundType.Active A) A A' ∧
      moved FundType.Active FundType.UnStaked (N.min m (ut_of u FundType.Active A))
        (λ u', if decide (u' = u) then N.min m (ut_of u FundType.Active A) else 0) A A').
Proof.
  intros HR Hroom. unfold swap_user_active_to_unstaked.
  apply runs_bind, runs_gets, runs_bind.
  eapply runs_mono.
  { apply (convert_user_moves Forwards u FundType.Active FundType.UnStaked (λ _, Some _));
      [by intros ?? [= <-]|eauto|done..]. }
  intros r s' (-> & HP & HA). apply runs_ret. by split_and!.
Qed.

Lemma swap_user_waiting_to_withdraw_only_spec s A u m :
  Rep (st_funds s) A → user_roomy u FundType.Waiting A →
  runs (swap_user_waiting_to_withdraw_only u m) s (λ r s',
    r = m - ut_of u FundType.Waiting A ∧ only_funds s s' ∧
    ∃ A', Rep (st_funds s') A' ∧
      grown FundType.WithdrawOnly (ulen_of u FundType.Waiting A) A A' ∧
      moved FundType.Waiting FundType.WithdrawOnly (N.min m (ut_of u FundType.Waiting A))
        (λ u', if decide (u' = u) then N.min m (ut_of u FundType.Waiting A) else 0) A A').
Proof.
  intros HR Hroom. unfold swap_user_waiting_to_withdraw_only. apply runs_bind.
  eapply runs_mono.
  { apply (convert_user_moves Backwards u FundType.Waiting FundType.WithdrawOnly (λ _, Some _));
      [by intros ?? [= <-]|eauto|done..]. }
  intros r s' (-> & HP & HA). apply runs_ret. by split_and!.
Qed.
End TransfSpec.
