(* ===== verification/RewardSpec.v ===== *)
(** * Rewards: the exact computation, and solvency

    [load_updated_user_rewards] computed in closed form, with the conditions
    under which it cannot fail, and the invariant that the contract never owes
    more rewards than it has received. *)
From stdpp Require Import base numbers list gmap strings.
From S2P Require Import Prelude FundTypes FundModule UserData NodeConfig Settings Chain State.
From S2P Require Import FundTransf FundView Rewards.

(** ** The shares of a reward *)
Definition service_part (fee r : N) : N := fee * r / PERCENTAGE_DENOMINATOR.
Definition delegators_part (fee r : N) : N :=
  (PERCENTAGE_DENOMINATOR - fee) * r / PERCENTAGE_DENOMINATOR.

Lemma mul_div_le a b : a / b * b ≤ a.
Proof.
  destruct (N.eq_dec b 0) as [->|Hb]; [lia|]. pose proof (N.Div0.mul_div_le a b). lia.
Qed.

Lemma service_part_le fee r : service_part fee r * PERCENTAGE_DENOMINATOR ≤ fee * r.
Proof. apply mul_div_le. Qed.

Lemma delegators_part_le fee r :
  delegators_part fee r * PERCENTAGE_DENOMINATOR ≤ (PERCENTAGE_DENOMINATOR - fee) * r.
Proof. apply mul_div_le. Qed.

(** A share of the delegators' part.  A cap of zero, with nothing staked, gives
    no shares; amounts are then scaled by one. *)
Lemma share_le fee r a cap :
  delegators_part fee r * a / cap * (PERCENTAGE_DENOMINATOR * N.max 1 cap) ≤
    (PERCENTAGE_DENOMINATOR - fee) * r * a.
Proof.
  destruct (N.eq_dec cap 0) as [->|Hcap].
  { rewrite N.div_0_r, N.mul_0_l. apply N.le_0_l. }
  rewrite N.max_r by lia.
  pose proof (mul_div_le (delegators_part fee r * a) cap) as H1.
  pose proof (delegators_part_le fee r) as H2.
  set (d := delegators_part fee r) in *.
  set (q := d * a / cap) in *. set (D := PERCENTAGE_DENOMINATOR) in *.
  transitivity (d * a * D).
  - replace (q * (D * cap)) with (q * cap * D) by lia. by apply N.mul_le_mono_r.
  - replace (d * a * D) with (d * D * a) by lia. by apply N.mul_le_mono_r.
Qed.

Section RewardSpec.
Context {C : Type} `{Chain C}.
Implicit Type s : State C.

Definition cumulated s : N := get_cumulated_validator_rewards (st_chain s).
Definition active_of (u : N) s : N := get_user_stake_of_type u FundType.Active (st_funds s).
Definition total_active s : N := active_of USER_STAKE_TOTALS_ID s.
Definition cap_of s : N := total_delegation_cap (st_settings s).
Definition fee_of s : N := service_fee (st_settings s).
Definition unclaimed_of (u : N) s : N := get_user_rew_unclaimed u (st_rewards s).
Definition checkpoint_of (u : N) s : N := get_user_rew_checkpoint u (st_rewards s).

(** What a reward [r] gives to user [u]. *)
Definition new_rewards (u r : N) s : N :=
  (if u =? OWNER_USER_ID then
     service_part (fee_of s) r
     + (if total_active s <? cap_of s
        then delegators_part (fee_of s) r * (cap_of s - total_active s) / cap_of s else 0)
   else 0)
  + (if 0 <? active_of u s then delegators_part (fee_of s) r * active_of u s / cap_of s
     else 0).

Definition updated_rewards (u : N) s : UserRewardData :=
  let r := cumulated s - checkpoint_of u s in
  if r =? 0 then load_user_reward_data u (st_rewards s)
  else mk_UserRewardData (cumulated s) (unclaimed_of u s + new_rewards u r s).

Lemma split_service_reward_eq s r :
  fee_of s ≤ PERCENTAGE_DENOMINATOR →
  split_service_reward r s = Ok ((service_part (fee_of s) r, delegators_part (fee_of s) r), s).
Proof.
  intros Hfee. unfold fee_of in *. unfold split_service_reward, big_div, big_sub, bind, gets, ret. simpl.
  unfold PERCENTAGE_DENOMINATOR in *. by rewrite (proj2 (N.ltb_ge _ _)).
Qed.

(** The conditions under which a user's rewards can be computed. *)
Record reward_ready (u : N) s : Prop := {
  rr_fee : fee_of s ≤ PERCENTAGE_DENOMINATOR;
  rr_checkpoint : checkpoint_of u s ≤ cumulated s;
  rr_cap : 0 < active_of u s → 0 < cap_of s;
}.

Lemma load_updated_user_rewards_eq s u :
  reward_ready u s → load_updated_user_rewards u s = Ok (updated_rewards u s, s).
Proof.
  intros [Hfee Hcp Hcap]. unfold load_updated_user_rewards, updated_rewards.
  unfold bind at 1, gets at 1. unfold bind at 1.
  change (get_total_cumulated_rewards s) with (Ok (A:=N * State C) (cumulated s, s)). cbv iota.
  change (reward_checkpoint _) with (checkpoint_of u s).
  unfold bind at 1, big_sub at 1. rewrite (proj2 (N.ltb_ge _ _)) by done. unfold ret at 1.
  case_match; [done|]. set (r := cumulated s - checkpoint_of u s).
  unfold bind at 1. rewrite split_service_reward_eq by done.
  unfold new_rewards, unclaimed_of, cap_of, total_active, active_of in *.
  unfold stake_of_type, bind, gets, ret, big_sub, big_div. simpl.
  set (cap := total_delegation_cap (st_settings s)) in *.
  set (act := get_user_stake_of_type USER_STAKE_TOTALS_ID FundType.Active (st_funds s)).
  set (a := get_user_stake_of_type u FundType.Active (st_funds s)) in *.
  assert (∀ v : N, 0 < a → cap =? 0 = false) as Hc0.
  { intros _ Ha%Hcap. apply N.eqb_neq. lia. }
  destruct (u =? OWNER_USER_ID); simpl; fold act a cap.
  - destruct (N.ltb_spec act cap) as [Hlt|Hge]; simpl; fold act a cap.
    + rewrite (proj2 (N.ltb_ge cap act)) by lia. simpl.
      rewrite (proj2 (N.eqb_neq cap 0)) by lia. simpl. fold a.
      destruct (0 <? a); simpl; do 3 f_equal; lia.
    + destruct (N.ltb_spec 0 a); simpl; fold a; [rewrite (Hc0 0) by done; simpl|];
        do 3 f_equal; lia.
  - destruct (N.ltb_spec 0 a); simpl; fold a; [rewrite (Hc0 0) by done; simpl|];
      do 3 f_equal; lia.
Qed.

(** The state after [compute_one_user_reward]. *)
Definition put_rewards (u : N) (d : UserRewardData) s : State C :=
  lens_set (set_user_rew_unclaimed u (unclaimed_rewards d)
    (set_user_rew_checkpoint u (reward_checkpoint d) (st_rewards s))) s.
Definition rewarded (u : N) s : State C := put_rewards u (updated_rewards u s) s.

Lemma store_user_reward_data_eq u d s :
  store_user_reward_data u d s = Ok (tt, put_rewards u d s).
Proof. done. Qed.

Lemma compute_one_user_reward_eq s u :
  reward_ready u s → compute_one_user_reward u s = Ok (tt, rewarded u s).
Proof.
  intros. unfold compute_one_user_reward, bind. by rewrite load_updated_user_rewards_eq.
Qed.

Lemma updated_checkpoint u s :
  checkpoint_of u s ≤ cumulated s → reward_checkpoint (updated_rewards u s) = cumulated s.
Proof.
  intros. unfold updated_rewards. destruct (N.eqb_spec (cumulated s - checkpoint_of u s) 0);
    [|done]. simpl. unfold checkpoint_of in *. lia.
Qed.

Lemma updated_unclaimed u s :
  unclaimed_rewards (updated_rewards u s) =
    unclaimed_of u s +
      (if cumulated s - checkpoint_of u s =? 0 then 0
       else new_rewards u (cumulated s - checkpoint_of u s) s).
Proof. unfold updated_rewards. case_match; simpl; unfold unclaimed_of; lia. Qed.

(** What a user can claim. *)
Definition claimable (u : N) s : N := unclaimed_rewards (updated_rewards u s).

(** Reading the rewards of a state with new reward data. *)
Lemma put_unclaimed u d s v :
  unclaimed_of v (put_rewards u d s) = if decide (u = v) then unclaimed_rewards d else unclaimed_of v s.
Proof.
  unfold unclaimed_of, put_rewards, get_user_rew_unclaimed; simpl.
  rewrite lookup_insert. by case_decide.
Qed.
Lemma put_checkpoint u d s v :
  checkpoint_of v (put_rewards u d s) = if decide (u = v) then reward_checkpoint d else checkpoint_of v s.
Proof.
  unfold checkpoint_of, put_rewards, get_user_rew_checkpoint; simpl.
  rewrite lookup_insert. by case_decide.
Qed.

(** *** What changes what a user can claim, and what does not *)
Lemma claimable_settled u s : checkpoint_of u s = cumulated s → claimable u s = unclaimed_of u s.
Proof.
  intros Hcp. unfold claimable. rewrite updated_unclaimed, Hcp, N.sub_diag. simpl. lia.
Qed.

Lemma new_rewards_ext u r s s' :
  cap_of s' = cap_of s → fee_of s' = fee_of s → active_of u s' = active_of u s →
  (u = OWNER_USER_ID → total_active s' = total_active s) →
  new_rewards u r s' = new_rewards u r s.
Proof.
  intros Hc Hf Ha Ht. unfold new_rewards. rewrite Hc, Hf, Ha.
  destruct (N.eqb_spec u OWNER_USER_ID) as [->|]; [by rewrite Ht|done].
Qed.

Lemma claimable_ext u s s' :
  unclaimed_of u s' = unclaimed_of u s → checkpoint_of u s' = checkpoint_of u s →
  cumulated s' = cumulated s → cap_of s' = cap_of s → fee_of s' = fee_of s →
  active_of u s' = active_of u s ∨ checkpoint_of u s = cumulated s →
  (u = OWNER_USER_ID → total_active s' = total_active s ∨ checkpoint_of u s = cumulated s) →
  claimable u s' = claimable u s.
Proof.
  intros Hu Hcp Hcum Hc Hf Ha Ht. destruct (decide (checkpoint_of u s = cumulated s)) as [He|Hne].
  - rewrite !claimable_settled; congruence.
  - unfold claimable. rewrite !updated_unclaimed, Hu, Hcp, Hcum. f_equal. case_match; [done|].
    apply new_rewards_ext; [done|done|by destruct Ha|]. intros Ho. by destruct (Ht Ho).
Qed.

(** Bringing the rewards of a user up to date changes nothing for anybody. *)
Lemma claimable_rewarded u v s :
  checkpoint_of u s ≤ cumulated s → claimable v (rewarded u s) = claimable v s.
Proof.
  intros Hle. destruct (decide (u = v)) as [<-|Hne].
  - rewrite claimable_settled; unfold rewarded.
    + by rewrite put_unclaimed, decide_True.
    + rewrite put_checkpoint, decide_True by done. by rewrite updated_checkpoint.
  - apply claimable_ext; [| |done..|by left|by left].
    + unfold rewarded. by rewrite put_unclaimed, decide_False.
    + unfold rewarded. by rewrite put_checkpoint, decide_False.
Qed.

(** ** What the contract owes

    All amounts are scaled by the denominator and the cap (or one, if nothing
    is staked), so that no rounding is involved. *)
Definition scale_of s : N := N.max 1 (cap_of s).
Definition sum_over {X} (w : X → N) (l : list X) : N := foldr (λ x t, w x + t) 0 l.

Definition owed_user s (u : N) : N :=
  unclaimed_of u s * (PERCENTAGE_DENOMINATOR * scale_of s)
  + (PERCENTAGE_DENOMINATOR - fee_of s) * (cumulated s - checkpoint_of u s) * active_of u s.
(** The service fee and the delegators' part of the stake that is missing. *)
Definition owed_owner s : N :=
  (cumulated s - checkpoint_of OWNER_USER_ID s) *
    (fee_of s * scale_of s
     + (PERCENTAGE_DENOMINATOR - fee_of s) * (scale_of s - total_active s)).
Definition users s : list N := ids_up_to (us_num_users (st_users s)).
Definition owed s : N :=
  sum_over (owed_user s) (users s) + owed_owner s
  + rs_sent_rewards (st_rewards s) * (PERCENTAGE_DENOMINATOR * scale_of s).
Definition solvent s : Prop :=
  owed s ≤ cumulated s * (PERCENTAGE_DENOMINATOR * scale_of s).
End RewardSpec.

Lemma sum_over_ext {X} (v w : X → N) l :
  (∀ x, x ∈ l → v x = w x) → sum_over v l = sum_over w l.
Proof.
  unfold sum_over. induction l as [|x l IH]; intros Hvw; simpl; [done|].
  rewrite Hvw, IH by set_solver. done.
Qed.

Lemma sum_over_le {X} (v w : X → N) l :
  (∀ x, x ∈ l → v x ≤ w x) → sum_over v l ≤ sum_over w l.
Proof.
  unfold sum_over. induction l as [|x l IH]; intros Hvw; simpl; [done|].
  assert (v x ≤ w x) by set_solver. assert (foldr (λ x t, v x + t) 0 l ≤ foldr (λ x t, w x + t) 0 l)
    by (apply IH; set_solver). lia.
Qed.

Lemma sum_over_elem {X} (w : X → N) l x : x ∈ l → w x ≤ sum_over w l.
Proof. unfold sum_over. induction 1; simpl; lia. Qed.

Lemma sum_over_plus {X} (v w : X → N) l :
  sum_over (λ x, v x + w x) l = sum_over v l + sum_over w l.
Proof. unfold sum_over. induction l as [|x l IH]; simpl; [done|]. rewrite IH. lia. Qed.

Lemma sum_over_mul {X} (w : X → N) l c : sum_over (λ x, c * w x) l = c * sum_over w l.
Proof. unfold sum_over. induction l as [|x l IH]; simpl; [lia|]. rewrite IH. lia. Qed.

Lemma sum_over_0 {X} (w : X → N) l : (∀ x, x ∈ l → w x = 0) → sum_over w l = 0.
Proof.
  unfold sum_over. induction l as [|x l IH]; intros Hw; simpl; [done|].
  rewrite Hw, IH by set_solver. done.
Qed.

(** A sum with a single non-zero term. *)
Lemma sum_over_single (c j : N) l :
  NoDup l → sum_over (λ i, if decide (j = i) then c else 0) l =
            if decide (j ∈ l) then c else 0.
Proof.
  unfold sum_over. induction l as [|i l IH]; intros Hnd; [by rewrite decide_False by set_solver|].
  apply NoDup_cons in Hnd as [Hi Hnd]. simpl. rewrite IH by done.
  destruct (decide (j = i)) as [->|Hne].
  - rewrite decide_False, decide_True by set_solver. lia.
  - rewrite N.add_0_l. apply decide_ext. set_solver.
Qed.

Lemma sum_over_app {X} (w : X → N) l l' : sum_over w (l ++ l') = sum_over w l + sum_over w l'.
Proof. unfold sum_over. induction l as [|x l IH]; simpl; [done|]. rewrite IH. lia. Qed.

(** A change at one element. *)
Lemma sum_over_change (v w : N → N) l x :
  NoDup l → x ∈ l → (∀ y, y ∈ l → y ≠ x → v y = w y) →
  sum_over v l + w x = sum_over w l + v x.
Proof.
  unfold sum_over. induction l as [|y l IH]; [set_solver|].
  intros [Hy Hnd]%NoDup_cons Hx Hvw; simpl. apply elem_of_cons in Hx as [->|Hx].
  - fold (sum_over v l) (sum_over w l). rewrite (sum_over_ext v w l); [lia|].
    intros z Hz. apply Hvw; set_solver.
  - rewrite (Hvw y) by set_solver. specialize (IH Hnd Hx ltac:(set_solver)). lia.
Qed.
