(* ===== verification/ContractInv.v ===== *)
(** * The invariant of the contract

    What holds between transactions: the fund store represents a ledger whose
    funds belong to registered users, the rewards of every user can be
    computed, the delegation cap bounds the staked amount, and the contract owes
    no more rewards than it has received. *)
From stdpp Require Import base numbers list gmap strings.
From S2P Require Import Prelude PtrList FundTypes FundModule FundLedger FundRep FundLoops.
From S2P Require Import FundTotals FundMoves UserData NodeConfig Settings Chain State FundTransf.
From S2P Require Import FundView Rewards TransfSpec RewardSpec.

(** [validate_delegation_cap_invariant] as a predicate on the ledger. *)
Definition cap_ok (bootstrap : bool) (cap : N) (A : AFunds) : Prop :=
  let staked := tt_of FundType.Active A + tt_of FundType.UnStaked A in
  if bootstrap then staked < cap else staked = cap.

Section ContractInv.
Context {C : Type} `{Chain C}.
Implicit Type s : State C.

Definition num_users_of s : N := us_num_users (st_users s).
Definition bootstrap_of s : bool := bootstrap_mode (st_settings s).
Definition unregistered (u : N) s : Prop := u = 0 ∨ num_users_of s < u.

Record Inv s (A : AFunds) : Prop := {
  inv_rep : Rep (st_funds s) A;
  inv_owners u t : unregistered u s → ut_of u t A = 0;
  inv_fresh u : unregistered u s → unclaimed_of u s = 0;
  inv_ids a : get_user_id a (st_users s) ≤ num_users_of s;
  inv_owner_id : 1 ≤ num_users_of s;
  inv_fee : fee_of s ≤ PERCENTAGE_DENOMINATOR;
  inv_checkpoint u : checkpoint_of u s ≤ cumulated s;
  inv_cap : tt_of FundType.Active A ≤ cap_of s;
  inv_bootstrap : bootstrap_of s = true → cumulated s = 0;
  inv_solvent : solvent s;
}.

(** Outside of global operations the staked amount is tied to the cap, and
    nothing waits in bootstrap mode. *)
Definition within_cap s (A : AFunds) : Prop := cap_ok (bootstrap_of s) (cap_of s) A.
Definition none_waits s (A : AFunds) : Prop :=
  bootstrap_of s = true → tt_of FundType.Waiting A = 0.
Definition staked_ok s (A : AFunds) : Prop := within_cap s A ∧ none_waits s A.

(** *** Amounts read from the storage *)
Section Reads.
Context {s : State C} {A : AFunds} (HR : Rep (st_funds s) A).

Lemma stake_total t : get_user_stake_of_type USER_STAKE_TOTALS_ID t (st_funds s) = tt_of t A.
Proof. exact (rep_tt HR t). Qed.

Lemma stake_user u t : u ≠ 0 → get_user_stake_of_type u t (st_funds s) = ut_of u t A.
Proof.
  intros Hu. unfold get_user_stake_of_type, USER_STAKE_TOTALS_ID.
  rewrite (proj2 (N.eqb_neq u 0)) by done. apply (rep_ut HR).
Qed.

Lemma active_of_user u : u ≠ 0 → active_of u s = ut_of u FundType.Active A.
Proof. apply stake_user. Qed.

Lemma total_active_eq : total_active s = tt_of FundType.Active A.
Proof. apply stake_total. Qed.

Lemma active_le u : active_of u s ≤ tt_of FundType.Active A.
Proof.
  unfold active_of. destruct (N.eq_dec u 0) as [->|Hu].
  - change 0 with USER_STAKE_TOTALS_ID. by rewrite stake_total.
  - rewrite stake_user by done. apply ut_le_tt.
Qed.
End Reads.

(** The amounts of the registered users add up to the total. *)
Lemma sum_users t A s :
  (∀ u, unregistered u s → ut_of u t A = 0) →
  sum_over (λ u, ut_of u t A) (users s) = tt_of t A.
Proof.
  intros Hun. unfold tt_of, ut_of in *.
  assert (∀ b, b ∈ af_ledger A → type_key b = t → 0 < b_bal b → b_user b ∈ users s) as Hin.
  { intros b Hb Ht Hpos. apply elem_of_ids_up_to. destruct (decide (unregistered (b_user b) s))
      as [Hu|Hu]; [|unfold unregistered, num_users_of in Hu; lia].
    specialize (Hun _ Hu). pose proof (amount_elem (of_user_type (b_user b) t) b _ Hb) as Hle.
    unfold worth, share in Hle. rewrite of_user_type_spec in Hle.
    rewrite bool_decide_true in Hle by (by rewrite <-Ht). lia. }
  assert (∀ L, L ⊆ af_ledger A → sum_over (λ u, amount (of_user_type u t) L) (users s) =
    amount (of_type t) L) as Hgen; [|by apply Hgen].
  induction L as [|b L IH]; intros Hsub; simpl.
  - by apply sum_over_0.
  - rewrite <-IH by set_solver.
    rewrite (sum_over_plus (λ u, worth (of_user_type u t) b)). f_equal.
    assert (∀ u, worth (of_user_type u t) b =
      if decide (b_user b = u) then worth (of_type t) b else 0) as Hw.
    { intros u. unfold worth, share, of_user_type, of_type.
      case_decide; [rewrite (bool_decide_true (_ = u)) by done|
        rewrite (bool_decide_false (_ = u)) by done]; done. }
    rewrite (sum_over_ext _ _ _ (λ u _, Hw u)), sum_over_single by apply nodup_ids_up_to.
    case_decide as Hu; [done|]. destruct (N.eq_dec (worth (of_type t) b) 0) as [->|Hnz]; [done|].
    destruct Hu. unfold worth, share, of_type in Hnz. case_bool_decide as Ht; [|done].
    apply Hin; [set_solver|done|lia].
Qed.

(** *** Rewards *)
Lemma inv_ready s A u : Inv s A → reward_ready u s.
Proof.
  intros HI. split; [apply HI|apply HI|]. intros Ha.
  pose proof (active_le (inv_rep _ _ HI) u). pose proof (inv_cap _ _ HI) as Hc.
  lia.
Qed.

Lemma new_rewards_le s u r :
  new_rewards u r s * (PERCENTAGE_DENOMINATOR * scale_of s) ≤
    (PERCENTAGE_DENOMINATOR - fee_of s) * r * active_of u s +
    (if u =? OWNER_USER_ID then
       r * (fee_of s * scale_of s
            + (PERCENTAGE_DENOMINATOR - fee_of s) * (scale_of s - total_active s))
     else 0).
Proof.
  unfold new_rewards, scale_of. set (D := PERCENTAGE_DENOMINATOR). set (cap := cap_of s).
  set (K := N.max 1 cap).
  set (fee := fee_of s). set (act := total_active s). set (a := active_of u s).
  assert ((if 0 <? a then delegators_part fee r * a / cap else 0) * (D * K)
    ≤ (D - fee) * r * a) as Hown.
  { destruct (0 <? a); [apply share_le|rewrite N.mul_0_l; apply N.le_0_l]. }
  destruct (u =? OWNER_USER_ID); [|lia].
  assert (service_part fee r * (D * K) ≤ r * (fee * K)) as Hserv.
  { pose proof (service_part_le fee r) as Hs. fold D in Hs.
    replace (service_part fee r * (D * K)) with (service_part fee r * D * K) by lia.
    replace (r * (fee * K)) with (fee * r * K) by lia. by apply N.mul_le_mono_r. }
  assert ((if act <? cap then delegators_part fee r * (cap - act) / cap else 0) * (D * K)
    ≤ (D - fee) * r * (K - act)) as Hmiss.
  { destruct (act <? cap); [|rewrite N.mul_0_l; apply N.le_0_l].
    etrans; [apply share_le|]. apply N.mul_le_mono_l. lia. }
  rewrite !N.mul_add_distr_r, !N.mul_add_distr_l. lia.
Qed.

Lemma owed_user_put_other s u v d :
  u ≠ v → owed_user (put_rewards u d s) v = owed_user s v.
Proof.
  intros Hne. unfold owed_user. rewrite put_unclaimed, put_checkpoint.
  by rewrite !decide_False by done.
Qed.

Lemma owed_rewarded s A u :
  Inv s A → u ∈ users s → owed (rewarded u s) ≤ owed s.
Proof.
  intros HI Hu. pose proof (inv_checkpoint _ _ HI u) as Hcp.
  set (s' := rewarded u s). unfold owed.
  change (users s') with (users s).
  change (rs_sent_rewards (st_rewards s')) with (rs_sent_rewards (st_rewards s)).
  change (scale_of s') with (scale_of s).
  assert (sum_over (owed_user s') (users s) + owed_user s u =
    sum_over (owed_user s) (users s) + owed_user s' u) as Hsum.
  { apply sum_over_change; [apply nodup_ids_up_to|done|].
    intros v _ Hne. by apply owed_user_put_other. }
  assert (owed_user s' u + owed_owner s' ≤ owed_user s u + owed_owner s); [|lia].
  set (r := cumulated s - checkpoint_of u s).
  set (D := PERCENTAGE_DENOMINATOR). set (K := scale_of s).
  assert (unclaimed_of u s' * (D * K) ≤ unclaimed_of u s * (D * K)
    + new_rewards u r s * (D * K)) as Hn.
  { unfold s', rewarded. rewrite put_unclaimed, decide_True, updated_unclaimed by done.
    fold r. rewrite <-N.mul_add_distr_r. apply N.mul_le_mono_r. case_match; lia. }
  assert (checkpoint_of u s' = cumulated s) as Hc'.
  { unfold s', rewarded. rewrite put_checkpoint, decide_True by done.
    by apply updated_checkpoint. }
  pose proof (new_rewards_le s u r) as Hnew.
  assert (owed_user s' u = unclaimed_of u s' * (D * K)) as ->.
  { unfold owed_user. change (cumulated s') with (cumulated s). rewrite Hc', N.sub_diag.
    change (scale_of s') with K. lia. }
  unfold owed_user. fold r D K in Hnew |- *.
  destruct (N.eqb_spec u OWNER_USER_ID) as [->|Hne].
  - assert (owed_owner s' = 0) as ->.
    { unfold owed_owner. change (cumulated s') with (cumulated s). rewrite Hc'. lia. }
    unfold owed_owner. fold r D K. lia.
  - assert (owed_owner s' = owed_owner s) as ->; [|lia].
    unfold owed_owner. change (cumulated s') with (cumulated s).
    assert (checkpoint_of OWNER_USER_ID s' = checkpoint_of OWNER_USER_ID s) as ->; [|done].
    unfold s', rewarded. by rewrite put_checkpoint, decide_False.
Qed.

Lemma inv_rewarded s A u : Inv s A → u ∈ users s → Inv (rewarded u s) A.
Proof.
  intros HI Hu. pose proof (owed_rewarded s A u HI Hu) as Ho.
  destruct HI. split; try done.
  - intros v Hv. unfold rewarded. rewrite put_unclaimed, decide_False; [by apply inv_fresh0|].
    intros <-. apply elem_of_ids_up_to in Hu. unfold unregistered, num_users_of in Hv. 
    change (st_users (rewarded u s)) with (st_users s) in Hv. lia.
  - intros v. unfold rewarded. rewrite put_checkpoint. case_decide; [|apply inv_checkpoint0].
    rewrite updated_checkpoint by done. done.
  - unfold solvent in *. etrans; [exact Ho|done].
Qed.

(** *** What everybody can claim stays *)
Record earnings_kept s s' : Prop := {
  ek_users : users s' = users s;
  ek_claimable u : u ∈ users s → claimable u s' = claimable u s;
}.
#[export] Instance earnings_kept_preorder : PreOrder earnings_kept.
Proof.
  split; [by split|]. intros s1 s2 s3 [U1 E1] [U2 E2]. split; [congruence|].
  intros u Hu. rewrite E2 by (by rewrite U1). by apply E1.
Qed.

Lemma earnings_rewarded s A u : Inv s A → earnings_kept s (rewarded u s).
Proof. intros HI. split; [done|]. intros v _. apply claimable_rewarded, HI. Qed.

(** The owner alone may gain: what rounding left over. *)
Record earnings_raised s s' : Prop := {
  er_users : users s' = users s;
  er_others u : u ∈ users s → u ≠ OWNER_USER_ID → claimable u s' = claimable u s;
  er_owner : OWNER_USER_ID ∈ users s → claimable OWNER_USER_ID s ≤ claimable OWNER_USER_ID s';
}.
#[export] Instance earnings_raised_preorder : PreOrder earnings_raised.
Proof.
  split; [by split|]. intros s1 s2 s3 [U1 E1 O1] [U2 E2 O2]. split; [congruence|..].
  - intros u Hu Hne. rewrite E2 by (by rewrite ?U1). by apply E1.
  - intros Hin. etrans; [by apply O1|]. apply O2. by rewrite U1.
Qed.

Lemma earnings_kept_raised s s' : earnings_kept s s' → earnings_raised s s'.
Proof. intros [Hu Hc]. split; [done|by intros; apply Hc|]. intros Hin. by rewrite Hc. Qed.

(** The invariant holds, and what everybody can claim is as it was in [s]. *)
Record Inv_kept s s' (A' : AFunds) : Prop := {
  ik_inv : Inv s' A';
  ik_earnings : earnings_kept s s';
}.

(** *** Changes of the fund store *)

(** The active stake may only change for users whose rewards are up to date,
    and in total only when the owner's are. *)
Definition rewards_settled s s' : Prop :=
  (∀ u, u ∈ users s → active_of u s' = active_of u s ∨ checkpoint_of u s = cumulated s) ∧
  (total_active s' = total_active s ∨ checkpoint_of OWNER_USER_ID s = cumulated s).

Lemma owed_only_funds s s' :
  only_funds s s' → rewards_settled s s' → owed s' = owed s.
Proof.
  intros Hof [Hu Ho]. unfold only_funds in Hof. unfold owed, users.
  assert (st_rewards s' = st_rewards s ∧ st_settings s' = st_settings s ∧
    st_chain s' = st_chain s ∧ st_users s' = st_users s) as (Er & Es & Ec & Eu)
    by (by rewrite Hof).
  rewrite Eu. f_equal; [f_equal|].
  - apply sum_over_ext. intros u Hin. unfold owed_user, unclaimed_of, checkpoint_of, scale_of, cap_of,
      fee_of, cumulated in *. rewrite Er, Es, Ec.
    destruct (Hu u Hin) as [-> | ->]; [done|]. by rewrite N.sub_diag, N.mul_0_r.
  - unfold owed_owner, checkpoint_of, scale_of, cap_of, fee_of, cumulated in *. rewrite Er, Es, Ec.
    destruct Ho as [-> | ->]; [done|]. by rewrite N.sub_diag.
  - unfold scale_of, cap_of. by rewrite Er, Es.
Qed.

Lemma earnings_only_funds s s' :
  only_funds s s' → rewards_settled s s' → earnings_kept s s'.
Proof.
  intros Hof [Hu Ho]. unfold only_funds in Hof. split; [unfold users; by rewrite Hof|].
  intros u Hin. apply claimable_ext; try by rewrite Hof.
  - by apply Hu.
  - intros ->. exact Ho.
Qed.

Lemma inv_only_funds s s' A A' :
  Inv s A → only_funds s s' → Rep (st_funds s') A' →
  (∀ u t, unregistered u s → ut_of u t A' = 0) →
  tt_of FundType.Active A' ≤ cap_of s → rewards_settled s s' → Inv_kept s s' A'.
Proof.
  intros HI Hof HR' Hun Hcap Hset. split; [|by apply earnings_only_funds].
  pose proof (owed_only_funds s s' Hof Hset) as Howed. pose proof (inv_solvent _ _ HI) as Hsol.
  unfold only_funds in Hof.
  assert (st_rewards s' = st_rewards s ∧ st_settings s' = st_settings s ∧
    st_chain s' = st_chain s ∧ st_users s' = st_users s) as (Er & Es & Ec & Eu)
    by (by rewrite Hof).
  destruct HI. unfold unregistered, num_users_of, unclaimed_of, fee_of, checkpoint_of,
    cumulated, cap_of, bootstrap_of, solvent in *.
  split; unfold unregistered, num_users_of, unclaimed_of, fee_of, checkpoint_of,
    cumulated, cap_of, bootstrap_of, solvent; rewrite ?Er, ?Es, ?Ec, ?Eu; auto.
  rewrite Howed. unfold cumulated, scale_of, cap_of in *. by rewrite Ec, Es.
Qed.

(** A move between types keeps the unregistered users empty. *)
Lemma moved_unregistered src dst v mv A A' s :
  moved src dst v mv A A' → (∀ u t, unregistered u s → ut_of u t A = 0) →
  ∀ u t, unregistered u s → ut_of u t A' = 0.
Proof.
  intros Hm Hun u t Hu. pose proof (mv_user_src _ _ _ _ _ _ Hm u) as Hs.
  rewrite (Hun u src Hu) in Hs. destruct (decide (t = src)) as [->|]; [lia|].
  destruct (decide (t = dst)) as [->|]; [|rewrite (mv_user_other _ _ _ _ _ _ Hm); auto].
  rewrite (mv_user_dst _ _ _ _ _ _ Hm), (Hun u dst Hu). lia.
Qed.

(** *** What the invariant does not look at: nodes, checkpoints, the addresses of
    users, other settings and the rest of the chain. *)
Record alike s s' : Prop := {
  al_funds : st_funds s' = st_funds s;
  al_users : us_num_users (st_users s') = us_num_users (st_users s);
  al_rewards : st_rewards s' = st_rewards s;
  al_cap : cap_of s' = cap_of s;
  al_fee : fee_of s' = fee_of s;
  al_bootstrap : bootstrap_of s' = bootstrap_of s;
  al_cumulated : cumulated s' = cumulated s;
  al_ids a : get_user_id a (st_users s') = get_user_id a (st_users s);
}.

Lemma owed_alike s s' : alike s s' → owed s' = owed s.
Proof.
  intros [Ef Eu Er Ec Efee _ Ecum].
  assert (∀ u, owed_user s' u = owed_user s u) as Hu.
  { intros u. unfold owed_user, unclaimed_of, checkpoint_of, scale_of, active_of.
    by rewrite Ef, Er, Ec, Efee, Ecum. }
  unfold owed, users. rewrite Eu, Er, (sum_over_ext _ _ _ (λ u _, Hu u)).
  unfold owed_owner, checkpoint_of, scale_of, total_active, active_of.
  by rewrite Ef, Er, Ec, Efee, Ecum.
Qed.

Lemma inv_alike s s' A : alike s s' → Inv s A → Inv s' A.
Proof.
  intros Hal HI. pose proof (owed_alike s s' Hal) as Ho.
  destruct Hal as [Ef Eu Er Ec Efee Eb Ecum Eids], HI.
  split; intros; unfold unregistered, num_users_of, unclaimed_of, checkpoint_of, solvent, scale_of in *;
    rewrite ?Ef, ?Eu, ?Er, ?Ec, ?Efee, ?Eb, ?Ecum, ?Eids, ?Ho in *; auto.
Qed.

Lemma earnings_alike s s' : alike s s' → earnings_kept s s'.
Proof.
  intros [Ef Eu Er Ec Efee _ Ecum]. split; [unfold users; by rewrite Eu|]. intros u _.
  apply claimable_ext; unfold unclaimed_of, checkpoint_of, total_active, active_of;
    rewrite ?Er, ?Ef; auto.
Qed.

Lemma staked_ok_alike s s' A : alike s s' → staked_ok s A → staked_ok s' A.
Proof.
  intros [_ _ _ Ec _ Eb _]. unfold staked_ok, within_cap, none_waits. by rewrite Ec, Eb.
Qed.
End ContractInv.
