(* ===== verification/StakeSpec.v ===== *)
(** * Staking keeps the invariant

    Specifications of the building blocks of user_stake_state.rs: swapping
    waiting stake for active stake with the rewards brought up to date first,
    and using waiting stake to replace unstaked stake. *)
From stdpp Require Import base numbers list gmap strings.
From S2P Require Import Prelude PtrList FundTypes FundModule FundLedger FundRep FundLoops.
From S2P Require Import FundTotals FundMoves UserData NodeConfig Settings Chain State FundTransf.
From S2P Require Import FundView Rewards UserStake TransfSpec RewardSpec ContractInv.

(** Facts about all types but two, at concrete types. *)
Ltac use_distinct :=
  repeat match goal with
  | X : ?a ≠ ?b → ?c ≠ ?d → ?P |- _ =>
      first [specialize (X ltac:(done) ltac:(done)) | clear X]
  end.

Section StakeSpec.
Context {C : Type} `{Chain C}.
Variable full : Prop.
Implicit Type s : State C.

(** Everything but the funds, the users' rewards and the settings is as it was. *)
Record frame s s' : Prop := {
  fr_users : st_users s' = st_users s;
  fr_nodes : st_nodes s' = st_nodes s;
  fr_chain : st_chain s' = st_chain s;
  fr_op : st_global_op_checkpoint s' = st_global_op_checkpoint s;
  fr_dust : st_dust_cleanup_checkpoint s' = st_dust_cleanup_checkpoint s;
  fr_sent : rs_sent_rewards (st_rewards s') = rs_sent_rewards (st_rewards s);
}.

Lemma frame_refl s : frame s s.
Proof. by split. Qed.
Lemma frame_trans s1 s2 s3 : frame s1 s2 → frame s2 s3 → frame s1 s3.
Proof. intros [] []. split; congruence. Qed.
Lemma frame_only_funds s s' : only_funds s s' → frame s s'.
Proof. unfold only_funds. intros ->. by split. Qed.
Lemma frame_rewarded u s : frame s (rewarded u s).
Proof. by split. Qed.

Lemma only_funds_settings s s' : only_funds s s' → st_settings s' = st_settings s.
Proof. unfold only_funds. by intros ->. Qed.

Lemma elem_of_users u s : u ∈ users s ↔ ¬ unregistered u s.
Proof. unfold users, unregistered, num_users_of. rewrite elem_of_ids_up_to. lia. Qed.

(** *** Bringing the rewards of a list of users up to date *)
Record settled (l : list N) s s' : Prop := {
  se_frame : frame s s';
  se_funds : st_funds s' = st_funds s;
  se_settings : st_settings s' = st_settings s;
  se_done u : u ∈ l → checkpoint_of u s' = cumulated s;
  se_keep u : checkpoint_of u s = cumulated s → checkpoint_of u s' = cumulated s;
  se_earnings : earnings_kept s s';
}.

Lemma settled_cumulated l s s' : settled l s s' → cumulated s' = cumulated s.
Proof. intros []. unfold cumulated. by rewrite (fr_chain _ _ se_frame0). Qed.

Lemma settled_one s A u :
  Inv s A → u ∈ users s →
  runs (compute_one_user_reward u) s (λ _ s', Inv s' A ∧ settled [u] s s').
Proof.
  intros HI Hu. eapply runs_eq; [by apply compute_one_user_reward_eq, (inv_ready s A)|].
  split; [by apply inv_rewarded|].
  assert (∀ v, checkpoint_of v (rewarded u s) =
    if decide (u = v) then cumulated s else checkpoint_of v s) as Hcp.
  { intros v. unfold rewarded. rewrite put_checkpoint.
    case_decide; [|done]. apply updated_checkpoint, HI. }
  split; [apply frame_rewarded|done|done| | |by eapply earnings_rewarded].
  - intros v ->%list_elem_of_singleton. by rewrite Hcp, decide_True.
  - intros v Hv. rewrite Hcp. by case_decide.
Qed.

Lemma settled_trans l1 l2 s1 s2 s3 :
  settled l1 s1 s2 → settled l2 s2 s3 → settled (l1 ++ l2) s1 s3.
Proof.
  intros H12 H23. pose proof (settled_cumulated _ _ _ H12) as Hc.
  destruct H12 as [F1 f1 s1' D1 K1 E1], H23 as [F2 f2 s2' D2 K2 E2]. split; [| | | | |by etrans].
  - by eapply frame_trans.
  - congruence.
  - congruence.
  - intros u [Hu|Hu]%elem_of_app; [|rewrite <-Hc; auto].
    rewrite <-Hc. apply K2. rewrite Hc. auto.
  - intros u Hu. rewrite <-Hc. apply K2. rewrite Hc. auto.
Qed.

Lemma settled_users l s s' : settled l s s' → users s' = users s.
Proof. intros []. unfold users. by rewrite (fr_users _ _ se_frame0). Qed.

Lemma settle_all s A l :
  Inv s A → (∀ u, u ∈ l → u ∈ users s) →
  runs (for_each l tt (λ user _,
          require (negb (user =? 0)) "bad user_id" ;;; compute_one_user_reward user)) s
    (λ _ s', Inv s' A ∧ settled l s s').
Proof.
  revert s. induction l as [|u l IH]; intros s HI Hl; simpl.
  { apply runs_ret. split; [done|]. split; [apply frame_refl|done|done|set_solver|done|done]. }
  assert (u ∈ users s) as Hu by set_solver.
  apply runs_bind, runs_bind, runs_require.
  { apply negb_true_iff, N.eqb_neq. apply elem_of_ids_up_to in Hu. lia. }
  eapply runs_mono; [by apply settled_one|]. intros [] s1 [HI1 Hs1].
  eapply runs_mono; [apply IH; [done|]|].
  { intros v Hv. rewrite (settled_users _ _ _ Hs1). set_solver. }
  intros _ s' [HI' Hs']. split; [done|]. by apply (settled_trans [u] l s s1 s').
Qed.

(** *** Activating waiting stake *)
Lemma activated_registered s A m u :
  Inv s A → u ∈ activated_users m A → u ∈ users s.
Proof.
  intros HI Hu. apply elem_of_users. intros Hun.
  unfold activated_users in Hu. rewrite elem_of_sort_dedup in Hu. apply list_elem_of_fmap in Hu as (b & Heq & Hb). subst u.
  assert (b ∈ dgrp Forwards type_key FundType.Waiting (af_ledger A)) as [Ht Hbl]%elem_of_dgrp.
  { unfold activated, walk_of in Hb. destruct (visited_prefix
      (λ b, Some FundDescription.Active) (dgrp Forwards type_key FundType.Waiting (af_ledger A))
      (Some m)) as [k Hk]. rewrite Hk. set_solver. }
  pose proof (inv_owners _ _ HI _ FundType.Waiting Hun) as H0. unfold ut_of in H0.
  pose proof (amount_elem (of_user_type (b_user b) FundType.Waiting) b _ Hbl) as Hle.
  unfold worth, share in Hle. rewrite of_user_type_spec in Hle.
  rewrite bool_decide_true in Hle by (by rewrite <-Ht).
  pose proof (rep_pos _ _ _ (inv_rep _ _ HI) b Hbl). lia.
Qed.

Lemma swap_waiting_to_active_inv s A m :
  Inv s A → roomy full FundType.Waiting A →
  tt_of FundType.Active A + N.min m (tt_of FundType.Waiting A) ≤ cap_of s →
  (∀ u, u ∈ activated_users m A → checkpoint_of u s = cumulated s) →
  checkpoint_of OWNER_USER_ID s = cumulated s →
  outcome (swap_waiting_to_active m never) s (crowded full) (λ r s',
    r = (activated_users m A, m - tt_of FundType.Waiting A) ∧ only_funds s s' ∧
    ∃ A', Inv_kept s s' A' ∧ grown FundType.Active (len_of FundType.Waiting A) A A' ∧
      moved FundType.Waiting FundType.Active (N.min m (tt_of FundType.Waiting A))
        (activated_of m A) A A').
Proof.
  intros HI Hroom Hcap Husers Howner.
  eapply outcome_post; [by apply swap_waiting_to_active_spec, Hroom; apply HI|].
  intros r s' (-> & Hof & A' & HR' & Hgr & Hm). split_and!; [done..|].
  exists A'. split; [|done].
  pose proof (moved_unregistered _ _ _ _ _ _ s Hm (inv_owners _ _ HI)) as Hun.
  apply (inv_only_funds s s' A A'); try done.
  - rewrite (mv_dst _ _ _ _ _ _ Hm). done.
  - split; [|by right]. intros u Hu.
    destruct (decide (u ∈ activated_users m A)) as [Hin|Hnin]; [by right; auto|left].
    assert (u ≠ 0) by (apply elem_of_ids_up_to in Hu; lia).
    rewrite (active_of_user (A:=A')), (active_of_user (A:=A)); [|apply HI|done|done|done].
    rewrite (mv_user_dst _ _ _ _ _ _ Hm), activated_of_0 by done. lia.
Qed.

Lemma swap_compute_rewards_spec s A m :
  Inv s A → roomy full FundType.Waiting A → m ≤ tt_of FundType.Waiting A →
  tt_of FundType.Active A + m ≤ cap_of s →
  outcome (swap_waiting_to_active_compute_rewards m) s (crowded full) (λ _ s',
    frame s s' ∧ st_settings s' = st_settings s ∧
    ∃ A', Inv_kept s s' A' ∧ grown FundType.Active (len_of FundType.Waiting A) A A' ∧
      moved FundType.Waiting FundType.Active m (activated_of m A) A A').
Proof.
  intros HI Hroom Hm Hcap. unfold swap_waiting_to_active_compute_rewards.
  assert (m - tt_of FundType.Waiting A = 0) as Hrest by lia.
  apply outcome_bind. eapply outcome_post; [by apply get_affected_users_spec, Hroom; apply HI|].
  intros r s0 (-> & ->). cbv beta iota. rewrite Hrest.
  apply outcome_bind, outcome_require; [done|].
  eapply outcome_after; [apply (settled_one s A OWNER_USER_ID HI)|].
  { apply elem_of_ids_up_to. pose proof (inv_owner_id _ _ HI).
    unfold num_users_of, OWNER_USER_ID in *. lia. }
  intros _ s1 [HI1 Hs1].
  eapply outcome_after; [apply (settle_all s1 A (activated_users m A) HI1)|].
  { intros u Hu. rewrite (settled_users _ _ _ Hs1). by eapply activated_registered. }
  intros _ s2 [HI2 Hs2].
  pose proof (settled_trans _ _ _ _ _ Hs1 Hs2) as Hs.
  pose proof (settled_cumulated _ _ _ Hs) as Hcum.
  apply outcome_bind. eapply outcome_post; [apply (swap_waiting_to_active_inv s2 A m HI2 Hroom)|].
  - rewrite N.min_l by done. unfold cap_of in *. by rewrite (se_settings _ _ _ Hs).
  - intros u Hu. rewrite Hcum. apply (se_done _ _ _ Hs). set_solver.
  - rewrite Hcum. apply (se_done _ _ _ Hs). set_solver.
  - intros r s3 (-> & Hof & A' & [HI3 He3] & Hgr & Hmv). cbv beta iota.
    rewrite Hrest. apply outcome_require; [done|].
    rewrite N.min_l in Hmv by done.
    pose proof (transitivity (se_earnings _ _ _ Hs) He3). split_and!; [| |by exists A'].
    + eapply frame_trans; [apply Hs|by apply frame_only_funds].
    + rewrite (only_funds_settings _ _ Hof). apply Hs.
Qed.

(** *** Deferring unstaked stake *)
Lemma swap_unstaked_inv s A m :
  Inv s A → roomy full FundType.UnStaked A →
  outcome (swap_unstaked_to_deferred_payment m never) s (crowded full) (λ r s',
    r = m - tt_of FundType.UnStaked A ∧ only_funds s s' ∧
    ∃ A' mv, Inv_kept s s' A' ∧
      grown FundType.DeferredPayment (len_of FundType.UnStaked A) A A' ∧
      moved FundType.UnStaked FundType.DeferredPayment
        (N.min m (tt_of FundType.UnStaked A)) mv A A').
Proof.
  intros HI Hroom.
  eapply outcome_post; [by apply swap_unstaked_to_deferred_payment_spec, Hroom; apply HI|].
  intros r s' (-> & Hof & A' & mv & HR' & Hgr & Hm). split_and!; [done..|].
  exists A', mv. split; [|done].
  apply (inv_only_funds s s' A A'); try done.
  - by eapply moved_unregistered, HI.
  - rewrite (mv_other _ _ _ _ _ _ Hm) by done. apply HI.
  - split; [intros u Hu; left|left].
    + assert (u ≠ 0) by (apply elem_of_ids_up_to in Hu; lia).
      rewrite (active_of_user (A:=A')), (active_of_user (A:=A)); [|apply HI|done|done|done].
      by apply (mv_user_other _ _ _ _ _ _ Hm).
    + rewrite (total_active_eq (A:=A')), (total_active_eq (A:=A)); [|apply HI|done].
      by apply (mv_other _ _ _ _ _ _ Hm).
Qed.

(** *** Everything a user owns *)
Definition holdings (u : N) (A : AFunds) : N :=
  ut_of u FundType.WithdrawOnly A + ut_of u FundType.Waiting A + ut_of u FundType.Active A
  + ut_of u FundType.UnStaked A + ut_of u FundType.DeferredPayment A.

(** What a user may unstake. *)
Definition stake_of (u : N) (A : AFunds) : N :=
  ut_of u FundType.Waiting A + ut_of u FundType.Active A.

Lemma holdings_user s A u :
  Rep (st_funds s) A → u ≠ 0 → get_user_total_stake u (st_funds s) = holdings u A.
Proof.
  intros HR Hu. unfold get_user_total_stake, holdings.
  by rewrite !(stake_user HR).
Qed.

Lemma moved_holdings src dst v mv A A' u :
  moved src dst v mv A A' →
  src ∈ ALL_TYPES → dst ∈ ALL_TYPES → src ≠ dst → holdings u A' = holdings u A.
Proof.
  intros [_ _ _ Us Ud Uo] Hs Hd Hne. specialize (Us u). specialize (Ud u).
  pose proof (λ t, Uo u t) as Uo'. unfold holdings.
  pose proof (Uo' FundType.WithdrawOnly). pose proof (Uo' FundType.Waiting).
  pose proof (Uo' FundType.Active). pose proof (Uo' FundType.UnStaked).
  pose proof (Uo' FundType.DeferredPayment).
  clear Uo Uo'. unfold ALL_TYPES in *. rewrite !elem_of_cons, elem_of_nil in Hs, Hd.
  destruct Hs as [->|[->|[->|[->|[->|[]]]]]], Hd as [->|[->|[->|[->|[->|[]]]]]];
    try done; use_distinct; lia.
Qed.

(** *** Using waiting stake to replace unstaked stake *)
Lemma replace_stake v1 mv1 v2 mv2 A A1 A2 u :
  moved FundType.UnStaked FundType.DeferredPayment v1 mv1 A A1 →
  moved FundType.Waiting FundType.Active v2 mv2 A1 A2 →
  holdings u A2 = holdings u A ∧ stake_of u A2 = stake_of u A.
Proof.
  intros Hm1 Hm2. split.
  - rewrite (moved_holdings _ _ _ _ _ _ u Hm2) by set_solver.
    apply (moved_holdings _ _ _ _ _ _ u Hm1); set_solver.
  - unfold stake_of.
    pose proof (mv_user_src _ _ _ _ _ _ Hm2 u). pose proof (mv_user_dst _ _ _ _ _ _ Hm2 u).
    rewrite <-(mv_user_other _ _ _ _ _ _ Hm1 u FundType.Waiting) by done.
    rewrite <-(mv_user_other _ _ _ _ _ _ Hm1 u FundType.Active) by done. lia.
Qed.

Record room (full : Prop) (A : AFunds) : Prop := {
  room_ids : af_max A + len_of FundType.UnStaked A + len_of FundType.Waiting A
    < usize_max_plus_1;
  room_unstaked : vec_room full (len_of FundType.UnStaked A);
  room_waiting : vec_room full (len_of FundType.Waiting A);
}.

(** Waiting stake takes the place of unstaked stake, as much as there is of both; in
    bootstrap mode all unstaked stake is deferred and waiting stake fills the cap. *)
Definition deferred_of (bootstrap : bool) (A : AFunds) : N :=
  if bootstrap then tt_of FundType.UnStaked A
  else N.min (tt_of FundType.Waiting A) (tt_of FundType.UnStaked A).
Definition activated_in (bootstrap : bool) (cap : N) (A : AFunds) : N :=
  if bootstrap then N.min (cap - tt_of FundType.Active A) (tt_of FundType.Waiting A)
  else N.min (tt_of FundType.Waiting A) (tt_of FundType.UnStaked A).

Record replacement (bootstrap : bool) (cap : N) (A A' : AFunds) : Prop := {
  rm_waiting : tt_of FundType.Waiting A' + activated_in bootstrap cap A
    = tt_of FundType.Waiting A;
  rm_active : tt_of FundType.Active A'
    = tt_of FundType.Active A + activated_in bootstrap cap A;
  rm_unstaked : tt_of FundType.UnStaked A' + deferred_of bootstrap A
    = tt_of FundType.UnStaked A;
  rm_deferred : tt_of FundType.DeferredPayment A'
    = tt_of FundType.DeferredPayment A + deferred_of bootstrap A;
  rm_withdraw : tt_of FundType.WithdrawOnly A' = tt_of FundType.WithdrawOnly A;
}.

Lemma replacement_moves v1 mv1 v2 mv2 bootstrap cap A A1 A2 :
  moved FundType.UnStaked FundType.DeferredPayment v1 mv1 A A1 →
  moved FundType.Waiting FundType.Active v2 mv2 A1 A2 →
  v1 = deferred_of bootstrap A → v2 = activated_in bootstrap cap A →
  replacement bootstrap cap A A2.
Proof.
  intros H1 H2 -> ->.
  pose proof (mv_src _ _ _ _ _ _ H1). pose proof (mv_dst _ _ _ _ _ _ H1).
  pose proof (mv_src _ _ _ _ _ _ H2). pose proof (mv_dst _ _ _ _ _ _ H2).
  pose proof (mv_other _ _ _ _ _ _ H1) as O1. pose proof (mv_other _ _ _ _ _ _ H2) as O2.
  pose proof (O1 FundType.Waiting ltac:(done) ltac:(done)).
  pose proof (O1 FundType.Active ltac:(done) ltac:(done)).
  pose proof (O1 FundType.WithdrawOnly ltac:(done) ltac:(done)).
  pose proof (O2 FundType.UnStaked ltac:(done) ltac:(done)).
  pose proof (O2 FundType.DeferredPayment ltac:(done) ltac:(done)).
  pose proof (O2 FundType.WithdrawOnly ltac:(done) ltac:(done)).
  split; try lia; congruence.
Qed.

(** The settings may only leave the bootstrap mode. *)
Definition settings_kept s s' : Prop :=
  cap_of s' = cap_of s ∧ fee_of s' = fee_of s ∧
  (bootstrap_of s' = true → bootstrap_of s = true).

Record replaced s A s' A' : Prop := {
  rp_inv : Inv s' A';
  rp_staked : staked_ok s' A';
  rp_frame : frame s s';
  rp_settings : settings_kept s s';
  rp_holdings u : holdings u A' = holdings u A;
  rp_stake u : stake_of u A' = stake_of u A;
  rp_earnings : earnings_kept s s';
  rp_totals : replacement (bootstrap_of s) (cap_of s) A A';
}.

Lemma settings_kept_eq s s' : st_settings s' = st_settings s → settings_kept s s'.
Proof. unfold settings_kept, cap_of, fee_of, bootstrap_of. by intros ->. Qed.

Lemma inv_leave_bootstrap s A :
  Inv s A → Inv (lens_set (set_bootstrap_mode false (st_settings s)) s) A.
Proof. intros []. by split. Qed.
Lemma earnings_leave_bootstrap s :
  earnings_kept s (lens_set (set_bootstrap_mode false (st_settings s)) s).
Proof. by split. Qed.

Lemma use_waiting_bootstrap s A :
  Inv s A → room full A → bootstrap_of s = true → within_cap s A →
  outcome use_waiting_to_replace_unstaked s (crowded full) (λ _ s', ∃ A', replaced s A s' A').
Proof.
  intros HI [Hids Hun Hwa] Hb Hok. unfold within_cap, cap_ok in Hok. rewrite Hb in Hok.
  unfold use_waiting_to_replace_unstaked.
  do 3 run_gets. fold (bootstrap_of s). rewrite Hb.
  rewrite !(stake_total (inv_rep _ _ HI)).
  apply outcome_bind. eapply outcome_post; [apply (swap_unstaked_inv s A); [done|by split; [lia|]]|].
  intros r s1 (-> & Hof1 & A1 & mv & [HI1 He1] & [Gm1 _ Go1] & Hm1). cbv beta.
  rewrite N.min_id in Hm1. rewrite N.sub_diag.
  apply outcome_bind, outcome_require; [done|].
  do 2 run_gets. rewrite (stake_total (inv_rep _ _ HI1)).
  change (total_delegation_cap (st_settings s1)) with (cap_of s1).
  pose proof (only_funds_settings _ _ Hof1) as Es1.
  assert (cap_of s1 = cap_of s) as Hcap1 by (unfold cap_of; by rewrite Es1).
  assert (bootstrap_of s1 = true) as Hb1 by (unfold bootstrap_of in *; by rewrite Es1).
  pose proof (mv_other _ _ _ _ _ _ Hm1 FundType.Active ltac:(done) ltac:(done)) as Ha1.
  pose proof (mv_other _ _ _ _ _ _ Hm1 FundType.Waiting ltac:(done) ltac:(done)) as Hw1.
  pose proof (mv_src _ _ _ _ _ _ Hm1) as Hu1.
  pose proof (Go1 FundType.Waiting ltac:(done)) as Hl1.
  apply outcome_bind, outcome_big_sub; [lia|].
  assert (∀ u, checkpoint_of u s1 = cumulated s1) as Hcp.
  { intros u. pose proof (inv_checkpoint _ _ HI1 u). pose proof (inv_bootstrap _ _ HI1 Hb1).
    lia. }
  set (m := cap_of s1 - tt_of FundType.Active A1).
  apply outcome_bind. eapply outcome_post.
  { apply (swap_waiting_to_active_inv s1 A1 m HI1); [|unfold m; lia|auto|auto].
    split; [lia|eapply vec_room_le; [|done]; lia]. }
  intros r s2 (-> & Hof2 & A2 & [HI2 He2] & _ & Hm2). cbv beta iota.
  pose proof (transitivity He1 He2) as He.
  pose proof (only_funds_settings _ _ Hof2) as Es2.
  pose proof (mv_dst _ _ _ _ _ _ Hm2) as Ha2.
  pose proof (mv_other _ _ _ _ _ _ Hm2 FundType.UnStaked ltac:(done) ltac:(done)) as Hu2.
  assert (cap_of s2 = cap_of s) as Hcap2 by (unfold cap_of in *; by rewrite Es2).
  pose proof (λ u, replace_stake _ _ _ _ _ _ _ u Hm1 Hm2) as Hh.
  assert (frame s s2) as Hfr.
  { eapply frame_trans; by apply frame_only_funds. }
  assert (replacement (bootstrap_of s) (cap_of s) A A2) as Htot.
  { rewrite Hb. apply (replacement_moves _ _ _ _ _ _ _ _ _ Hm1 Hm2); simpl; [done|]. unfold m.
    rewrite Hcap1, Ha1, Hw1. done. }
  destruct (N.eqb_spec (m - tt_of FundType.Waiting A1) 0) as [Hz|Hz].
  - apply outcome_zoom, outcome_modify. exists A2. split.
    + by apply inv_leave_bootstrap.
    + split; [|done].
      change (tt_of FundType.Active A2 + tt_of FundType.UnStaked A2 = cap_of s2). lia.
    + destruct Hfr. by split.
    + unfold settings_kept, fee_of, bootstrap_of, cap_of in *; simpl.
      rewrite Es2, Es1. by split_and!.
    + apply Hh.
    + apply Hh.
    + etrans; [exact He|]. apply earnings_leave_bootstrap.
    + exact Htot.
  - apply outcome_ret. exists A2. split; [done| |done| |apply Hh|apply Hh|done|exact Htot].
    + pose proof (mv_src _ _ _ _ _ _ Hm2) as Hw2. split; [|intros _; lia].
      unfold within_cap, cap_ok. assert (bootstrap_of s2 = true) as ->; [|lia].
      unfold bootstrap_of in *. by rewrite Es2.
    + apply settings_kept_eq. congruence.
Qed.

Lemma use_waiting_normal s A :
  Inv s A → room full A → bootstrap_of s = false → within_cap s A →
  outcome use_waiting_to_replace_unstaked s (crowded full) (λ _ s', ∃ A', replaced s A s' A').
Proof.
  intros HI [Hids Hun Hwa] Hb Hok. unfold within_cap, cap_ok in Hok. rewrite Hb in Hok.
  unfold use_waiting_to_replace_unstaked.
  do 3 run_gets. fold (bootstrap_of s). rewrite Hb.
  rewrite !(stake_total (inv_rep _ _ HI)).
  set (m := N.min _ _). destruct (N.eqb_spec m 0) as [Hz|Hz].
  { apply outcome_ret. exists A. split; [done| |apply frame_refl|by apply settings_kept_eq|done..|].
    2: { rewrite Hb. split; simpl; fold m; rewrite ?Hz; lia. }
    split; unfold within_cap, none_waits, cap_ok; by rewrite Hb. }
  apply outcome_bind. eapply outcome_post; [apply (swap_unstaked_inv s A m); [done|by split; [lia|]]|].
  intros r s1 (-> & Hof1 & A1 & mv & [HI1 He1] & [Gm1 _ Go1] & Hm1). cbv beta.
  rewrite N.min_l in Hm1 by (unfold m; lia).
  apply outcome_bind, outcome_require; [apply N.eqb_eq; unfold m; lia|].
  pose proof (only_funds_settings _ _ Hof1) as Es1.
  assert (cap_of s1 = cap_of s) as Hcap1 by (unfold cap_of; by rewrite Es1).
  pose proof (mv_other _ _ _ _ _ _ Hm1 FundType.Active ltac:(done) ltac:(done)) as Ha1.
  pose proof (mv_other _ _ _ _ _ _ Hm1 FundType.Waiting ltac:(done) ltac:(done)) as Hw1.
  pose proof (mv_src _ _ _ _ _ _ Hm1) as Hu1.
  pose proof (Go1 FundType.Waiting ltac:(done)) as Hl1.
  eapply outcome_post.
  { apply (swap_compute_rewards_spec s1 A1 m HI1); [|unfold m; lia|unfold m in *; lia].
    split; [lia|eapply vec_room_le; [|done]; lia]. }
  intros r s2 (Hfr & Es2 & A2 & [HI2 He2] & _ & Hm2).
  pose proof (mv_dst _ _ _ _ _ _ Hm2) as Ha2.
  pose proof (mv_other _ _ _ _ _ _ Hm2 FundType.UnStaked ltac:(done) ltac:(done)) as Hu2.
  pose proof (λ u, replace_stake _ _ _ _ _ _ _ u Hm1 Hm2) as Hh.
  exists A2. split; [done| | | |apply Hh|apply Hh|by etrans|].
  - unfold staked_ok, within_cap, none_waits, cap_ok, bootstrap_of, cap_of in *.
    rewrite Es2, Es1, Hb. split; [lia|done].
  - eapply frame_trans; [by apply frame_only_funds|done].
  - apply settings_kept_eq. congruence.
  - rewrite Hb. by apply (replacement_moves _ _ _ _ _ _ _ _ _ Hm1 Hm2).
Qed.

Lemma use_waiting_spec s A :
  Inv s A → room full A → within_cap s A →
  outcome use_waiting_to_replace_unstaked s (crowded full) (λ _ s', ∃ A', replaced s A s' A').
Proof.
  intros. destruct (bootstrap_of s) eqn:Hb;
    [by apply use_waiting_bootstrap|by apply use_waiting_normal].
Qed.
End StakeSpec.
