(* ===== verification/EndpointSpec.v ===== *)
(** * The delegators' endpoints

    Staking, unstaking, claiming and withdrawing succeed on every state that
    satisfies the invariant, keep it, and do to the caller's funds what they
    promise. *)
From stdpp Require Import base numbers list gmap strings.
From S2P Require Import Prelude PtrList FundTypes FundModule FundLedger FundRep FundLoops.
From S2P Require Import FundTotals FundMoves UserData NodeConfig Settings Chain State FundTransf.
From S2P Require Import FundView Rewards UserStake TransfSpec RewardSpec ContractInv StakeSpec.

Section EndpointSpec.
Context {C : Type} `{ChainLaws C}.
Implicit Type s : State C.

(** *** Registering the caller *)
Record registers s s' : Prop := {
  rg_funds : st_funds s' = st_funds s;
  rg_nodes : st_nodes s' = st_nodes s;
  rg_settings : st_settings s' = st_settings s;
  rg_rewards : st_rewards s' = st_rewards s;
  rg_op : st_global_op_checkpoint s' = st_global_op_checkpoint s;
  rg_dust : st_dust_cleanup_checkpoint s' = st_dust_cleanup_checkpoint s;
  rg_chain : st_chain s' = st_chain s;
  rg_num : num_users_of s ≤ num_users_of s';
}.

Lemma ids_up_to_succ n : ids_up_to (n + 1) = ids_up_to n ++ [n + 1].
Proof.
  unfold ids_up_to. replace (N.to_nat (n + 1)) with (N.to_nat n + 1)%nat by lia.
  rewrite seq_app, fmap_app. f_equal. simpl. f_equal. lia.
Qed.

Lemma owed_users s s' A :
  Inv s A → registers s s' → num_users_of s' = num_users_of s + 1 → owed s' = owed s.
Proof.
  intros HI [Ef _ Es Er _ _ Ec _] Hn. unfold owed, users.
  change (us_num_users (st_users s')) with (num_users_of s').
  change (us_num_users (st_users s)) with (num_users_of s).
  assert (∀ u, owed_user s' u = owed_user s u) as Hou.
  { intros u. unfold owed_user, unclaimed_of, checkpoint_of, scale_of, cap_of, fee_of, cumulated,
      active_of. by rewrite Ef, Es, Er, Ec. }
  rewrite Hn, ids_up_to_succ, sum_over_app, (sum_over_ext _ _ _ (λ u _, Hou u)).
  set (n := num_users_of s + 1).
  assert (sum_over (owed_user s') [n] = 0) as ->.
  { unfold sum_over; simpl. rewrite Hou, N.add_0_r.
    assert (unregistered n s) as Hun by (right; unfold n; lia).
    unfold owed_user. rewrite (inv_fresh _ _ HI) by done.
    rewrite (active_of_user (inv_rep _ _ HI)) by (unfold n; lia).
    rewrite (inv_owners _ _ HI) by done. lia. }
  rewrite N.add_0_r. unfold owed_owner, checkpoint_of, scale_of, cap_of, fee_of, cumulated,
    total_active, active_of. by rewrite Ef, Es, Er, Ec.
Qed.

Lemma inv_registers s s' A :
  Inv s A → registers s s' →
  num_users_of s' = num_users_of s ∨ num_users_of s' = num_users_of s + 1 →
  (∀ a, get_user_id a (st_users s') ≤ num_users_of s') → Inv s' A.
Proof.
  intros HI Hr Hn Hids.
  assert (owed s' = owed s) as Howed.
  { destruct Hn as [Hn|Hn]; [|by eapply owed_users].
    destruct Hr as [Ef _ Es Er _ _ Ec _]. unfold owed, users, num_users_of in *.
    unfold owed_owner, owed_user, unclaimed_of, checkpoint_of, scale_of, cap_of, fee_of, cumulated,
      total_active, active_of. by rewrite Ef, Es, Er, Ec, Hn. }
  pose proof (inv_solvent _ _ HI) as Hsol. pose proof (inv_owner_id _ _ HI) as Ho.
  assert (∀ u, unregistered u s' → unregistered u s) as Hun.
  { unfold unregistered. pose proof (rg_num _ _ Hr). intros u [?|?]; [by left|right; lia]. }
  destruct Hr as [Ef _ Es Er _ _ Ec _], HI.
  split; unfold unclaimed_of, fee_of, checkpoint_of, cumulated, cap_of, bootstrap_of in *;
    rewrite ?Ef, ?Er, ?Es, ?Ec; auto; [lia|].
  unfold solvent, cumulated, scale_of, cap_of in *. by rewrite Howed, Ec, Es.
Qed.

(** Registering changes nobody's rewards; a new user has none. *)
Lemma registers_claimable s s' u : registers s s' → claimable u s' = claimable u s.
Proof.
  intros [Ef _ Es Er _ _ Ec _]. apply claimable_ext;
    unfold unclaimed_of, checkpoint_of, cumulated, cap_of, fee_of, total_active, active_of;
    rewrite ?Ef, ?Es, ?Er, ?Ec; auto.
Qed.

Lemma get_or_create_user_spec s A a :
  Inv s A → num_users_of s + 1 < usize_max_plus_1 →
  runs (zoom (get_or_create_user a)) s (λ u s',
    Inv s' A ∧ registers s s' ∧ get_user_id a (st_users s') = u ∧ u ≠ 0).
Proof.
  intros HI Hmax. apply runs_zoom. unfold get_or_create_user.
  run_gets. change (lens_get s) with (st_users s).
  pose proof (inv_ids _ _ HI) as Hids. unfold num_users_of in *.
  destruct (N.eqb_spec (get_user_id a (st_users s)) 0) as [Hz|Hz].
  - unfold new_user. apply runs_bind, runs_bind, runs_gets.
    change (lens_get s) with (st_users s).
    assert (usize_add (us_num_users (st_users s)) 1 = us_num_users (st_users s) + 1) as ->
      by (by apply N.mod_small).
    apply runs_bind, runs_modify, runs_ret, runs_bind, runs_modify, runs_bind, runs_modify,
      runs_ret.
    set (us := set_user_address _ _ _).
    assert (∀ a', get_user_id a' us =
      if decide (a = a') then us_num_users (st_users s) + 1 else get_user_id a' (st_users s))
      as Hget.
    { intros a'. unfold us, get_user_id; simpl. rewrite lookup_insert. by case_decide. }
    split_and!; [|split; try done; unfold num_users_of; simpl; lia| |lia].
    + apply (inv_registers s _ A HI); [split; try done; unfold num_users_of; simpl; lia|by right|].
      intros a'. change (get_user_id a' us ≤ us_num_users (st_users s) + 1). rewrite Hget.
      specialize (Hids a'). case_decide; lia.
    + change (get_user_id a us = us_num_users (st_users s) + 1). by rewrite Hget, decide_True.
  - run_gets. change (lens_get s) with (st_users s).
    apply runs_bind. destruct (is_empty_user_address _ _).
    + apply runs_modify, runs_ret. split_and!; [|by split|done|done].
      apply (inv_registers s _ A HI); [by split|by left|done].
    + apply runs_ret, runs_ret. split_and!; [|by split|done|done].
      apply (inv_registers s _ A HI); [by split|by left|done].
Qed.

(** *** Changes of the chain *)
Lemma inv_set_chain s A c :
  Inv s A → get_cumulated_validator_rewards c = cumulated s → Inv (set_chain c s) A.
Proof.
  intros HI Hc.
  assert (cumulated (set_chain c s) = cumulated s) as Hcum by done.
  assert (owed (set_chain c s) = owed s) as Howed.
  { unfold owed, users, owed_owner, owed_user. by rewrite Hcum. }
  destruct HI; split; try done; rewrite ?Hcum; try done.
  unfold solvent in *. by rewrite Howed, Hcum.
Qed.

Lemma earnings_set_chain s c :
  get_cumulated_validator_rewards c = cumulated s → earnings_kept s (set_chain c s).
Proof. intros Hc. split; [done|]. intros u _. apply claimable_ext; auto. Qed.

Lemma chain_view_eq c c' :
  chain_view c' = chain_view c →
  get_caller c' = get_caller c ∧ get_owner_address c' = get_owner_address c ∧
  get_block_nonce c' = get_block_nonce c ∧
  get_cumulated_validator_rewards c' = get_cumulated_validator_rewards c.
Proof. unfold chain_view. by intros [= ? ? ? ?]. Qed.

Lemma log_event_spec s A e :
  Inv s A →
  runs (log_event e) s (λ _ s', s' = set_chain (emit e (st_chain s)) s ∧ Inv_kept s s' A).
Proof.
  intros HI. destruct (chain_view_eq _ _ (emit_view e (st_chain s))) as (_ & _ & _ & Hc).
  apply runs_modify. split; [done|].
  split; [by apply inv_set_chain|by apply earnings_set_chain].
Qed.

(** *** Reading the amounts of validation *)
Lemma credited_unregistered u t v A A' s :
  credited u t v A A' → ¬ unregistered u s →
  (∀ w t', unregistered w s → ut_of w t' A = 0) →
  ∀ w t', unregistered w s → ut_of w t' A' = 0.
Proof.
  intros Hc Hu Hun w t' Hw. rewrite (cr_user_other _ _ _ _ _ Hc); [by apply Hun|].
  intros [= -> _]. done.
Qed.

Lemma credited_holdings u v A A' w :
  credited u FundType.Waiting v A A' →
  holdings w A' = holdings w A + (if decide (w = u) then v else 0).
Proof.
  intros [_ _ Hu Ho]. unfold holdings.
  rewrite !(Ho w FundType.WithdrawOnly), !(Ho w FundType.Active), !(Ho w FundType.UnStaked),
    !(Ho w FundType.DeferredPayment) by congruence.
  case_decide as Hw; [subst w; rewrite Hu; lia|]. rewrite (Ho w) by congruence. lia.
Qed.

Lemma create_waiting_inv s A u v :
  Inv s A → u ∈ users s → af_max A + 1 < usize_max_plus_1 →
  runs (create_waiting u v) s (λ _ s', only_funds s s' ∧ ∃ A', Inv_kept s s' A' ∧
    grown FundType.Waiting 1 A A' ∧ credited u FundType.Waiting v A A').
Proof.
  intros HI Hu Hmax. eapply runs_mono; [by apply create_waiting_spec; [apply HI|]|].
  intros _ s' (Hof & A' & HR' & Hgr & Hc). split; [done|]. exists A'. split; [|done].
  apply (inv_only_funds s s' A A'); try done.
  - eapply credited_unregistered; [done| |apply HI]. by apply elem_of_users.
  - rewrite (cr_type_other _ _ _ _ _ Hc) by done. apply HI.
  - split; [intros w Hw; left|left].
    + assert (w ≠ 0) by (apply elem_of_ids_up_to in Hw; lia).
      rewrite (active_of_user (A:=A')), (active_of_user (A:=A)); [|apply HI|done|done|done].
      by rewrite (cr_user_other _ _ _ _ _ Hc).
    + rewrite (total_active_eq (A:=A')), (total_active_eq (A:=A)); [|apply HI|done].
      by rewrite (cr_type_other _ _ _ _ _ Hc).
Qed.

Lemma validate_cap_ok s A :
  Inv s A → within_cap s A → validate_delegation_cap_invariant s = Ok (tt, s).
Proof.
  intros HI Hok. unfold validate_delegation_cap_invariant, stake_of_type,
    get_total_delegation_cap, is_bootstrap_mode, bind, gets.
  rewrite !(stake_total (inv_rep _ _ HI)). unfold within_cap, cap_ok, cap_of, bootstrap_of in Hok.
  case_match; unfold require.
  - by rewrite (proj2 (N.ltb_lt _ _)).
  - by rewrite Hok, N.eqb_refl.
Qed.

(** *** Staking *)

(** Room for one more fund item. *)
Record room1 (full : Prop) (A : AFunds) : Prop := {
  r1_ids : af_max A + len_of FundType.UnStaked A + len_of FundType.Waiting A + 2
    < usize_max_plus_1;
  r1_unstaked : vec_room full (len_of FundType.UnStaked A);
  r1_waiting : vec_room full (len_of FundType.Waiting A + 1);
}.

Record staked (payment : N) s A s' A' : Prop := {
  sk_inv : Inv s' A';
  sk_staked : staked_ok s' A';
  sk_settings : settings_kept s s';
  sk_op : st_global_op_checkpoint s' = st_global_op_checkpoint s;
  sk_nodes : st_nodes s' = st_nodes s;
  sk_sent : rs_sent_rewards (st_rewards s') = rs_sent_rewards (st_rewards s);
  sk_view : chain_view (st_chain s') = chain_view (st_chain s);
  sk_user : get_user_id (get_caller (st_chain s)) (st_users s') ≠ 0;
  sk_holdings w : holdings w A' = holdings w A +
    (if decide (w = get_user_id (get_caller (st_chain s)) (st_users s'))
     then payment else 0);
  sk_earnings w : w ∈ users s' → claimable w s' = claimable w s;
}.

Lemma process_stake_spec full s A payment :
  Inv s A → staked_ok s A → room1 full A → num_users_of s + 1 < usize_max_plus_1 →
  outcome (process_stake payment) s (crowded full) (λ _ s', ∃ A', staked payment s A s' A').
Proof.
  intros HI Hok [Rid Run Rwa] Hmax. unfold process_stake. run_gets.
  set (a := get_caller (st_chain s)).
  eapply outcome_after; [by apply get_or_create_user_spec|].
  intros u s1 (HI1 & Hr & Hid & Hu). cbv beta.
  eapply outcome_after; [by apply log_event_spec|].
  intros _ s2 [-> [HI2 He2]]. set (s2 := set_chain _ s1) in *.
  assert (u ∈ users s2) as Hin.
  { apply elem_of_users. unfold unregistered. pose proof (inv_ids _ _ HI2 a) as Hle.
    change (get_user_id a (st_users s2)) with (get_user_id a (st_users s1)) in Hle.
    rewrite Hid in Hle. lia. }
  eapply outcome_after; [apply (create_waiting_inv s2 A u payment HI2 Hin); lia|].
  intros _ s3 (Hof & A3 & [HI3 He3] & [Gm Gd Go] & Hc).
  pose proof (only_funds_settings _ _ Hof) as Es3.
  assert (within_cap s3 A3) as Hok3.
  { destruct Hok as [Hok _]. unfold within_cap, cap_ok, bootstrap_of, cap_of in *. rewrite Es3.
    change (st_settings s2) with (st_settings s1). rewrite (rg_settings _ _ Hr).
    by rewrite !(cr_type_other _ _ _ _ _ Hc). }
  apply outcome_bind. eapply outcome_eq; [by eapply validate_cap_ok|].
  pose proof (Go FundType.UnStaked ltac:(done)) as Hl.
  eapply outcome_post; [apply (use_waiting_spec full s3 A3 HI3); [|done]|].
  { split; [lia|eapply vec_room_le; [|exact Run]; lia|eapply vec_room_le; [|exact Rwa]; lia]. }
  intros _ s' (A' & [HI' Hok' Hfr Hset Hh _ He' Ht]). exists A'.
  pose proof (frame_only_funds _ _ Hof) as Hfr3.
  assert (st_users s' = st_users s1) as Eu.
  { rewrite (fr_users _ _ Hfr), (fr_users _ _ Hfr3). done. }
  split; try done.
  - unfold settings_kept, cap_of, fee_of, bootstrap_of in *. rewrite Es3 in Hset.
    change (st_settings s2) with (st_settings s1) in Hset. by rewrite (rg_settings _ _ Hr) in Hset.
  - rewrite (fr_op _ _ Hfr), (fr_op _ _ Hfr3). apply (rg_op _ _ Hr).
  - rewrite (fr_nodes _ _ Hfr), (fr_nodes _ _ Hfr3). apply (rg_nodes _ _ Hr).
  - rewrite (fr_sent _ _ Hfr), (fr_sent _ _ Hfr3).
    change (st_rewards s2) with (st_rewards s1). by rewrite (rg_rewards _ _ Hr).
  - rewrite (fr_chain _ _ Hfr), (fr_chain _ _ Hfr3). unfold s2; simpl.
    by rewrite emit_view, (rg_chain _ _ Hr).
  - fold a. by rewrite Eu, Hid.
  - intros w. fold a. rewrite Eu, Hid, Hh. by apply credited_holdings.
  - intros w Hw. destruct (transitivity He2 (transitivity He3 He')) as [Eus Hcl].
    rewrite Hcl by (by rewrite <-Eus). by apply registers_claimable.
Qed.

(** What an endpoint checks before anything else. *)
Record open_for_users s : Prop := {
  op_not_paused : not_paused (st_chain s) = true;
  op_no_global_op : st_global_op_checkpoint s = GlobalOpCheckpoint.None;
}.

Lemma require_not_paused_ok s : open_for_users s → require_not_paused s = Ok (tt, s).
Proof. intros [Hp _]. unfold require_not_paused, bind, gets. by rewrite Hp. Qed.

Lemma require_no_global_op_ok s msg :
  open_for_users s → require_no_global_op msg s = Ok (tt, s).
Proof. intros [_ Ho]. by apply no_global_op_ok. Qed.

Definition min_stake_of s : N := min_stake (st_settings s).

Lemma stake_spec full s A payment :
  Inv s A → staked_ok s A → open_for_users s → min_stake_of s ≤ payment →
  room1 full A → num_users_of s + 1 < usize_max_plus_1 →
  outcome (stake_endpoint payment) s (crowded full) (λ _ s', ∃ A', staked payment s A s' A').
Proof.
  intros HI Hok Hopen Hmin Hroom Hmax. unfold stake_endpoint.
  apply outcome_bind. eapply outcome_eq; [by apply require_not_paused_ok|].
  run_gets. apply outcome_bind, outcome_require; [by apply N.leb_le|].
  apply outcome_bind. eapply outcome_eq; [by apply require_no_global_op_ok|].
  by apply process_stake_spec.
Qed.

Definition caller_id s : N := get_user_id (get_caller (st_chain s)) (st_users s).

Lemma caller_registered s A : Inv s A → caller_id s ≠ 0 → caller_id s ∈ users s.
Proof.
  intros HI Hu. apply elem_of_users. unfold unregistered.
  pose proof (inv_ids _ _ HI (get_caller (st_chain s))). unfold caller_id in *. lia.
Qed.

(** *** Unstaking *)

(** Room for the fund items of an unstake. *)
Record room_unstake (full : Prop) (u : N) (A : AFunds) : Prop := {
  ru_ids : af_max A + ulen_of u FundType.Waiting A + 2 * ulen_of u FundType.Active A
    + len_of FundType.UnStaked A + len_of FundType.Waiting A < usize_max_plus_1;
  ru_unstaked : vec_room full (len_of FundType.UnStaked A + ulen_of u FundType.Active A);
  ru_waiting : vec_room full (len_of FundType.Waiting A);
}.

Record unstaked (u amount : N) s A s' A' : Prop := {
  us_inv : Inv s' A';
  us_staked : staked_ok s' A';
  us_frame : frame s s';
  us_settings : settings_kept s s';
  us_stake : stake_of u A' + amount = stake_of u A;
  us_stake_other w : w ≠ u → stake_of w A' = stake_of w A;
  us_holdings w : holdings w A' = holdings w A;
  us_earnings : earnings_kept s s';
}.

Lemma validate_unstake_amount_ok s A u amount :
  Inv s A → u ≠ 0 → amount ≤ stake_of u A →
  (amount = stake_of u A ∨ min_stake_of s ≤ amount) →
  validate_unstake_amount u amount s = Ok (tt, s).
Proof.
  intros HI Hu Hle Hmin.
  unfold validate_unstake_amount, stake_of_type, get_minimum_stake, bind, gets.
  rewrite !(stake_user (inv_rep _ _ HI)) by done. unfold stake_of in *.
  destruct (N.compare_spec amount (ut_of u FundType.Waiting A + ut_of u FundType.Active A));
    [done| |lia].
  destruct Hmin; [lia|]. unfold min_stake_of in *. unfold require.
  by rewrite (proj2 (N.leb_le _ _)).
Qed.

Lemma swap_user_waiting_inv s A u m :
  Inv s A → u ≠ 0 → user_roomy u FundType.Waiting A →
  runs (swap_user_waiting_to_withdraw_only u m) s (λ r s',
    r = m - ut_of u FundType.Waiting A ∧ only_funds s s' ∧
    ∃ A', Inv_kept s s' A' ∧ grown FundType.WithdrawOnly (ulen_of u FundType.Waiting A) A A' ∧
      moved FundType.Waiting FundType.WithdrawOnly (N.min m (ut_of u FundType.Waiting A))
        (λ u', if decide (u' = u) then N.min m (ut_of u FundType.Waiting A) else 0) A A').
Proof.
  intros HI Hu Hroom.
  eapply runs_mono; [by apply swap_user_waiting_to_withdraw_only_spec; [apply HI|]|].
  intros r s' (-> & Hof & A' & HR' & Hgr & Hm). split_and!; [done..|].
  exists A'. split; [|done].
  apply (inv_only_funds s s' A A'); try done.
  - by eapply moved_unregistered, HI.
  - rewrite (mv_other _ _ _ _ _ _ Hm) by done. apply HI.
  - split; [intros w Hw; left|left].
    + assert (w ≠ 0) by (apply elem_of_ids_up_to in Hw; lia).
      rewrite (active_of_user (A:=A')), (active_of_user (A:=A)); [|apply HI|done|done|done].
      by apply (mv_user_other _ _ _ _ _ _ Hm).
    + rewrite (total_active_eq (A:=A')), (total_active_eq (A:=A)); [|apply HI|done].
      by apply (mv_other _ _ _ _ _ _ Hm).
Qed.

Lemma swap_user_active_inv s A u m :
  Inv s A → u ≠ 0 → user_roomy u FundType.Active A →
  checkpoint_of u s = cumulated s → checkpoint_of OWNER_USER_ID s = cumulated s →
  runs (swap_user_active_to_unstaked u m) s (λ r s',
    r = m - ut_of u FundType.Active A ∧ only_funds s s' ∧
    ∃ A', Inv_kept s s' A' ∧ grown FundType.UnStaked (ulen_of u FundType.Active A) A A' ∧
      moved FundType.Active FundType.UnStaked (N.min m (ut_of u FundType.Active A))
        (λ u', if decide (u' = u) then N.min m (ut_of u FundType.Active A) else 0) A A').
Proof.
  intros HI Hu Hroom Hcu Hco.
  eapply runs_mono; [by apply swap_user_active_to_unstaked_spec; [apply HI|]|].
  intros r s' (-> & Hof & A' & HR' & Hgr & Hm). split_and!; [done..|].
  exists A'. split; [|done].
  apply (inv_only_funds s s' A A'); try done.
  - by eapply moved_unregistered, HI.
  - pose proof (mv_src _ _ _ _ _ _ Hm). pose proof (inv_cap _ _ HI). lia.
  - split; [|by right]. intros w Hw. destruct (decide (w = u)) as [->|Hne]; [by right|left].
    assert (w ≠ 0) by (apply elem_of_ids_up_to in Hw; lia).
    rewrite (active_of_user (A:=A')), (active_of_user (A:=A)); [|apply HI|done|done|done].
    pose proof (mv_user_src _ _ _ _ _ _ Hm w) as Hw'. cbv beta in Hw'.
    rewrite decide_False in Hw' by done. lia.
Qed.

(** The error of the last check of an unstake. *)
Definition below_minimum (e : Error) : Prop :=
  e = Panic "cannot have waiting + active stake less than minimum stake".

Lemma validate_user_minimum_outcome s u (Q : unit → State C → Prop) :
  Q tt s → outcome (validate_user_minimum_stake u) s below_minimum Q.
Proof.
  intros HQ. unfold validate_user_minimum_stake, outcome, bind, stake_of_type,
    get_minimum_stake, gets. unfold require at 1. simpl.
  destruct (_ || _); simpl; [done|]. done.
Qed.

Lemma moved_stake_waiting v mv A A' u :
  moved FundType.Waiting FundType.WithdrawOnly v mv A A' →
  stake_of u A' + mv u = stake_of u A ∧ holdings u A' = holdings u A.
Proof.
  intros Hm. split; [|apply (moved_holdings _ _ _ _ _ _ u Hm); set_solver].
  unfold stake_of. rewrite (mv_user_other _ _ _ _ _ _ Hm u FundType.Active) by done.
  pose proof (mv_user_src _ _ _ _ _ _ Hm u). lia.
Qed.

Lemma moved_stake_active v mv A A' u :
  moved FundType.Active FundType.UnStaked v mv A A' →
  stake_of u A' + mv u = stake_of u A ∧ holdings u A' = holdings u A.
Proof.
  intros Hm. split; [|apply (moved_holdings _ _ _ _ _ _ u Hm); set_solver].
  unfold stake_of. rewrite (mv_user_other _ _ _ _ _ _ Hm u FundType.Waiting) by done.
  pose proof (mv_user_src _ _ _ _ _ _ Hm u). lia.
Qed.

Lemma staked_ok_eq s s' A A' :
  st_settings s' = st_settings s →
  tt_of FundType.Active A' + tt_of FundType.UnStaked A' =
    tt_of FundType.Active A + tt_of FundType.UnStaked A →
  tt_of FundType.Waiting A' ≤ tt_of FundType.Waiting A →
  staked_ok s A → staked_ok s' A'.
Proof.
  unfold staked_ok, within_cap, none_waits, cap_ok, bootstrap_of, cap_of.
  intros -> -> Hle [Hok Hw]. split; [done|]. intros Hb. specialize (Hw Hb). lia.
Qed.

(** The second half of an unstake: what waiting stake does not cover. *)
Lemma unstake_active_spec full s A u m :
  Inv s A → staked_ok s A → u ∈ users s →
  m ≤ ut_of u FundType.Active A →
  af_max A + 2 * ulen_of u FundType.Active A + len_of FundType.UnStaked A
    + len_of FundType.Waiting A < usize_max_plus_1 →
  vec_room full (len_of FundType.UnStaked A + ulen_of u FundType.Active A) →
  vec_room full (len_of FundType.Waiting A) →
  outcome (compute_one_user_reward OWNER_USER_ID ;;;
           compute_one_user_reward u ;;;
           let! remaining := swap_user_active_to_unstaked u m in
           require (remaining =? 0) "error converting Active to UnStaked" ;;;
           use_waiting_to_replace_unstaked ;;;
           validate_user_minimum_stake u) s
    (λ e, below_minimum e ∨ crowded full e)
    (λ _ s', ∃ A', unstaked u m s A s' A').
Proof.
  intros HI Hok Hu Hm Rid Run Rwa.
  assert (u ≠ 0) as Hu0 by (apply elem_of_ids_up_to in Hu; lia).
  apply outcome_bind, runs_outcome.
  eapply runs_mono; [apply (settled_one s A OWNER_USER_ID HI)|].
  { apply elem_of_ids_up_to. pose proof (inv_owner_id _ _ HI).
    unfold num_users_of, OWNER_USER_ID in *. lia. }
  intros _ s1 [HI1 Hs1]. apply outcome_bind, runs_outcome.
  eapply runs_mono; [apply (settled_one s1 A u HI1)|].
  { by rewrite (settled_users _ _ _ Hs1). }
  intros _ s2 [HI2 Hs2]. pose proof (settled_trans _ _ _ _ _ Hs1 Hs2) as Hs.
  pose proof (settled_cumulated _ _ _ Hs) as Hcum.
  apply outcome_bind, runs_outcome.
  eapply runs_mono; [apply (swap_user_active_inv s2 A u m HI2 Hu0)|].
  { unfold user_roomy. lia. }
  { rewrite Hcum. apply (se_done _ _ _ Hs). set_solver. }
  { rewrite Hcum. apply (se_done _ _ _ Hs). set_solver. }
  intros r s3 (-> & Hof & A3 & [HI3 He3] & [Gm Gd Go _] & Hmv). cbv beta.
  rewrite N.min_l in Hmv by done.
  pose proof (only_funds_settings _ _ Hof) as Es3.
  pose proof (mv_src _ _ _ _ _ _ Hmv) as Hsrc. pose proof (mv_dst _ _ _ _ _ _ Hmv) as Hdst.
  apply outcome_bind, runs_outcome, runs_require; [apply N.eqb_eq; lia|].
  pose proof (Go FundType.Waiting ltac:(done)) as Hl.
  assert (staked_ok s3 A3) as Hok3.
  { apply (staked_ok_eq s s3 A A3); [|lia| |done]; [rewrite Es3; apply Hs|].
    by rewrite (mv_other _ _ _ _ _ _ Hmv). }
  apply outcome_bind.
  eapply outcome_mono; [apply (use_waiting_spec full s3 A3 HI3); [|apply Hok3]|by right|].
  { split; [lia|eapply vec_room_le; [|exact Run]; lia|eapply vec_room_le; [|exact Rwa]; lia]. }
  intros _ s' (A' & [HI' Hok' Hfr Hset Hh Hst He' _]).
  eapply outcome_mono; [|by left|intros ? ? HP; exact HP].
  apply validate_user_minimum_outcome. exists A'.
  pose proof (λ w, moved_stake_active _ _ _ _ w Hmv) as Hmw. cbv beta in Hmw.
  split; [done|done| | | | | |].
  - eapply frame_trans; [apply Hs|]. eapply frame_trans; [by apply frame_only_funds|done].
  - pose proof (settings_kept_eq s s3 ltac:(rewrite Es3; apply Hs)) as (E1 & E2 & E3).
    destruct Hset as (E4 & E5 & E6). split_and!; [congruence|congruence|auto].
  - rewrite Hst. destruct (Hmw u) as [He _]. by rewrite decide_True in He.
  - intros w Hw. rewrite Hst. destruct (Hmw w) as [He _].
    rewrite decide_False in He by done. lia.
  - intros w. rewrite Hh. apply Hmw.
  - etrans; [apply (se_earnings _ _ _ Hs)|]. by etrans.
Qed.

Lemma unstake_endpoint_spec full s A amount :
  let u := caller_id s in
  Inv s A → staked_ok s A → open_for_users s → room_unstake full u A →
  u ≠ 0 → amount ≤ stake_of u A → (amount = stake_of u A ∨ min_stake_of s ≤ amount) →
  outcome (unstake_endpoint amount) s (λ e, below_minimum e ∨ crowded full e)
    (λ _ s', ∃ A', unstaked u amount s A s' A').
Proof.
  intros u HI Hok Hopen [Rid Run Rwa] Hu Hle Hmin. unfold unstake_endpoint.
  apply outcome_bind, runs_outcome. eapply runs_eq; [by apply require_not_paused_ok|].
  apply outcome_bind, runs_outcome. eapply runs_eq; [by apply require_no_global_op_ok|].
  apply outcome_bind, runs_outcome, runs_gets, outcome_bind, runs_outcome, runs_gets.
  fold (caller_id s). fold u.
  apply outcome_bind, runs_outcome, runs_require; [by apply negb_true_iff, N.eqb_neq|].
  apply outcome_bind, runs_outcome. eapply runs_eq; [by eapply validate_unstake_amount_ok|].
  apply outcome_bind, runs_outcome.
  eapply runs_mono; [apply (swap_user_waiting_inv s A u amount HI Hu); unfold user_roomy; lia|].
  intros r s1 (-> & Hof & A1 & [HI1 He1] & [Gm _ Go Gu] & Hmv). cbv beta.
  pose proof (only_funds_settings _ _ Hof) as Es1.
  pose proof (λ w, moved_stake_waiting _ _ _ _ w Hmv) as Hmw. cbv beta in Hmw.
  assert (staked_ok s1 A1) as Hok1.
  { pose proof (mv_src _ _ _ _ _ _ Hmv). apply (staked_ok_eq s s1 A A1); [done| |lia|done].
    by rewrite !(mv_other _ _ _ _ _ _ Hmv). }
  unfold stake_of in Hle, Hmin.
  set (w := ut_of u FundType.Waiting A) in *.
  destruct (N.eqb_spec (amount - w) 0) as [Hz|Hz].
  - apply runs_outcome, runs_ret. exists A1.
    split; [done|done|by apply frame_only_funds|by apply settings_kept_eq| | | |done].
    + destruct (Hmw u) as [He _]. rewrite decide_True in He by done.
      rewrite N.min_l in He by lia. done.
    + intros v Hv. destruct (Hmw v) as [He _]. rewrite decide_False in He by done. lia.
    + intros v. apply Hmw.
  - pose proof (Go FundType.UnStaked ltac:(done)). pose proof (Go FundType.Waiting ltac:(done)).
    pose proof (Gu u FundType.Active ltac:(done)).
    eapply outcome_mono; [apply (unstake_active_spec full s1 A1 u (amount - w))| |]; try done.
    + apply elem_of_users. pose proof (caller_registered s A HI Hu) as Hin%elem_of_users.
      unfold unregistered, num_users_of in *. by rewrite (fr_users _ _ (frame_only_funds _ _ Hof)).
    + rewrite (mv_user_other _ _ _ _ _ _ Hmv u FundType.Active) by done. lia.
    + lia.
    + eapply vec_room_le; [|exact Run]. lia.
    + eapply vec_room_le; [|exact Rwa]. lia.
    + intros _ s' (A' & [HI' Hok' Hfr Hset Hst Hsto Hh He']). exists A'.
      split; [done|done| | | | | |by etrans].
      * eapply frame_trans; [by apply frame_only_funds|done].
      * unfold settings_kept, cap_of, fee_of, bootstrap_of in *. by rewrite Es1 in Hset.
      * destruct (Hmw u) as [He _]. rewrite decide_True in He by done.
        rewrite N.min_r in He by lia. lia.
      * intros v Hv. rewrite Hsto by done. destruct (Hmw v) as [He _].
        rewrite decide_False in He by done. lia.
      * intros v. rewrite Hh. apply Hmw.
Qed.
End EndpointSpec.
