(* ===== verification/PayoutSpec.v ===== *)
(** * Paying out: claiming rewards and withdrawing funds

    The two endpoints that send money to a delegator.  Each pays exactly what it
    takes from the caller's account, and keeps the invariant. *)
From stdpp Require Import base numbers list gmap strings.
From S2P Require Import Prelude PtrList FundTypes FundModule FundLedger FundRep FundLoops.
From S2P Require Import FundTotals FundMoves UserData NodeConfig Settings Chain State FundTransf.
From S2P Require Import FundView Rewards UserStake TransfSpec RewardSpec ContractInv StakeSpec.
From S2P Require Import FundSpec FundInvariant EndpointSpec.

(** ** Removing funds *)

(** [paid_out u v A A']: user [u] has [v] withdrawable funds less. *)
Record paid_out (u v : N) (A A' : AFunds) : Prop := {
  po_user : ut_of u FundType.WithdrawOnly A' + v = ut_of u FundType.WithdrawOnly A;
  po_user_other w t : (w, t) ≠ (u, FundType.WithdrawOnly) → ut_of w t A' = ut_of w t A;
  po_type_other t : t ≠ FundType.WithdrawOnly → tt_of t A' = tt_of t A;
  po_type : tt_of FundType.WithdrawOnly A' + v = tt_of FundType.WithdrawOnly A;
}.

Lemma amount_zero p L : (∀ b, b ∈ L → p (b_user b) (b_desc b) = false) → amount p L = 0.
Proof.
  induction L as [|b L IH]; intros Hp; simpl; [done|].
  unfold worth, share. rewrite Hp by set_solver. rewrite IH by set_solver. done.
Qed.

Lemma remove_all_paid_out u vs A :
  af_ok A → vs `prefix_of` grp user_key (u, FundType.WithdrawOnly) (af_ledger A) →
  paid_out u (total vs) A (l_remove_all vs A).
Proof.
  intros Hok [post Hvs].
  assert (∀ b, b ∈ vs → user_key b = (u, FundType.WithdrawOnly) ∧ b ∈ af_ledger A) as Hin.
  { intros b Hb. apply elem_of_grp. rewrite Hvs. set_solver. }
  assert (NoDup (ids vs)) as Hnd.
  { pose proof (nodup_grp user_key (u, FundType.WithdrawOnly) _ (ok_nodup _ Hok)) as Hnd.
    rewrite Hvs, ids_app in Hnd. by apply NoDup_app in Hnd as [? _]. }
  assert (∀ p, amount p (af_ledger (l_remove_all vs A)) + amount p vs = amount p (af_ledger A))
    as Ham.
  { intros p. apply amount_remove_all; [done|done|]. intros b Hb. by apply Hin. }
  split; intros; unfold ut_of, tt_of.
  - rewrite <-Ham, (amount_total (of_user_type u FundType.WithdrawOnly) vs); [done|].
    intros b Hb. rewrite of_user_type_spec. apply bool_decide_true. by apply Hin.
  - rewrite <-Ham, (amount_zero (of_user_type w t) vs); [lia|].
    intros b Hb. rewrite of_user_type_spec. apply bool_decide_false.
    destruct (Hin b Hb) as [-> _]. congruence.
  - rewrite <-Ham, (amount_zero (of_type t) vs); [lia|].
    intros b Hb. unfold of_type. apply bool_decide_false.
    destruct (Hin b Hb) as [[= _ Ht] _]. congruence.
  - rewrite <-Ham, (amount_total (of_type FundType.WithdrawOnly) vs); [done|].
    intros b Hb. unfold of_type. apply bool_decide_true. by destruct (Hin b Hb) as [[= _ ?] _].
Qed.

Section PayoutSpec.
Context {C : Type} `{ChainLaws C}.
Implicit Type s : State C.

(** *** Claiming rewards *)
(** The state after a claim, up to the chain. *)
Definition claimed_rewards (u : N) s : RewardStore :=
  set_user_rew_unclaimed u 0 (set_user_rew_checkpoint u (cumulated s)
    (set_sent_rewards (rs_sent_rewards (st_rewards s) + claimable u s) (st_rewards s))).

Lemma inv_claimed s s' A u :
  Inv s A → u ∈ users s → st_rewards s' = claimed_rewards u s →
  st_funds s' = st_funds s → st_users s' = st_users s → st_settings s' = st_settings s →
  cumulated s' = cumulated s → Inv s' A.
Proof.
  intros HI Hu Er Ef Eu Es Ec. pose proof (inv_rewarded s A u HI Hu) as HR.
  assert (∀ v, unclaimed_of v s' = if decide (u = v) then 0 else unclaimed_of v s) as Hun.
  { intros v. unfold unclaimed_of. rewrite Er. unfold claimed_rewards, get_user_rew_unclaimed.
    simpl. rewrite lookup_insert. by case_decide. }
  assert (∀ v, checkpoint_of v s' = checkpoint_of v (rewarded u s)) as Hcp.
  { intros v. unfold rewarded. rewrite put_checkpoint, updated_checkpoint by apply HI.
    unfold checkpoint_of. rewrite Er. unfold claimed_rewards, get_user_rew_checkpoint.
    simpl. rewrite lookup_insert. by case_decide. }
  assert (∀ v, unclaimed_of v (rewarded u s) =
    if decide (u = v) then claimable u s else unclaimed_of v s) as Hun'.
  { intros v. unfold rewarded. by rewrite put_unclaimed. }
  assert (owed s' = owed (rewarded u s)) as Ho.
  { unfold owed. unfold users at 1. rewrite Eu. fold (users s). change (users (rewarded u s)) with (users s).
    assert (rs_sent_rewards (st_rewards s') =
      rs_sent_rewards (st_rewards (rewarded u s)) + claimable u s) as ->.
    { rewrite Er. done. }
    assert (scale_of s' = scale_of (rewarded u s)) as Hcap
      by (unfold scale_of, cap_of; by rewrite Es).
    assert (owed_owner s' = owed_owner (rewarded u s)) as ->.
    { unfold owed_owner, total_active, active_of, fee_of. rewrite Hcp, Hcap, Ec, Es, Ef. done. }
    rewrite Hcap.
    assert (sum_over (owed_user s') (users s) + owed_user (rewarded u s) u =
      sum_over (owed_user (rewarded u s)) (users s) + owed_user s' u) as Hs.
    { apply sum_over_change; [apply nodup_ids_up_to|done|]. intros v _ Hne.
      unfold owed_user, fee_of, active_of. rewrite Hun, Hun', Hcp, Hcap, Ec, Es, Ef.
      by rewrite !decide_False. }
    assert (owed_user (rewarded u s) u = owed_user s' u +
      claimable u s * (PERCENTAGE_DENOMINATOR * scale_of (rewarded u s))) as Hu'.
    { unfold owed_user, fee_of, active_of. rewrite Hun, Hun', Hcp, Hcap, Ec, Es, Ef.
      rewrite !decide_True by done. change (cumulated (rewarded u s)) with (cumulated s).
      change (st_funds (rewarded u s)) with (st_funds s).
      change (st_settings (rewarded u s)) with (st_settings s). lia. }
    lia. }
  pose proof (inv_solvent _ _ HR) as Hsol.
  pose proof (λ v, inv_checkpoint _ _ HR v) as HRc.
  destruct HI. split; unfold unregistered, num_users_of, fee_of, cap_of, bootstrap_of in *;
    rewrite ?Ef, ?Eu, ?Es, ?Ec; auto.
  - intros v Hv. rewrite Hun. case_decide; auto.
  - intros v. rewrite Hcp. apply HRc.
  - unfold solvent in *. rewrite Ho. unfold scale_of, cap_of in *. by rewrite Ec, Es.
Qed.

(** The others can claim what they could. *)
Lemma claimed_others s s' u w :
  w ≠ u → st_rewards s' = claimed_rewards u s → st_funds s' = st_funds s →
  st_settings s' = st_settings s → cumulated s' = cumulated s → claimable w s' = claimable w s.
Proof.
  intros Hne Er Ef Es Ec. apply claimable_ext;
    unfold unclaimed_of, checkpoint_of, cap_of, fee_of, total_active, active_of;
    rewrite ?Er, ?Ef, ?Es; auto.
  - unfold claimed_rewards, get_user_rew_unclaimed. simpl. by rewrite lookup_insert_ne.
  - unfold claimed_rewards, get_user_rew_checkpoint. simpl. by rewrite lookup_insert_ne.
Qed.

Record claimed (u : N) s A s' : Prop := {
  cl_inv : Inv s' A;
  cl_funds : st_funds s' = st_funds s;
  cl_unclaimed : unclaimed_of u s' = 0;
  cl_checkpoint : checkpoint_of u s' = cumulated s;
  cl_sent : rs_sent_rewards (st_rewards s') = rs_sent_rewards (st_rewards s) + claimable u s;
  cl_balance : get_sc_balance (st_chain s') + claimable u s = get_sc_balance (st_chain s);
  cl_view : chain_view (st_chain s') = chain_view (st_chain s);
  cl_settings : st_settings s' = st_settings s;
  cl_op : st_global_op_checkpoint s' = st_global_op_checkpoint s;
  cl_users : st_users s' = st_users s;
  cl_earnings w : w ≠ u → claimable w s' = claimable w s;
  cl_payments : payments_of (st_chain s') =
    payments_of (st_chain s) ++ payout (get_caller (st_chain s)) (claimable u s);
}.

Lemma claim_rewards_spec s A :
  let u := caller_id s in
  Inv s A → open_for_users s → feature_on "claimRewards" true (st_chain s) = true →
  u ≠ 0 → claimable u s ≤ get_sc_balance (st_chain s) →
  runs claim_rewards s (λ _ s', claimed u s A s').
Proof.
  intros u HI Hopen Hfeat Hu Hbal. unfold claim_rewards.
  apply runs_bind. eapply runs_eq; [by apply require_not_paused_ok|].
  apply runs_bind. eapply runs_eq.
  { unfold check_feature_on, bind, gets. by rewrite Hfeat. }
  apply runs_bind, runs_gets, runs_bind, runs_gets. fold (caller_id s). fold u.
  apply runs_bind, runs_require; [by apply negb_true_iff, N.eqb_neq|].
  apply runs_bind. eapply runs_eq; [by apply require_no_global_op_ok|].
  apply runs_bind. eapply runs_eq; [by apply load_updated_user_rewards_eq, (inv_ready s A)|].
  fold (claimable u s).
  pose proof (updated_checkpoint u s (inv_checkpoint _ _ HI u)) as Hcp.
  pose proof (caller_registered s A HI Hu) as Hin. fold u in Hin.
  apply runs_bind. destruct (N.ltb_spec 0 (claimable u s)) as [Hpos|Hz].
  - apply runs_bind, runs_modify, runs_bind. set (s1 := set_chain _ s).
    destruct (direct_egld_ok (get_caller (st_chain s)) (claimable u s) (st_chain s1))
      as (c & Hc & Hv & Hb & Hpay).
    { unfold s1; simpl. by rewrite emit_balance. }
    unfold s1 in Hv, Hb, Hpay; simpl in Hv, Hb, Hpay. rewrite emit_payments in Hpay. rewrite emit_view in Hv. rewrite emit_balance in Hb.
    apply runs_bind. eapply (runs_eq _ _ tt (set_chain c s1)).
    { unfold send_egld. unfold s1 in *. simpl in *. by rewrite Hc. }
    apply runs_bind, runs_gets, runs_zoom, runs_modify, runs_ret.
    eapply runs_eq; [apply store_user_reward_data_eq|]. rewrite Hcp.
    assert (cumulated (set_chain c s1) = cumulated s) as Hcum.
    { unfold cumulated; simpl. by destruct (chain_view_eq _ _ Hv) as (_ & _ & _ & ?). }
    split; try done.
    + by apply (inv_claimed s _ A u).
    + rewrite put_unclaimed, decide_True; done.
    + rewrite put_checkpoint, decide_True; done.
    + simpl. rewrite Hb. lia.
    + intros w Hw. by apply (claimed_others s _ u).
    + simpl. unfold payout. by rewrite (proj2 (N.ltb_lt 0 _)) by done.
  - apply runs_ret. eapply runs_eq; [apply store_user_reward_data_eq|].
    assert (claimable u s = 0) as H0' by lia.
    split; try done.
    + by apply inv_rewarded.
    + rewrite put_unclaimed, decide_True by done. exact H0'.
    + rewrite put_checkpoint, decide_True by done. exact Hcp.
    + simpl. rewrite H0'. lia.
    + simpl. rewrite H0'. lia.
    + intros w _. apply claimable_rewarded, HI.
    + simpl. by rewrite H0', app_nil_r.
Qed.

(** *** Loops that watch the gas *)
Record quiet s s' : Prop := {
  qu_users : st_users s' = st_users s;
  qu_nodes : st_nodes s' = st_nodes s;
  qu_settings : st_settings s' = st_settings s;
  qu_rewards : st_rewards s' = st_rewards s;
  qu_op : st_global_op_checkpoint s' = st_global_op_checkpoint s;
  qu_dust : st_dust_cleanup_checkpoint s' = st_dust_cleanup_checkpoint s;
  qu_view : chain_view (st_chain s') = chain_view (st_chain s);
  qu_balance : get_sc_balance (st_chain s') = get_sc_balance (st_chain s);
  qu_reads : reads (st_chain s) (st_chain s');
  qu_payments : payments_of (st_chain s') = payments_of (st_chain s);
}.

Lemma quiet_refl s : quiet s s.
Proof. by split. Qed.
Lemma quiet_trans s1 s2 s3 : quiet s1 s2 → quiet s2 s3 → quiet s1 s3.
Proof. intros [] []. split; try congruence. by etrans. Qed.
Lemma quiet_funds s (fs : FundStore) s' : quiet s s' → quiet s (lens_set fs s').
Proof. intros []. by split. Qed.

Lemma gas_below_returns s limit s' :
  quiet s s' →
  returns (quiet s) (gas_below limit) s' (λ stop, stop = true → low_gas limit (st_chain s)).
Proof.
  intros Hq. unfold returns, gas_below.
  pose proof (gas_view (st_chain s')) as Hv. pose proof (gas_balance (st_chain s')) as Hb.
  pose proof (gas_payments (st_chain s')) as Hp.
  destruct (get_gas_left (st_chain s')) as [g c] eqn:Hg. simpl in *.
  apply runs_bind, (runs_eq _ _ g (set_chain c s')); [unfold gas_left; by rewrite Hg|].
  apply runs_ret. split_and!; [|eapply quiet_trans; [exact Hq|]|done].
  - intros Hlt%N.ltb_lt. apply (low_gas_reads _ _ (st_chain s')); [apply Hq|].
    apply low_gas_now. by rewrite Hg.
  - split; simpl; try done. apply rtc_once. by rewrite Hg.
Qed.

(** Rewards stay where the active stake stays. *)
Lemma earnings_same_active s s' A A' :
  Rep (st_funds s) A → Rep (st_funds s') A' → st_users s' = st_users s →
  st_settings s' = st_settings s → st_rewards s' = st_rewards s → cumulated s' = cumulated s →
  (∀ w, ut_of w FundType.Active A' = ut_of w FundType.Active A) →
  tt_of FundType.Active A' = tt_of FundType.Active A → earnings_kept s s'.
Proof.
  intros HR HR' Eu Es Er Ec Ha Ht. split; [unfold users; by rewrite Eu|]. intros u Hu.
  apply claimable_ext; unfold unclaimed_of, checkpoint_of, cap_of, fee_of; rewrite ?Er, ?Es; auto.
  - left. assert (u ≠ 0) by (apply elem_of_ids_up_to in Hu; lia).
    by rewrite (active_of_user HR'), (active_of_user HR).
  - left. by rewrite (total_active_eq HR'), (total_active_eq HR).
Qed.

Lemma inv_quiet s s' A A' :
  Inv s A → quiet s s' → Rep (st_funds s') A' →
  (∀ w t, unregistered w s → ut_of w t A' = 0) →
  (∀ w, ut_of w FundType.Active A' = ut_of w FundType.Active A) →
  tt_of FundType.Active A' = tt_of FundType.Active A → Inv s' A'.
Proof.
  intros HI Hq HR' Hun Ha Ht. set (s1 := lens_set (st_funds s') s : State C).
  assert (s' = set_chain (st_chain s') s1) as ->.
  { destruct Hq, s'. simpl in *. subst. done. }
  apply inv_set_chain.
  - apply (inv_only_funds s s1 A A'); try done.
    + rewrite Ht. apply HI.
    + split; [intros u Hu|]; left.
      * assert (u ≠ 0) by (apply elem_of_ids_up_to in Hu; lia).
        rewrite (active_of_user (A:=A')), (active_of_user (A:=A)); [|apply HI|done..]. apply Ha.
      * rewrite (total_active_eq (A:=A')), (total_active_eq (A:=A)); [|apply HI|done]. apply Ht.
  - by destruct (chain_view_eq _ _ (qu_view _ _ Hq)) as (_ & _ & _ & ?).
Qed.

(** *** Withdrawing *)
(** The deferred payments of a user that are due. *)
Definition due (u n_blocks nonce : N) (A : AFunds) : N :=
  amount (λ w d, of_user_type u FundType.DeferredPayment w d && eligible nonce n_blocks d)
    (af_ledger A).

(** At most [goal] was reached, and all of it unless the gas ran low. *)
Definition up_to (goal r : N) s : Prop :=
  r ≤ goal ∧ (r = goal ∨ low_gas UNBOND_GASLIMIT (st_chain s)).

Lemma swap_eligible_spec s A u n_blocks :
  Rep (st_funds s) A → user_roomy u FundType.DeferredPayment A →
  runs (swap_eligible_deferred_to_withdraw u n_blocks (gas_below UNBOND_GASLIMIT)) s
    (λ _ s', quiet s s' ∧ ∃ A' v mv, Rep (st_funds s') A' ∧
      moved FundType.DeferredPayment FundType.WithdrawOnly v mv A A' ∧ mv u = v ∧
      up_to (due u n_blocks (get_block_nonce (st_chain s)) A) v s).
Proof.
  intros HR Hroom. unfold swap_eligible_deferred_to_withdraw. run_gets.
  set (fd := λ d, if eligible _ _ d then Some FundDescription.WithdrawOnly else None).
  assert (∀ d d', fd d = Some d' → fund_type d' = FundType.WithdrawOnly) as Hfd.
  { intros d d'. unfold fd. case_match; [by intros [= <-]|done]. }
  apply runs_bind. eapply runs_mono.
  { apply (split_convert_max_by_user_rep (quiet s) (low_gas UNBOND_GASLIMIT (st_chain s)) (quiet_funds s)
      (gas_below UNBOND_GASLIMIT) (λ s', gas_below_returns s _ s')
      Forwards u FundType.DeferredPayment fd).
    - intros d d' Hd%Hfd. congruence.
    - apply quiet_refl.
    - exact HR.
    - unfold user_roomy, ulen_of, klen in Hroom. by rewrite length_dgrp. }
  intros r s' (vs & [post Hvs] & Hall & -> & Hq & HR'). apply runs_ret. split; [done|].
  assert (takeable (λ b, fd (b_desc b)) (grp user_key (u, FundType.DeferredPayment) (af_ledger A))
    = due u n_blocks (get_block_nonce (st_chain s)) A) as Hdue.
  { apply takeable_amount. intros b. rewrite of_user_type_spec. f_equal. unfold fd.
    by case_match. }
  assert (∀ b, b ∈ vs → b_user b = u) as Hu.
  { intros b Hb. assert (b ∈ dgrp Forwards user_key (u, FundType.DeferredPayment) (af_ledger A)) as Hin.
    { destruct (visited_prefix (λ b, fd (b_desc b)) (dgrp Forwards user_key
        (u, FundType.DeferredPayment) (af_ledger A)) None) as [post' ->].
      rewrite Hvs. set_solver. }
    apply elem_of_grp in Hin as [[= Hu _] _]. done. }
  destruct (visited_prefix (λ b, fd (b_desc b)) (dgrp Forwards user_key (u, FundType.DeferredPayment)
    (af_ledger A)) None) as [post' Hp].
  assert (up_to (due u n_blocks (get_block_nonce (st_chain s)) A)
    (l_extracted_all (λ b, fd (b_desc b)) None vs) s) as Hup.
  { destruct (visited_amounts (λ b, fd (b_desc b)) (dgrp Forwards user_key
      (u, FundType.DeferredPayment) (af_ledger A)) None) as [Hv _].
    split; [|destruct Hall as [->|]; [left; rewrite Hv; exact Hdue|by right]].
    rewrite extracted_all_takeable, <-Hdue. apply takeable_prefix. rewrite Hvs in Hp.
    eexists. by rewrite (assoc_L (++)). }
  eexists _, _, (λ w, flow_of w (λ b, fd (b_desc b)) None vs).
  rewrite Hvs, <-(assoc_L (++)) in Hp. split; [exact HR'|].
  split; [|split; [by rewrite (flow_of_single fd None u vs Hu u), decide_True|exact Hup]].
  apply (convert_all_moved user_key (λ b, fd (b_desc b)) FundType.DeferredPayment
    FundType.WithdrawOnly (λ _ _, eq_refl) (λ b, Hfd (b_desc b)) ltac:(done) Forwards
    (u, FundType.DeferredPayment) None vs A [] (post ++ post')); [|by eapply rep_af_ok|done].
  by intros c [= _ ?].
Qed.

Lemma liquidate_spec s A u :
  Rep (st_funds s) A →
  runs (liquidate_all_withdraw_only u (gas_below UNBOND_GASLIMIT)) s
    (λ r s', quiet s s' ∧ (∃ A', Rep (st_funds s') A' ∧ paid_out u r A A') ∧
      up_to (ut_of u FundType.WithdrawOnly A) r s).
Proof.
  intros HR. unfold liquidate_all_withdraw_only. eapply runs_mono.
  { apply (destroy_all_for_user_rep (quiet s) (low_gas UNBOND_GASLIMIT (st_chain s)) (quiet_funds s)
      (gas_below UNBOND_GASLIMIT) (λ s', gas_below_returns s _ s')
      u FundType.WithdrawOnly); [apply quiet_refl|exact HR]. }
  intros r s' (vs & Hvs & Hall & -> & Hq & HR'). split; [done|].
  split; [eexists; split; [exact HR'|]; by apply remove_all_paid_out; [eapply rep_af_ok|]|].
  pose proof (total_dgrp_user Forwards u FundType.WithdrawOnly A) as Ht. simpl in Ht.
  split; [|destruct Hall as [->|]; [by left|by right]].
  rewrite <-Ht. destruct Hvs as [post ->]. rewrite total_app. lia.
Qed.

(** The withdrawable funds of a user, due or not yet due. *)
Definition withdrawable (u : N) (A : AFunds) : N :=
  ut_of u FundType.WithdrawOnly A + ut_of u FundType.DeferredPayment A.

(** What can be paid at once: what is withdrawable and what is due. *)
Definition payable (u n_blocks : N) s (A : AFunds) : N :=
  ut_of u FundType.WithdrawOnly A + due u n_blocks (get_block_nonce (st_chain s)) A.
Definition payable_now s (A : AFunds) : N :=
  payable (caller_id s) (n_blocks_before_unbond (st_settings s)) s A.

Record unbonded (u r : N) s A s' A' : Prop := {
  ub_inv : Inv s' A';
  ub_paid : withdrawable u A' + r = withdrawable u A;
  ub_due : up_to (payable_now s A) r s;
  ub_other w : w ≠ u → holdings w A' = holdings w A;
  ub_stake w : stake_of w A' = stake_of w A;
  ub_unstaked t : t = FundType.Active ∨ t = FundType.UnStaked → tt_of t A' = tt_of t A;
  ub_balance : get_sc_balance (st_chain s') + r = get_sc_balance (st_chain s);
  ub_settings : st_settings s' = st_settings s;
  ub_rewards : st_rewards s' = st_rewards s;
  ub_users : st_users s' = st_users s;
  ub_payments : payments_of (st_chain s') =
    payments_of (st_chain s) ++ payout (get_caller (st_chain s)) r;
}.

(** What both halves of a withdrawal do to the funds. *)
Record released (u r : N) (A A' : AFunds) : Prop := {
  rl_paid : withdrawable u A' + r = withdrawable u A;
  rl_other w : w ≠ u → holdings w A' = holdings w A;
  rl_types t : t ≠ FundType.DeferredPayment → t ≠ FundType.WithdrawOnly →
    tt_of t A' = tt_of t A ∧ ∀ w, ut_of w t A' = ut_of w t A;
  rl_none w : (∀ t, ut_of w t A = 0) → ∀ t, ut_of w t A' = 0;
}.

Lemma released_stake u r A A' w : released u r A A' → stake_of w A' = stake_of w A.
Proof.
  intros Hr. unfold stake_of.
  destruct (rl_types _ _ _ _ Hr FundType.Waiting ltac:(done) ltac:(done)) as [_ ->].
  by destruct (rl_types _ _ _ _ Hr FundType.Active ltac:(done) ltac:(done)) as [_ ->].
Qed.

Lemma unbond_amounts u v mv r A A1 A2 :
  moved FundType.DeferredPayment FundType.WithdrawOnly v mv A A1 → paid_out u r A1 A2 →
  released u r A A2.
Proof.
  intros Hm [Pu Po Pt _].
  pose proof (mv_user_src _ _ _ _ _ _ Hm) as Us. pose proof (mv_user_dst _ _ _ _ _ _ Hm) as Ud.
  pose proof (mv_user_other _ _ _ _ _ _ Hm) as Uo.
  split.
  - unfold withdrawable. rewrite (Po u FundType.DeferredPayment) by congruence.
    specialize (Us u). specialize (Ud u). lia.
  - intros w Hw. rewrite <-(moved_holdings _ _ _ _ _ _ w Hm) by set_solver.
    unfold holdings. by rewrite !(Po w) by congruence.
  - intros t Hd Hw. split.
    + rewrite Pt by done. by apply (mv_other _ _ _ _ _ _ Hm).
    + intros w. rewrite Po by congruence. by apply Uo.
  - intros w Hz. assert (∀ t, ut_of w t A1 = 0) as Hz1.
    { intros t. specialize (Us w). specialize (Ud w). rewrite !Hz in *.
      destruct (decide (t = FundType.DeferredPayment)) as [->|]; [lia|].
      destruct (decide (t = FundType.WithdrawOnly)) as [->|]; [lia|].
      by rewrite (Uo w t), Hz. }
    intros t. destruct (decide ((w, t) = (u, FundType.WithdrawOnly))) as [[= -> ->]|Hne].
    + specialize (Hz1 FundType.WithdrawOnly). lia.
    + by rewrite Po.
Qed.

Lemma inv_released s s' A A' u r :
  Inv s A → quiet s s' → Rep (st_funds s') A' → released u r A A' → Inv s' A'.
Proof.
  intros HI Hq HR Hrl.
  destruct (rl_types _ _ _ _ Hrl FundType.Active ltac:(done) ltac:(done)) as [Ht Hu].
  apply (inv_quiet s s' A); try done. intros w t Hw. apply (rl_none _ _ _ _ Hrl).
  intros t'. by apply HI.
Qed.

(** Both halves, before the payment. *)
Lemma unbond_halves s A u n_blocks {B} (k : N → M (State C) B) (Q : B → State C → Prop) E :
  Rep (st_funds s) A → user_roomy u FundType.DeferredPayment A →
  (∀ r s' A', quiet s s' → Rep (st_funds s') A' → released u r A A' →
     up_to (payable u n_blocks s A) r s → outcome (k r) s' E Q) →
  outcome (let! _ := swap_eligible_deferred_to_withdraw u n_blocks (gas_below UNBOND_GASLIMIT) in
           let! amount_liquidated := liquidate_all_withdraw_only u (gas_below UNBOND_GASLIMIT) in
           k amount_liquidated) s E Q.
Proof.
  intros HR Hroom Hk. apply outcome_bind, runs_outcome.
  eapply runs_mono; [by apply (swap_eligible_spec s A u)|].
  intros _ s1 (Hq1 & A1 & v & mv & HR1 & Hm & Hmv & [Hv Hvs]).
  apply outcome_bind, runs_outcome.
  eapply runs_mono; [by apply liquidate_spec|].
  intros r s2 (Hq2 & (A2 & HR2 & Hpo) & [Hr Hrs]).
  apply (Hk r s2 A2); [by eapply quiet_trans|done|by eapply unbond_amounts|].
  rewrite (mv_user_dst _ _ _ _ _ _ Hm u), Hmv in Hr, Hrs. unfold payable. split; [lia|].
  destruct Hrs as [->|Hlow]; [|right; by eapply low_gas_reads; [apply Hq1|]].
  destruct Hvs as [->|]; [by left|by right].
Qed.

(** The payment. *)
Lemma send_egld_ok s to v :
  v ≤ get_sc_balance (st_chain s) →
  runs (send_egld to v) s (λ _ s', ∃ c, s' = set_chain c s ∧
    chain_view c = chain_view (st_chain s) ∧
    get_sc_balance c + v = get_sc_balance (st_chain s) ∧
    payments_of c = payments_of (st_chain s) ++ [(to, v)]).
Proof.
  intros Hle. destruct (direct_egld_ok to v (st_chain s) Hle) as (c & Hc & Hv & Hb & Hp).
  apply (runs_eq _ _ tt (set_chain c s)); [unfold send_egld; by rewrite Hc|].
  exists c. split_and!; [done|done|rewrite Hb; lia|done].
Qed.

Lemma send_egld_enough s to v :
  ensures (send_egld to v) s (λ _ _, v ≤ get_sc_balance (st_chain s)).
Proof.
  unfold ensures, outcome, send_egld.
  destruct (direct_egld to v (st_chain s)) as [c|e] eqn:Hd; [|done].
  by eapply direct_egld_enough.
Qed.

Definition pay_out (to : Address) (r : N) : M (State C) N :=
  (if 0 <? r then send_egld to r else ret tt) ;;; ret r.

Lemma pay_out_ok s to r :
  r ≤ get_sc_balance (st_chain s) →
  runs (pay_out to r) s (λ r' s', r' = r ∧ ∃ c, s' = set_chain c s ∧
    chain_view c = chain_view (st_chain s) ∧
    get_sc_balance c + r = get_sc_balance (st_chain s) ∧
    payments_of c = payments_of (st_chain s) ++ payout to r).
Proof.
  intros Hle. unfold payout. apply runs_bind. destruct (N.ltb_spec 0 r) as [Hpos|Hz].
  - eapply runs_mono; [by apply send_egld_ok|]. intros [] s' Hs. by apply runs_ret.
  - apply runs_ret, runs_ret. split; [done|]. exists (st_chain s).
    split_and!; [by destruct s|done|lia|by rewrite app_nil_r].
Qed.

Lemma pay_out_enough s to r :
  ensures (pay_out to r) s (λ _ _, r ≤ get_sc_balance (st_chain s)).
Proof.
  apply ensures_bind. destruct (N.ltb_spec 0 r) as [Hpos|Hz].
  - eapply ensures_mono; [apply send_egld_enough|]. intros [] s' Hle. by apply ensures_ret.
  - apply ensures_ret, ensures_ret. lia.
Qed.

(** What the endpoint does when its guards hold. *)
Lemma unbond_user_eq s :
  not_paused (st_chain s) = true → caller_id s ≠ 0 →
  unbond_user s = (
    let! _ := swap_eligible_deferred_to_withdraw (caller_id s)
                (n_blocks_before_unbond (st_settings s)) (gas_below UNBOND_GASLIMIT) in
    let! r := liquidate_all_withdraw_only (caller_id s) (gas_below UNBOND_GASLIMIT) in
    pay_out (get_caller (st_chain s)) r) s.
Proof.
  intros Hp Hu. unfold unbond_user.
  rewrite (bind_ok _ _ s tt s) by (unfold require_not_paused, bind, gets; by rewrite Hp).
  rewrite (bind_ok _ _ s (get_caller (st_chain s)) s) by done.
  rewrite (bind_ok _ _ s (caller_id s) s) by done.
  rewrite (bind_ok _ _ s tt s); [done|].
  unfold require. by rewrite (proj2 (N.ltb_lt 0 (caller_id s))) by lia.
Qed.

Lemma unbond_user_spec s A :
  let u := caller_id s in
  Inv s A → not_paused (st_chain s) = true → u ≠ 0 →
  user_roomy u FundType.DeferredPayment A →
  withdrawable u A ≤ get_sc_balance (st_chain s) →
  runs unbond_user s (λ r s', ∃ A', unbonded u r s A s' A').
Proof.
  intros u HI Hp Hu Hroom Hbal.
  eapply runs_eq_fun; [by apply unbond_user_eq|]. apply outcome_runs.
  apply (unbond_halves s A u); [apply HI|done|]. intros r s1 A' Hq HR Hrl Hup.
  pose proof (rl_paid _ _ _ _ Hrl) as Hpaid.
  apply runs_outcome. eapply runs_mono; [apply pay_out_ok; rewrite (qu_balance _ _ Hq); lia|].
  intros r' s' (-> & c & -> & Hv & Hb & Hpays). exists A'. rewrite (qu_balance _ _ Hq) in Hb.
  rewrite (qu_payments _ _ Hq) in Hpays.
  pose proof (inv_released s s1 A A' u r HI Hq HR Hrl) as HI'. destruct Hq.
  split; try done.
  - apply inv_set_chain; [done|]. by destruct (chain_view_eq _ _ Hv) as (_ & _ & _ & ?).
  - apply Hrl.
  - intros w. by eapply released_stake.
  - intros t [-> | ->]; by apply (rl_types _ _ _ _ Hrl).
Qed.

(** The view of what can be unbonded is what unbonding pays. *)
Lemma get_unbondable_eq s A :
  Rep (st_funds s) A → caller_id s ≠ 0 →
  get_unbondable (get_caller (st_chain s)) s = Ok (payable_now s A, s).
Proof.
  intros HR Hu. unfold get_unbondable. unfold bind at 1, gets at 1.
  fold (caller_id s). rewrite (proj2 (N.eqb_neq _ _) Hu).
  unfold eligible_deferred_payment, current_bl_nonce, stake_of_type, bind, gets, of_result, ret.
  rewrite (query_user_rep (st_funds s) A) by done. rewrite (stake_user HR) by done.
  unfold payable_now, payable, due. do 2 f_equal. apply N.add_comm.
Qed.
End PayoutSpec.
