(* ===== verification/SolvencySpec.v ===== *)
(** * Solvency across reward arrivals and over all users

    New rewards keep the invariant: what they add to the debts is exactly what
    came in.  Computing the rewards of all users, interrupted or not, cannot
    fail, and when it is done everything ever received is assigned. *)
From stdpp Require Import base numbers list gmap strings.
From S2P Require Import Prelude PtrList FundTypes FundModule FundLedger FundRep FundLoops.
From S2P Require Import FundTotals FundMoves UserData NodeConfig Settings Chain State FundTransf.
From S2P Require Import FundView Rewards UserStake ResetCheckpoint TransfSpec RewardSpec.
From S2P Require Import ContractInv StakeSpec EndpointSpec PayoutSpec.

Section SolvencySpec.
Context {C : Type} `{ChainLaws C}.
Implicit Type s : State C.

(** *** The arrival of rewards *)
Lemma sum_active s A :
  Inv s A → sum_over (λ u, active_of u s) (users s) = total_active s.
Proof.
  intros HI. rewrite (total_active_eq (inv_rep _ _ HI)), <-(sum_users _ A s);
    [|intros u; by apply HI].
  apply sum_over_ext. intros u Hu. apply (active_of_user (inv_rep _ _ HI)).
  apply elem_of_ids_up_to in Hu. lia.
Qed.

Lemma total_active_scale s A : Inv s A → total_active s ≤ scale_of s.
Proof.
  intros HI. rewrite (total_active_eq (inv_rep _ _ HI)). unfold scale_of.
  pose proof (inv_cap _ _ HI). lia.
Qed.

(** What new rewards add to the debts. *)
Lemma reward_debt (D f K act δ : N) :
  f ≤ D → act ≤ K → (D - f) * δ * act + δ * (f * K + (D - f) * (K - act)) = δ * (D * K).
Proof.
  intros Hf Ha. replace K with (act + (K - act)) at 1 3 by lia.
  replace D with (f + (D - f)) at 3 by lia. 
  generalize (D - f) as e, (K - act) as g. intros. 
  rewrite !N.mul_add_distr_l, !N.mul_add_distr_r, !N.mul_add_distr_l. lia.
Qed.

Lemma owed_arrive s A c :
  Inv s A → cumulated s ≤ get_cumulated_validator_rewards c →
  owed (set_chain c s) = owed s +
    (get_cumulated_validator_rewards c - cumulated s) * (PERCENTAGE_DENOMINATOR * scale_of s).
Proof.
  intros HI Hle. set (s' := set_chain c s).
  set (δ := get_cumulated_validator_rewards c - cumulated s).
  assert (cumulated s' = cumulated s + δ) as Hc by (unfold δ, s', cumulated in *; simpl; lia).
  set (D := PERCENTAGE_DENOMINATOR). set (f := fee_of s). set (K := scale_of s).
  assert (∀ u, owed_user s' u = owed_user s u + (D - f) * δ * active_of u s) as Hu.
  { intros u. unfold owed_user. rewrite Hc. change (checkpoint_of u s') with (checkpoint_of u s).
    change (unclaimed_of u s') with (unclaimed_of u s). change (active_of u s') with (active_of u s).
    change (fee_of s') with f. change (scale_of s') with K. change (scale_of s) with K.
    change (fee_of s) with f. fold D. pose proof (inv_checkpoint _ _ HI u).
    replace (cumulated s + δ - checkpoint_of u s) with (cumulated s - checkpoint_of u s + δ) by lia.
    lia. }
  assert (owed_owner s' = owed_owner s + δ * (f * K + (D - f) * (K - total_active s))) as Ho.
  { unfold owed_owner. rewrite Hc.
    change (checkpoint_of OWNER_USER_ID s') with (checkpoint_of OWNER_USER_ID s).
    change (total_active s') with (total_active s).
    change (fee_of s') with f. change (scale_of s') with K. change (scale_of s) with K.
    change (fee_of s) with f. fold D. pose proof (inv_checkpoint _ _ HI OWNER_USER_ID).
    replace (cumulated s + δ - checkpoint_of OWNER_USER_ID s)
      with (cumulated s - checkpoint_of OWNER_USER_ID s + δ) by lia.
    lia. }
  unfold owed. change (users s') with (users s). change (st_rewards s') with (st_rewards s).
  change (scale_of s') with K. fold D K.
  rewrite Ho, (sum_over_ext _ _ _ (λ u _, Hu u)), sum_over_plus, sum_over_mul.
  rewrite (sum_active s A HI).
  pose proof (reward_debt D f K (total_active s) δ (inv_fee _ _ HI) (total_active_scale s A HI)).
  lia.
Qed.

Lemma inv_arrive s A c :
  Inv s A → bootstrap_of s = false → cumulated s ≤ get_cumulated_validator_rewards c →
  Inv (set_chain c s) A.
Proof.
  intros HI Hb Hle. pose proof (owed_arrive s A c HI Hle) as Ho.
  pose proof (inv_solvent _ _ HI) as Hsol. pose proof (inv_checkpoint _ _ HI) as Hcp.
  assert (cumulated (set_chain c s) = get_cumulated_validator_rewards c) as Hc by done.
  destruct HI. split; try done.
  - intros u. rewrite Hc. etrans; [apply Hcp|done].
  - change (bootstrap_of (set_chain c s)) with (bootstrap_of s). congruence.
  - unfold solvent in *. rewrite Ho, Hc. change (scale_of (set_chain c s)) with (scale_of s).
    set (X := PERCENTAGE_DENOMINATOR * scale_of s) in *.
    replace (get_cumulated_validator_rewards c) with
      (cumulated s + (get_cumulated_validator_rewards c - cumulated s)) at 2 by lia.
    rewrite N.mul_add_distr_r. lia.
Qed.

(** *** The rewards of all users *)

(** Only the rewards of users and the unobserved part of the chain change. *)
Record progress s s' : Prop := {
  pg_funds : st_funds s' = st_funds s;
  pg_users : st_users s' = st_users s;
  pg_nodes : st_nodes s' = st_nodes s;
  pg_settings : st_settings s' = st_settings s;
  pg_op : st_global_op_checkpoint s' = st_global_op_checkpoint s;
  pg_dust : st_dust_cleanup_checkpoint s' = st_dust_cleanup_checkpoint s;
  pg_sent : rs_sent_rewards (st_rewards s') = rs_sent_rewards (st_rewards s);
  pg_view : chain_view (st_chain s') = chain_view (st_chain s);
  pg_balance : get_sc_balance (st_chain s') = get_sc_balance (st_chain s);
  pg_reads : reads (st_chain s) (st_chain s');
}.

Lemma progress_refl s : progress s s.
Proof. by split. Qed.
Lemma progress_trans s1 s2 s3 : progress s1 s2 → progress s2 s3 → progress s1 s3.
Proof. intros [] []. split; [congruence..|by etrans]. Qed.
Lemma progress_put u d s : progress s (put_rewards u d s).
Proof. by split. Qed.
Lemma progress_cumulated s s' : progress s s' → cumulated s' = cumulated s.
Proof.
  intros []. unfold cumulated. by destruct (chain_view_eq _ _ pg_view0) as (_ & _ & _ & ->).
Qed.
Lemma progress_users s s' : progress s s' → users s' = users s.
Proof. intros []. unfold users. by rewrite pg_users0. Qed.

(** The first [n] users are up to date, with the given sum. *)
Definition done_up_to (n sum : N) s : Prop :=
  n ≤ num_users_of s ∧ sum = sum_over (λ u, unclaimed_of u s) (ids_up_to n) ∧
  ∀ u, u ∈ ids_up_to n → checkpoint_of u s = cumulated s.

Definition data_ok (d : ComputeAllRewardsData) s : Prop :=
  rewards_checkpoint d ≤ cumulated s ∧
  (rewards_checkpoint d = cumulated s → done_up_to (last_id d) (sum_unclaimed d) s).

Lemma done_quiet n sum s c :
  get_cumulated_validator_rewards c = cumulated s → done_up_to n sum s →
  done_up_to n sum (set_chain c s).
Proof.
  intros Hc (Hn & Hs & Hd). split_and!; [done|done|].
  intros u Hu. change (cumulated (set_chain c s)) with (get_cumulated_validator_rewards c).
  rewrite Hc. by apply Hd.
Qed.

Lemma done_succ n sum s A :
  Inv s A → n < num_users_of s → done_up_to n sum s →
  done_up_to (n + 1) (sum + unclaimed_rewards (updated_rewards (n + 1) s)) (rewarded (n + 1) s).
Proof.
  intros HI Hn (_ & -> & Hd).
  assert (∀ u, u ∈ ids_up_to n → n + 1 ≠ u) as Hne by (intros u Hu%elem_of_ids_up_to; lia).
  split_and!.
  - change (num_users_of (rewarded (n + 1) s)) with (num_users_of s). lia.
  - rewrite ids_up_to_succ, sum_over_app. f_equal.
    + apply sum_over_ext. intros u Hu. unfold rewarded.
      by rewrite put_unclaimed, decide_False by auto.
    + unfold sum_over, rewarded; simpl. rewrite put_unclaimed, decide_True by done. lia.
  - intros u. rewrite ids_up_to_succ, elem_of_app, list_elem_of_singleton. unfold rewarded.
    rewrite put_checkpoint. change (cumulated (put_rewards _ _ s)) with (cumulated s).
    intros [Hu| ->].
    + rewrite decide_False by auto. auto.
    + rewrite decide_True by done. apply updated_checkpoint, HI.
Qed.

Lemma gas_below_eq s limit : ∃ b c, gas_below limit s = Ok (b, set_chain c s) ∧
  chain_view c = chain_view (st_chain s) ∧ get_sc_balance c = get_sc_balance (st_chain s) ∧
  reads (st_chain s) c ∧ (b = true → low_gas limit (st_chain s)).
Proof.
  unfold gas_below, gas_left, bind. pose proof (gas_view (st_chain s)) as Hv.
  pose proof (gas_balance (st_chain s)) as Hb.
  destruct (get_gas_left (st_chain s)) as [g c] eqn:Hg. simpl in *. exists (g <? limit), c.
  split_and!; [done..| |].
  - apply rtc_once. by rewrite Hg.
  - intros Hlt%N.ltb_lt. apply low_gas_now. by rewrite Hg.
Qed.

Lemma compute_all_rewards_loop_spec fuel : ∀ s A d,
  Inv s A → num_users_of s < usize_max_plus_1 → rewards_checkpoint d = cumulated s →
  done_up_to (last_id d) (sum_unclaimed d) s →
  (N.to_nat (num_users_of s - last_id d) < fuel)%nat →
  runs (compute_all_rewards_loop fuel (num_users_of s) d) s (λ r s',
    Inv_kept s s' A ∧ progress s s' ∧
    match r with
    | inl d' => rewards_checkpoint d' = cumulated s' ∧
                done_up_to (last_id d') (sum_unclaimed d') s' ∧
                low_gas STOP_AT_GASLIMIT (st_chain s)
    | inr d' => done_up_to (num_users_of s') (sum_unclaimed d') s'
    end).
Proof.
  induction fuel as [|fuel IH]; intros s A d HI Hmax Hcp Hd Hfuel; [lia|]. simpl.
  destruct (N.ltb_spec (last_id d) (num_users_of s)) as [Hlt|Hge].
  2: { apply runs_ret. split_and!; [by split|apply progress_refl|].
       assert (last_id d = num_users_of s) as <-; [|done]. destruct Hd as [? _]. lia. }
  destruct (gas_below_eq s STOP_AT_GASLIMIT) as (stop & c & Heq & Hv & Hb & Hrd & Hlow).
  apply runs_bind. eapply runs_eq; [exact Heq|].
  destruct (chain_view_eq _ _ Hv) as (_ & _ & _ & Hc). fold (cumulated s) in Hc.
  assert (Inv (set_chain c s) A) as HI1 by (by apply inv_set_chain).
  assert (progress s (set_chain c s)) as Hp1 by (by split).
  pose proof (done_quiet _ _ _ _ Hc Hd) as Hd1. set (s1 := set_chain c s) in *.
  destruct stop.
  { apply runs_ret. split_and!; try done; [split; [done|by apply earnings_set_chain]| |by apply Hlow].
    rewrite Hcp. by rewrite (progress_cumulated _ _ Hp1). }
  assert (usize_add (last_id d) 1 = last_id d + 1) as -> by (apply N.mod_small; lia).
  apply runs_bind. eapply runs_eq; [by apply load_updated_user_rewards_eq, (inv_ready s1 A)|].
  apply runs_bind. eapply runs_eq; [apply store_user_reward_data_eq|].
  fold (rewarded (last_id d + 1) s1).
  assert (last_id d + 1 ∈ users s1) as Hin by (apply elem_of_ids_up_to; unfold num_users_of in *; simpl; lia).
  pose proof (inv_rewarded s1 A _ HI1 Hin) as HI2.
  pose proof (done_succ _ _ s1 A HI1 Hlt Hd1) as Hd2.
  set (s2 := rewarded (last_id d + 1) s1) in *.
  assert (progress s s2) as Hp2 by (eapply progress_trans; [exact Hp1|apply progress_put]).
  change (num_users_of s) with (num_users_of s2).
  eapply runs_mono; [apply (IH s2 A); simpl; try done|].
  - rewrite Hcp. by rewrite (progress_cumulated _ _ Hp2).
  - change (num_users_of s2) with (num_users_of s). lia.
  - intros r s' ([HI' He'] & Hp' & Hr). split_and!; [split; [done|]|by eapply progress_trans|].
    { transitivity s1; [by apply earnings_set_chain|]. etrans; [by apply (earnings_rewarded s1 A)|exact He']. }
    destruct r as [d'|d']; [|done]. destruct Hr as (? & ? & Hl). split_and!; [done..|].
    by apply (low_gas_reads _ _ c).
Qed.

(** With all users up to date the contract owes what they can claim. *)
Definition all_settled s : Prop := ∀ u, u ∈ users s → checkpoint_of u s = cumulated s.

(** Neither stake nor settings matter to rewards that are up to date. *)
Lemma all_settled_kept s s' :
  st_users s' = st_users s → st_rewards s' = st_rewards s → cumulated s' = cumulated s →
  all_settled s → all_settled s' ∧ earnings_kept s s'.
Proof.
  intros Eu Er Ec Hall. assert (users s' = users s) as Eus by (unfold users; by rewrite Eu).
  assert (∀ u, u ∈ users s → checkpoint_of u s' = cumulated s') as Hall'.
  { intros u Hu. rewrite Ec, <-(Hall u Hu). unfold checkpoint_of. by rewrite Er. }
  split; [intros u Hu; apply Hall'; by rewrite <-Eus|]. split; [done|]. intros u Hu.
  rewrite !claimable_settled by auto. unfold unclaimed_of. by rewrite Er.
Qed.

Definition assigned s : N :=
  sum_over (λ u, unclaimed_of u s) (users s) + rs_sent_rewards (st_rewards s).

Lemma owed_of_settled s :
  1 ≤ num_users_of s → all_settled s →
  owed s = assigned s * (PERCENTAGE_DENOMINATOR * scale_of s).
Proof.
  intros Howner Hall. unfold owed, assigned. set (X := PERCENTAGE_DENOMINATOR * scale_of s).
  assert (owed_owner s = 0) as ->.
  { unfold owed_owner. rewrite Hall; [by rewrite N.sub_diag|].
    apply elem_of_ids_up_to. unfold num_users_of, OWNER_USER_ID in *. lia. }
  rewrite (sum_over_ext _ (λ u, X * unclaimed_of u s)).
  - rewrite sum_over_mul. lia.
  - intros u Hu. unfold owed_user. rewrite (Hall u Hu), N.sub_diag. fold X. lia.
Qed.

Lemma owed_settled s A :
  Inv s A → all_settled s → owed s = assigned s * (PERCENTAGE_DENOMINATOR * scale_of s).
Proof. intros HI. apply owed_of_settled, HI. Qed.

Lemma assigned_le s A : Inv s A → all_settled s → assigned s ≤ cumulated s.
Proof.
  intros HI Hall. pose proof (inv_solvent _ _ HI) as Hsol. unfold solvent in Hsol.
  rewrite (owed_settled s A HI Hall) in Hsol.
  apply (N.mul_le_mono_pos_r _ _ (PERCENTAGE_DENOMINATOR * scale_of s)); [|done].
  unfold scale_of, PERCENTAGE_DENOMINATOR. lia.
Qed.

(** What has been assigned was received, whoever is settled. *)
Lemma assigned_received s A : Inv s A → assigned s ≤ cumulated s.
Proof.
  intros HI. pose proof (inv_solvent _ _ HI) as Hsol. unfold solvent in Hsol.
  apply (N.mul_le_mono_pos_r _ _ (PERCENTAGE_DENOMINATOR * scale_of s)).
  { unfold scale_of, PERCENTAGE_DENOMINATOR. lia. }
  etrans; [|exact Hsol]. unfold owed, assigned. rewrite N.mul_add_distr_r.
  apply N.add_le_mono; [|done]. etrans; [|apply N.le_add_r].
  rewrite N.mul_comm, <-sum_over_mul. apply sum_over_le. intros u _. unfold owed_user.
  rewrite N.mul_comm. apply N.le_add_r.
Qed.

Lemma inv_bonus s A v :
  Inv s A → all_settled s → assigned s + v ≤ cumulated s →
  let s' := lens_set (set_user_rew_unclaimed OWNER_USER_ID
    (unclaimed_of OWNER_USER_ID s + v) (st_rewards s)) s : State C in
  Inv s' A ∧ all_settled s' ∧ assigned s' = assigned s + v ∧ earnings_raised s s'.
Proof.
  intros HI Hall Hv s'.
  assert (∀ u, unclaimed_of u s' = if decide (OWNER_USER_ID = u)
    then unclaimed_of OWNER_USER_ID s + v else unclaimed_of u s) as Hun.
  { intros u. unfold s', unclaimed_of at 1, get_user_rew_unclaimed; simpl.
    rewrite lookup_insert. by case_decide. }
  assert (OWNER_USER_ID ∈ users s) as Hin.
  { apply elem_of_ids_up_to. pose proof (inv_owner_id _ _ HI).
    unfold num_users_of, OWNER_USER_ID in *. lia. }
  assert (assigned s' = assigned s + v) as Ha.
  { unfold assigned. change (users s') with (users s).
    change (rs_sent_rewards (st_rewards s')) with (rs_sent_rewards (st_rewards s)).
    pose proof (sum_over_change (λ u, unclaimed_of u s') (λ u, unclaimed_of u s) (users s)
      OWNER_USER_ID (nodup_ids_up_to _) Hin) as Hs. cbv beta in Hs.
    rewrite (Hun OWNER_USER_ID), decide_True in Hs by done.
    assert (∀ y, y ∈ users s → y ≠ OWNER_USER_ID → unclaimed_of y s' = unclaimed_of y s) as Hne.
    { intros y _ Hy. by rewrite Hun, decide_False. }
    specialize (Hs Hne). lia. }
  assert (all_settled s') as Hall' by exact Hall.
  assert (earnings_raised s s') as Her.
  { split; [done|intros u Hu Hne|intros Ho]; rewrite !claimable_settled, Hun by auto;
      [by rewrite decide_False|rewrite decide_True by done; lia]. }
  split; [|by split_and!].
  assert (owed s' = assigned s' * (PERCENTAGE_DENOMINATOR * scale_of s)) as Ho.
  { apply (owed_of_settled s'); [apply HI|done]. }
  destruct HI. split; try done.
  - intros u Hu. rewrite Hun, decide_False; [auto|]. intros <-.
    destruct Hu as [Hu|Hu]; [done|]. change (num_users_of s') with (num_users_of s) in Hu.
    unfold OWNER_USER_ID in Hu. lia.
  - unfold solvent. rewrite Ho, Ha. change (scale_of s') with (scale_of s).
    change (cumulated s') with (cumulated s). by apply N.mul_le_mono_r.
Qed.

Lemma compute_all_rewards_spec s A d :
  Inv s A → num_users_of s < usize_max_plus_1 → data_ok d s →
  runs (compute_all_rewards d) s (λ r s',
    Inv s' A ∧ progress s s' ∧ earnings_raised s s' ∧
    match r with
    | Some d' => data_ok d' s' ∧ low_gas STOP_AT_GASLIMIT (st_chain s)
    | None => all_settled s' ∧ assigned s' = cumulated s'
    end).
Proof.
  intros HI Hmax Hd. unfold compute_all_rewards. run_gets.
  fold (cumulated s).
  set (d1 := if negb (rewards_checkpoint d =? cumulated s) then _ else d).
  assert (rewards_checkpoint d1 = cumulated s ∧
    done_up_to (last_id d1) (sum_unclaimed d1) s) as [Hcp1 Hd1].
  { unfold d1. destruct (N.eqb_spec (rewards_checkpoint d) (cumulated s)); simpl; [split; [done|by apply Hd]|].
    split; [done|]. split_and!; [lia|done|]. intros u Hu%elem_of_ids_up_to. lia. }
  run_gets. fold (num_users_of s). apply runs_bind.
  eapply runs_mono; [apply (compute_all_rewards_loop_spec _ s A d1 HI Hmax Hcp1 Hd1); lia|].
  intros [d'|d'] s' ([HI' He%earnings_kept_raised] & Hp & Hr).
  { apply runs_ret. split_and!; [done|done|done| |apply Hr].
    split; [by rewrite (proj1 Hr)|intros _; apply Hr]. }
  apply runs_bind, runs_gets, runs_bind, runs_gets. fold (cumulated s').
  destruct Hr as (_ & Hsum & Hall).
  change (ids_up_to (num_users_of s')) with (users s') in *.
  pose proof (assigned_le s' A HI' Hall) as Hle. unfold assigned in Hle. rewrite <-Hsum in Hle.
  apply runs_bind, runs_big_sub; [lia|]. apply runs_bind, runs_big_sub; [lia|].
  set (v := cumulated s' - sum_unclaimed d' - rs_sent_rewards (st_rewards s')).
  assert (assigned s' + v = cumulated s') as Hv by (unfold assigned, v; rewrite <-Hsum; lia).
  apply runs_bind. destruct (N.ltb_spec 0 v) as [Hpos|Hz].
  - apply runs_bind, runs_gets, runs_zoom, runs_modify, runs_ret.
    destruct (inv_bonus s' A v HI' Hall ltac:(lia)) as (HI'' & Hall' & Ha & Her).
    split_and!; [exact HI''| |by etrans|exact Hall'|].
    + eapply progress_trans; [exact Hp|by split].
    + etrans; [exact Ha|]. by rewrite Hv.
  - apply runs_ret, runs_ret. split_and!; [done..|]. lia.
Qed.
End SolvencySpec.
