(* ===== verification/DustSpec.v ===== *)
(** * The dust cleanup

    Both cleanups walk a type list backwards from their checkpoint and convert
    every fund below the limit, until the list ends or the gas runs low.  They
    keep the invariant and everything that anybody owns, and a walk that is
    completed leaves no dust behind. *)
From stdpp Require Import base numbers list gmap strings.
From S2P Require Import Prelude PtrList FundTypes FundModule FundLedger FundRep FundLoops.
From S2P Require Import FundTotals FundMoves FundSpec UserData NodeConfig Settings Chain State.
From S2P Require Import FundTransf FundView Rewards UserStake ResetCheckpoint TransfSpec RewardSpec.
From S2P Require Import ContractInv StakeSpec EndpointSpec PayoutSpec SolvencySpec.

(** ** Dust on the ledger *)
Definition is_dust (limit : N) (b : Bucket) : Prop := b_bal b < limit.
#[export] Instance is_dust_dec limit b : Decision (is_dust limit b).
Proof. unfold is_dust. apply _. Defined.
Definition dust (limit : N) (bs : list Bucket) : list Bucket := filter (is_dust limit) bs.
Definition dust_of (u limit : N) (bs : list Bucket) : N :=
  total (filter (λ b, b_user b = u) (dust limit bs)).

(** The filter of a cleanup. *)
Definition sweep (limit : N) (d : FundDescription) (b : Bucket) : option FundDescription :=
  if b_bal b <? limit then Some d else None.

Lemma sweep_Some limit d b d' : sweep limit d b = Some d' ↔ d' = d ∧ is_dust limit b.
Proof.
  unfold sweep, is_dust. destruct (N.ltb_spec (b_bal b) limit); split.
  - by intros [= <-].
  - by intros [-> _].
  - done.
  - intros [_ ?]. lia.
Qed.

Lemma dust_cons limit b bs :
  dust limit (b :: bs) = if b_bal b <? limit then b :: dust limit bs else dust limit bs.
Proof.
  unfold dust, is_dust. destruct (N.ltb_spec (b_bal b) limit).
  - by rewrite filter_cons_True.
  - by rewrite filter_cons_False by lia.
Qed.

Lemma sweep_extracted limit d bs : l_extracted_all (sweep limit d) None bs = total (dust limit bs).
Proof.
  induction bs as [|b bs IH]; [done|]. rewrite dust_cons. simpl. unfold sweep at 1.
  destruct (b_bal b <? limit); [|done]. simpl. by rewrite IH.
Qed.

Lemma sweep_flow u limit d bs : flow_of u (sweep limit d) None bs = dust_of u limit bs.
Proof.
  unfold flow_of, dust_of. induction bs as [|b bs IH]; [done|]. rewrite dust_cons. simpl.
  unfold sweep at 1. destruct (b_bal b <? limit); [|done]. rewrite filter_cons, IH. simpl.
  case_bool_decide; [by rewrite decide_True|by rewrite decide_False].
Qed.

(** Converting one whole bucket. *)
Lemma convert_moved A b d :
  af_ok A → b ∈ af_ledger A → type_key b ≠ fund_type d →
  moved (type_key b) (fund_type d) (b_bal b) (λ u, if decide (b_user b = u) then b_bal b else 0)
    A (l_convert None d b A).
Proof.
  intros Hok Hb Hd. set (f := λ _ : Bucket, Some d).
  assert (b ∈ dgrp Forwards type_key (type_key b) (af_ledger A)) as Hg by (by apply elem_of_dgrp).
  apply list_elem_of_split in Hg as (pre & post & Hg).
  pose proof (convert_all_moved type_key f (type_key b) (fund_type d) (λ _ _, eq_refl)
    ltac:(by intros c d' [= <-]) Hd Forwards (type_key b) None [b] A pre post ltac:(done) Hok Hg)
    as [M1 M2 M3 M4 M5 M6].
  assert (∀ u, flow_of u f None [b] = if decide (b_user b = u) then b_bal b else 0) as Hfl.
  { intros u. unfold flow_of. simpl. case_bool_decide; case_decide; done || lia. }
  simpl in M1, M2, M3, M4, M5, M6. rewrite N.add_0_r in M1, M2.
  split; try done; intros u; rewrite <-Hfl; auto.
Qed.

(** What is left of a list after a walk. *)
Lemma elem_of_converted t f b A c :
  (∀ d, f b = Some d → fund_type d ≠ t) → af_ok A → b ∈ af_ledger A → type_key b = t →
  type_key c = t → c ∈ af_ledger (converted f b A) → c ∈ af_ledger A ∧ (c = b → f b = None).
Proof.
  intros Ht Hok Hb Hbt Hct. unfold converted. destruct (f b) as [d|]; [|done].
  intros Hc. assert (c ∈ grp type_key t (af_ledger (l_convert None d b A))) as Hg
    by (by apply elem_of_grp).
  unfold l_convert in Hg. rewrite grp_l_increase in Hg; [|done|..].
  - apply elem_of_grp in Hg as [_ [Hne Hin]%elem_of_remove_bucket]. split; [done|].
    by intros ->.
  - intros c' -> Hc'. by apply (Ht d).
  - by apply nodup_l_extract, ok_nodup.
Qed.

Lemma converted_walk f dir t A b bs pre :
  (∀ b d, f b = Some d → fund_type d ≠ t) → af_ok A →
  dgrp dir type_key t (af_ledger A) = pre ++ b :: bs →
  ∃ pre', dgrp dir type_key t (af_ledger (converted f b A)) = pre' ++ bs.
Proof.
  intros Ht Hok Hg. unfold converted. destruct (f b) as [d|] eqn:Hfb.
  - eapply walk_convert; [done|by apply ok_nodup|done|]. intros c -> Hc. by apply (Ht b d).
  - exists (pre ++ [b]). by rewrite <-(assoc_L (++)).
Qed.

Lemma af_ok_converted f b A : af_ok A → af_ok (converted f b A).
Proof. unfold converted. destruct (f b); [apply af_ok_convert|done]. Qed.

Lemma swept_list f dir t bs : ∀ A pre post,
  (∀ b d, f b = Some d → fund_type d ≠ t) → af_ok A →
  dgrp dir type_key t (af_ledger A) = pre ++ bs ++ post →
  ∀ c, type_key c = t → c ∈ af_ledger (snd (l_convert_all f None bs A)) →
  c ∈ af_ledger A ∧ (c ∈ bs → f c = None).
Proof.
  induction bs as [|b bs IH]; intros A pre post Ht Hok Hg c Hc Hin.
  { split; [done|set_solver]. }
  rewrite l_convert_all_cons in Hin. simpl in Hg.
  destruct (converted_walk f dir t A b (bs ++ post) pre Ht Hok Hg) as [pre' Hg'].
  assert (b ∈ dgrp dir type_key t (af_ledger A)) as [Hbt Hb]%elem_of_dgrp
    by (rewrite Hg; set_solver).
  destruct (IH _ _ _ Ht (af_ok_converted f b A Hok) Hg' c Hc Hin) as [Hin' Hf].
  destruct (elem_of_converted t f b A c (Ht b) Hok Hb Hbt Hc Hin') as [HinA Heq].
  split; [done|]. intros [->|?]%elem_of_cons; auto.
Qed.

(** ** Sweeping a list *)
Section Sweep.
Context {C : Type} `{ChainLaws C}.
Implicit Type s : State C.

(** While a list is swept the invariant holds at every visit. *)
Record sweeping s0 s A : Prop := {
  sw_inv : Inv s A;
  sw_progress : progress s0 (lens_set (st_funds s0) s);
  sw_earnings : earnings_kept s0 s;
}.

Lemma progress_funds s0 s (fs : FundStore) :
  progress s0 (lens_set (st_funds s0) s) → progress s0 (lens_set (st_funds s0) (lens_set fs s)).
Proof. intros []. by split. Qed.

Lemma sweeping_refl s A : Inv s A → sweeping s s A.
Proof. intros HI. split; [done| |done]. by destruct s. Qed.

(** Converting a fund, with the rewards of its user settled if it was active. *)
Lemma inv_convert s A b d fs :
  Inv s A → b ∈ af_ledger A → type_key b ≠ fund_type d → fund_type d ≠ FundType.Active →
  (type_key b = FundType.Active →
     checkpoint_of (b_user b) s = cumulated s ∧ checkpoint_of OWNER_USER_ID s = cumulated s) →
  Rep fs (l_convert None d b A) → Inv_kept s (lens_set fs s) (l_convert None d b A).
Proof.
  intros HI Hb Hne Hact Hset HR.
  pose proof (convert_moved A b d (rep_af_ok _ _ _ (inv_rep _ _ HI)) Hb Hne) as Hm.
  apply (inv_only_funds s _ A); [done|apply only_funds_set, only_funds_refl|exact HR|..].
  - by eapply moved_unregistered, HI.
  - etrans; [|apply (inv_cap _ _ HI)]. destruct (decide (type_key b = FundType.Active)) as [Ht|Ht].
    + pose proof (mv_src _ _ _ _ _ _ Hm) as Hs. rewrite Ht in Hs. lia.
    + by rewrite (mv_other _ _ _ _ _ _ Hm).
  - set (s' := lens_set fs s : State C).
    assert (Rep (st_funds s') (l_convert None d b A)) as HR' by done.
    destruct (decide (type_key b = FundType.Active)) as [Ht|Ht].
    + destruct (Hset Ht) as [Hu Ho]. split; [|by right]. intros u Hin.
      destruct (decide (b_user b = u)) as [<-|Hne']; [by right|left].
      assert (u ≠ 0) by (apply elem_of_ids_up_to in Hin; lia).
      rewrite (active_of_user HR'), (active_of_user (inv_rep _ _ HI)) by done.
      pose proof (mv_user_src _ _ _ _ _ _ Hm u) as Hs. rewrite Ht in Hs.
      rewrite decide_False in Hs by done. lia.
    + split; [intros u Hin|]; left.
      * assert (u ≠ 0) by (apply elem_of_ids_up_to in Hin; lia).
        rewrite (active_of_user HR'), (active_of_user (inv_rep _ _ HI)) by done.
        by apply (mv_user_other _ _ _ _ _ _ Hm).
      * rewrite (total_active_eq HR'), (total_active_eq (inv_rep _ _ HI)).
        by apply (mv_other _ _ _ _ _ _ Hm).
Qed.

(** The owner of a fund is a registered user. *)
Lemma owner_registered s A b :
  Rep (st_funds s) A → (∀ u t, unregistered u s → ut_of u t A = 0) →
  b ∈ af_ledger A → ¬ unregistered (b_user b) s.
Proof.
  intros HR Ho Hb Hun. pose proof (Ho _ (type_key b) Hun) as Hz. unfold ut_of in Hz.
  pose proof (amount_elem (of_user_type (b_user b) (type_key b)) b _ Hb) as Hle.
  unfold worth, share in Hle. rewrite of_user_type_spec, bool_decide_true in Hle by done.
  pose proof (rep_pos _ _ _ HR b Hb). lia.
Qed.
Lemma inv_bucket_user s A b : Inv s A → b ∈ af_ledger A → b_user b ∈ users s.
Proof.
  intros HI Hb. apply elem_of_users. apply (owner_registered s A b); [apply HI..|done].
Qed.

(** A visit that only reads the gas. *)
Lemma sweeping_gas s0 s A limit :
  sweeping s0 s A →
  runs (gas_below limit) s (λ stop s', (stop = true → low_gas limit (st_chain s0)) ∧
    sweeping s0 s' A ∧ st_rewards s' = st_rewards s ∧ cumulated s' = cumulated s).
Proof.
  intros [HI Hp He]. destruct (gas_below_eq s limit) as (stop & c & Heq & Hv & Hb & Hr & Hlow).
  eapply runs_eq; [exact Heq|].
  destruct (chain_view_eq _ _ Hv) as (_ & _ & _ & Hc). fold (cumulated s) in Hc.
  split_and!; [| |done|done].
  - intros Hst. eapply low_gas_reads; [apply (pg_reads _ _ Hp)|]. by apply Hlow.
  - split; [by apply inv_set_chain|eapply progress_trans; [exact Hp|]; by split|].
    etrans; [exact He|]. by apply earnings_set_chain.
Qed.

(** What a walk over [bs], the part of the list from the checkpoint on, does: it
    visits [vs] and stops before [rest]. *)
Record swept (t : FundType) (d : FundDescription) (limit gas : N) (pre vs rest : list Bucket)
    s A (r : N) s' A' : Prop := {
  sp_stop : rest = [] ∨ low_gas gas (st_chain s);
  sp_next : r = head0 (ids rest);
  sp_sweeping : sweeping s s' A';
  sp_moved : moved t (fund_type d) (total (dust limit vs)) (λ u, dust_of u limit vs) A A';
  sp_grown : grown (fund_type d) (N.of_nat (length vs)) A A';
  sp_clean c : pre = [] → rest = [] → c ∈ af_ledger A' → type_key c = t → ¬ is_dust limit c;
}.

Section Walk.
Variables (t : FundType) (d : FundDescription) (limit gas : N).
Variable filter_transform : FundItem → M (State C) (option FundDescription).
Variable K : State C → Prop.
Hypothesis t_d : fund_type d ≠ t.
Hypothesis d_inactive : fund_type d ≠ FundType.Active.
Hypothesis K_rewards : ∀ s s', st_rewards s' = st_rewards s → cumulated s' = cumulated s →
  K s → K s'.
Hypothesis filter_ok : ∀ s A b, Inv s A → K s → b ∈ af_ledger A → type_key b = t →
  runs (filter_transform (item_of (af_ledger A) b)) s (λ o s', o = Some d ∧ Inv s' A ∧ K s' ∧
    progress s s' ∧ earnings_kept s s' ∧ (t = FundType.Active →
      checkpoint_of (b_user b) s' = cumulated s' ∧ checkpoint_of OWNER_USER_ID s' = cumulated s')).

Lemma progress_lift s0 s s' :
  progress s0 (lens_set (st_funds s0) s) → progress s s' →
  progress s0 (lens_set (st_funds s0) s').
Proof. intros Hp [Hf]. eapply progress_trans; [exact Hp|]. by split. Qed.

Lemma sweep_visit s0 s A b :
  sweeping s0 s A ∧ K s → b ∈ af_ledger A → type_key b = t →
  runs (if balance (item_of (af_ledger A) b) <? limit
        then filter_transform (item_of (af_ledger A) b) else ret None) s
    (λ o s', o = sweep limit d b ∧ (sweeping s0 s' A ∧ K s') ∧
      ∀ d' fs, sweep limit d b = Some d' → Rep fs (l_convert None d' b A) →
        sweeping s0 (lens_set fs s') (l_convert None d' b A) ∧ K (lens_set fs s')).
Proof.
  intros [[HI Hp He] HK] Hb Ht. change (balance (item_of (af_ledger A) b)) with (b_bal b).
  unfold sweep. destruct (b_bal b <? limit).
  - eapply runs_mono; [by apply filter_ok|]. intros o s' (-> & HI' & HK' & Hp' & He' & Hset).
    pose proof (progress_lift s0 s s' Hp Hp') as Hp2. pose proof (transitivity He He') as He2.
    split_and!; [done|by split|done|].
    intros d' fs [= <-] HR.
    assert (Inv_kept s' (lens_set fs s') (l_convert None d b A)) as [HI2 He3]
      by (apply inv_convert; rewrite ?Ht; auto).
    split; [split; [done|by apply progress_funds|by transitivity s']|].
    by apply (K_rewards s').
  - apply runs_ret. by split_and!.
Qed.

Lemma swap_dust_spec s A cur pre bs :
  Inv s A → K s → dgrp Backwards type_key t (af_ledger A) = pre ++ bs →
  (if cur =? 0 then pre = [] else cur = head0 (ids bs)) →
  af_max A + N.of_nat (length bs) < usize_max_plus_1 →
  runs (swap_dust cur limit t filter_transform (gas_below gas)) s (λ r s',
    ∃ vs rest A', bs = vs ++ rest ∧ K s' ∧ swept t d limit gas pre vs rest s A r s' A').
Proof.
  intros HI HK Hg Hcur Hmax. pose proof (rep_af_ok _ _ _ (inv_rep _ _ HI)) as Hok.
  eapply runs_mono.
  { apply (split_convert_checkpoint_rep (λ s1 A1, sweeping s s1 A1 ∧ K s1)
      (low_gas gas (st_chain s)) Backwards t (gas_below gas)
      (λ i, if balance i <? limit then filter_transform i else ret None) (sweep limit d))
      with (A := A) (pre := pre) (bs := bs); try done.
    - intros s1 A1 [Hs _]. apply Hs.
    - intros s1 A1 [Hs HK1]. eapply runs_mono; [by apply (sweeping_gas s)|].
      intros stop s2 (Hlow & Hs2 & Er & Ec). split_and!; [done|done|]. by apply (K_rewards s1).
    - intros s1 A1 b HI1 Hb Ht. by apply sweep_visit.
    - intros b d' [-> _]%sweep_Some. done. }
  intros r s' (vs & rest & -> & Hst & -> & Hs & HK').
  exists vs, rest, (snd (l_convert_all (sweep limit d) None vs A)). split_and!; [done..|].
  assert (∀ b d', sweep limit d b = Some d' → fund_type d' = fund_type d) as Hd
    by (by intros b d' [-> _]%sweep_Some).
  assert (∀ b d', sweep limit d b = Some d' → fund_type d' ≠ t) as Hdt
    by (by intros b d' [-> _]%sweep_Some).
  split; [done|done|done| | |].
  - destruct (convert_all_moved type_key (sweep limit d) t (fund_type d) (λ _ _, eq_refl) Hd
      (not_eq_sym t_d) Backwards t None vs A pre rest ltac:(done) Hok Hg) as [M1 M2 M3 M4 M5 M6].
    rewrite sweep_extracted in M1, M2.
    split; try done; intros u; rewrite <-(sweep_flow u limit d); auto.
  - by apply grown_convert_all.
  - intros c -> -> Hc Hct Hd'.
    destruct (swept_list (sweep limit d) Backwards t vs A [] [] Hdt Hok Hg c Hct Hc) as [Hin Hn].
    assert (c ∈ dgrp Backwards type_key t (af_ledger A)) as Hv by (by apply elem_of_dgrp).
    rewrite Hg, app_nil_l, app_nil_r in Hv. specialize (Hn Hv).
    assert (sweep limit d c = Some d) by (by apply sweep_Some). congruence.
Qed.
End Walk.

(** ** The endpoints *)
Lemma sum_kept_staked s s' A A' :
  tt_of FundType.Active A' + tt_of FundType.UnStaked A' =
    tt_of FundType.Active A + tt_of FundType.UnStaked A →
  st_settings s' = st_settings s → within_cap s A → within_cap s' A'.
Proof.
  unfold within_cap, cap_ok, cap_of, bootstrap_of. intros Hsum ->. by rewrite Hsum.
Qed.

Lemma alike_dust id s : alike s (set_dust_cleanup_checkpoint id s).
Proof. by split. Qed.

Lemma update_dust_spec s (f : N → M (State C) N) (Q : N → State C → Prop) :
  runs (f (st_dust_cleanup_checkpoint s)) s Q →
  runs (update_dust_checkpoint f) s (λ _ s', ∃ id s1, Q id s1 ∧
    s' = set_dust_cleanup_checkpoint id s1).
Proof.
  intros Hf. unfold update_dust_checkpoint, mapper_update. run_gets. apply runs_bind, runs_bind.
  eapply runs_mono; [exact Hf|]. intros id s1 HQ. apply runs_ret, runs_bind, runs_modify, runs_ret.
  by exists id, s1.
Qed.

(** What the cleanup of the waiting list leaves. *)
Record waiting_cleaned (limit : N) (pre vs rest : list Bucket) s A s' A' : Prop := {
  wc_inv : Inv s' A';
  wc_staked : staked_ok s' A';
  wc_stop : rest = [] ∨ low_gas DUST_GASLIMIT (st_chain s);
  wc_next : st_dust_cleanup_checkpoint s' = head0 (ids rest);
  wc_op : st_global_op_checkpoint s' = st_global_op_checkpoint s;
  wc_moved : moved FundType.Waiting FundType.WithdrawOnly (total (dust limit vs))
    (λ u, dust_of u limit vs) A A';
  wc_holdings u : holdings u A' = holdings u A;
  wc_earnings : earnings_kept s s';
  wc_clean : pre = [] → rest = [] →
    count_dust_items_waiting_list limit (st_funds s') = Ok 0;
}.

Lemma count_clean fs A t (p : FundItem → bool) :
  Rep fs A → (∀ c, c ∈ af_ledger A → type_key c = t → p (item_of (af_ledger A) c) = false) →
  count_fund_items_by_type t p fs = Ok 0.
Proof.
  intros HR Hp. unfold count_fund_items_by_type. rewrite (fold_type_list_rep _ _ A) by done.
  f_equal. assert (∀ L, L ⊆ grp type_key t (af_ledger A) →
    foldl (λ a b, if p (item_of (af_ledger A) b) then usize_add a 1 else a) 0 L = 0) as Hgen;
    [|by apply Hgen].
  induction L as [|b L IH]; intros Hsub; simpl; [done|].
  assert (b ∈ grp type_key t (af_ledger A)) as [Ht Hb]%elem_of_grp by set_solver.
  rewrite (Hp b Hb Ht). apply IH. set_solver.
Qed.

Lemma no_dust_count fs A t limit :
  Rep fs A → (∀ c, c ∈ af_ledger A → type_key c = t → ¬ is_dust limit c) →
  count_fund_items_by_type t (λ i, balance i <? limit) fs = Ok 0.
Proof.
  intros HR Hc. apply (count_clean fs A); [done|]. intros c Hin Ht.
  apply N.ltb_ge. specialize (Hc c Hin Ht). unfold is_dust in Hc. simpl. lia.
Qed.

Lemma dust_cleanup_waiting_spec s A limit pre bs :
  get_caller (st_chain s) = get_owner_address (st_chain s) →
  st_global_op_checkpoint s = GlobalOpCheckpoint.None →
  Inv s A → staked_ok s A → dgrp Backwards type_key FundType.Waiting (af_ledger A) = pre ++ bs →
  (if st_dust_cleanup_checkpoint s =? 0 then pre = []
   else st_dust_cleanup_checkpoint s = head0 (ids bs)) →
  af_max A + N.of_nat (length bs) < usize_max_plus_1 →
  runs (dust_cleanup_waiting_list limit) s (λ _ s', ∃ vs rest A', bs = vs ++ rest ∧
    waiting_cleaned limit pre vs rest s A s' A').
Proof.
  intros Hown Hop HI [Hcap Hnone] Hg Hcur Hmax. unfold dust_cleanup_waiting_list.
  apply owner_only_runs; [done|]. apply runs_bind. eapply runs_eq; [by apply no_global_op_ok|].
  eapply runs_mono.
  { apply update_dust_spec, (swap_dust_spec FundType.Waiting FundDescription.WithdrawOnly limit
      DUST_GASLIMIT _ (λ _, True)) with (A := A) (pre := pre) (bs := bs); try done.
    intros s1 A1 b HI1 _ Hb Ht. apply runs_ret. by split_and!. }
  intros _ s' (id & s1 & (vs & rest & A' & -> & _ & [Hst -> [HI' Hp He] Hm _ Hcl]) & ->).
  exists vs, rest, A'. split; [done|].
  pose proof (mv_other _ _ _ _ _ _ Hm FundType.Active ltac:(done) ltac:(done)) as Ha.
  pose proof (mv_other _ _ _ _ _ _ Hm FundType.UnStaked ltac:(done) ltac:(done)) as Hu.
  pose proof (mv_src _ _ _ _ _ _ Hm) as Hw. destruct Hp as [_ _ _ Es Eop _ _ _ _ _]. simpl in Es, Eop.
  split; try done.
  - by apply (inv_alike s1); [apply alike_dust|].
  - split.
    + apply (sum_kept_staked s _ A A'); [by rewrite Ha, Hu|exact Es|done].
    + unfold none_waits, bootstrap_of in *. simpl. rewrite Es. intros Hb. specialize (Hnone Hb). lia.
  - intros u. apply (moved_holdings _ _ _ _ _ _ u Hm); set_solver.
  - etrans; [exact He|]. apply earnings_alike, alike_dust.
  - intros -> ->. apply (no_dust_count _ A'); [apply HI'|]. intros c Hc Ht. by apply Hcl.
Qed.
(** What the cleanup of active stake leaves: the dust is unstaked, and then waiting
    stake takes the place of unstaked stake. *)
Record active_cleaned (limit : N) (vs rest : list Bucket) s A s' A' : Prop := {
  ac_inv : Inv s' A';
  ac_staked : staked_ok s' A';
  ac_next : st_dust_cleanup_checkpoint s' = head0 (ids rest);
  ac_op : st_global_op_checkpoint s' = st_global_op_checkpoint s;
  ac_holdings u : holdings u A' = holdings u A;
  ac_stake u : stake_of u A' + dust_of u limit vs = stake_of u A;
  ac_earnings : earnings_kept s s';
  ac_replaced : ∃ A1,
    moved FundType.Active FundType.UnStaked (total (dust limit vs)) (λ u, dust_of u limit vs) A A1 ∧
    replacement (bootstrap_of s) (cap_of s) A1 A';
}.

Record dust_room (full : Prop) (A : AFunds) : Prop := {
  dr_ids : af_max A + 2 * len_of FundType.Active A + len_of FundType.UnStaked A
    + len_of FundType.Waiting A < usize_max_plus_1;
  dr_unstaked : vec_room full (len_of FundType.UnStaked A + len_of FundType.Active A);
  dr_waiting : vec_room full (len_of FundType.Waiting A);
}.

(** The gas that the cleanup reserves, half of what it starts with. *)
Definition reserved_gas s : N :=
  u64_add (fst (get_gas_left (st_chain s)) / 2) DUST_GASLIMIT.

Lemma gas_left_eq s : ∃ c, gas_left s = Ok (fst (get_gas_left (st_chain s)), set_chain c s) ∧
  chain_view c = chain_view (st_chain s) ∧ get_sc_balance c = get_sc_balance (st_chain s) ∧
  reads (st_chain s) c.
Proof.
  unfold gas_left. pose proof (gas_view (st_chain s)) as Hv.
  pose proof (gas_balance (st_chain s)) as Hb.
  destruct (get_gas_left (st_chain s)) as [g c] eqn:Hg. simpl in *. exists c.
  split_and!; [done..|]. apply rtc_once. by rewrite Hg.
Qed.

(** Settling the owner of an active fund before it is converted. *)
Definition owner_settled s : Prop := checkpoint_of OWNER_USER_ID s = cumulated s.

Lemma settle_item s A b :
  Inv s A → owner_settled s → b ∈ af_ledger A →
  runs (if negb (user_id (item_of (af_ledger A) b) =? 0) then
          compute_one_user_reward (user_id (item_of (af_ledger A) b)) ;;;
          ret (Some (FundDescription.UnStaked 0))
        else ret None) s
    (λ o s', o = Some (FundDescription.UnStaked 0) ∧ Inv s' A ∧ owner_settled s' ∧
      progress s s' ∧ earnings_kept s s' ∧ (FundType.Active = FundType.Active →
        checkpoint_of (b_user b) s' = cumulated s' ∧ owner_settled s')).
Proof.
  intros HI Ho Hb. change (user_id (item_of (af_ledger A) b)) with (b_user b).
  pose proof (inv_bucket_user s A b HI Hb) as Hu.
  assert (b_user b ≠ 0) as Hnz by (apply elem_of_ids_up_to in Hu; lia).
  rewrite (proj2 (N.eqb_neq _ _) Hnz). simpl. apply runs_bind.
  eapply runs_eq; [by apply compute_one_user_reward_eq, (inv_ready s A)|]. apply runs_ret.
  assert (∀ v, checkpoint_of v (rewarded (b_user b) s) =
    if decide (b_user b = v) then cumulated s else checkpoint_of v s) as Hcp.
  { intros v. unfold rewarded. rewrite put_checkpoint.
    case_decide; [|done]. apply updated_checkpoint, HI. }
  assert (owner_settled (rewarded (b_user b) s)) as Ho'.
  { unfold owner_settled. rewrite Hcp. case_decide; [done|exact Ho]. }
  split_and!; [done|by apply inv_rewarded|done|apply progress_put|by eapply earnings_rewarded|].
  intros _. split; [|done]. by rewrite Hcp, decide_True.
Qed.

Lemma dust_cleanup_active_spec full s A limit pre bs :
  get_caller (st_chain s) = get_owner_address (st_chain s) →
  st_global_op_checkpoint s = GlobalOpCheckpoint.None →
  Inv s A → within_cap s A → dgrp Backwards type_key FundType.Active (af_ledger A) = pre ++ bs →
  (if st_dust_cleanup_checkpoint s =? 0 then pre = []
   else st_dust_cleanup_checkpoint s = head0 (ids bs)) →
  dust_room full A →
  outcome (dust_cleanup_active limit) s (crowded full) (λ _ s', ∃ vs rest A', bs = vs ++ rest ∧
    (rest = [] ∨ low_gas (reserved_gas s) (st_chain s)) ∧ active_cleaned limit vs rest s A s' A').
Proof.
  intros Hown Hop HI Hcap Hg Hcur [Hids Hun Hwa]. unfold dust_cleanup_active.
  assert (N.of_nat (length bs) ≤ len_of FundType.Active A) as Hlen.
  { unfold len_of, klen. rewrite <-(length_dgrp Backwards), Hg, length_app. lia. }
  eapply owner_only_outcome; [done|]. apply outcome_bind. eapply outcome_eq; [by apply no_global_op_ok|].
  destruct (gas_left_eq s) as (c & Heq & Hv & Hb & Hr).
  apply outcome_bind. eapply outcome_eq; [exact Heq|]. set (s1 := set_chain c s).
  destruct (chain_view_eq _ _ Hv) as (_ & _ & _ & Hc).
  assert (Inv s1 A) as HI1 by (by apply inv_set_chain).
  apply outcome_bind. eapply outcome_eq; [by apply compute_one_user_reward_eq, (inv_ready s1 A)|].
  set (s2 := rewarded OWNER_USER_ID s1).
  assert (OWNER_USER_ID ∈ users s1) as Hin.
  { apply elem_of_ids_up_to. pose proof (inv_owner_id _ _ HI1).
    unfold num_users_of, OWNER_USER_ID in *. lia. }
  assert (Inv s2 A) as HI2 by (by apply inv_rewarded).
  assert (owner_settled s2) as Ho2.
  { unfold owner_settled, s2, rewarded. rewrite put_checkpoint, decide_True by done.
    rewrite updated_checkpoint; [done|apply HI1]. }
  eapply outcome_after.
  { apply update_dust_spec, (swap_dust_spec FundType.Active (FundDescription.UnStaked 0) limit
      (reserved_gas s) _ owner_settled) with (A := A) (pre := pre) (bs := bs);
      try done; [| |lia].
    - unfold owner_settled. intros x y Er Ec. unfold checkpoint_of. by rewrite Er, Ec.
    - intros x B b HIx Hox Hbx _. by apply settle_item. }
  intros _ s3 (id & s4 & (vs & rest & A1 & -> & _ & [Hst -> [HI4 Hp He4] Hm [Gm Gd Go _] _]) & ->).
  rewrite length_app in Hlen.
  specialize (Go FundType.Waiting ltac:(done)).
  pose proof (mv_src _ _ _ _ _ _ Hm) as Ms. pose proof (mv_dst _ _ _ _ _ _ Hm) as Md.
  simpl in Gd, Md.
  eapply outcome_post.
  { apply (use_waiting_spec full _ A1); [by apply (inv_alike s4); [apply alike_dust|]| |].
    { split; [lia|eapply vec_room_le; [|exact Hun]; lia|eapply vec_room_le; [|exact Hwa]; lia]. }
    apply (sum_kept_staked s _ A A1); [lia|exact (pg_settings _ _ Hp)|done]. }
  intros _ s' (A' & [HI' Hst' [_ _ _ Fop Fd _] _ Hh Hs' He' Htot]).
  exists vs, rest, A'. split_and!; [done| |split; try done].
  - destruct Hst as [?|Hlow]; [by left|right]. by eapply low_gas_reads.
  - rewrite Fop. exact (pg_op _ _ Hp).
  - intros u. rewrite Hh. apply (moved_holdings _ _ _ _ _ _ u Hm); set_solver.
  - intros u. rewrite Hs'. pose proof (mv_user_src _ _ _ _ _ _ Hm u) as Hsu.
    pose proof (mv_user_other _ _ _ _ _ _ Hm u FundType.Waiting ltac:(done) ltac:(done)).
    unfold stake_of. lia.
  - transitivity s1; [by apply earnings_set_chain|]. etrans; [by apply (earnings_rewarded s1 A)|].
    etrans; [exact He4|]. etrans; [apply earnings_alike, alike_dust|exact He'].
  - exists A1. split; [done|].
    assert (st_settings s4 = st_settings s) as Es by exact (pg_settings _ _ Hp).
    revert Htot. unfold bootstrap_of, cap_of. simpl. by rewrite Es.
Qed.
End Sweep.
