(* ===== verification/ViewSpec.v ===== *)
(** * The list views (user-fund-storage/src/fund_view_module.rs)

    The views walk the lists of the storage with the addresses of the users
    looked up on the way.  On a contract whose users all have an address they
    never fail and list every fund, or every user, once and in order. *)
From stdpp Require Import base numbers list gmap strings.
From S2P Require Import Prelude PtrList FundTypes FundModule FundLedger FundRep FundLoops.
From S2P Require Import FundTotals FundMoves FundSpec UserData UserSpec NodeConfig Settings Chain.
From S2P Require Import State FundTransf FundView Rewards UserStake ResetCheckpoint TransfSpec.
From S2P Require Import RewardSpec ContractInv.

(** ** Walking a list *)
Section Foreach.
Context {S : Type} `{Lens S FundStore}.

Lemma foreach_step_rep {K} `{EqDecision K} {Y} (k : Bucket → K) κ (next : FundItem → N)
    (closure : FundItem → list Y → M S (list Y)) (row : Bucket → Y) (s : S) A :
  (∀ b, next (item_of (af_ledger A) b) = nxt k (af_ledger A) b) → Rep (lens_get s) A →
  (∀ b acc, b ∈ grp k κ (af_ledger A) →
    closure (item_of (af_ledger A) b) acc s = Ok (acc ++ [row b], s)) →
  ∀ bs pre fuel acc, grp k κ (af_ledger A) = pre ++ bs → (length bs < fuel)%nat →
  foreach_step closure next fuel (head0 (ids bs)) acc s = Ok (acc ++ (row <$> bs), s).
Proof.
  intros Hnext HR Hrow bs.
  induction bs as [|b bs IH]; intros pre fuel acc Hg Hfuel;
    (destruct fuel as [|fuel]; [simpl in Hfuel; lia|]); simpl; [by rewrite app_nil_r|].
  assert (b ∈ grp k κ (af_ledger A)) as Hin by (rewrite Hg; set_solver).
  pose proof Hin as [Hk Hb]%elem_of_grp.
  rewrite (proj2 (N.ltb_lt 0 (b_id b))) by (by apply (rep_id_pos HR)).
  unfold bind at 1, zoom, gets. rewrite lens_set_get, (rep_fund_by_id HR) by done.
  unfold bind. rewrite Hrow, Hnext by done.
  change (nxt k (af_ledger A) b) with (dptr Forwards k (af_ledger A) b).
  rewrite (dptr_walk k Forwards κ _ pre b bs) by (done || apply (rep_nodup HR)).
  simpl in Hfuel. rewrite (IH (pre ++ [b])); [|by rewrite <-(assoc_L (++))|lia].
  by rewrite <-(assoc_L (++)).
Qed.

Lemma foreach_by_type_rep {Y} t (closure : FundItem → list Y → M S (list Y))
    (row : Bucket → Y) (s : S) A :
  Rep (lens_get s) A →
  (∀ b acc, b ∈ grp type_key t (af_ledger A) →
    closure (item_of (af_ledger A) b) acc s = Ok (acc ++ [row b], s)) →
  foreach_fund_by_type t Forwards closure [] s = Ok (row <$> grp type_key t (af_ledger A), s).
Proof.
  intros HR Hrow. unfold foreach_fund_by_type, bind, zoom, gets. rewrite !lens_set_get.
  unfold first_id_of_type. rewrite (rep_type _ _ _ HR).
  apply (foreach_step_rep type_key t _ closure row s A) with (pre := []); try done.
  pose proof (rep_length _ A HR).
  pose proof (dgrp_length Forwards type_key t (af_ledger A)).
  unfold loop_fuel. simpl in *. lia.
Qed.

Lemma foreach_by_user_type_rep {Y} u t (closure : FundItem → list Y → M S (list Y))
    (row : Bucket → Y) (s : S) A :
  Rep (lens_get s) A →
  (∀ b acc, b ∈ grp user_key (u, t) (af_ledger A) →
    closure (item_of (af_ledger A) b) acc s = Ok (acc ++ [row b], s)) →
  foreach_fund_by_user_type u t Forwards closure [] s =
    Ok (row <$> grp user_key (u, t) (af_ledger A), s).
Proof.
  intros HR Hrow. unfold foreach_fund_by_user_type, bind, zoom, gets. rewrite !lens_set_get.
  unfold first_id_of_user_type. rewrite (rep_user _ _ _ HR).
  apply (foreach_step_rep user_key (u, t) _ closure row s A) with (pre := []); try done.
  pose proof (rep_length _ A HR).
  pose proof (dgrp_length Forwards user_key (u, t) (af_ledger A)).
  unfold loop_fuel. simpl in *. lia.
Qed.
End Foreach.

(** ** The views *)
Section Views.
Context {C : Type} `{Chain C}.
Implicit Type s : State C.

Definition address_of (u : N) s : Address := default 0 (us_user_address (st_users s) !! u).
Definition created_of (b : Bucket) : N :=
  match b_desc b with
  | FundDescription.Waiting created | FundDescription.UnStaked created
  | FundDescription.DeferredPayment created => created
  | _ => 0
  end.

Definition waiting_row s (b : Bucket) : Address * N * N :=
  (address_of (b_user b) s, b_bal b, created_of b).
Definition active_row s (b : Bucket) : Address * N := (address_of (b_user b) s, b_bal b).
Definition deferred_row (b : Bucket) : N * N := (b_bal b, created_of b).
Definition user_row s (A : AFunds) (u : N) : Address * StakeByTypeResult :=
  (address_of u s,
   (ut_of u FundType.WithdrawOnly A, ut_of u FundType.Waiting A, ut_of u FundType.Active A,
    ut_of u FundType.UnStaked A, ut_of u FundType.DeferredPayment A)).

(** Every fund has a registered owner. *)
Definition owned s (A : AFunds) : Prop := ∀ b, b ∈ af_ledger A → b_user b ∈ users s.

Lemma address_found s u :
  addressed (st_users s) → u ∈ users s →
  us_user_address (st_users s) !! u = Some (address_of u s).
Proof.
  intros Hus Hu%elem_of_ids_up_to. destruct (adr_known _ Hus u Hu) as [a Ha].
  unfold address_of. by rewrite Ha.
Qed.

Lemma get_user_address_eq s u :
  addressed (st_users s) → u ∈ users s →
  zoom (get_user_address u) s = Ok (address_of u s, s).
Proof.
  intros Hus Hu. unfold zoom, get_user_address. change (lens_get s) with (st_users s).
  rewrite (address_found s u) by done. by destruct s.
Qed.

Lemma full_waiting_list_eq s A :
  Rep (st_funds s) A → addressed (st_users s) → owned s A →
  get_full_waiting_list s =
    Ok (waiting_row s <$> grp type_key FundType.Waiting (af_ledger A), s).
Proof.
  intros HR Hus Ho. unfold get_full_waiting_list. apply (foreach_by_type_rep _ _ _ s A); [done|].
  intros b acc [Ht Hb]%elem_of_grp. unfold waiting_row, created_of. simpl.
  unfold type_key in Ht. destruct (b_desc b); try discriminate Ht.
  unfold bind. by rewrite (get_user_address_eq s) by auto.
Qed.

Lemma full_active_list_eq s A :
  Rep (st_funds s) A → addressed (st_users s) → owned s A →
  get_full_active_list s =
    Ok (active_row s <$> grp type_key FundType.Active (af_ledger A), s).
Proof.
  intros HR Hus Ho. unfold get_full_active_list. apply (foreach_by_type_rep _ _ _ s A); [done|].
  intros b acc [Ht Hb]%elem_of_grp. unfold active_row. simpl.
  unfold type_key in Ht. destruct (b_desc b); try discriminate Ht.
  unfold bind at 1, gets. unfold is_empty_user_address.
  rewrite (address_found s) by auto. unfold bind. by rewrite (get_user_address_eq s) by auto.
Qed.

Lemma deferred_payment_list_eq s A a :
  Rep (st_funds s) A → get_user_id a (st_users s) ≠ 0 →
  get_user_deferred_payment_list a s =
    Ok (deferred_row <$>
      grp user_key (get_user_id a (st_users s), FundType.DeferredPayment) (af_ledger A), s).
Proof.
  intros HR Hu. unfold get_user_deferred_payment_list, bind, gets.
  rewrite (proj2 (N.ltb_lt 0 _)) by lia. apply (foreach_by_user_type_rep _ _ _ _ s A); [done|].
  intros b acc [Ht Hb]%elem_of_grp. unfold deferred_row, created_of. simpl.
  unfold user_key in Ht. injection Ht as _ Ht. by destruct (b_desc b).
Qed.

Lemma all_user_stake_by_type_eq s A :
  Rep (st_funds s) A → addressed (st_users s) →
  get_all_user_stake_by_type s = Ok (user_row s A <$> users s, s).
Proof.
  intros HR Hus.
  assert (runs get_all_user_stake_by_type s (λ l s', l = user_row s A <$> users s ∧ s' = s)) as Hr.
  { unfold get_all_user_stake_by_type. run_gets. fold (users s).
    apply (runs_for_each _ (λ dn l s', l = user_row s A <$> dn ∧ s' = s) (users s)); [done|].
    intros dn u rest l s' Heq [-> ->].
    assert (u ∈ users s) as Hu by (rewrite Heq; set_solver).
    assert (u ≠ 0) by (apply elem_of_ids_up_to in Hu; lia).
    apply runs_bind. eapply runs_eq; [by apply get_user_address_eq|].
    apply runs_bind, runs_gets, runs_ret. split; [|done].
    rewrite fmap_app. simpl. unfold get_user_stake_by_type, user_row.
    by rewrite !(stake_user HR) by done. }
  destruct Hr as (l & s' & Heq & -> & ->). exact Heq.
Qed.

(** What all users own of a type is its total. *)
Lemma users_sum_type s A t :
  owned s A → sum_over (λ u, ut_of u t A) (users s) = tt_of t A.
Proof.
  unfold owned, ut_of, tt_of. induction (af_ledger A) as [|b L IH]; intros Ho; simpl.
  { generalize (users s). induction l as [|u l IHl]; simpl; [done|exact IHl]. }
  rewrite <-IH by (intros c Hc; apply Ho; set_solver).
  assert (∀ l, NoDup l → sum_over (λ u, worth (of_user_type u t) b + amount (of_user_type u t) L) l
    = (if decide (b_user b ∈ l) then worth (of_type t) b else 0)
      + sum_over (λ u, amount (of_user_type u t) L) l) as Hl.
  { induction l as [|u l IHl]; intros Hnd; simpl; [done|]. apply NoDup_cons in Hnd as [Hu Hnd].
    rewrite (IHl Hnd). unfold worth, share, of_user_type, of_type.
    destruct (decide (b_user b = u)) as [<-|Hne].
    - rewrite (bool_decide_true (b_user b = b_user b)) by done.
      rewrite decide_False by done. rewrite decide_True by set_solver. simpl. lia.
    - rewrite (bool_decide_false (b_user b = u)) by done. simpl.
      destruct (decide (b_user b ∈ l)); [rewrite decide_True by set_solver
        |rewrite decide_False by set_solver]; lia. }
  rewrite Hl by apply nodup_ids_up_to. rewrite decide_True; [done|]. apply Ho. set_solver.
Qed.
End Views.
