(* ===== verification/GlobalOpSpec.v ===== *)
(** * Global operations as state machines

    A global operation runs over several transactions, as gas allows, and other
    transactions come in between.  [op_ok orc s A] says that the contract is in
    the middle of the operation [orc]; every step of it succeeds, keeps the
    invariant of the next phase, and only low gas interrupts it. *)
From stdpp Require Import base numbers list gmap strings.
From S2P Require Import Prelude PtrList FundTypes FundModule FundLedger FundRep FundLoops.
From S2P Require Import FundTotals FundMoves UserData NodeConfig Settings Chain State FundTransf.
From S2P Require Import FundView Rewards UserStake ResetCheckpoint TransfSpec RewardSpec.
From S2P Require Import ContractInv StakeSpec EndpointSpec PayoutSpec SolvencySpec.

(** ** Conversions that low gas may cut short *)
Lemma remaining_extracted f bs : ∀ m,
  l_remaining_all f (Some m) bs = Some (m - l_extracted_all f (Some m) bs) ∧
  l_extracted_all f (Some m) bs ≤ m.
Proof.
  induction bs as [|b bs IH]; intros m; simpl; [split; [f_equal; lia|lia]|].
  destruct (f b) as [d|]; [|apply IH]. simpl.
  destruct (IH (m - b_bal b)) as [-> Hle]. split; [f_equal; lia|lia].
Qed.

(** Unstaked and deferred funds of a user for which the unbonding period of [n] blocks
    is over at block [nonce]. *)
Definition ripe (u n nonce : N) : Sel := λ w d,
  bool_decide (w = u) &&
  match d with
  | FundDescription.UnStaked created | FundDescription.DeferredPayment created =>
      u64_add created n <=? nonce
  | _ => false
  end.

Section GlobalOpSpec.
Context {C : Type} `{ChainLaws C}.
Variable full : Prop.
Implicit Type s : State C.

(** No waiting time is cut short: what becomes deferred in the current block is not
    yet due, and what was unstaked before keeps its block. *)
Definition delays_kept s (A A' : AFunds) : Prop := ∀ u n,
  let nonce := get_block_nonce (st_chain s) in
  nonce < u64_add nonce n →
  amount (ripe u n nonce) (af_ledger A') = amount (ripe u n nonce) (af_ledger A).

(** At most [m] moves from [src] to [dst], [r] of it remains to be moved; all
    there is has moved unless the gas ran low. *)
Record swapped (src dst : FundType) (m r : N) s (A : AFunds) s' (A' : AFunds) : Prop := {
  sw_rest : r ≤ m;
  sw_quiet : quiet s s';
  sw_rep : Rep (st_funds s') A';
  sw_grown : grown dst (len_of src A) A A';
  sw_moved : ∃ mv, moved src dst (m - r) mv A A';
  sw_all : r = m - tt_of src A ∨ low_gas STOP_AT_GASLIMIT (st_chain s);
  sw_delays : delays_kept s A A';
}.

Section Convert.
Variables (dir : SwapDirection) (t dst : FundType).
Variable filter : FundItem → M (State C) (option FundDescription).
Variable fd : FundDescription → option FundDescription.
Hypothesis Hfd : transforms filter fd t dst.
Hypothesis t_dst : t ≠ dst.

Lemma convert_gas s A m :
  Rep (st_funds s) A → roomy full t A →
  (∀ w u n d d', let nonce := get_block_nonce (st_chain s) in
     fund_type d = t → fd d = Some d' → nonce < u64_add nonce n →
     ripe u n nonce w d = ripe u n nonce w d') →
  outcome (let! '(_, rest) := split_convert_max_by_type (Some m) t dir filter
          (gas_below STOP_AT_GASLIMIT) false in
        ret (rest_of m rest)) s (crowded full)
    (λ r s', ∃ A', swapped t dst m r s A s' A').
Proof.
  intros HR [Hroom Haff] Hdelay. apply outcome_bind. eapply outcome_mono.
  { apply (split_convert_max_by_type_outcome (quiet s) (low_gas STOP_AT_GASLIMIT (st_chain s))
      (quiet_funds s) (gas_below STOP_AT_GASLIMIT) (λ s', gas_below_returns s _ s')
      dir t filter (λ b, fd (b_desc b))).
    - intros s' A' b HP _ _. exists (fd (b_desc b)), s'. split_and!; [|done..].
      by rewrite (proj1 Hfd).
    - intros b d. by apply (transforms_target t dst filter fd Hfd t_dst).
    - apply quiet_refl.
    - exact HR.
    - by rewrite length_dgrp. }
  { intros e. apply (vec_room_crowded full (len_of t A)); [done|].
    pose proof (length_walk dir t fd m A). unfold walk_of, len_of, klen in *. lia. }
  intros r s' (vs & [post Hvs] & Hall & -> & Hq & HR'). cbv beta iota. apply outcome_ret.
  rewrite l_convert_all_fst.
  destruct (remaining_extracted (λ b, fd (b_desc b)) vs m) as [-> Hle].
  set (v := l_extracted_all _ _ vs) in *. simpl.
  destruct (dgrp_prefix dir type_key t (af_ledger A) (λ b, fd (b_desc b)) (Some m)) as [p Hg].
  rewrite Hvs, <-(assoc_L (++)) in Hg.
  eexists. split; [lia|exact Hq|exact HR'| | | |].
  - eapply grown_weaken; [|apply grown_convert_all; intros; by eapply Hfd].
    pose proof (f_equal length Hg) as Hlen. rewrite length_dgrp, !length_app in Hlen.
    unfold len_of, klen. lia.
  - replace (m - (m - v)) with v by lia. eexists.
    eapply (convert_all_moved type_key (λ b, fd (b_desc b)) t dst (λ _ _, eq_refl)
      (λ b, proj1 (proj2 Hfd) (b_desc b)) t_dst dir t (Some m) _ A []).
    + done.
    + by eapply rep_af_ok.
    + exact Hg.
  - destruct Hall as [Hall|?]; [left|by right].
    destruct (extracted_visited_all (λ b, fd (b_desc b)) (Some m)
      (dgrp dir type_key t (af_ledger A))) as [Hext _].
    { intros b [Hb _]%elem_of_dgrp. by apply Hfd. }
    rewrite <-Hall, total_dgrp_type in Hext. fold v in Hext. lia.
  - intros u n nonce Hn.
    destruct (amount_convert_all type_key dir t (ripe u n nonce) (λ b, fd (b_desc b))
      (post ++ p) vs (Some m) A []) as [_ Ham].
    + done.
    + intros b d c Hd Hc Ht. apply t_dst. rewrite <-Ht, Hc. by apply (proj1 (proj2 Hfd) _ _ Hd).
    + by eapply rep_af_ok.
    + exact Hg.
    + unfold flow_out, flow_in in Ham. rewrite (flow_ext _ (λ b d, ripe u n nonce (b_user b) d)) in Ham; [lia|].
      intros b d Hb Hd. apply Hdelay; [|done..].
      assert (b ∈ dgrp dir type_key t (af_ledger A)) as [? _]%elem_of_dgrp; [|done].
      rewrite Hg. set_solver.
Qed.
End Convert.

Lemma swap_waiting_gas s A m :
  Rep (st_funds s) A → roomy full FundType.Waiting A →
  outcome (swap_waiting_to_active m (gas_below STOP_AT_GASLIMIT)) s (crowded full) (λ r s', ∃ A',
    swapped FundType.Waiting FundType.Active m (snd r) s A s' A').
Proof.
  intros HR Hroom. unfold swap_waiting_to_active.
  assert (∀ w u n d d', let nonce := get_block_nonce (st_chain s) in
    fund_type d = FundType.Waiting → Some FundDescription.Active = Some d' →
    nonce < u64_add nonce n → ripe u n nonce w d = ripe u n nonce w d') as Hd
    by (intros w u n [] d' nonce [=] [= <-] _; done).
  pose proof (convert_gas Forwards _ _ _ _ to_active_transforms ltac:(done) s A m HR Hroom Hd) as Hm.
  unfold outcome, bind in *.
  by destruct (split_convert_max_by_type _ _ _ _ _ _ s) as [[[aff rest] s1]|e].
Qed.

Lemma swap_unstaked_gas s A m :
  Rep (st_funds s) A → roomy full FundType.UnStaked A →
  outcome (swap_unstaked_to_deferred_payment m (gas_below STOP_AT_GASLIMIT)) s (crowded full) (λ r s', ∃ A',
    swapped FundType.UnStaked FundType.DeferredPayment m r s A s' A').
Proof.
  intros HR Hroom. apply (convert_gas Forwards _ _ _ _ unstaked_transforms); [done..|].
  by intros w u n [] d' nonce [=] [= <-] _.
Qed.

Lemma swap_active_gas s A m :
  Rep (st_funds s) A → roomy full FundType.Active A →
  outcome (swap_active_to_deferred_payment m (gas_below STOP_AT_GASLIMIT)) s (crowded full) (λ r s', ∃ A',
    swapped FundType.Active FundType.DeferredPayment m r s A s' A').
Proof.
  intros HR Hroom. unfold swap_active_to_deferred_payment. run_gets.
  apply (convert_gas Backwards _ _ _
    (λ _, Some (FundDescription.DeferredPayment (get_block_nonce (st_chain s)))));
    [|done..|].
  { split_and!; [done|by intros d d' [= <-]|eauto]. }
  intros w u n [] d' nonce [=] [= <-] Hn. subst nonce. unfold ripe.
  by rewrite (proj2 (N.leb_gt _ _) Hn).
Qed.

(** ** While stake is being swapped *)

(** The rewards of all users are settled up to [c0]; what came in after that is
    shared out by the stake as it will be when the operation is over. *)
Record swapping (c0 : N) s (A : AFunds) : Prop := {
  sg_rep : Rep (st_funds s) A;
  sg_owners u t : unregistered u s → ut_of u t A = 0;
  sg_fresh u : unregistered u s → unclaimed_of u s = 0;
  sg_ids a : get_user_id a (st_users s) ≤ num_users_of s;
  sg_owner_id : 1 ≤ num_users_of s;
  sg_fee : fee_of s ≤ PERCENTAGE_DENOMINATOR;
  sg_le u : checkpoint_of u s ≤ c0;
  sg_settled u : u ∈ users s → checkpoint_of u s = c0;
  sg_assigned : assigned s = c0;
  sg_received : c0 ≤ cumulated s;
  sg_bootstrap : bootstrap_of s = false;
}.

Lemma inv_swapping s A :
  Inv s A → bootstrap_of s = false → all_settled s → assigned s = cumulated s →
  swapping (cumulated s) s A.
Proof. intros [] ???. by split. Qed.

Lemma quiet_cumulated s s' : quiet s s' → cumulated s' = cumulated s.
Proof.
  intros Hq. by destruct (chain_view_eq _ _ (qu_view _ _ Hq)) as (_ & _ & _ & ?).
Qed.

(** The fund store may change but for what it says of unregistered users. *)
Lemma swapping_quiet c0 s A s' A' :
  swapping c0 s A → quiet s s' → Rep (st_funds s') A' →
  (∀ w t, unregistered w s → ut_of w t A' = 0) → swapping c0 s' A'.
Proof.
  intros HS Hq HR Hun. pose proof (quiet_cumulated _ _ Hq) as Hc.
  assert (s' = set_chain (st_chain s') (lens_set (st_funds s') s)) as Heq.
  { destruct Hq, s'. simpl in *. subst. done. }
  revert Hc HR. rewrite Heq. destruct HS. intros Hc HR. split; try done. by rewrite Hc.
Qed.

Lemma swapping_swapped c0 s A s' A' src dst m r :
  swapping c0 s A → swapped src dst m r s A s' A' → swapping c0 s' A'.
Proof.
  intros HS [_ Hq HR _ [mv Hm] _ _]. eapply swapping_quiet; [done..|].
  by eapply moved_unregistered, HS.
Qed.

(** With the new cap in place the invariant of the contract is back. *)
Lemma owed_swapping c0 s A :
  swapping c0 s A → tt_of FundType.Active A ≤ scale_of s →
  owed s = cumulated s * (PERCENTAGE_DENOMINATOR * scale_of s).
Proof.
  intros HS Hcap. pose proof (sg_received _ _ _ HS) as Hle.
  set (D := PERCENTAGE_DENOMINATOR). set (K := scale_of s) in *. set (f := fee_of s).
  set (δ := cumulated s - c0).
  assert (OWNER_USER_ID ∈ users s) as Hin.
  { apply elem_of_ids_up_to. pose proof (sg_owner_id _ _ _ HS).
    unfold num_users_of, OWNER_USER_ID in *. lia. }
  assert (owed_owner s = δ * (f * K + (D - f) * (K - tt_of FundType.Active A))) as Ho.
  { unfold owed_owner. rewrite (sg_settled _ _ _ HS) by done.
    by rewrite (total_active_eq (sg_rep _ _ _ HS)). }
  assert (∀ u, u ∈ users s → owed_user s u =
    D * K * unclaimed_of u s + (D - f) * δ * ut_of u FundType.Active A) as Hu.
  { intros u Hu. unfold owed_user. rewrite (sg_settled _ _ _ HS) by done.
    rewrite (active_of_user (sg_rep _ _ _ HS)) by (apply elem_of_ids_up_to in Hu; lia).
    fold D K f δ. lia. }
  unfold owed. rewrite Ho, (sum_over_ext _ _ _ Hu), sum_over_plus, !sum_over_mul.
  rewrite (sum_users _ A s) by (intros u; apply HS).
  pose proof (reward_debt D f K (tt_of FundType.Active A) δ (sg_fee _ _ _ HS) Hcap) as Hd.
  pose proof (sg_assigned _ _ _ HS) as Ha. unfold assigned in Ha.
  fold D K. assert (cumulated s = c0 + δ) as -> by (unfold δ; lia). rewrite <-Ha at 1. lia.
Qed.

Lemma swapping_inv c0 s A :
  swapping c0 s A → tt_of FundType.Active A ≤ cap_of s → Inv s A.
Proof.
  intros HS Hcap.
  assert (tt_of FundType.Active A ≤ scale_of s) as Hscale by (unfold scale_of; lia).
  pose proof (owed_swapping c0 s A HS Hscale) as Ho.
  destruct HS. split; try done.
  - intros u. etrans; [apply sg_le0|done].
  - congruence.
  - unfold solvent. by rewrite Ho.
Qed.

Lemma swapping_set_cap c0 s A cap :
  swapping c0 s A →
  swapping c0 (lens_set (set_total_delegation_cap cap (st_settings s)) s) A.
Proof. intros []. by split. Qed.

Lemma swapping_arrive c0 s A c :
  swapping c0 s A → cumulated s ≤ get_cumulated_validator_rewards c →
  swapping c0 (set_chain c s) A.
Proof. intros [] Hle. split; try done. by etrans. Qed.

Lemma swapping_set_fee c0 s A fee :
  swapping c0 s A → fee ≤ PERCENTAGE_DENOMINATOR →
  swapping c0 (lens_set (set_service_fee fee (st_settings s)) s) A.
Proof. intros []. by split. Qed.

(** ** The phases of an operation *)

(** What is left to swap leads to the new cap, and is there to be swapped. *)
Record amounts_ok (d : ModifyTotalDelegationCapData) (A : AFunds) : Prop := {
  am_target : tt_of FundType.Active A + tt_of FundType.UnStaked A
    + remaining_swap_waiting_to_active d
    = new_delegation_cap d + remaining_swap_unstaked_to_def_p d
      + remaining_swap_active_to_def_p d;
  am_waiting : remaining_swap_waiting_to_active d ≤ tt_of FundType.Waiting A;
  am_unstaked : remaining_swap_unstaked_to_def_p d ≤ tt_of FundType.UnStaked A;
  am_active : remaining_swap_active_to_def_p d ≤ tt_of FundType.Active A;
}.

Definition phase_ok (d : ModifyTotalDelegationCapData) s (A : AFunds) : Prop :=
  match step d with
  | ModifyDelegationCapStep.ComputeAllRewards data => Inv s A ∧ data_ok data s
  | ModifyDelegationCapStep.SwapWaitingToActive => ∃ c0, swapping c0 s A
  | ModifyDelegationCapStep.SwapUnstakedToDeferredPayment =>
      (∃ c0, swapping c0 s A) ∧ remaining_swap_waiting_to_active d = 0
  | ModifyDelegationCapStep.SwapActiveToDeferredPayment =>
      (∃ c0, swapping c0 s A) ∧ remaining_swap_waiting_to_active d = 0 ∧
      remaining_swap_unstaked_to_def_p d = 0
  end.

Definition op_ok (orc : GlobalOpCheckpoint) s (A : AFunds) : Prop :=
  match orc with
  | GlobalOpCheckpoint.None => Inv s A ∧ staked_ok s A
  | GlobalOpCheckpoint.ChangeServiceFee fee data =>
      (Inv s A ∧ staked_ok s A) ∧ bootstrap_of s = false ∧ fee ≤ PERCENTAGE_DENOMINATOR ∧
      data_ok data s
  | GlobalOpCheckpoint.ModifyTotalDelegationCap d =>
      bootstrap_of s = false ∧ amounts_ok d A ∧ phase_ok d s A
  end.

(** Room for the items that the rest of the operation may create. *)
Record step_room (w u a : N) (A : AFunds) : Prop := {
  sr_ids : af_max A + w + u + a < usize_max_plus_1;
  sr_waiting : vec_room full w;
  sr_unstaked : vec_room full u;
  sr_active : vec_room full a;
}.

Definition op_room (orc : GlobalOpCheckpoint) (A : AFunds) : Prop :=
  let w := len_of FundType.Waiting A in
  let u := len_of FundType.UnStaked A in
  let a := len_of FundType.Active A in
  match orc with
  | GlobalOpCheckpoint.ModifyTotalDelegationCap d =>
      match step d with
      | ModifyDelegationCapStep.ComputeAllRewards _
      | ModifyDelegationCapStep.SwapWaitingToActive => step_room w u (a + w) A
      | ModifyDelegationCapStep.SwapUnstakedToDeferredPayment => step_room 0 u a A
      | ModifyDelegationCapStep.SwapActiveToDeferredPayment => step_room 0 0 a A
      end
  | _ => True
  end.

(** *** What is to be moved

    Waiting stake to activate, and unstaked and active stake to defer. *)
Record Plan : Set := mk_Plan { pl_activate : N; pl_defer_unstaked : N; pl_defer_active : N }.
Definition plan_of (orc : GlobalOpCheckpoint) : Plan :=
  match orc with
  | GlobalOpCheckpoint.ModifyTotalDelegationCap d =>
      mk_Plan (remaining_swap_waiting_to_active d) (remaining_swap_unstaked_to_def_p d)
        (remaining_swap_active_to_def_p d)
  | _ => mk_Plan 0 0 0
  end.

(** The part of plan [p] that is not in [p'] has been carried out. *)
Record carried_out (p p' : Plan) (A A' : AFunds) : Prop := {
  co_waiting : tt_of FundType.Waiting A' + pl_activate p
    = tt_of FundType.Waiting A + pl_activate p';
  co_active : tt_of FundType.Active A' + pl_activate p' + pl_defer_active p
    = tt_of FundType.Active A + pl_activate p + pl_defer_active p';
  co_unstaked : tt_of FundType.UnStaked A' + pl_defer_unstaked p
    = tt_of FundType.UnStaked A + pl_defer_unstaked p';
  co_deferred : tt_of FundType.DeferredPayment A' + pl_defer_unstaked p' + pl_defer_active p'
    = tt_of FundType.DeferredPayment A + pl_defer_unstaked p + pl_defer_active p;
  co_withdraw : tt_of FundType.WithdrawOnly A' = tt_of FundType.WithdrawOnly A;
}.

Lemma carried_out_refl p A : carried_out p p A A.
Proof. by split. Qed.
Lemma carried_out_trans p1 p2 p3 A1 A2 A3 :
  carried_out p1 p2 A1 A2 → carried_out p2 p3 A2 A3 → carried_out p1 p3 A1 A3.
Proof. intros [] []. split; lia. Qed.

(** The settings when the operation is over. *)
Definition target (orc : GlobalOpCheckpoint) (st : SettingsStore) : SettingsStore :=
  match orc with
  | GlobalOpCheckpoint.None => st
  | GlobalOpCheckpoint.ChangeServiceFee fee _ => set_service_fee fee st
  | GlobalOpCheckpoint.ModifyTotalDelegationCap d =>
      set_total_delegation_cap (new_delegation_cap d) st
  end.

(** Steps to go. *)
Definition rank (orc : GlobalOpCheckpoint) : nat :=
  match orc with
  | GlobalOpCheckpoint.None => 0
  | GlobalOpCheckpoint.ChangeServiceFee _ _ => 1
  | GlobalOpCheckpoint.ModifyTotalDelegationCap d =>
      match step d with
      | ModifyDelegationCapStep.ComputeAllRewards _ => 4
      | ModifyDelegationCapStep.SwapWaitingToActive => 3
      | ModifyDelegationCapStep.SwapUnstakedToDeferredPayment => 2
      | ModifyDelegationCapStep.SwapActiveToDeferredPayment => 1
      end
  end.

(** The phases that move stake, after the rewards were brought up to date.  What
    comes in while they last is shared out by the stake as they leave it. *)
Definition moves_stake (orc : GlobalOpCheckpoint) : bool :=
  match orc with
  | GlobalOpCheckpoint.ModifyTotalDelegationCap d =>
      match step d with ModifyDelegationCapStep.ComputeAllRewards _ => false | _ => true end
  | _ => false
  end.
Definition shares_fixed orc s : Prop := moves_stake orc = true → all_settled s.

Lemma swapped_shares orc orc' src dst m r s A s' A' :
  moves_stake orc = true → swapped src dst m r s A s' A' →
  shares_fixed orc s → earnings_raised s s' ∧ shares_fixed orc' s'.
Proof.
  intros Hmv [_ Hq _ _ _ _ _] Hf.
  destruct (all_settled_kept s s' (qu_users _ _ Hq) (qu_rewards _ _ Hq) (quiet_cumulated _ _ Hq)
    (Hf Hmv)) as [? He]. split; [by apply earnings_kept_raised|by intros ?].
Qed.

(** New settings do not matter to what is up to date. *)
Lemma settled_settings (st : SettingsStore) s :
  all_settled s → earnings_raised s (lens_set st s).
Proof.
  intros Hall. apply earnings_kept_raised.
  by apply (all_settled_kept s (lens_set st s)).
Qed.

(** No operation changes what a user owns, who the users are, or what the
    contract has and has paid. *)
Record op_effect s A s' A' : Prop := {
  oe_users : st_users s' = st_users s;
  oe_nodes : st_nodes s' = st_nodes s;
  oe_dust : st_dust_cleanup_checkpoint s' = st_dust_cleanup_checkpoint s;
  oe_sent : rs_sent_rewards (st_rewards s') = rs_sent_rewards (st_rewards s);
  oe_view : chain_view (st_chain s') = chain_view (st_chain s);
  oe_balance : get_sc_balance (st_chain s') = get_sc_balance (st_chain s);
  oe_reads : reads (st_chain s) (st_chain s');
  oe_holdings u : holdings u A' = holdings u A;
  oe_delays : delays_kept s A A';
}.

Lemma op_effect_refl s A : op_effect s A s A.
Proof. by split. Qed.
Lemma op_effect_trans s1 A1 s2 A2 s3 A3 :
  op_effect s1 A1 s2 A2 → op_effect s2 A2 s3 A3 → op_effect s1 A1 s3 A3.
Proof.
  intros [???? V1 ?? H1 D1] [???? V2 ?? H2 D2]. split; try congruence; [by etrans|].
  destruct (chain_view_eq _ _ V1) as (_ & _ & Hn & _). unfold delays_kept in *.
  rewrite Hn in D2. intros u n Hlt. rewrite D2 by done. by apply D1.
Qed.
Lemma op_effect_progress s s' A : progress s s' → op_effect s A s' A.
Proof. intros []. by split. Qed.
Lemma op_effect_swapped src dst m r s A s' A' :
  src ∈ ALL_TYPES → dst ∈ ALL_TYPES → src ≠ dst →
  swapped src dst m r s A s' A' → op_effect s A s' A'.
Proof.
  intros ??? [_ [] _ _ [mv Hm] _ Hd]. split; try done; [congruence|].
  intros u. by apply (moved_holdings _ _ _ _ _ _ u Hm).
Qed.

(** The state after one step, or after several. *)
Record advanced orc s A status orc' s' A' : Prop := {
  ad_effect : op_effect s A s' A';
  ad_ok : op_ok orc' s' A';
  ad_target : target orc' (st_settings s') = target orc (st_settings s);
  ad_settings : orc' ≠ GlobalOpCheckpoint.None → st_settings s' = st_settings s;
  ad_stopped : status = OperationCompletionStatus.InterruptedBeforeOutOfGas →
    orc' ≠ GlobalOpCheckpoint.None ∧ low_gas STOP_AT_GASLIMIT (st_chain s);
  ad_earnings : shares_fixed orc s → earnings_raised s s' ∧ shares_fixed orc' s';
  ad_plan : carried_out (plan_of orc) (plan_of orc') A A';
}.

(** A step that completes its phase leaves fewer phases, and room for them. *)
Definition moves_on orc A status orc' A' : Prop :=
  status = OperationCompletionStatus.Completed →
  (rank orc' < rank orc)%nat ∧ (op_room orc A → op_room orc' A').

(** A phase of a cap change that swaps [src] for [dst]. *)
Lemma swapped_phase c0 src dst m r s A s' A' :
  src ∈ ALL_TYPES → dst ∈ ALL_TYPES → src ≠ dst →
  swapping c0 s A → swapped src dst m r s A s' A' →
  op_effect s A s' A' ∧ swapping c0 s' A' ∧ st_settings s' = st_settings s ∧
  bootstrap_of s' = false ∧ r ≤ m ∧
  tt_of src A' + (m - r) = tt_of src A ∧ tt_of dst A' = tt_of dst A + (m - r) ∧
  (∀ t, t ≠ src → t ≠ dst → tt_of t A' = tt_of t A) ∧
  (m ≤ tt_of src A → r ≠ 0 → low_gas STOP_AT_GASLIMIT (st_chain s)).
Proof.
  intros ??? HS Hsw. pose proof (swapping_swapped _ _ _ _ _ _ _ _ _ HS Hsw) as HS'.
  split_and!; [by apply (op_effect_swapped src dst m r)|done|apply Hsw|apply HS'|apply Hsw|..];
    destruct Hsw as [? ? ? ? [mv Hm] Hall]; [apply Hm..|].
  intros ??. destruct Hall as [->|?]; [lia|done].
Qed.

(** The room of a phase leaves room for the next one. *)
Lemma room_after_waiting A A' u a :
  grown FundType.Active (len_of FundType.Waiting A) A A' →
  step_room (len_of FundType.Waiting A) u (a + len_of FundType.Waiting A) A →
  len_of FundType.UnStaked A ≤ u → len_of FundType.Active A ≤ a →
  step_room 0 (len_of FundType.UnStaked A') (len_of FundType.Active A') A'.
Proof.
  intros [Gm Gd Go _] [Ri _ Ru Ra] Hu Ha. pose proof (Go FundType.UnStaked ltac:(done)).
  split; [lia|apply vec_room_0|eapply vec_room_le; [|exact Ru]; lia|
    eapply vec_room_le; [|exact Ra]; lia].
Qed.

Lemma room_after_unstaked A A' a :
  grown FundType.DeferredPayment (len_of FundType.UnStaked A) A A' →
  step_room 0 (len_of FundType.UnStaked A) a A → len_of FundType.Active A ≤ a →
  step_room 0 0 (len_of FundType.Active A') A'.
Proof.
  intros [Gm Gd Go _] [Ri _ _ Ra] Ha. pose proof (Go FundType.Active ltac:(done)).
  split; [lia|apply vec_room_0..|eapply vec_room_le; [|exact Ra]; lia].
Qed.

Lemma compute_step s A d data :
  num_users_of s < usize_max_plus_1 →
  step d = ModifyDelegationCapStep.ComputeAllRewards data →
  op_ok (GlobalOpCheckpoint.ModifyTotalDelegationCap d) s A →
  runs (continue_modify_total_delegation_cap_step d) s (λ '(status, orc') s',
    ∃ A', advanced (GlobalOpCheckpoint.ModifyTotalDelegationCap d) s A status orc' s' A' ∧
      moves_on (GlobalOpCheckpoint.ModifyTotalDelegationCap d) A status orc' A').
Proof.
  intros Hmax Hstep (Hb & Ham & Hph). unfold phase_ok in Hph. rewrite Hstep in Hph.
  unfold continue_modify_total_delegation_cap_step. rewrite Hstep. destruct Hph as [HI Hd].
  apply runs_bind. eapply runs_mono; [by apply (compute_all_rewards_spec s A data)|].
  intros more s' (HI' & Hp & Her & Hmore). pose proof (op_effect_progress s s' A Hp) as He.
  assert (bootstrap_of s' = false) as Hb'.
  { unfold bootstrap_of in *. by rewrite (pg_settings _ _ Hp). }
  assert (st_settings s' = st_settings s) as Es by apply Hp.
  destruct more as [data'|].
  - destruct Hmore as [Hd' Hlow]. apply runs_ret. exists A. split; [|done].
    split; [done| |by rewrite Es|done|done|by split; [|intros ?]|apply carried_out_refl].
    split_and!; [done|by destruct Ham|by split].
  - destruct Hmore as [Hall Hsum]. apply runs_ret. exists A. split.
    + split; [done| |by rewrite Es|done|done|by split; [|intros ?]|apply carried_out_refl].
      split_and!; [done|by destruct Ham|]. exists (cumulated s'). by apply inv_swapping.
    + intros _. simpl. rewrite Hstep. split; [lia|done].
Qed.

Lemma waiting_step s A d :
  step d = ModifyDelegationCapStep.SwapWaitingToActive →
  op_ok (GlobalOpCheckpoint.ModifyTotalDelegationCap d) s A →
  op_room (GlobalOpCheckpoint.ModifyTotalDelegationCap d) A →
  outcome (continue_modify_total_delegation_cap_step d) s (crowded full) (λ '(status, orc') s',
    ∃ A', advanced (GlobalOpCheckpoint.ModifyTotalDelegationCap d) s A status orc' s' A' ∧
      moves_on (GlobalOpCheckpoint.ModifyTotalDelegationCap d) A status orc' A').
Proof.
  intros Hstep (Hb & [Ht Hw Hu Ha] & Hph) Hroom. unfold phase_ok in Hph. simpl in Hroom.
  rewrite Hstep in Hph, Hroom. destruct Hph as [c0 HS].
  unfold continue_modify_total_delegation_cap_step. rewrite Hstep.
  apply outcome_bind. eapply outcome_post.
  { apply (swap_waiting_gas s A (remaining_swap_waiting_to_active d)); [apply HS|].
    by destruct Hroom; split; [lia|]. }
  intros [aff r] s' [A' Hsw]. simpl in Hsw.
  destruct (swapped_phase c0 FundType.Waiting FundType.Active _ _ s A s' A' ltac:(set_solver) ltac:(set_solver)
    ltac:(done) HS Hsw) as (He & HS' & Es & Hb' & Hr & Hsrc & Hdst & Ho & Hlow).
  pose proof (Ho FundType.UnStaked ltac:(done) ltac:(done)) as Hun.
  pose proof (Ho FundType.DeferredPayment ltac:(done) ltac:(done)).
  pose proof (Ho FundType.WithdrawOnly ltac:(done) ltac:(done)).
  specialize (Hlow Hw). simpl. destruct (N.ltb_spec 0 r) as [Hpos|Hz].
  - apply outcome_ret. exists A'. split; [|done]. split; [done| |by rewrite Es|done| | |split; simpl; lia].
    + split_and!; [done|split; simpl; lia|]. unfold phase_ok; simpl. rewrite Hstep. by exists c0.
    + intros _. split; [done|apply Hlow; lia].
    + eapply swapped_shares, Hsw. simpl. by rewrite Hstep.
  - apply outcome_ret. exists A'. assert (r = 0) as -> by lia. split.
    + split; [done| |by rewrite Es|done|done| |split; simpl; lia].
      2: { eapply swapped_shares, Hsw. simpl. by rewrite Hstep. }
      split_and!; [done|split; simpl; lia|]. split; [by exists c0|done].
    + intros _. simpl. rewrite Hstep. split; [lia|]. intros _.
      by apply (room_after_waiting A A' _ _ (sw_grown _ _ _ _ _ _ _ _ Hsw) Hroom).
Qed.

Lemma unstaked_step s A d :
  step d = ModifyDelegationCapStep.SwapUnstakedToDeferredPayment →
  op_ok (GlobalOpCheckpoint.ModifyTotalDelegationCap d) s A →
  op_room (GlobalOpCheckpoint.ModifyTotalDelegationCap d) A →
  outcome (continue_modify_total_delegation_cap_step d) s (crowded full) (λ '(status, orc') s',
    ∃ A', advanced (GlobalOpCheckpoint.ModifyTotalDelegationCap d) s A status orc' s' A' ∧
      moves_on (GlobalOpCheckpoint.ModifyTotalDelegationCap d) A status orc' A').
Proof.
  intros Hstep (Hb & [Ht Hw Hu Ha] & Hph) Hroom. unfold phase_ok in Hph. simpl in Hroom.
  rewrite Hstep in Hph, Hroom. destruct Hph as [[c0 HS] Hw0].
  unfold continue_modify_total_delegation_cap_step. rewrite Hstep.
  apply outcome_bind. eapply outcome_post.
  { apply (swap_unstaked_gas s A (remaining_swap_unstaked_to_def_p d)); [apply HS|].
    by destruct Hroom; split; [lia|]. }
  intros r s' [A' Hsw].
  destruct (swapped_phase c0 FundType.UnStaked FundType.DeferredPayment _ _ s A s' A' ltac:(set_solver) ltac:(set_solver)
    ltac:(done) HS Hsw) as (He & HS' & Es & Hb' & Hr & Hsrc & Hdst & Ho & Hlow).
  pose proof (Ho FundType.Active ltac:(done) ltac:(done)) as Hact.
  pose proof (Ho FundType.Waiting ltac:(done) ltac:(done)).
  pose proof (Ho FundType.WithdrawOnly ltac:(done) ltac:(done)).
  specialize (Hlow Hu). simpl. destruct (N.ltb_spec 0 r) as [Hpos|Hz].
  - apply outcome_ret. exists A'. split; [|done]. split; [done| |by rewrite Es|done| | |split; simpl; lia].
    + split_and!; [done|split; simpl; lia|]. unfold phase_ok; simpl. rewrite Hstep.
      split; [by exists c0|done].
    + intros _. split; [done|apply Hlow; lia].
    + eapply swapped_shares, Hsw. simpl. by rewrite Hstep.
  - apply outcome_ret. exists A'. assert (r = 0) as -> by lia. split.
    + split; [done| |by rewrite Es|done|done| |split; simpl; lia].
      2: { eapply swapped_shares, Hsw. simpl. by rewrite Hstep. }
      split_and!; [done|split; simpl; lia|]. split_and!; [by exists c0|done|done].
    + intros _. simpl. rewrite Hstep. split; [lia|]. intros _.
      by apply (room_after_unstaked A A' _ (sw_grown _ _ _ _ _ _ _ _ Hsw) Hroom).
Qed.

Lemma active_step s A d :
  step d = ModifyDelegationCapStep.SwapActiveToDeferredPayment →
  op_ok (GlobalOpCheckpoint.ModifyTotalDelegationCap d) s A →
  op_room (GlobalOpCheckpoint.ModifyTotalDelegationCap d) A →
  outcome (continue_modify_total_delegation_cap_step d) s (crowded full) (λ '(status, orc') s',
    ∃ A', advanced (GlobalOpCheckpoint.ModifyTotalDelegationCap d) s A status orc' s' A' ∧
      moves_on (GlobalOpCheckpoint.ModifyTotalDelegationCap d) A status orc' A').
Proof.
  intros Hstep (Hb & [Ht Hw Hu Ha] & Hph) Hroom. unfold phase_ok in Hph. simpl in Hroom.
  rewrite Hstep in Hph, Hroom. destruct Hph as ([c0 HS] & Hw0 & Hu0).
  unfold continue_modify_total_delegation_cap_step. rewrite Hstep.
  apply outcome_bind. eapply outcome_post.
  { apply (swap_active_gas s A (remaining_swap_active_to_def_p d)); [apply HS|].
    by destruct Hroom; split; [lia|]. }
  intros r s' [A' Hsw].
  destruct (swapped_phase c0 FundType.Active FundType.DeferredPayment _ _ s A s' A'
    ltac:(set_solver) ltac:(set_solver) ltac:(done) HS Hsw)
    as (He & HS' & Es & Hb' & Hr & Hsrc & Hdst & Ho & Hlow).
  pose proof (Ho FundType.UnStaked ltac:(done) ltac:(done)) as Hun.
  pose proof (Ho FundType.Waiting ltac:(done) ltac:(done)).
  pose proof (Ho FundType.WithdrawOnly ltac:(done) ltac:(done)).
  specialize (Hlow Ha). simpl. destruct (N.ltb_spec 0 r) as [Hpos|Hz].
  - apply outcome_ret. exists A'. split; [|done]. split; [done| |by rewrite Es|done| | |split; simpl; lia].
    + split_and!; [done|split; simpl; lia|]. unfold phase_ok; simpl. rewrite Hstep.
      split_and!; [by exists c0|done|done].
    + intros _. split; [done|apply Hlow; lia].
    + eapply swapped_shares, Hsw. simpl. by rewrite Hstep.
  - apply outcome_bind, outcome_zoom, outcome_modify, outcome_ret. exists A'. assert (r = 0) as -> by lia.
    split; [|intros _; simpl; rewrite Hstep; split; [lia|done]].
    split; [by destruct He|split| |done|done| |split; simpl; lia].
    + apply (swapping_inv c0); [by apply swapping_set_cap|].
      change (tt_of FundType.Active A' ≤ new_delegation_cap d). lia.
    + split; unfold within_cap, cap_ok, none_waits.
      * change (bootstrap_of _) with (bootstrap_of s'). rewrite Hb'.
        change (tt_of FundType.Active A' + tt_of FundType.UnStaked A' = new_delegation_cap d). lia.
      * change (bootstrap_of _) with (bootstrap_of s'). by rewrite Hb'.
    + simpl. change (lens_get s') with (st_settings s'). by rewrite Es.
    + intros Hf. assert (moves_stake (GlobalOpCheckpoint.ModifyTotalDelegationCap d) = true) as Hmv
        by (simpl; by rewrite Hstep).
      destruct (swapped_shares _ (GlobalOpCheckpoint.ModifyTotalDelegationCap d) _ _ _ _ _ _ _ _
        Hmv Hsw Hf) as [Her Hall]. split; [|by intros ?].
      etrans; [exact Her|by apply settled_settings, Hall].
Qed.

Lemma fee_step s A fee data :
  num_users_of s < usize_max_plus_1 →
  op_ok (GlobalOpCheckpoint.ChangeServiceFee fee data) s A →
  runs (continue_global_operation_step (GlobalOpCheckpoint.ChangeServiceFee fee data)) s
    (λ '(status, orc') s',
    ∃ A', advanced (GlobalOpCheckpoint.ChangeServiceFee fee data) s A status orc' s' A' ∧
      moves_on (GlobalOpCheckpoint.ChangeServiceFee fee data) A status orc' A').
Proof.
  intros Hmax ([HI Hok] & Hb & Hfee & Hd). simpl.
  apply runs_bind. eapply runs_mono; [by apply (compute_all_rewards_spec s A data)|].
  intros more s' (HI' & Hp & Her & Hmore). pose proof (op_effect_progress s s' A Hp) as He.
  assert (st_settings s' = st_settings s) as Es by apply Hp.
  assert (bootstrap_of s' = false) as Hb' by (unfold bootstrap_of in *; by rewrite Es).
  assert (staked_ok s' A) as Hok' by (by eapply staked_ok_eq).
  destruct more as [data'|].
  - destruct Hmore as [Hd' Hlow]. apply runs_ret. exists A. split; [|done].
    split; [done| |by rewrite Es|done|done|by split; [|intros ?]|apply carried_out_refl]. by split_and!.
  - destruct Hmore as [Hall Hsum]. apply runs_bind, runs_zoom, runs_modify, runs_ret.
    exists A. split; [|intros _; simpl; split; [lia|done]].
    split; [by destruct He|split| |done|done| |apply carried_out_refl].
    + apply (swapping_inv (cumulated s')); [|by apply HI'].
      by apply swapping_set_fee, Hfee; apply inv_swapping.
    + exact Hok'.
    + simpl. change (lens_get s') with (st_settings s'). by rewrite Es.
    + intros _. split; [|by intros ?]. etrans; [exact Her|by apply settled_settings].
Qed.

Lemma global_op_step s A orc :
  num_users_of s < usize_max_plus_1 → orc ≠ GlobalOpCheckpoint.None →
  op_ok orc s A → op_room orc A →
  outcome (continue_global_operation_step orc) s (crowded full) (λ '(status, orc') s',
    ∃ A', advanced orc s A status orc' s' A' ∧ moves_on orc A status orc' A').
Proof.
  intros Hmax Hne Hok Hroom. destruct orc as [|d|fee data]; [done| |by apply runs_outcome, fee_step].
  simpl. destruct (step d) as [data| | |] eqn:Hstep;
    [by apply runs_outcome, (compute_step s A d data)|by apply waiting_step|by apply unstaked_step|
     by apply active_step].
Qed.

(** ** The whole operation *)
Lemma advanced_trans orc1 s1 A1 st2 orc2 s2 A2 st3 orc3 s3 A3 :
  orc2 ≠ GlobalOpCheckpoint.None →
  advanced orc1 s1 A1 st2 orc2 s2 A2 → advanced orc2 s2 A2 st3 orc3 s3 A3 →
  advanced orc1 s1 A1 st3 orc3 s3 A3.
Proof.
  intros Hne [He1 Hok1 Ht1 Hs1 Hl1 Hf1 Hp1] [He2 Hok2 Ht2 Hs2 Hl2 Hf2 Hp2].
  specialize (Hs1 Hne). split.
  - by eapply op_effect_trans.
  - done.
  - by rewrite Ht2, Ht1.
  - intros Hne3. by rewrite Hs2, Hs1.
  - intros Hst. destruct (Hl2 Hst) as [? Hlow]. split; [done|].
    eapply low_gas_reads; [apply He1|done].
  - intros Hf. destruct (Hf1 Hf) as [? Hf']. destruct (Hf2 Hf'). split; [by etrans|done].
  - by eapply carried_out_trans.
Qed.

Lemma is_none_spec orc : is_none orc = true ↔ orc = GlobalOpCheckpoint.None.
Proof. by destruct orc. Qed.

Lemma rank_pos orc : orc ≠ GlobalOpCheckpoint.None → (0 < rank orc ≤ 4)%nat.
Proof. destruct orc as [|d|]; simpl; [done| |lia]. destruct (step d); lia. Qed.

(** The loop returns: each completed step lowers the rank. *)
Lemma global_op_loop fuel : ∀ s A orc,
  num_users_of s < usize_max_plus_1 → op_ok orc s A → op_room orc A →
  (rank orc < fuel)%nat →
  outcome (continue_global_operation_loop fuel OperationCompletionStatus.Completed orc) s (crowded full)
    (λ '(status, orc') s', ∃ A', advanced orc s A status orc' s' A' ∧
      (status = OperationCompletionStatus.Completed → orc' = GlobalOpCheckpoint.None)).
Proof.
  induction fuel as [|fuel IH]; intros s A orc Hmax Hok Hroom Hfuel; [lia|]. simpl.
  destruct (is_none orc) eqn:Hnone; simpl.
  { apply is_none_spec in Hnone as ->. apply outcome_ret. exists A. split; [|done].
    by split; [apply op_effect_refl|..]. }
  assert (orc ≠ GlobalOpCheckpoint.None) as Hne by (by intros ->).
  apply outcome_bind. eapply outcome_post; [by apply global_op_step|].
  intros [status orc1] s1 (A1 & Had & Hmv).
  destruct status.
  - destruct (Hmv eq_refl) as [Hrank Hr1].
    assert (num_users_of s1 < usize_max_plus_1) as Hmax1.
    { unfold num_users_of in *. by rewrite (oe_users _ _ _ _ (ad_effect _ _ _ _ _ _ _ Had)). }
    destruct (is_none orc1) eqn:Hnone1.
    + apply is_none_spec in Hnone1 as ->. destruct fuel as [|fuel]; [lia|]. apply outcome_ret. by exists A1.
    + eapply outcome_post; [apply (IH s1 A1 orc1 Hmax1); [apply Had|auto|lia]|].
      intros [status orc'] s' (A' & Had' & Hst). exists A'. split; [|done].
      eapply advanced_trans; [|done..]. by intros ->.
  - pose proof (rank_pos orc Hne). destruct fuel as [|fuel]; [lia|].
    apply outcome_ret. by exists A1.
Qed.

(** What a transaction of an operation leaves behind: the operation is over and
    the settings are [final], or it stopped for lack of gas with the settings
    [meantime], at a checkpoint that leads to [final]; of the [plan], what is not left
    to be done has been done. *)
Record op_run (plan : Plan) (meantime final : SettingsStore) s A status s' A' : Prop := {
  or_effect : op_effect s A s' A';
  or_ok : op_ok (st_global_op_checkpoint s') s' A';
  or_target : target (st_global_op_checkpoint s') (st_settings s') = final;
  or_completed : status = OperationCompletionStatus.Completed ↔
    st_global_op_checkpoint s' = GlobalOpCheckpoint.None;
  or_interrupted : status = OperationCompletionStatus.InterruptedBeforeOutOfGas →
    st_settings s' = meantime ∧ low_gas STOP_AT_GASLIMIT (st_chain s);
  or_earnings : shares_fixed (st_global_op_checkpoint s) s → earnings_raised s s';
  or_plan : carried_out plan (plan_of (st_global_op_checkpoint s')) A A';
}.

(** An operation is kept by whatever keeps the invariants of its phases. *)
Lemma op_ok_mono orc s A s' A' :
  bootstrap_of s' = bootstrap_of s →
  (Inv s A → Inv s' A') → (staked_ok s A → staked_ok s' A') →
  (∀ d, data_ok d s → data_ok d s') → (∀ d, amounts_ok d A → amounts_ok d A') →
  (∀ c0, swapping c0 s A → swapping c0 s' A') →
  op_ok orc s A → op_ok orc s' A'.
Proof.
  intros Hb Hinv Hst Hd Ham Hsw. unfold op_ok. rewrite Hb.
  destruct orc as [|d|]; [intros []; auto| |intros ([] & ? & ? & ?); auto].
  intros (? & ? & Hph). split_and!; [done|auto|]. revert Hph. unfold phase_ok.
  destruct (step d); [intros []; auto|intros [c0 ?]; eauto|intros [[c0 ?] ?]; eauto|
    intros ([c0 ?] & ? & ?); eauto].
Qed.

Lemma data_ok_alike s s' d : alike s s' → data_ok d s → data_ok d s'.
Proof.
  intros [_ Eu Er _ _ _ Ecum _]. unfold data_ok, done_up_to, num_users_of.
  rewrite Ecum, Eu. intros [Hle Hd]. split; [done|]. intros Hc.
  destruct (Hd Hc) as (Hn & Hs & Hall). split_and!; [done| |].
  - rewrite Hs. apply sum_over_ext. intros u _. unfold unclaimed_of. by rewrite Er.
  - intros u Hu. unfold checkpoint_of. rewrite Er. by apply Hall.
Qed.

Lemma swapping_alike c0 s s' A : alike s s' → swapping c0 s A → swapping c0 s' A.
Proof.
  intros [Ef Eu Er _ Efee Eb Ecum Eids] [].
  assert (assigned s' = assigned s) as Ha.
  { unfold assigned, users. rewrite Eu, Er. f_equal. apply sum_over_ext. intros u _.
    unfold unclaimed_of. by rewrite Er. }
  split; intros; unfold unregistered, num_users_of, unclaimed_of, checkpoint_of, users in *;
    rewrite ?Ef, ?Eu, ?Er, ?Efee, ?Eb, ?Ecum, ?Ha, ?Eids in *; auto.
Qed.

Lemma op_ok_alike orc s s' A : alike s s' → op_ok orc s A → op_ok orc s' A.
Proof.
  intros Hal. apply op_ok_mono; [apply Hal|by apply inv_alike|by apply staked_ok_alike| |done|].
  - intros d. by apply data_ok_alike.
  - intros c0. by apply swapping_alike.
Qed.

Lemma op_ok_checkpoint orc orc' s A :
  op_ok orc s A → op_ok orc (set_global_op_checkpoint orc' s) A.
Proof. by apply op_ok_alike. Qed.

Lemma continue_spec s A orc :
  num_users_of s < usize_max_plus_1 → op_ok orc s A → op_room orc A →
  (shares_fixed (st_global_op_checkpoint s) s → shares_fixed orc s) →
  outcome (continue_global_operation orc) s (crowded full) (λ status s', ∃ A',
    op_run (plan_of orc) (st_settings s) (target orc (st_settings s)) s A status s' A').
Proof.
  intros Hmax Hok Hroom Hsh. unfold continue_global_operation. apply outcome_bind.
  eapply outcome_post; [apply (global_op_loop GLOBAL_OP_FUEL s A orc Hmax Hok Hroom)|].
  { unfold GLOBAL_OP_FUEL. destruct (is_none orc) eqn:Hnone; [|].
    - apply is_none_spec in Hnone as ->. simpl. lia.
    - pose proof (rank_pos orc ltac:(by intros ->)). lia. }
  intros [status orc'] s' (A' & [He Hok' Ht Hs Hl Hf Hp] & Hst). cbv beta iota.
  apply outcome_bind, outcome_modify, outcome_ret. exists A'.
  split; simpl; [by destruct He|by apply op_ok_checkpoint|done| | | |done].
  - split; [done|]. intros ->. destruct status; [done|]. by destruct (Hl eq_refl).
  - intros ->. destruct (Hl eq_refl) as [Hne Hlow]. auto.
  - intros Hf0. destruct (Hf (Hsh Hf0)) as [[] _]. by split.
Qed.
End GlobalOpSpec.
