(* ===== verification/GlobalOpStart.v ===== *)
(** * The endpoints of global operations

    Starting an operation, continuing it, and what may come in between. *)
From stdpp Require Import base numbers list gmap strings.
From S2P Require Import Prelude PtrList FundTypes FundModule FundLedger FundRep FundLoops.
From S2P Require Import FundTotals FundMoves UserData NodeConfig Settings Chain State FundTransf.
From S2P Require Import FundView Rewards UserStake ResetCheckpoint TransfSpec RewardSpec.
From S2P Require Import ContractInv StakeSpec EndpointSpec PayoutSpec SolvencySpec GlobalOpSpec.

Section GlobalOpStart.
Context {C : Type} `{ChainLaws C}.
Variable full : Prop.
Implicit Type s : State C.

Lemma data_ok_new s : data_ok (ComputeAllRewardsData_new (cumulated s)) s.
Proof.
  split; [done|]. intros _. split_and!; [apply N.le_0_l|done|].
  intros u Hu%elem_of_ids_up_to. simpl in Hu. lia.
Qed.

(** A run that begins after the settings have been prepared. *)
Lemma op_run_from plan meantime final s s1 A status s' A' :
  op_effect s A s1 A → st_chain s1 = st_chain s → earnings_raised s s1 →
  st_global_op_checkpoint s1 = GlobalOpCheckpoint.None →
  op_run plan meantime final s1 A status s' A' → op_run plan meantime final s A status s' A'.
Proof.
  intros He Hc Her Hop [He' Hok Ht Hst Hi Hf Hp]. split; try done; [by eapply op_effect_trans|..].
  - intros Hs. destruct (Hi Hs) as [? Hl]. split; [done|]. by rewrite <-Hc.
  - intros _. etrans; [exact Her|]. apply Hf. by rewrite Hop.
Qed.

(** An operation that is over at once. *)
Lemma op_run_done meantime final s A s' :
  op_effect s A s' A → st_global_op_checkpoint s' = GlobalOpCheckpoint.None →
  st_settings s' = final → Inv s' A → staked_ok s' A → earnings_raised s s' →
  op_run (mk_Plan 0 0 0) meantime final s A OperationCompletionStatus.Completed s' A.
Proof.
  intros He Ho Hs HI Hok Her. split; rewrite ?Ho; done.
Qed.

Lemma set_settings_effect st s A : op_effect s A (lens_set (st : SettingsStore) s) A.
Proof. by split. Qed.

(** ** Continuing *)
Lemma continue_endpoint_spec s A :
  let orc := st_global_op_checkpoint s in
  feature_on "continueGlobalOperation" true (st_chain s) = true →
  num_users_of s < usize_max_plus_1 → op_ok orc s A → op_room full orc A →
  outcome continue_global_operation_endpoint s (crowded full) (λ status s', ∃ A',
    op_run (plan_of orc) (st_settings s) (target orc (st_settings s)) s A status s' A').
Proof.
  intros orc Hf Hmax Hok Hroom. unfold continue_global_operation_endpoint.
  apply outcome_bind. eapply outcome_eq.
  { unfold check_feature_on, bind, gets. by rewrite Hf. }
  run_gets. by apply continue_spec.
Qed.

(** ** The service fee *)
Lemma set_service_fee_id st : set_service_fee (service_fee st) st = st.
Proof. by destruct st. Qed.

(** In bootstrap mode nothing has been received. *)
Lemma bootstrap_settled s A : Inv s A → bootstrap_of s = true → all_settled s.
Proof.
  intros HI Hb u _. pose proof (inv_bootstrap _ _ HI Hb). pose proof (inv_checkpoint _ _ HI u). lia.
Qed.

(** The fee does not matter then. *)
Lemma inv_set_fee_bootstrap s A fee :
  Inv s A → bootstrap_of s = true → fee ≤ PERCENTAGE_DENOMINATOR →
  Inv (lens_set (set_service_fee fee (st_settings s)) s) A.
Proof.
  intros HI Hb Hfee. set (s' := lens_set _ _).
  pose proof (inv_bootstrap _ _ HI Hb) as Hc. assert (cumulated s' = 0) as Hc' by done.
  assert (owed s' = owed s) as Ho.
  { assert (∀ u, owed_user s' u = owed_user s u) as Hu.
    { intros u. unfold owed_user. rewrite Hc, Hc', !N.sub_0_l, !N.mul_0_r. done. }
    unfold owed. rewrite (sum_over_ext _ _ _ (λ u _, Hu u)).
    unfold owed_owner. by rewrite Hc, Hc', !N.sub_0_l, !N.mul_0_l. }
  destruct HI. split; try done. unfold solvent in *. by rewrite Ho.
Qed.

Lemma set_service_fee_spec s A fee :
  fee ≤ PERCENTAGE_DENOMINATOR → num_users_of s < usize_max_plus_1 →
  st_global_op_checkpoint s = GlobalOpCheckpoint.None → Inv s A → staked_ok s A →
  runs (set_service_fee_endpoint fee) s (λ status s', ∃ A',
    op_run (mk_Plan 0 0 0) (st_settings s) (set_service_fee fee (st_settings s)) s A status s' A').
Proof.
  intros Hfee Hmax Hop HI Hok. unfold set_service_fee_endpoint.
  apply runs_bind, runs_require; [by apply N.leb_le|].
  apply runs_bind. eapply runs_eq; [by apply no_global_op_ok|]. run_gets.
  destruct (N.eqb_spec (service_fee (st_settings s)) fee) as [<-|Hne].
  { apply runs_ret. exists A. rewrite set_service_fee_id.
    by apply op_run_done; [apply op_effect_refl|..]. }
  run_gets. fold (bootstrap_of s). destruct (bootstrap_of s) eqn:Hb.
  - apply runs_bind, runs_zoom, runs_modify, runs_ret. exists A.
    apply op_run_done; [apply set_settings_effect|done|done|by apply inv_set_fee_bootstrap|exact Hok|].
    by eapply settled_settings, bootstrap_settled.
  - run_gets. fold (cumulated s).
    apply uncrowded, (continue_spec False s A (GlobalOpCheckpoint.ChangeServiceFee fee _) Hmax);
      [|done..].
    split_and!; [done|done|done|done|]. apply data_ok_new.
Qed.

(** ** The delegation cap *)
Definition max_available (A : AFunds) : N :=
  tt_of FundType.Active A + tt_of FundType.Waiting A + tt_of FundType.UnStaked A.

(** The cap that a change starts from: bootstrap mode ends with what there is. *)
Definition previous_cap s (A : AFunds) : N :=
  if bootstrap_of s then max_available A else cap_of s.

(** What the contract's balance has to cover before anything else. *)
Definition protected_of s (A : AFunds) : N :=
  cumulated s + tt_of FundType.Waiting A + tt_of FundType.DeferredPayment A
  + tt_of FundType.WithdrawOnly A.

(** Bootstrap mode goes on under a cap above what there is. *)
Definition stays_in_bootstrap cap s (A : AFunds) : bool :=
  bootstrap_of s && (max_available A <? cap).

Definition cap_admissible cap s (A : AFunds) : Prop :=
  stays_in_bootstrap cap s A = true ∨
  (cap ≤ max_available A ∧ (bootstrap_of s = true → cap ≠ max_available A) ∧
   (previous_cap s A < cap → tt_of FundType.UnStaked A = 0) ∧
   (cap < previous_cap s A → previous_cap s A - cap + protected_of s A
      ≤ get_sc_balance (st_chain s) + rs_sent_rewards (st_rewards s))).

Lemma total_unprotected_eq s A (Q : N → State C → Prop) :
  Rep (st_funds s) A →
  protected_of s A ≤ get_sc_balance (st_chain s) + rs_sent_rewards (st_rewards s) →
  Q (get_sc_balance (st_chain s) + rs_sent_rewards (st_rewards s) - protected_of s A) s →
  runs total_unprotected s Q.
Proof.
  unfold protected_of. intros HR Hle HQ. unfold total_unprotected.
  do 6 run_gets. rewrite !(stake_total HR). fold (cumulated s).
  do 3 (apply runs_bind, runs_big_sub; [lia|]). apply runs_big_sub; [lia|].
  by rewrite <-!N.sub_add_distr, !N.add_assoc.
Qed.

(** The settings after a change of the cap, and while it runs. *)
Definition cap_meantime cap s (A : AFunds) : SettingsStore :=
  set_bootstrap_mode (stays_in_bootstrap cap s A) (st_settings s).
Definition cap_final cap s (A : AFunds) : SettingsStore :=
  set_total_delegation_cap cap (cap_meantime cap s A).

(** What a change from [prev] to [cap] moves: waiting stake fills what the cap gains;
    of what it loses unstaked stake comes first, then active stake. *)
Definition change_plan (prev cap : N) (A : AFunds) : Plan :=
  mk_Plan (cap - prev) (N.min (prev - cap) (tt_of FundType.UnStaked A))
    (prev - cap - tt_of FundType.UnStaked A).
Definition cap_plan cap s (A : AFunds) : Plan :=
  if stays_in_bootstrap cap s A then mk_Plan 0 0 0 else change_plan (previous_cap s A) cap A.

(** The change itself, once the bootstrap mode is over. *)
Lemma cap_change_spec s A data :
  num_users_of s < usize_max_plus_1 → Inv s A → bootstrap_of s = false →
  step data = ModifyDelegationCapStep.ComputeAllRewards (ComputeAllRewardsData_new (cumulated s)) →
  amounts_ok data A → op_room full (GlobalOpCheckpoint.ModifyTotalDelegationCap data) A →
  outcome (continue_global_operation (GlobalOpCheckpoint.ModifyTotalDelegationCap data)) s
    (crowded full)
    (λ status s', ∃ A', op_run (plan_of (GlobalOpCheckpoint.ModifyTotalDelegationCap data))
      (st_settings s)
      (set_total_delegation_cap (new_delegation_cap data) (st_settings s)) s A status s' A').
Proof.
  intros Hmax HI Hb Hstep Ham Hroom.
  apply (continue_spec full s A (GlobalOpCheckpoint.ModifyTotalDelegationCap data) Hmax); [|done|].
  2: { intros _. unfold shares_fixed. simpl. by rewrite Hstep. }
  split_and!; [done|done|]. unfold phase_ok. rewrite Hstep. split; [done|]. apply data_ok_new.
Qed.

(** The two directions of a change, from the cap [prev]. *)
Lemma cap_change_branches s A prev cap :
  num_users_of s < usize_max_plus_1 → Inv s A → bootstrap_of s = false →
  st_global_op_checkpoint s = GlobalOpCheckpoint.None →
  tt_of FundType.Active A + tt_of FundType.UnStaked A = prev →
  cap ≤ max_available A → (prev = cap → cap_of s = cap) →
  (prev < cap → tt_of FundType.UnStaked A = 0) →
  (cap < prev → prev - cap + protected_of s A
      ≤ get_sc_balance (st_chain s) + rs_sent_rewards (st_rewards s)) →
  step_room full (len_of FundType.Waiting A) (len_of FundType.UnStaked A)
    (len_of FundType.Active A + len_of FundType.Waiting A) A →
  outcome (match cap ?= prev with
      | Eq => ret OperationCompletionStatus.Completed
      | Gt =>
          require (tt_of FundType.UnStaked A =? 0)
            "no unstaked funds should be present when increasing delegation cap" ;;;
          let! swap_amount := big_sub cap prev in
          let! total := get_total_cumulated_rewards in
          continue_global_operation
            (GlobalOpCheckpoint.ModifyTotalDelegationCap
              (mk_ModifyTotalDelegationCapData cap swap_amount 0 0
                (ModifyDelegationCapStep.ComputeAllRewards
                  (ComputeAllRewardsData_new total))))
      | Lt =>
          let! swap_amount := big_sub prev cap in
          let! unprotected := total_unprotected in
          require (swap_amount <=? unprotected)
            "not enough funds in contract to pay those who are forced unstaked" ;;;
          let! '(swap_active_to_def_p, swap_unstaked_to_def_p) :=
            if swap_amount <=? tt_of FundType.UnStaked A then ret (0, swap_amount)
            else
              let! d := big_sub swap_amount (tt_of FundType.UnStaked A) in
              ret (d, tt_of FundType.UnStaked A) in
          let! total := get_total_cumulated_rewards in
          continue_global_operation
            (GlobalOpCheckpoint.ModifyTotalDelegationCap
              (mk_ModifyTotalDelegationCapData cap 0
                swap_active_to_def_p swap_unstaked_to_def_p
                (ModifyDelegationCapStep.ComputeAllRewards
                  (ComputeAllRewardsData_new total))))
      end) s (crowded full) (λ status s', ∃ A', op_run (change_plan prev cap A) (st_settings s)
        (set_total_delegation_cap cap (st_settings s)) s A status s' A').
Proof.
  intros Hmax HI Hb Hop Hprev Hle Heq Hup Hdown Hroom. unfold max_available in Hle.
  destruct (N.compare_spec cap prev) as [->|Hlt|Hgt].
  - apply outcome_ret. exists A.
    replace (change_plan prev prev A) with (mk_Plan 0 0 0)
      by (unfold change_plan; rewrite N.sub_diag; f_equal; lia).
    apply op_run_done; [apply op_effect_refl|done| |done| |done].
    + rewrite <-(Heq eq_refl) at 1. unfold cap_of. by destruct (st_settings s).
    + unfold staked_ok, within_cap, none_waits, cap_ok. rewrite Hb. split; [|done].
      by rewrite (Heq eq_refl).
  - specialize (Hdown Hlt).
    apply outcome_bind, outcome_big_sub; [lia|].
    apply outcome_bind, runs_outcome, (total_unprotected_eq s A); [apply HI|lia|].
    apply outcome_bind, outcome_require; [apply N.leb_le; lia|]. apply outcome_bind.
    eapply (outcome_eq _ _ (prev - cap - tt_of FundType.UnStaked A,
      N.min (prev - cap) (tt_of FundType.UnStaked A)) s).
    { destruct (N.leb_spec (prev - cap) (tt_of FundType.UnStaked A)).
      - unfold ret. do 3 f_equal; lia.
      - unfold bind, big_sub. rewrite (proj2 (N.ltb_ge _ _)) by lia.
        unfold ret. do 3 f_equal; lia. }
    cbv beta iota. run_gets. fold (cumulated s).
    unfold change_plan. replace (cap - prev) with 0 by lia.
    apply (cap_change_spec s A (mk_ModifyTotalDelegationCapData cap 0 _ _ _)); try done.
    split; simpl; lia.
  - specialize (Hup Hgt). apply outcome_bind, outcome_require; [by apply N.eqb_eq|].
    apply outcome_bind, outcome_big_sub; [lia|]. run_gets. fold (cumulated s).
    unfold change_plan. replace (prev - cap) with 0 by lia.
    rewrite N.min_0_l, N.sub_0_l.
    apply (cap_change_spec s A (mk_ModifyTotalDelegationCapData cap _ 0 0 _)); try done.
    split; simpl; lia.
Qed.

Lemma inv_set_cap_bootstrap s A cap :
  Inv s A → bootstrap_of s = true → tt_of FundType.Active A ≤ cap →
  Inv (lens_set (set_total_delegation_cap cap (st_settings s)) s) A.
Proof.
  intros HI Hb Hcap. set (s' := lens_set _ _). pose proof (inv_bootstrap _ _ HI Hb) as Hc.
  pose proof (bootstrap_settled s A HI Hb) as Hall.
  pose proof (assigned_le s A HI Hall) as Hass.
  assert (owed s' = assigned s' * (PERCENTAGE_DENOMINATOR * scale_of s')) as Ho.
  { apply owed_of_settled; [apply HI|done]. }
  change (assigned s') with (assigned s) in Ho. assert (assigned s = 0) as Hz by lia.
  rewrite Hz, N.mul_0_l in Ho.
  destruct HI. split; try done. unfold solvent. rewrite Ho. apply N.le_0_l.
Qed.

Lemma set_bootstrap_id st b : bootstrap_mode st = b → set_bootstrap_mode b st = st.
Proof. intros <-. by destruct st. Qed.

Lemma modify_cap_spec s A cap :
  get_caller (st_chain s) = get_owner_address (st_chain s) →
  st_global_op_checkpoint s = GlobalOpCheckpoint.None →
  num_users_of s < usize_max_plus_1 → Inv s A → staked_ok s A → cap_admissible cap s A →
  step_room full (len_of FundType.Waiting A) (len_of FundType.UnStaked A)
    (len_of FundType.Active A + len_of FundType.Waiting A) A →
  outcome (modify_total_delegation_cap cap) s (crowded full) (λ status s', ∃ A',
    op_run (cap_plan cap s A) (cap_meantime cap s A) (cap_final cap s A) s A status s' A').
Proof.
  intros Hown Hop Hmax HI [Hok Hwait] Hadm Hroom. unfold modify_total_delegation_cap.
  apply owner_only_outcome; [done|].
  apply outcome_bind. eapply outcome_eq; [by apply no_global_op_ok|].
  do 4 run_gets. rewrite !(stake_total (inv_rep _ _ HI)). fold (bootstrap_of s).
  replace (tt_of FundType.Active A + tt_of FundType.Waiting A + tt_of FundType.UnStaked A)
    with (max_available A) by done.
  unfold cap_plan, cap_final, cap_meantime, cap_admissible, stays_in_bootstrap, previous_cap, within_cap,
    cap_ok, none_waits in *.
  destruct (bootstrap_of s) eqn:Hb; simpl in *.
  - specialize (Hwait eq_refl). destruct (N.ltb_spec (max_available A) cap) as [Hlt|Hge].
    + apply outcome_bind, outcome_bind, outcome_zoom, outcome_modify, outcome_ret, outcome_ret. exists A.
      apply op_run_done; [apply set_settings_effect|done|by rewrite set_bootstrap_id| | |].
      3: by eapply settled_settings, bootstrap_settled.
      * apply inv_set_cap_bootstrap; [done|done|]. unfold max_available in *. lia.
      * split; unfold within_cap, cap_ok, none_waits; change (bootstrap_of _) with (bootstrap_of s);
          [|done]. rewrite Hb. change (cap_of _) with cap. unfold max_available in *. lia.
    + destruct Hadm as [?|(Hle & Hne & Hup & Hdown)]; [done|]. specialize (Hne eq_refl).
      apply outcome_bind, outcome_bind, outcome_zoom, outcome_modify, outcome_ret.
      set (s1 := lens_set _ s).
      eapply outcome_post.
      { apply (cap_change_branches s1 A (max_available A) cap); try done.
        - by apply inv_leave_bootstrap.
        - unfold max_available. lia. }
      intros status s' [A' Hr]. exists A'. by eapply (op_run_from _ _ _ s s1).
  - destruct Hadm as [?|(Hle & _ & Hup & Hdown)]; [done|].
    apply outcome_bind, outcome_bind, outcome_require; [by apply N.leb_le|]. run_gets.
    apply outcome_ret. rewrite set_bootstrap_id by done. fold (cap_of s).
    by apply (cap_change_branches s A (cap_of s) cap).
Qed.
(** ** What may come in between *)

(** New rewards; none come before the end of the bootstrap mode. *)
Definition later_chain (c : C) s : Prop :=
  cumulated s ≤ get_cumulated_validator_rewards c ∧
  (bootstrap_of s = true → get_cumulated_validator_rewards c = cumulated s).

Lemma data_ok_arrive s c d :
  cumulated s ≤ get_cumulated_validator_rewards c → data_ok d s → data_ok d (set_chain c s).
Proof.
  intros Hle [Hd Hdone]. split; [by etrans|].
  change (cumulated (set_chain c s)) with (get_cumulated_validator_rewards c). intros Heq.
  assert (rewards_checkpoint d = cumulated s) as Hc by lia.
  apply done_quiet; [by rewrite <-Hc|auto].
Qed.

Lemma op_ok_arrive orc s A c : later_chain c s → op_ok orc s A → op_ok orc (set_chain c s) A.
Proof.
  intros [Hle Hboot]. apply op_ok_mono; try done.
  - intros HI. destruct (bootstrap_of s) eqn:Hb; [|by apply inv_arrive].
    apply inv_alike with s; [|done]. split; try done. by apply Hboot.
  - intros d. by apply data_ok_arrive.
  - intros c0 HS. by apply swapping_arrive.
Qed.

Lemma op_ok_released orc s s' A A' u r :
  quiet s s' → Rep (st_funds s') A' → released u r A A' → op_ok orc s A → op_ok orc s' A'.
Proof.
  intros Hq HR Hrl. pose proof (rl_types _ _ _ _ Hrl) as Ht.
  destruct (Ht FundType.Active ltac:(done) ltac:(done)) as [Hact _].
  destruct (Ht FundType.UnStaked ltac:(done) ltac:(done)) as [Hun _].
  destruct (Ht FundType.Waiting ltac:(done) ltac:(done)) as [Hwa _].
  pose proof (quiet_cumulated _ _ Hq) as Hc.
  apply op_ok_mono.
  - unfold bootstrap_of. by rewrite (qu_settings _ _ Hq).
  - intros HI. by eapply inv_released.
  - apply staked_ok_eq; [apply Hq|by rewrite Hact, Hun|by rewrite Hwa].
  - intros d Hd. apply (data_ok_alike (lens_set (st_funds s') s)); [|exact Hd].
    destruct Hq. split; try done; unfold cap_of, fee_of, bootstrap_of; simpl; congruence.
  - intros d []. split; congruence.
  - intros c0 HS. eapply swapping_quiet; [done|done|done|].
    intros w t Hw. apply (rl_none _ _ _ _ Hrl). intros t'. by apply HS.
Qed.

(** Withdrawing works in the middle of an operation too. *)
Record withdrawn (u r : N) s A s' A' : Prop := {
  wd_due : up_to (payable_now s A) r s;
  wd_op : st_global_op_checkpoint s' = st_global_op_checkpoint s;
  wd_ok : op_ok (st_global_op_checkpoint s') s' A';
  wd_released : released u r A A';
  wd_balance : get_sc_balance (st_chain s') + r = get_sc_balance (st_chain s);
  wd_settings : st_settings s' = st_settings s;
  wd_rewards : st_rewards s' = st_rewards s;
  wd_users : st_users s' = st_users s;
  wd_view : chain_view (st_chain s') = chain_view (st_chain s);
  wd_payments : payments_of (st_chain s') =
    payments_of (st_chain s) ++ payout (get_caller (st_chain s)) r;
}.

Lemma withdrawn_paid u r s s1 A A' c :
  op_ok (st_global_op_checkpoint s) s A → quiet s s1 → Rep (st_funds s1) A' →
  released u r A A' → chain_view c = chain_view (st_chain s1) →
  get_sc_balance c + r = get_sc_balance (st_chain s1) →
  payments_of c = payments_of (st_chain s1) ++ payout (get_caller (st_chain s)) r → up_to (payable_now s A) r s →
  withdrawn u r s A (set_chain c s1) A'.
Proof.
  intros Hop Hq HR Hrl Hv Hb Hpay Hup. pose proof (op_ok_released _ s s1 A A' u r Hq HR Hrl Hop) as Hop1.
  destruct (chain_view_eq _ _ Hv) as (_ & _ & _ & Hc).
  destruct Hq. split; simpl; try congruence.
  rewrite qu_op. revert Hop1. apply op_ok_alike. by split.
Qed.

Lemma unbond_during_op s A :
  let u := caller_id s in
  op_ok (st_global_op_checkpoint s) s A → Rep (st_funds s) A →
  not_paused (st_chain s) = true → u ≠ 0 → user_roomy u FundType.DeferredPayment A →
  withdrawable u A ≤ get_sc_balance (st_chain s) →
  runs unbond_user s (λ r s', ∃ A', withdrawn u r s A s' A').
Proof.
  intros u Hop HR Hp Hu Hroom Hbal.
  eapply runs_eq_fun; [by apply unbond_user_eq|]. apply outcome_runs.
  apply (unbond_halves s A u); [done|done|]. intros r s1 A' Hq HR1 Hrl Hup.
  pose proof (rl_paid _ _ _ _ Hrl) as Hpaid.
  apply runs_outcome. eapply runs_mono; [apply pay_out_ok; rewrite (qu_balance _ _ Hq); lia|].
  intros r' s' (-> & c & -> & Hv & Hb & Hpays). exists A'. by apply withdrawn_paid.
Qed.
End GlobalOpStart.
