(* ===== verification/ContractSystem.v ===== *)
(** * The contract as a system of transactions

    Transactions of delegators and of the owner, new blocks with new rewards and
    the activity of the other modules follow each other in any order; global
    operations are interrupted and continued in between.  The invariant of the
    operation under way holds on every state that is reached. *)
From stdpp Require Import base numbers list gmap strings relations.
From S2P Require Import Prelude PtrList FundTypes FundModule FundLedger FundRep FundLoops.
From S2P Require Import FundTotals FundMoves UserData NodeConfig Settings Chain State FundTransf.
From S2P Require Import FundView Rewards UserStake ResetCheckpoint TransfSpec RewardSpec.
From S2P Require Import ContractInv StakeSpec EndpointSpec PayoutSpec SolvencySpec GlobalOpSpec.
From S2P Require Import GlobalOpStart FundSpec Contract.

(** ** The system *)
Inductive ContractTx : Set :=
| Stake (payment : N)
| UnStake (amount : N)
| UnBond
| ClaimRewards
| SetServiceFee (service_fee_per_10000 : N)
| ModifyTotalDelegationCap (new_total_cap : N)
| ContinueGlobalOperation.

Section System.
Context {C : Type} `{Chain C}.
Implicit Type s : State C.

Definition run_tx (tx : ContractTx) : M (State C) unit :=
  match tx with
  | Stake payment => stake_endpoint payment
  | UnStake amount => unstake_endpoint amount
  | UnBond => unbond_user ;;; ret tt
  | ClaimRewards => claim_rewards
  | SetServiceFee fee => set_service_fee_endpoint fee ;;; ret tt
  | ModifyTotalDelegationCap cap => modify_total_delegation_cap cap ;;; ret tt
  | ContinueGlobalOperation => continue_global_operation_endpoint ;;; ret tt
  end.

(** The ids that a transaction may give out fit into an index. *)
Record fits s : Prop := {
  ft_users : num_users_of s + 1 < usize_max_plus_1;
  ft_ids : let n t := count_of t (st_funds s) in
    fs_fund_max_id (st_funds s)
      + 2 * (n FundType.Waiting + n FundType.UnStaked + n FundType.Active)
      + n FundType.DeferredPayment + 2 < usize_max_plus_1;
}.

(** The bootstrap mode is not ended by a cap of exactly what there is, which the
    contract would not record. *)
Definition sane (tx : ContractTx) s : Prop :=
  let total t := get_user_stake_of_type USER_STAKE_TOTALS_ID t (st_funds s) in
  match tx with
  | ModifyTotalDelegationCap cap =>
      bootstrap_of s = true →
      cap ≠ total FundType.Active + total FundType.Waiting + total FundType.UnStaked
  | _ => True
  end.

Inductive contract_step : State C → State C → Prop :=
| step_tx tx s s' :
    fits s → sane tx s → run_tx tx s = Ok (tt, s') → contract_step s s'
| step_block c s : later_chain c s → contract_step s (set_chain c s)
| step_others s s' :
    alike s s' → st_global_op_checkpoint s' = st_global_op_checkpoint s →
    contract_step s s'.

(** The contract is between transactions: in the middle of the operation of its
    checkpoint, or of none. *)
Definition contract_ok s : Prop := ∃ A, op_ok (st_global_op_checkpoint s) s A.

(** It is so, and everybody owns what they own in [A]. *)
Definition holdings_kept (A : AFunds) s : Prop :=
  ∃ A', op_ok (st_global_op_checkpoint s) s A' ∧ ∀ u, holdings u A' = holdings u A.

Lemma holdings_kept_ok A s : holdings_kept A s → contract_ok s.
Proof. intros (A' & ? & _). by exists A'. Qed.

(** Nobody loses or gains stake or rewards; and the same but for the rewards that
    came in while an operation was moving stake. *)
Definition accounts_kept s (A : AFunds) s' : Prop := holdings_kept A s' ∧ earnings_kept s s'.
Definition accounts_operated s (A : AFunds) s' : Prop :=
  holdings_kept A s' ∧ (shares_fixed (st_global_op_checkpoint s) s → earnings_raised s s').
End System.

Section Preserved.
Context {C : Type} `{ChainLaws C}.
Implicit Type s : State C.

(** The same for the lists of the ledger. *)
Record fits_in s (A : AFunds) : Prop := {
  fi_users : num_users_of s + 1 < usize_max_plus_1;
  fi_ids : af_max A + 2 * (len_of FundType.Waiting A + len_of FundType.UnStaked A
    + len_of FundType.Active A) + len_of FundType.DeferredPayment A + 2 < usize_max_plus_1;
}.

Lemma fits_rep s A : Rep (st_funds s) A → fits s → fits_in s A.
Proof.
  intros HR []. split; rewrite <-?(rep_count _ _ _ HR); [done|].
  by rewrite <-(rep_max _ _ _ HR).
Qed.

Lemma op_ok_rep orc s A : op_ok orc s A → Rep (st_funds s) A.
Proof.
  destruct orc as [|d|]; simpl; [intros [[] _]; done| |intros ([[] _] & _); done].
  intros (_ & _ & Hph). unfold phase_ok in Hph.
  destruct (step d); [by destruct Hph as [[] _]|by destruct Hph as [? []]|
    by destruct Hph as [[? []] _]|by destruct Hph as ([? []] & _)].
Qed.

(** *** The constructor *)
Lemma init_spec (c : C) auction fee share n_blocks minimum cap :
  fee ≤ PERCENTAGE_DENOMINATOR → share ≤ PERCENTAGE_DENOMINATOR →
  get_cumulated_validator_rewards c = 0 → 0 < cap →
  runs (init auction fee share n_blocks minimum cap) (initial_State c) (λ _ s',
    Inv s' empty_funds ∧ staked_ok s' empty_funds ∧ bootstrap_of s' = true ∧
    cap_of s' = cap ∧ get_user_id (get_caller c) (st_users s') = OWNER_USER_ID ∧
    st_global_op_checkpoint s' = GlobalOpCheckpoint.None).
Proof.
  intros Hfee Hshare Hcum Hcap. unfold init. run_gets.
  do 4 apply runs_bind, runs_zoom, runs_modify.
  apply runs_bind, runs_require; [by apply N.leb_le|].
  apply runs_bind, runs_zoom, runs_modify.
  apply runs_bind, runs_zoom. unfold set_owner_min_stake_share_validated.
  apply runs_bind, runs_require; [by apply N.leb_le|]. apply runs_modify.
  do 3 apply runs_bind, runs_zoom, runs_modify. apply runs_zoom, runs_modify.
  set (s' := lens_set _ _).
  assert (cumulated s' = 0) as Hc by exact Hcum.
  assert (∀ a, get_user_id a (st_users s') = if decide (get_caller c = a) then 1 else 0) as Hid.
  { intros a. unfold get_user_id, s'; simpl. rewrite lookup_insert. by case_decide. }
  split_and!; [split|done|done|done|by rewrite Hid, decide_True by done|done]; try done.
  - apply empty_rep.
  - intros a. rewrite Hid. change (num_users_of s') with 1. case_decide; lia.
  - intros u. rewrite Hc. done.
  - change (0 ≤ cap). lia.
  - assert (owed_owner s' = 0) as Ho by (unfold owed_owner; by rewrite Hc).
    assert (owed_user s' 1 = 0) as Hu.
    { unfold owed_user. rewrite Hc. change (unclaimed_of 1 s') with 0. simpl. lia. }
    unfold solvent, owed. rewrite Hc, Ho. change (users s') with [1].
    unfold sum_over; simpl. by rewrite Hu.
Qed.

(** *** Delegators *)
Lemma stake_guards s payment :
  ensures (stake_endpoint payment) s (λ _ _, open_for_users s ∧ min_stake_of s ≤ payment).
Proof.
  unfold stake_endpoint. apply not_paused_ensures. intros Hp.
  apply ensures_bind, ensures_gets, ensures_bind, ensures_require. intros Hmin%N.leb_le.
  apply no_global_op_ensures. intros Hop. apply ensures_const. by repeat split.
Qed.

Lemma stake_keeps s A payment :
  op_ok (st_global_op_checkpoint s) s A → fits_in s A →
  ensures (stake_endpoint payment) s (λ _ s', ∃ A',
    op_ok (st_global_op_checkpoint s') s' A' ∧ staked payment s A s' A').
Proof.
  intros Hok [Fu Fi].
  eapply ensures_guarded; [apply stake_guards|intros [Hopen Hmin]].
  rewrite (op_no_global_op _ Hopen) in Hok. destruct Hok as [HI Hst].
  eapply ensures_mono; [eapply outcome_ensures, (stake_spec True s A payment HI Hst Hopen Hmin);
    [by split; [lia|apply vec_room_any..]|done]|].
  intros [] s' (A' & Hs). exists A'. split; [|done].
  rewrite (sk_op _ _ _ _ _ Hs), (op_no_global_op _ Hopen). split; apply Hs.
Qed.

Lemma unstake_guards s A amount :
  Rep (st_funds s) A →
  ensures (unstake_endpoint amount) s (λ _ _, open_for_users s ∧ caller_id s ≠ 0 ∧
    amount ≤ stake_of (caller_id s) A ∧
    (amount = stake_of (caller_id s) A ∨ min_stake_of s ≤ amount)).
Proof.
  intros HR. unfold unstake_endpoint. apply not_paused_ensures. intros Hp.
  apply no_global_op_ensures. intros Hop.
  apply ensures_bind, ensures_gets, ensures_bind, ensures_gets. fold (caller_id s).
  apply ensures_bind, ensures_require. intros Hu%negb_true_iff%N.eqb_neq.
  apply ensures_bind. unfold validate_unstake_amount.
  apply ensures_bind, ensures_gets, ensures_bind, ensures_gets.
  rewrite !(stake_user HR) by done. unfold stake_of.
  destruct (N.compare_spec amount (ut_of (caller_id s) FundType.Waiting A +
    ut_of (caller_id s) FundType.Active A)) as [->|Hlt|Hgt].
  - apply ensures_ret, ensures_const. split_and!; [by split|done|done|by left].
  - apply ensures_bind, ensures_gets, ensures_require. intros Hmin%N.leb_le.
    apply ensures_const. split_and!; [by split|done|lia|by right].
  - apply ensures_fail.
Qed.

Lemma unstake_keeps s A amount :
  op_ok (st_global_op_checkpoint s) s A → fits_in s A →
  ensures (unstake_endpoint amount) s (λ _ s', accounts_kept s A s').
Proof.
  intros Hok [Fu Fi]. pose proof (op_ok_rep _ _ _ Hok) as HR.
  pose proof (unstake_guards s A amount HR) as Hg. revert Hg.
  unfold ensures, outcome. destruct (unstake_endpoint amount s) as [[[] s']|e] eqn:Heq; [|done].
  intros (Hopen & Hu & Hle & Hmin).
  rewrite (op_no_global_op _ Hopen) in Hok. destruct Hok as [HI Hst].
  pose proof (ulen_le (caller_id s) FundType.Waiting A).
  pose proof (ulen_le (caller_id s) FundType.Active A).
  pose proof (unstake_endpoint_spec True s A amount HI Hst Hopen
    ltac:(by split; [lia|apply vec_room_any..]) Hu Hle Hmin) as Hs.
  unfold outcome in Hs. rewrite Heq in Hs. destruct Hs as [A' Hs]. split; [|apply Hs]. exists A'. split; [|apply Hs].
  rewrite (fr_op _ _ (us_frame _ _ _ _ _ _ Hs)), (op_no_global_op _ Hopen). split; apply Hs.
Qed.

Lemma unbond_guards s :
  ensures unbond_user s (λ _ _, not_paused (st_chain s) = true ∧ caller_id s ≠ 0).
Proof.
  unfold unbond_user. apply not_paused_ensures. intros Hp.
  apply ensures_bind, ensures_gets, ensures_bind, ensures_gets. fold (caller_id s).
  apply ensures_bind, ensures_require. intros Hu%N.ltb_lt. apply ensures_const. split; [done|lia].
Qed.

Lemma unbond_keeps s A :
  op_ok (st_global_op_checkpoint s) s A → fits_in s A →
  ensures unbond_user s (λ r s', ∃ A', withdrawn (caller_id s) r s A s' A').
Proof.
  intros Hok Hf. pose proof (op_ok_rep _ _ _ Hok) as HR. pose proof (unbond_guards s) as Hg.
  unfold ensures, outcome in Hg |- *. destruct (unbond_user s) as [[r s']|e] eqn:Heq; [|done].
  destruct Hg as [Hp Hu]. rewrite unbond_user_eq in Heq by done.
  apply (ensures_inv _ s (λ r s', ∃ A', withdrawn (caller_id s) r s A s' A') r s') with (2 := Heq).
  apply (unbond_halves s A (caller_id s)); [done| |].
  { pose proof (ulen_le (caller_id s) FundType.DeferredPayment A). destruct Hf.
    unfold user_roomy. lia. }
  intros r0 s1 A' Hq HR1 Hrl Hup.
  eapply ensures_guard; [apply pay_out_enough|intros Hle].
  eapply runs_mono; [by apply pay_out_ok|]. intros r' s2 (-> & c & -> & Hv & Hb & Hpay). exists A'.
  by apply withdrawn_paid.
Qed.

(** Whoever withdraws, the rewards stay. *)
Lemma withdrawn_earnings u r s A s' A' :
  op_ok (st_global_op_checkpoint s) s A → withdrawn u r s A s' A' → earnings_kept s s'.
Proof.
  intros Hok [_ _ Hok' Hrl _ Es Er Eu Ev _].
  assert (∀ t, t = FundType.Active → tt_of t A' = tt_of t A ∧ ∀ w, ut_of w t A' = ut_of w t A) as Ha
    by (intros t ->; by apply (rl_types _ _ _ _ Hrl)).
  destruct (Ha _ eq_refl) as [Ht Hu]. destruct (chain_view_eq _ _ Ev) as (_ & _ & _ & Hc).
  by eapply (earnings_same_active s s' A A'); [eapply op_ok_rep|eapply op_ok_rep|..].
Qed.

Lemma claim_guards s A :
  op_ok (st_global_op_checkpoint s) s A →
  ensures claim_rewards s (λ _ _, open_for_users s ∧ caller_id s ≠ 0 ∧
    feature_on "claimRewards" true (st_chain s) = true ∧
    claimable (caller_id s) s ≤ get_sc_balance (st_chain s)).
Proof.
  intros Hok. unfold claim_rewards. apply not_paused_ensures. intros Hp.
  apply feature_on_ensures. intros Hf.
  apply ensures_bind, ensures_gets, ensures_bind, ensures_gets. fold (caller_id s).
  apply ensures_bind, ensures_require. intros Hu%negb_true_iff%N.eqb_neq.
  apply no_global_op_ensures. intros Hop. rewrite Hop in Hok. destruct Hok as [HI _].
  apply ensures_bind, runs_outcome. eapply runs_eq.
  { by apply load_updated_user_rewards_eq, (inv_ready s A). }
  fold (claimable (caller_id s) s). apply ensures_bind.
  assert (open_for_users s) as Hopen by done.
  destruct (N.ltb_spec 0 (claimable (caller_id s) s)) as [Hpos|Hz].
  - apply ensures_bind, ensures_modify. unfold send_rewards. do 2 apply ensures_bind.
    eapply ensures_mono; [apply send_egld_enough|].
    cbv beta. intros [] s1 Hle. simpl in Hle. rewrite emit_balance in Hle.
    apply ensures_bind, ensures_gets, ensures_zoom, ensures_modify, ensures_ret, ensures_const.
    done.
  - apply ensures_ret, ensures_const. split_and!; [done..|lia].
Qed.

Lemma claim_keeps s A :
  op_ok (st_global_op_checkpoint s) s A →
  ensures claim_rewards s (λ _ s', op_ok (st_global_op_checkpoint s') s' A ∧
    claimed (caller_id s) s A s').
Proof.
  intros Hok. eapply ensures_guard; [by apply (claim_guards s A)|].
  intros (Hopen & Hu & Hf & Hle). pose proof (op_no_global_op _ Hopen) as Hop.
  rewrite Hop in Hok. destruct Hok as [HI Hst].
  eapply runs_mono; [by apply (claim_rewards_spec s A)|]. intros [] s' Hc. split; [|done].
  rewrite (cl_op _ _ _ _ Hc), Hop. split; [apply Hc|].
  by apply (staked_ok_eq s s' A A); [apply Hc|..].
Qed.

(** *** Global operations *)
Lemma op_run_ok plan meantime final s A status s' A' :
  op_run plan meantime final s A status s' A' → accounts_operated s A s'.
Proof. intros [[] ? _ _ _ ? _]. split; [by exists A'|done]. Qed.

Lemma fee_guards s fee :
  ensures (set_service_fee_endpoint fee) s (λ _ _,
    fee ≤ PERCENTAGE_DENOMINATOR ∧ st_global_op_checkpoint s = GlobalOpCheckpoint.None).
Proof.
  unfold set_service_fee_endpoint. apply ensures_bind, ensures_require. intros Hf%N.leb_le.
  apply no_global_op_ensures. intros Hop. by apply ensures_const.
Qed.

Lemma fee_keeps s A fee :
  op_ok (st_global_op_checkpoint s) s A → fits_in s A →
  ensures (set_service_fee_endpoint fee) s (λ _ s', accounts_operated s A s').
Proof.
  intros Hok [Fu _]. eapply ensures_guard; [apply fee_guards|]. intros [Hf Hop].
  rewrite Hop in Hok. destruct Hok as [HI Hst].
  eapply runs_mono; [apply (set_service_fee_spec s A fee); try done; lia|].
  intros status s' [A' Hr]. by eapply op_run_ok.
Qed.

Lemma fits_op_room orc s A : fits_in s A → op_room True orc A.
Proof.
  intros []. destruct orc as [|d|]; simpl; [done| |done].
  destruct (step d); by split; [lia|apply vec_room_any..].
Qed.

Lemma continue_keeps s A :
  op_ok (st_global_op_checkpoint s) s A → fits_in s A →
  ensures continue_global_operation_endpoint s (λ _ s', accounts_operated s A s').
Proof.
  intros Hok Hf. unfold continue_global_operation_endpoint. apply feature_on_ensures.
  intros Hfeat. apply ensures_bind, ensures_gets.
  eapply ensures_mono; [eapply outcome_ensures, (continue_spec True s A);
    [|done|by eapply fits_op_room|done]|].
  { destruct Hf. lia. }
  intros status s' [A' Hr]. by eapply op_run_ok.
Qed.
Lemma total_unprotected_guards s A :
  Rep (st_funds s) A →
  ensures total_unprotected s (λ v s', s' = s ∧
    v + protected_of s A = get_sc_balance (st_chain s) + rs_sent_rewards (st_rewards s)).
Proof.
  unfold protected_of. intros HR. unfold total_unprotected.
  do 6 apply ensures_bind, ensures_gets. rewrite !(stake_total HR). fold (cumulated s).
  do 3 (apply ensures_bind, ensures_big_sub; intros ?). apply ensures_big_sub. intros ?.
  split; [done|lia].
Qed.

(** The branches of a change of the cap, from [prev]. *)
Lemma cap_branch_guards s A prev cap {X} (up : M (State C) X) (down : N → M (State C) X) (eq : X) :
  Rep (st_funds s) A →
  ensures (match cap ?= prev with
    | Eq => ret eq
    | Gt => require (tt_of FundType.UnStaked A =? 0)
              "no unstaked funds should be present when increasing delegation cap" ;;; up
    | Lt =>
        let! swap_amount := big_sub prev cap in
        let! unprotected := total_unprotected in
        require (swap_amount <=? unprotected)
          "not enough funds in contract to pay those who are forced unstaked" ;;;
        down swap_amount
    end) s (λ _ _,
    (prev < cap → tt_of FundType.UnStaked A = 0) ∧
    (cap < prev → prev - cap + protected_of s A
      ≤ get_sc_balance (st_chain s) + rs_sent_rewards (st_rewards s))).
Proof.
  intros HR. destruct (N.compare_spec cap prev) as [->|Hlt|Hgt].
  - apply ensures_ret. split; lia.
  - apply ensures_bind, ensures_big_sub. intros _. apply ensures_bind.
    eapply ensures_mono; [by apply (total_unprotected_guards s A)|]. intros v s' [-> Hv].
    apply ensures_bind, ensures_require. intros Hle%N.leb_le. apply ensures_const.
    split; [lia|intros _; lia].
  - apply ensures_bind, ensures_require. intros Hz%N.eqb_eq. apply ensures_const.
    split; [done|lia].
Qed.

Lemma modify_cap_guards s A cap :
  Rep (st_funds s) A → (bootstrap_of s = true → cap ≠ max_available A) →
  ensures (modify_total_delegation_cap cap) s (λ _ _,
    get_caller (st_chain s) = get_owner_address (st_chain s) ∧
    st_global_op_checkpoint s = GlobalOpCheckpoint.None ∧ cap_admissible cap s A).
Proof.
  intros HR Hsane. unfold modify_total_delegation_cap.
  apply owner_only_ensures. intros Hown. apply no_global_op_ensures. intros Hop.
  do 4 apply ensures_bind, ensures_gets. rewrite !(stake_total HR). fold (bootstrap_of s).
  replace (tt_of FundType.Active A + tt_of FundType.Waiting A + tt_of FundType.UnStaked A)
    with (max_available A) by done.
  unfold cap_admissible, stays_in_bootstrap, previous_cap.
  destruct (bootstrap_of s) eqn:Hb; simpl.
  - destruct (N.ltb_spec (max_available A) cap) as [Hlt|Hge].
    + apply ensures_const. auto.
    + apply ensures_bind, ensures_bind, ensures_zoom, ensures_modify, ensures_ret.
      eapply ensures_mono; [by apply (cap_branch_guards (lens_set _ s) A)|].
      intros _ _ [Hup Hdown]. split_and!; [done|done|right; by split_and!].
  - apply ensures_bind, ensures_bind, ensures_require. intros Hle%N.leb_le.
    apply ensures_bind, ensures_gets, ensures_ret. fold (cap_of s).
    eapply ensures_mono; [by apply (cap_branch_guards s A)|].
    intros _ _ [Hup Hdown]. split_and!; [done|done|right; by split_and!].
Qed.

Lemma modify_cap_keeps s A cap :
  op_ok (st_global_op_checkpoint s) s A → fits_in s A →
  (bootstrap_of s = true → cap ≠ max_available A) →
  ensures (modify_total_delegation_cap cap) s (λ _ s', accounts_operated s A s').
Proof.
  intros Hok Hf Hsane.
  eapply ensures_guarded; [by apply (modify_cap_guards s A); [eapply op_ok_rep|]|].
  intros (Hown & Hop & Hadm). rewrite Hop in Hok. destruct Hok as [HI Hst].
  eapply ensures_mono; [eapply outcome_ensures, (modify_cap_spec True s A cap Hown Hop); try done;
    destruct Hf; [lia|by split; [lia|apply vec_room_any..]]|].
  intros status s' [A' Hr]. by eapply op_run_ok.
Qed.

(** ** Every step *)
Lemma ensures_discard {X} (m : M (State C) X) s (Q : State C → Prop) :
  ensures m s (λ _ s', Q s') → ensures (m ;;; ret tt) s (λ _ s', Q s').
Proof. intros Hm. apply ensures_bind. eapply ensures_mono; [exact Hm|]. done. Qed.

Lemma run_tx_keeps tx s A :
  op_ok (st_global_op_checkpoint s) s A → fits_in s A →
  (∀ cap, tx = ModifyTotalDelegationCap cap → bootstrap_of s = true → cap ≠ max_available A) →
  ensures (run_tx tx) s (λ _ s', contract_ok s').
Proof.
  intros Hok Hf Hsane. destruct tx; simpl; repeat apply ensures_discard.
  - eapply ensures_mono; [by apply (stake_keeps s A)|]. intros _ s' (A' & ? & _). by exists A'.
  - eapply ensures_mono; [by apply (unstake_keeps s A)|]. intros r s' [? _]. by eapply holdings_kept_ok.
  - eapply ensures_mono; [by apply (unbond_keeps s A)|]. intros r s' [A' Hw]. exists A'. apply Hw.
  - eapply ensures_mono; [by apply (claim_keeps s A)|]. intros _ s' [? _]. by exists A.
  - eapply ensures_mono; [by apply (fee_keeps s A)|]. intros r s' [? _]. by eapply holdings_kept_ok.
  - eapply ensures_mono; [by apply (modify_cap_keeps s A); [| |apply Hsane]|].
    intros r s' [? _]. by eapply holdings_kept_ok.
  - eapply ensures_mono; [by apply (continue_keeps s A)|]. intros r s' [? _].
    by eapply holdings_kept_ok.
Qed.

Lemma contract_step_ok s s' : contract_step s s' → contract_ok s → contract_ok s'.
Proof.
  intros [tx s1 s2 Hfits Hsane Hrun|c s1 Hlater|s1 s2 Hal Hop] [A Hok].
  - pose proof (op_ok_rep _ _ _ Hok) as HR.
    apply (ensures_inv _ s1 (λ _ s', contract_ok s') tt s2) with (2 := Hrun).
    apply (run_tx_keeps tx s1 A Hok); [by apply fits_rep|].
    intros cap -> Hb. unfold max_available. rewrite <-!(stake_total HR). exact (Hsane Hb).
  - exists A. by apply op_ok_arrive.
  - exists A. rewrite Hop. by apply (op_ok_alike _ s1).
Qed.

Lemma op_ok_assigned orc s A : op_ok orc s A → assigned s ≤ cumulated s.
Proof.
  assert (∀ c0, swapping c0 s A → assigned s ≤ cumulated s) as Hsw.
  { intros c0 HS. rewrite (sg_assigned _ _ _ HS). apply (sg_received _ _ _ HS). }
  destruct orc as [|d|]; simpl.
  - intros [HI _]. by apply (assigned_received s A).
  - intros (_ & _ & Hph). unfold phase_ok in Hph. destruct (step d).
    + destruct Hph as [HI _]. by apply (assigned_received s A).
    + destruct Hph as [c0 HS]. by apply (Hsw c0).
    + destruct Hph as [[c0 HS] _]. by apply (Hsw c0).
    + destruct Hph as ([c0 HS] & _). by apply (Hsw c0).
  - intros ([HI _] & _). by apply (assigned_received s A).
Qed.

Lemma contract_reachable_ok s s' : rtc contract_step s s' → contract_ok s → contract_ok s'.
Proof. induction 1; eauto using contract_step_ok. Qed.
End Preserved.
