(* ===== verification/Examples.v ===== *)
(** * A concrete contract state

    A state with an owner and two delegators that satisfies the invariant: the
    input at which the theorems are applied. *)
From stdpp Require Import base numbers list gmap strings.
From S2P Require Import Prelude PtrList FundTypes FundModule FundLedger FundRep FundLoops.
From S2P Require Import FundTotals FundMoves FundSpec UserData NodeConfig Settings Chain State.
From S2P Require Import FundTransf FundView Rewards UserStake ResetCheckpoint TransfSpec.
From S2P Require Import RewardSpec ContractInv StakeSpec EndpointSpec.

(** Owner 1 and user 2 have active stake; users 2 and 3 are waiting; user 3 has
    unstaked and has a deferred payment and a withdrawable fund. *)
Definition example_ops : list (N * FundDescription * N) :=
  [(1, FundDescription.Active, 100); (2, FundDescription.Active, 50);
   (3, FundDescription.UnStaked 5, 40); (2, FundDescription.Waiting 12, 30);
   (3, FundDescription.Waiting 13, 20); (3, FundDescription.DeferredPayment 3, 8);
   (3, FundDescription.WithdrawOnly, 7)].
Definition example_funds : AFunds := l_increase_all example_ops empty_funds.

(** Addresses 100 (the owner), 200 and 300. *)
Definition example_users : UserStore :=
  mk_UserStore {[100 := 1; 200 := 2; 300 := 3]} {[1 := 100; 2 := 200; 3 := 300]} 3.

(** A service fee of 10 per cent and a cap of 190, which is the staked amount. *)
Definition example_settings : SettingsStore := mk_SettingsStore 900 1000 190 false 500 10 5.

Definition example_chain (caller : N) : SimpleChain :=
  mk_SimpleChain caller 100 20 1900 10000 [] [] [] [].

Definition example_state (caller : N) : State SimpleChain :=
  mk_State (store_after example_ops) example_users empty_NodeStore example_settings
    empty_RewardStore GlobalOpCheckpoint.None 0 (example_chain caller).

(** Amounts of users that own nothing. *)
Lemma no_funds u t L : (∀ b, b ∈ L → b_user b ≠ u) → amount (of_user_type u t) L = 0.
Proof.
  induction L as [|b L IH]; intros Hu; simpl; [done|].
  unfold worth, share, of_user_type. rewrite bool_decide_false by (apply Hu; set_solver).
  simpl. apply IH. set_solver.
Qed.

Lemma example_rep : Rep (store_after example_ops) example_funds.
Proof. by apply store_after_rep. Qed.

Lemma example_inv caller : Inv (example_state caller) example_funds.
Proof.
  split.
  - apply example_rep.
  - intros u t Hu. apply no_funds. intros b Hb Heq. subst u.
    assert (Forall (λ b, 1 ≤ b_user b ≤ 3) (af_ledger example_funds)) as Hall.
    { vm_compute. repeat constructor; discriminate. }
    rewrite Forall_forall in Hall. specialize (Hall b Hb).
    unfold unregistered, num_users_of in Hu. simpl in Hu. lia.
  - done.
  - intros a. unfold get_user_id, num_users_of. simpl.
    rewrite !lookup_insert, lookup_singleton. repeat case_decide; simpl; lia.
  - done.
  - done.
  - intros u. apply N.le_0_l.
  - by vm_compute.
  - done.
  - by vm_compute.
Qed.

Lemma example_staked_ok caller : staked_ok (example_state caller) example_funds.
Proof. split; by vm_compute. Qed.

(** Closed comparisons of numbers, decided by the machine. *)
Ltac numbers :=
  first [apply N.ltb_lt; vm_compute; reflexivity | apply N.leb_le; vm_compute; reflexivity
        |vm_compute; reflexivity |vm_compute; discriminate].

(** Room, in ids and in the vector of affected users. *)
Ltac rooms := split; first [numbers|left; numbers].

Lemma example_room1 full : room1 full example_funds.
Proof. rooms. Qed.

Lemma example_open caller : open_for_users (example_state caller).
Proof. split; reflexivity. Qed.

Lemma example_room_unstake full u : u ∈ [1; 2; 3] → room_unstake full u example_funds.
Proof. intros Hu. repeat (apply elem_of_cons in Hu as [->|Hu]); [rooms..|]. set_solver. Qed.
