(* ===== verification/NodeSpec.v ===== *)
(** * Nodes: registration, and the state machine

    Splitting the nodes of a call by status loses none of them; the endpoints
    and callbacks move exactly the nodes they name, along the edges of the node
    state machine. *)
From stdpp Require Import base numbers list gmap strings.
From S2P Require Import Prelude FundTypes FundModule UserData NodeConfig Settings Chain State.
From S2P Require Import FundTransf FundView Rewards UserStake NodeActivation.

(** ** Splitting by status *)
Lemma insert_last (v : list N) x y : <[length v := y]> (v ++ [x]) = v ++ [y].
Proof. induction v as [|z v IH]; simpl; [done|]. by rewrite IH. Qed.

Lemma swap_remove_permutation pos (v : list N) x :
  v !! pos = Some x → x :: swap_remove pos v ≡ₚ v.
Proof.
  intros Hx. destruct v as [|y l _] using rev_ind; [done|].
  unfold swap_remove. rewrite last_snoc, length_app. simpl.
  replace (length l + 1 - 1)%nat with (length l) by lia.
  destruct (decide (pos = length l)) as [->|Hne].
  - rewrite insert_last, take_app_length.
    rewrite lookup_app_r in Hx by lia. rewrite Nat.sub_diag in Hx. injection Hx as <-.
    apply Permutation_cons_append.
  - assert (pos < length l)%nat as Hlt.
    { apply lookup_lt_Some in Hx. rewrite length_app in Hx. simpl in Hx. lia. }
    rewrite lookup_app_l in Hx by done.
    rewrite insert_app_l, take_app_length' by (rewrite ?length_insert; done).
    rewrite insert_take_drop by done. rewrite <-(take_drop_middle l pos x Hx) at 3.
    rewrite (Permutation_cons_append _ y). rewrite <-!(assoc_L (++)). simpl.
    by rewrite !Permutation_middle.
Qed.

(** The nodes that a list of statuses marks as failed. *)
Definition failed_in (ns : NodeStore) (args : list (BLSKey * N)) (i : N) : Prop :=
  ∃ k st, (k, st) ∈ args ∧ st ≠ 0 ∧ get_node_id k ns = i.

Lemma failed_in_dec ns args i : Decision (failed_in ns args i).
Proof.
  destruct (decide (Exists (λ ks : BLSKey * N, ks.2 ≠ 0 ∧ get_node_id ks.1 ns = i) args)) as [H|H].
  - left. apply Exists_exists in H as ([k st] & Hin & ? & ?). by exists k, st.
  - right. intros (k & st & Hin & ? & ?). apply H, Exists_exists. by exists (k, st).
Qed.

Lemma split_node_ids_spec ns ids args :
  NoDup ids → N.of_nat (length ids) ≤ MAX_NODES_PER_OPERATION →
  ∃ ids_ok ids_fail,
    split_node_ids_by_err ids args ns = Ok ((ids_ok, ids_fail), ns) ∧
    ids_ok ++ ids_fail ≡ₚ ids ∧
    (∀ i, i ∈ ids_fail ↔ i ∈ ids ∧ failed_in ns args i).
Proof.
  intros Hnd Hlen. unfold split_node_ids_by_err.
  assert (∀ args done a b,
    a ++ b ≡ₚ ids → (∀ i, i ∈ b ↔ i ∈ ids ∧ failed_in ns done i) →
    ∃ a' b', for_each args (a, b) split_node_by_err ns = Ok ((a', b'), ns) ∧
      a' ++ b' ≡ₚ ids ∧ (∀ i, i ∈ b' ↔ i ∈ ids ∧ failed_in ns (done ++ args) i)) as Hloop.
  { clear args. intros args. induction args as [|[k st] args IH]; intros done a b Hp Hb; simpl.
    { exists a, b. by rewrite app_nil_r. }
    rewrite (cons_middle (k, st) done args), (assoc_L (++)).
    assert (∀ i, failed_in ns (done ++ [(k, st)]) i ↔
      failed_in ns done i ∨ st ≠ 0 ∧ get_node_id k ns = i) as Hsnoc.
    { intros i. unfold failed_in. setoid_rewrite elem_of_app.
      setoid_rewrite list_elem_of_singleton. naive_solver. }
    unfold bind at 1. destruct (N.eqb_spec st 0) as [Hz|Hz]; simpl.
    { apply IH; [done|]. intros i. rewrite Hb, Hsnoc. naive_solver. }
    unfold bind, gets. set (n := get_node_id k ns).
    destruct (list_find (λ x, x = n) a) as [[pos x]|] eqn:Hfind.
    - apply list_find_Some in Hfind as (Hx & -> & _).
      pose proof (swap_remove_permutation pos a n Hx) as Hsw.
      assert (n ∈ ids) as Hin.
      { rewrite <-Hp. apply elem_of_app. left. by eapply list_elem_of_lookup_2. }
      assert (N.of_nat (length b) < MAX_NODES_PER_OPERATION) as Hroom.
      { apply Permutation_length in Hp. rewrite length_app in Hp.
        apply lookup_lt_Some in Hx. lia. }
      unfold push_node. rewrite (proj2 (N.ltb_lt _ _)) by done. simpl.
      apply IH.
      + rewrite (assoc_L (++)). etrans; [symmetry; apply Permutation_cons_append|].
        etrans; [|exact Hp]. change (n :: swap_remove pos a ++ b)
          with ((n :: swap_remove pos a) ++ b). by apply Permutation_app_tail.
      + intros i. rewrite elem_of_app, list_elem_of_singleton, Hb, Hsnoc. naive_solver.
    - apply list_find_None in Hfind. rewrite Forall_forall in Hfind. simpl.
      apply IH; [done|]. intros i. rewrite Hb, Hsnoc. split; [naive_solver|].
      intros [Hi [?|[_ <-]]]; [done|]. split; [done|].
      rewrite <-Hp in Hi. apply elem_of_app in Hi as [Hi|Hi]; [by destruct (Hfind n Hi)|].
      by apply Hb in Hi as [_ ?]. }
  destruct (Hloop args [] ids []) as (a & b & Heq & Hp & Hb).
  - by rewrite app_nil_r.
  - intros i. unfold failed_in. set_solver.
  - by exists a, b.
Qed.

(** ** Registration: ids and keys correspond one to one *)

(** [n] nodes are registered. *)
Record registered (n : N) (ns : NodeStore) : Prop := {
  reg_key k : get_node_id k ns ≠ 0 →
    get_node_id k ns ≤ n ∧ ns_node_id_to_bls ns !! get_node_id k ns = Some k;
  reg_id i : 1 ≤ i ≤ n → ∃ k, ns_node_id_to_bls ns !! i = Some k ∧ get_node_id k ns = i;
  reg_signature i : 1 ≤ i ≤ n → is_Some (ns_node_signature ns !! i);
}.

Lemma registered_inj n ns k k' :
  registered n ns → get_node_id k ns ≠ 0 → get_node_id k ns = get_node_id k' ns → k = k'.
Proof.
  intros Hr Hk Heq. destruct (reg_key _ _ Hr k Hk) as [_ E].
  destruct (reg_key _ _ Hr k') as [_ E']; [by rewrite <-Heq|]. congruence.
Qed.

(** What [addNodes] has done after the arguments [dn], [n] nodes being
    registered. *)
Record adding (ns : NodeStore) (dn : list (BLSKey * BLSSignature)) (n : N) (ns' : NodeStore)
    : Prop := {
  ad_registered : registered n ns';
  ad_num : n ≤ ns_num_nodes ns + N.of_nat (length dn);
  ad_ge : ns_num_nodes ns ≤ n;
  ad_stored : ns_num_nodes ns' = ns_num_nodes ns;
  ad_added k sig : (k, sig) ∈ dn →
    get_node_id k ns' ≠ 0 ∧ get_node_state (get_node_id k ns') ns' = NodeState.Inactive ∧
    ns_node_signature ns' !! get_node_id k ns' = Some sig;
  ad_kept k : k ∉ dn.*1 ∨ get_node_id k ns ≠ 0 → get_node_id k ns' = get_node_id k ns;
  ad_state k : k ∉ dn.*1 → get_node_id k ns ≠ 0 →
    get_node_state (get_node_id k ns') ns' = get_node_state (get_node_id k ns) ns;
}.

Lemma get_node_id_set k i ns k' :
  get_node_id k' (set_node_bls_to_id k i ns) = if decide (k = k') then i else get_node_id k' ns.
Proof. unfold get_node_id; simpl. rewrite lookup_insert. by case_decide. Qed.

Lemma get_node_state_set i st ns j :
  get_node_state j (set_node_state i st ns) = if decide (i = j) then st else get_node_state j ns.
Proof. unfold get_node_state; simpl. rewrite lookup_insert. by case_decide. Qed.

(** Registering a new key. *)
Definition with_new_node (n k sig : N) (ns : NodeStore) : NodeStore :=
  set_node_signature n sig (set_node_state n NodeState.Inactive
    (set_node_id_to_bls n k (set_node_bls_to_id k n ns))).

Lemma with_new_node_spec n k sig ns :
  (∀ k', get_node_id k' (with_new_node n k sig ns) =
     if decide (k = k') then n else get_node_id k' ns) ∧
  (∀ j, get_node_state j (with_new_node n k sig ns) =
     if decide (n = j) then NodeState.Inactive else get_node_state j ns) ∧
  (∀ j, ns_node_id_to_bls (with_new_node n k sig ns) !! j =
     if decide (n = j) then Some k else ns_node_id_to_bls ns !! j) ∧
  (∀ j, ns_node_signature (with_new_node n k sig ns) !! j =
     if decide (n = j) then Some sig else ns_node_signature ns !! j).
Proof.
  split_and!; intros.
  - apply get_node_id_set.
  - unfold get_node_state at 1; simpl. rewrite lookup_insert. by case_decide.
  - simpl. by rewrite lookup_insert.
  - simpl. by rewrite lookup_insert.
Qed.

Lemma registered_new n k sig ns :
  registered n ns → get_node_id k ns = 0 → registered (n + 1) (with_new_node (n + 1) k sig ns).
Proof.
  intros Hr Hk. destruct (with_new_node_spec (n + 1) k sig ns) as (Hid & _ & Hbls & Hsig). split.
  - intros k'. rewrite Hid, Hbls. case_decide as Hkk.
    + intros _. subst k'. rewrite decide_True by done. split; [lia|done].
    + intros Hn. destruct (reg_key _ _ Hr k' Hn) as [Hle E].
      rewrite decide_False by lia. split; [lia|done].
  - intros i Hi. rewrite Hbls. case_decide as Hni.
    + exists k. rewrite Hid, decide_True by done. done.
    + destruct (reg_id _ _ Hr i) as (k' & E & Hid'); [lia|]. exists k'. split; [done|].
      rewrite Hid, decide_False; [done|]. intros ->. lia.
  - intros i Hi. rewrite Hsig. case_decide; [eauto|]. apply (reg_signature _ _ Hr). lia.
Qed.

(** Re-registering a removed key. *)
Lemma registered_again n i sig ns :
  registered n ns → 
  registered n (set_node_signature i sig (set_node_state i NodeState.Inactive ns)).
Proof.
  intros [Hk Hi Hs]. split; try done. intros j Hj. simpl. rewrite lookup_insert.
  case_decide; [eauto|by apply Hs].
Qed.

Lemma added_keys (dn : list (N * N)) k sig k0 :
  k0 ∉ (dn ++ [(k, sig)]).*1 ↔ k0 ∉ dn.*1 ∧ k0 ≠ k.
Proof. rewrite fmap_app, elem_of_app. simpl. rewrite list_elem_of_singleton. naive_solver. Qed.

(** The loop of [addNodes] meets a new key... *)
Lemma adding_new ns dn n ns' k sig :
  adding ns dn n ns' → get_node_id k ns' = 0 →
  adding ns (dn ++ [(k, sig)]) (n + 1) (with_new_node (n + 1) k sig ns').
Proof.
  intros [Hr Hn Hge Hst Hadd Hkept Hstate] Hz.
  destruct (with_new_node_spec (n + 1) k sig ns') as (Hid & Hsts & _ & Hsg).
  assert (∀ k', get_node_id k' ns' ≠ 0 → k ≠ k' ∧ n + 1 ≠ get_node_id k' ns') as Hold.
  { intros k' Hk'. split; [by intros ->|]. destruct (reg_key _ _ Hr k' Hk'). lia. }
  split.
  - by apply registered_new.
  - rewrite length_app. simpl. lia.
  - lia.
  - done.
  - intros k' sig' [Hin|[= -> ->]%list_elem_of_singleton]%elem_of_app.
    + destruct (Hadd k' sig' Hin) as (Hk' & Hs' & Hg'). destruct (Hold k' Hk').
      rewrite Hid, Hsts, Hsg, !decide_False by done. done.
    + rewrite Hid, Hsts, Hsg, !decide_True by done. split; [lia|done].
  - intros k' [Hk'|Hk']; rewrite Hid.
    + apply added_keys in Hk' as [Hk' Hne]. rewrite decide_False by done. auto.
    + pose proof (Hkept k' (or_intror Hk')) as Ek.
      destruct (Hold k'); [by rewrite Ek|]. by rewrite decide_False.
  - intros k' Hk' Hnz. apply added_keys in Hk' as [Hk' Hne]. rewrite Hid.
    pose proof (Hkept k' (or_intror Hnz)) as Ek. rewrite decide_False by congruence. rewrite Hsts.
    destruct (Hold k'); [by rewrite Ek|]. rewrite decide_False by done. by apply Hstate.
Qed.

(** ... or the key of a removed node. *)
Lemma adding_again ns dn n ns' k sig :
  adding ns dn n ns' → get_node_id k ns' ≠ 0 →
  get_node_state (get_node_id k ns') ns' = NodeState.Removed →
  adding ns (dn ++ [(k, sig)]) n (set_node_signature (get_node_id k ns') sig
    (set_node_state (get_node_id k ns') NodeState.Inactive ns')).
Proof.
  intros [Hr Hn Hge Hst Hadd Hkept Hstate] Hz Hrem. set (i := get_node_id k ns') in *.
  set (ns2 := set_node_signature _ _ _).
  assert (∀ j, get_node_state j ns2 =
    if decide (i = j) then NodeState.Inactive else get_node_state j ns') as Hsts.
  { intros j. apply get_node_state_set. }
  assert (∀ j, ns_node_signature ns2 !! j =
    if decide (i = j) then Some sig else ns_node_signature ns' !! j) as Hsg.
  { intros j. simpl. apply lookup_insert. }
  assert (∀ k', get_node_id k' ns2 = get_node_id k' ns') as Hid by done.
  split.
  - by apply registered_again.
  - rewrite length_app. simpl. lia.
  - done.
  - done.
  - intros k' sig' [Hin|[= -> ->]%list_elem_of_singleton]%elem_of_app; rewrite Hid.
    + destruct (Hadd k' sig' Hin) as (Hk' & Hs' & Hg').
      assert (i ≠ get_node_id k' ns') as Hne by congruence.
      rewrite Hsts, Hsg, !decide_False by done. done.
    + by rewrite Hsts, Hsg, !decide_True.
  - intros k' [[Hk' _]%added_keys|Hk']; apply Hkept; auto.
  - intros k' Hk' Hnz. apply added_keys in Hk' as [Hk' Hne].
    rewrite Hid, Hsts, decide_False; [by apply Hstate|]. intros Heq. destruct Hne.
    symmetry. by apply (registered_inj n ns').
Qed.

Lemma add_node_ensures ns dn arg n ns' :
  ns_num_nodes ns + N.of_nat (length dn) + 1 < usize_max_plus_1 → adding ns dn n ns' →
  ensures (add_node arg n) ns' (adding ns (dn ++ [arg])).
Proof.
  intros Hmax Ha. destruct arg as [k sig]. unfold add_node.
  apply ensures_bind, ensures_gets. destruct (N.eqb_spec (get_node_id k ns') 0) as [Hz|Hz].
  - assert (usize_add n 1 = n + 1) as ->.
    { destruct Ha as [_ Hn _ _ _ _ _]. apply N.mod_small. lia. }
    do 4 apply ensures_bind, ensures_modify. apply ensures_ret. by apply adding_new.
  - apply ensures_bind, ensures_gets. case_decide as Hrem; [|done].
    do 2 apply ensures_bind, ensures_modify. apply ensures_ret. by apply adding_again.
Qed.

(** Everything but the states is the same. *)
Record same_registry (ns ns' : NodeStore) : Prop := {
  sr_num : ns_num_nodes ns' = ns_num_nodes ns;
  sr_keys : ns_node_bls_to_id ns' = ns_node_bls_to_id ns;
  sr_bls : ns_node_id_to_bls ns' = ns_node_id_to_bls ns;
  sr_signature : ns_node_signature ns' = ns_node_signature ns;
}.

Lemma same_registry_id ns ns' k :
  same_registry ns ns' → get_node_id k ns' = get_node_id k ns.
Proof. intros Hr. unfold get_node_id. by rewrite (sr_keys _ _ Hr). Qed.

Lemma same_registry_registered n ns ns' :
  same_registry ns ns' → registered n ns → registered n ns'.
Proof.
  intros Hr [Hk Hi Hs]. pose proof (same_registry_id ns ns') as Hid.
  destruct Hr as [Hn Hb Hl Hg]. split.
  - intros k. rewrite Hid, Hl by done. apply Hk.
  - intros i Hi'. destruct (Hi i Hi') as (k & ? & ?). exists k. by rewrite Hl, Hid.
  - intros i. rewrite Hg. apply Hs.
Qed.

(** ** Moving nodes between states *)

(** Only the states of nodes, and the unobserved part of the chain, changed. *)
Record nodes_only {C} `{Chain C} (s s' : State C) : Prop := {
  no_funds_changed : st_funds s' = st_funds s;
  no_users : st_users s' = st_users s;
  no_settings : st_settings s' = st_settings s;
  no_rewards : st_rewards s' = st_rewards s;
  no_op : st_global_op_checkpoint s' = st_global_op_checkpoint s;
  no_keys : ns_node_bls_to_id (st_nodes s') = ns_node_bls_to_id (st_nodes s);
  no_view : chain_view (st_chain s') = chain_view (st_chain s);
  no_num : ns_num_nodes (st_nodes s') = ns_num_nodes (st_nodes s);
  no_bls : ns_node_id_to_bls (st_nodes s') = ns_node_id_to_bls (st_nodes s);
  no_signature : ns_node_signature (st_nodes s') = ns_node_signature (st_nodes s);
}.

Section NodeOps.
Context {C : Type} `{ChainLaws C}.
Implicit Type s : State C.

Definition state_of (i : N) s : NodeState := get_node_state i (st_nodes s).

Lemma nodes_only_refl s : nodes_only s s.
Proof. by split. Qed.
Lemma nodes_only_trans s1 s2 s3 : nodes_only s1 s2 → nodes_only s2 s3 → nodes_only s1 s3.
Proof. intros [] []. split; congruence. Qed.
Lemma nodes_only_registry s s' : nodes_only s s' → same_registry (st_nodes s) (st_nodes s').
Proof. by intros []. Qed.
Lemma nodes_only_put i st s :
  nodes_only s (lens_set (set_node_state i st (st_nodes s)) s).
Proof. by split. Qed.
Lemma nodes_only_event e s : nodes_only s (set_chain (emit e (st_chain s)) s).
Proof. split; try done. apply emit_view. Qed.

Lemma set_all_states_spec ids st s :
  runs (set_all_states ids st) s (λ _ s', nodes_only s s' ∧
    ∀ j, state_of j s' = if decide (j ∈ ids) then st else state_of j s).
Proof.
  unfold set_all_states. revert s. induction ids as [|i ids IH]; intros s; simpl.
  { apply runs_ret. by split; [apply nodes_only_refl|]. }
  apply runs_bind, runs_zoom, runs_modify.
  eapply runs_mono; [apply IH|]. intros _ s' [Hn Hs]. split.
  - eapply nodes_only_trans; [apply (nodes_only_put i st)|exact Hn].
  - intros j. rewrite Hs. change (state_of j (lens_set _ s)) with
      (get_node_state j (set_node_state i st (st_nodes s))).
    rewrite get_node_state_set. destruct (decide (j ∈ ids)).
    + by rewrite decide_True by set_solver.
    + case_decide as Hij; [subst; by rewrite decide_True by set_solver|].
      rewrite decide_False by set_solver. done.
Qed.

(** Setting the states and logging, unless there is no node. *)
Definition settle_states (ids : NodeIndexArrayVec) (st : NodeState) (e : Event)
    : M (State C) unit :=
  match ids with
  | [] => ret tt
  | _ => set_all_states ids st ;;; log_event e
  end.

Lemma settle_states_spec ids st e s :
  runs (settle_states ids st e) s (λ _ s', nodes_only s s' ∧
    ∀ j, state_of j s' = if decide (j ∈ ids) then st else state_of j s).
Proof.
  unfold settle_states. destruct ids as [|i ids].
  { apply runs_ret. by split; [apply nodes_only_refl|]. }
  apply runs_bind. eapply runs_mono; [apply set_all_states_spec|].
  intros _ s' [Hn Hs]. apply runs_modify. split; [|done].
  eapply nodes_only_trans; [exact Hn|apply nodes_only_event].
Qed.

(** The two groups of a split, settled one after the other. *)
Lemma settle_two_spec ids args st_ok st_fail e_ok e_fail s :
  NoDup ids → N.of_nat (length ids) ≤ MAX_NODES_PER_OPERATION →
  runs (let! '(node_ids_ok, node_ids_fail) := zoom (split_node_ids_by_err ids args) in
        settle_states node_ids_ok st_ok e_ok ;;;
        settle_states node_ids_fail st_fail e_fail) s
    (λ _ s', nodes_only s s' ∧
      (∀ j, j ∉ ids → state_of j s' = state_of j s) ∧
      (∀ j, j ∈ ids → failed_in (st_nodes s) args j → state_of j s' = st_fail) ∧
      (∀ j, j ∈ ids → ¬ failed_in (st_nodes s) args j → state_of j s' = st_ok)).
Proof.
  intros Hnd Hlen.
  destruct (split_node_ids_spec (st_nodes s) ids args Hnd Hlen) as (a & b & Heq & Hp & Hb).
  apply runs_bind, runs_zoom. eapply runs_eq; [exact Heq|].
  replace (lens_set (st_nodes s) s) with s by (by destruct s).
  apply runs_bind. eapply runs_mono; [apply settle_states_spec|]. intros _ s1 [Hn1 Hs1].
  eapply runs_mono; [apply settle_states_spec|]. intros _ s2 [Hn2 Hs2].
  split; [by eapply nodes_only_trans|].
  assert (∀ j, j ∈ ids ↔ j ∈ a ∨ j ∈ b) as Hin.
  { intros j. rewrite <-Hp. apply elem_of_app. }
  split_and!; intros j Hj.
  - rewrite Hs2, Hs1, !decide_False by (rewrite Hin in Hj; tauto). done.
  - intros Hf. rewrite Hs2, decide_True; [done|]. by apply Hb.
  - intros Hf. rewrite Hs2, decide_False by (intros [_ ?]%Hb; done).
    rewrite Hs1, decide_True; [done|]. apply Hin in Hj as [?|[_ ?]%Hb]; done.
Qed.

(** *** Taking the nodes of a call into a pending state *)

(** [taking P f ids s0 s]: from [s0] to [s] exactly the nodes [ids], all
    different and in states of [P], moved by [f]. *)
Record taking (P : NodeState → Prop) (f : NodeState → NodeState) (ids : list N) s0 s
    : Prop := {
  tk_only : nodes_only s0 s;
  tk_chain : st_chain s = st_chain s0;
  tk_nodup : NoDup ids;
  tk_before j : j ∈ ids → P (state_of j s0);
  tk_after j : state_of j s = if decide (j ∈ ids) then f (state_of j s0) else state_of j s0;
  tk_registry : same_registry (st_nodes s0) (st_nodes s);
}.

Lemma taking_nil P f s : taking P f [] s s.
Proof.
  split; [apply nodes_only_refl|done|apply NoDup_nil_2| |done|done].
  by intros j ?%not_elem_of_nil.
Qed.

Lemma taking_snoc P f ids i s0 s :
  (∀ st, P st → ¬ P (f st)) → taking P f ids s0 s → P (state_of i s) →
  taking P f (ids ++ [i]) s0 (lens_set (set_node_state i (f (state_of i s)) (st_nodes s)) s).
Proof.
  intros Hne [Ho Hc Hnd Hb Ha Hs] Hi.
  assert (i ∉ ids) as Hni.
  { intros Hin. rewrite Ha, decide_True in Hi by done. by apply (Hne (state_of i s0)); auto. }
  assert (state_of i s = state_of i s0) as Es by (by rewrite Ha, decide_False).
  split; try done.
  - eapply nodes_only_trans; [exact Ho|apply nodes_only_put].
  - apply NoDup_app. split_and!; [done| |apply NoDup_singleton].
    intros j Hj ->%list_elem_of_singleton. done.
  - intros j [? | ->%list_elem_of_singleton]%elem_of_app; [auto|by rewrite <-Es].
  - intros j. change (state_of j (lens_set _ s)) with
      (get_node_state j (set_node_state i (f (state_of i s)) (st_nodes s))).
    rewrite get_node_state_set. fold (state_of j s). rewrite (Ha j), Es.
    case_decide as Hij; [subst; by rewrite decide_True by set_solver|].
    apply decide_ext. set_solver.
  - by destruct Hs.
Qed.

(** The nodes [ids] were taken from [P] by [f] and the call left with them. *)
Record started (P : NodeState → Prop) (f : NodeState → NodeState) (ids : list N)
    (call : AsyncCall) s s' : Prop := {
  sd_nodup : NoDup ids;
  sd_len : N.of_nat (length ids) ≤ MAX_NODES_PER_OPERATION;
  sd_before j : j ∈ ids → P (state_of j s);
  sd_after j : state_of j s' = if decide (j ∈ ids) then f (state_of j s) else state_of j s;
  sd_registry : same_registry (st_nodes s) (st_nodes s');
  sd_call : st_chain s' = call_and_exit call (st_chain s);
  sd_funds : st_funds s' = st_funds s;
  sd_users : st_users s' = st_users s;
  sd_settings : st_settings s' = st_settings s;
  sd_rewards : st_rewards s' = st_rewards s;
  sd_op : st_global_op_checkpoint s' = st_global_op_checkpoint s;
}.

Lemma taking_started P f ids call s0 s :
  taking P f ids s0 s → N.of_nat (length ids) ≤ MAX_NODES_PER_OPERATION →
  started P f ids call s0 (set_chain (call_and_exit call (st_chain s)) s).
Proof.
  intros [[Ef Eu Es Er Eo Ek Ev _ _ _] Hc Hnd Hb Ha Hr] Hlen. split; try done.
  simpl. by rewrite Hc.
Qed.

(** *** The callbacks *)
Lemma unstake_callback_eq ids args s :
  NoDup ids → N.of_nat (length ids) ≤ MAX_NODES_PER_OPERATION →
  run_auction_unstake_callback ids (CallOk args) s =
    (let! '(node_ids_ok, node_ids_fail) := zoom (split_node_ids_by_err ids args) in
     settle_states node_ids_ok (NodeState.UnBondPeriod (get_block_nonce (st_chain s)))
       unstake_node_ok_event ;;;
     settle_states node_ids_fail NodeState.Active
       (unstake_node_fail_event "unstaking failed for some nodes")) s.
Proof.
  intros Hnd Hlen.
  destruct (split_node_ids_spec (st_nodes s) ids args Hnd Hlen) as (a & b & Heq & _ & _).
  assert (zoom (split_node_ids_by_err ids args) s = Ok ((a, b), s)) as Hz.
  { unfold zoom. change (lens_get s) with (st_nodes s). rewrite Heq. by destruct s. }
  unfold run_auction_unstake_callback.
  etrans; [by apply bind_ok|]. symmetry. etrans; [by apply bind_ok|]. cbv beta iota.
  unfold bind at 1 2. by destruct a.
Qed.

(** A node that waits for its unbonding goes back to where it was. *)
Definition unbond_undone (st : NodeState) : NodeState :=
  match st with NodeState.PendingUnBond started => NodeState.UnBondPeriod started | _ => st end.
Definition pending_unbond (st : NodeState) : Prop :=
  ∃ started, st = NodeState.PendingUnBond started.

Definition undo_unbond (node_id : N) (_ : unit) : M (State C) unit :=
  let! st := node_state node_id in
  match st with
  | NodeState.PendingUnBond unbond_started =>
      put_node_state node_id (NodeState.UnBondPeriod unbond_started)
  | _ => sc_panic "node not pending unbond"
  end.

Lemma undo_unbond_spec ids s :
  NoDup ids → (∀ j, j ∈ ids → pending_unbond (state_of j s)) →
  runs (for_each ids tt undo_unbond) s (λ _ s', nodes_only s s' ∧
    ∀ j, state_of j s' = if decide (j ∈ ids) then unbond_undone (state_of j s) else state_of j s).
Proof.
  revert s. induction ids as [|i ids IH]; intros s Hnd Hp; simpl.
  { apply runs_ret. by split; [apply nodes_only_refl|]. }
  apply NoDup_cons in Hnd as [Hi Hnd].
  destruct (Hp i ltac:(set_solver)) as [n Hn].
  apply runs_bind. unfold undo_unbond at 1. run_gets. fold (state_of i s).
  rewrite Hn. apply runs_zoom, runs_modify.
  set (s1 := lens_set _ s). assert (∀ j, state_of j s1 =
    if decide (i = j) then NodeState.UnBondPeriod n else state_of j s) as Hs1.
  { intros j. apply get_node_state_set. }
  eapply runs_mono; [apply (IH s1 Hnd)|].
  { intros j Hj. rewrite Hs1, decide_False by (intros ->; done). apply Hp. set_solver. }
  intros _ s' [Hno Hs']. split.
  - eapply nodes_only_trans; [apply (nodes_only_put i)|exact Hno].
  - intros j. rewrite Hs', Hs1. destruct (decide (j = i)) as [->|Hne].
    + rewrite decide_False by done. rewrite !decide_True by set_solver. by rewrite Hn.
    + rewrite !(decide_False (P:=i = j)) by congruence.
      apply decide_ext. set_solver.
Qed.

Lemma unbond_fail_spec ids msg s :
  NoDup ids → (∀ j, j ∈ ids → pending_unbond (state_of j s)) →
  runs (auction_unbond_callback_fail ids msg) s (λ _ s', nodes_only s s' ∧
    ∀ j, state_of j s' = if decide (j ∈ ids) then unbond_undone (state_of j s) else state_of j s).
Proof.
  intros Hnd Hp. unfold auction_unbond_callback_fail. destruct ids as [|i ids].
  { apply runs_ret. by split; [apply nodes_only_refl|]. }
  apply runs_bind. eapply runs_mono; [by apply undo_unbond_spec|].
  intros [] s' [Hno Hs']. apply runs_modify. split; [|exact Hs'].
  eapply nodes_only_trans; [exact Hno|apply nodes_only_event].
Qed.

(** *** Taking the nodes of an endpoint *)
Definition ids_of (keys : list BLSKey) s : list N :=
  (λ k, get_node_id k (st_nodes s)) <$> keys.

Lemma nodes_only_ids k s s' :
  nodes_only s s' → get_node_id k (st_nodes s') = get_node_id k (st_nodes s).
Proof. intros Hn. unfold get_node_id. by rewrite (no_keys _ _ Hn). Qed.

Lemma push_node_ensures ids i s (Q : NodeIndexArrayVec → State C → Prop) :
  (N.of_nat (length ids) < MAX_NODES_PER_OPERATION → Q (ids ++ [i]) s) →
  ensures (push_node ids i) s Q.
Proof.
  intros HQ. unfold push_node. destruct (N.ltb_spec (N.of_nat (length ids)) MAX_NODES_PER_OPERATION);
    [by apply ensures_ret, HQ|apply ensures_fail].
Qed.

Record staking s0 (dn : list BLSKey) (acc : NodeIndexArrayVec * list (BLSKey * BLSSignature)) s
    : Prop := {
  stk_taking : taking (λ st, st = NodeState.Inactive) (λ _, NodeState.PendingActivation)
    (fst acc) s0 s;
  stk_ids : fst acc = ids_of dn s0;
  stk_keys : (snd acc).*1 = dn;
  stk_sigs k sig : (k, sig) ∈ snd acc →
    ns_node_signature (st_nodes s0) !! get_node_id k (st_nodes s0) = Some sig;
  stk_known : 0 ∉ fst acc;
  stk_len : N.of_nat (length (fst acc)) ≤ MAX_NODES_PER_OPERATION;
}.

Lemma stake_one_node_ensures s0 dn k acc s :
  staking s0 dn acc s → ensures (stake_one_node k acc) s (staking s0 (dn ++ [k])).
Proof.
  intros [Ht Hids Hkeys Hsigs Hkn Hl]. destruct acc as [ids sigs]. simpl in *.
  apply ensures_bind, ensures_gets. rewrite (nodes_only_ids k s0 s) by apply Ht.
  set (i := get_node_id k (st_nodes s0)).
  apply ensures_bind, ensures_require. intros Hi%negb_true_iff%N.eqb_neq.
  apply ensures_bind, ensures_gets. fold (state_of i s).
  apply ensures_bind, ensures_require. intros Hst%bool_decide_eq_true.
  apply ensures_bind, push_node_ensures. intros Hlen.
  apply ensures_bind. unfold ensures, outcome at 1, zoom at 1, get_node_signature.
  change (lens_get s) with (st_nodes s).
  destruct (ns_node_signature (st_nodes s) !! i) as [sig|] eqn:Hsig; [|done].
  replace (lens_set (st_nodes s) s) with s by (by destruct s).
  apply ensures_bind. change (ensures (ret tt) (lens_set (set_node_state i
    NodeState.PendingActivation (st_nodes s)) s) (λ _ s', ensures (ret (ids ++ [i],
      sigs ++ [(k, sig)])) s' (staking s0 (dn ++ [k])))).
  apply ensures_ret, ensures_ret. split; simpl.
  - apply (taking_snoc (λ st, st = NodeState.Inactive) (λ _, NodeState.PendingActivation));
      [by intros ? ->|done..].
  - rewrite Hids. unfold ids_of. by rewrite fmap_app.
  - by rewrite fmap_app, Hkeys.
  - intros k' sig' [Hin|[= -> ->]%list_elem_of_singleton]%elem_of_app; [by apply Hsigs|].
    by rewrite (sr_signature _ _ (tk_registry _ _ _ _ _ Ht)) in Hsig.
  - rewrite not_elem_of_app, list_elem_of_singleton. auto.
  - rewrite length_app. simpl. lia.
Qed.

(** What a successful [stakeNodes] has checked and done. *)
Record nodes_staked (amount : N) (keys : list BLSKey) s s' : Prop := {
  nst_owner : get_caller (st_chain s) = get_owner_address (st_chain s);
  nst_bootstrap : bootstrap_mode (st_settings s) = false;
  nst_no_op : st_global_op_checkpoint s = GlobalOpCheckpoint.None;
  nst_funds : ∃ unprotected, total_unprotected s = Ok (unprotected, s) ∧ amount ≤ unprotected;
  nst_share : validate_owner_stake_share s = Ok (tt, s);
  nst_nodup : NoDup keys;
  nst_known : 0 ∉ ids_of keys s;
  nst_started : ∃ sigs, sigs.*1 = keys ∧
    (∀ k sig, (k, sig) ∈ sigs →
       ns_node_signature (st_nodes s) !! get_node_id k (st_nodes s) = Some sig) ∧
    started (λ st, st = NodeState.Inactive) (λ _, NodeState.PendingActivation)
      (ids_of keys s)
      (mk_AsyncCall (auction_addr (st_settings s))
        (auction_stake (N.of_nat (length keys)) sigs) amount
        (Some (auction_stake_callback (ids_of keys s)))) s s';
}.

Lemma total_unprotected_state s v s' : total_unprotected s = Ok (v, s') → s' = s.
Proof.
  intros Heq. apply (ensures_inv total_unprotected s (λ _ s', s' = s) v s'); [|done].
  unfold total_unprotected. do 6 apply ensures_bind, ensures_gets.
  do 3 (apply ensures_bind, ensures_big_sub; intros _). by apply ensures_big_sub.
Qed.

Lemma validate_share_state s v s' : validate_owner_stake_share s = Ok (v, s') → s' = s.
Proof.
  intros Heq. apply (ensures_inv validate_owner_stake_share s (λ _ s', s' = s) v s'); [|done].
  unfold validate_owner_stake_share. do 3 apply ensures_bind, ensures_gets.
  by apply ensures_require.
Qed.

Lemma stake_nodes_ensures s amount keys :
  ensures (stake_nodes amount keys) s (λ _ s', nodes_staked amount keys s s').
Proof.
  unfold stake_nodes.
  apply ensures_bind, ensures_bind, ensures_gets, ensures_bind, ensures_gets, ensures_require.
  intros Howner%N.eqb_eq.
  apply ensures_bind, ensures_gets, ensures_bind, ensures_require.
  intros Hboot%negb_true_iff.
  apply ensures_bind. unfold no_node_op_during_reset, require_no_global_op.
  apply ensures_bind, ensures_gets, ensures_require. intros Hop.
  assert (st_global_op_checkpoint s = GlobalOpCheckpoint.None) as Hnone.
  { unfold is_global_op_in_progress, is_none in Hop. by destruct (st_global_op_checkpoint s). }
  apply ensures_bind. unfold ensures at 1, outcome at 1.
  destruct (total_unprotected s) as [[v s1]|] eqn:Hun; [|done].
  pose proof (total_unprotected_state _ _ _ Hun) as ->.
  apply ensures_bind, ensures_require. intros Hle%N.leb_le.
  apply ensures_bind. unfold ensures at 1, outcome at 1.
  destruct (validate_owner_stake_share s) as [[[] s1]|] eqn:Hsh; [|done].
  pose proof (validate_share_state _ _ _ Hsh) as ->.
  apply ensures_bind. eapply ensures_mono.
  { apply (ensures_for_each _ (staking s) keys).
    - split; simpl; [apply taking_nil|done|done|by intros ?? ?%not_elem_of_nil|
        apply not_elem_of_nil|done].
    - intros dn k acc s1 Hs1. by apply stake_one_node_ensures. }
  intros [ids sigs] s1 [Ht Hids Hkeys Hsigs Hkn Hlen]. simpl in *.
  apply ensures_bind, ensures_gets, ensures_modify.
  split; try done.
  - by exists v.
  - pose proof (tk_nodup _ _ _ _ _ Ht) as Hnd. rewrite Hids in Hnd. by apply NoDup_fmap_1 in Hnd.
  - by rewrite <-Hids.
  - exists sigs. split_and!; [done|done|]. rewrite (no_settings _ _ (tk_only _ _ _ _ _ Ht)).
    assert (length keys = length ids) as -> by (rewrite Hids; symmetry; apply length_fmap).
    rewrite <-Hids. by apply taking_started.
Qed.
End NodeOps.
