(* ===== verification/Theorems.v ===== *)
(** * The theorems about the contract

    The properties of the endpoints, of the rewards and of the nodes, each with
    the concrete input at which its hypotheses hold. *)
From stdpp Require Import base numbers list gmap strings sorting.
From S2P Require Import Prelude PtrList FundTypes FundModule FundLedger FundRep FundLoops.
From S2P Require Import FundTotals FundMoves FundSpec UserData NodeConfig Settings Chain State.
From S2P Require Import FundTransf FundView Rewards UserStake ResetCheckpoint NodeActivation.
From S2P Require Import Contract TransfSpec RewardSpec ContractInv StakeSpec EndpointSpec.
From S2P Require Import PayoutSpec SolvencySpec GlobalOpSpec GlobalOpStart ContractSystem.
From S2P Require Import Examples NodeSpec.

Section Delegators.
Context {C : Type} `{ChainLaws C}.
Implicit Type s : State C.

(** C6: on a state that satisfies the invariant, while the contract is not paused and no
    global operation is under way, staking at least the minimum succeeds, as long as
    the 32-bit ids of funds and users last and the lists of waiting and unstaked funds
    fit into the vector of affected users; if they need not fit ([full]) the one error
    is that the vector's capacity is exceeded.  It keeps
    the invariant, keeps the staked amount tied to the delegation cap, adds
    exactly the payment to what the caller owns (registering the caller if
    need be) and changes what nobody else owns. *)
Theorem stake_endpoint_ok full s A payment :
  Inv s A → staked_ok s A → open_for_users s → min_stake_of s ≤ payment →
  room1 full A → num_users_of s + 1 < usize_max_plus_1 →
  outcome (stake_endpoint payment) s (crowded full) (λ _ s', ∃ A', staked payment s A s' A').
Proof. apply stake_spec. Qed.


(** C8: withdrawing sends the caller, and nobody else, exactly what it takes from the
    caller's deferred and withdrawable funds, wherever the gas runs low (the contract
    is not paused, has the money, and ids last): never more than
    the withdrawable funds and the deferred payments that are due, which is what
    the view of unbondable funds reports, and all of that unless the gas runs
    low; it touches no stake and nobody else's funds. *)
Theorem unbond_user_ok s A :
  let u := caller_id s in
  Inv s A → not_paused (st_chain s) = true → u ≠ 0 →
  user_roomy u FundType.DeferredPayment A →
  withdrawable u A ≤ get_sc_balance (st_chain s) →
  get_unbondable (get_caller (st_chain s)) s = Ok (payable_now s A, s) ∧
  runs unbond_user s (λ r s', ∃ A', unbonded u r s A s' A').
Proof.
  intros u HI Hp Hu. split; [by apply get_unbondable_eq; [apply HI|]|by apply unbond_user_spec].
Qed.

(** C9: claiming sends the caller exactly the rewards computed up to now,
    records them as sent, leaves nothing unclaimed and keeps the invariant. *)
Theorem claim_rewards_ok s A :
  let u := caller_id s in
  Inv s A → open_for_users s → feature_on "claimRewards" true (st_chain s) = true →
  u ≠ 0 → claimable u s ≤ get_sc_balance (st_chain s) →
  runs claim_rewards s (λ _ s', claimed u s A s').
Proof. apply claim_rewards_spec. Qed.

(** C30: bringing the rewards of all users up to date never fails, whatever
    checkpoint it resumes from; when it completes, every user is up to date and
    the unclaimed and the sent rewards add up to exactly what the contract has
    received; nobody but the owner, to whom the rounding is left, can claim anything
    else than before; it is only interrupted when the gas runs low, and then the
    checkpoint is valid to resume from. *)
Theorem compute_all_rewards_exact s A d :
  Inv s A → num_users_of s < usize_max_plus_1 → data_ok d s →
  runs (compute_all_rewards d) s (λ r s',
    Inv s' A ∧ progress s s' ∧ earnings_raised s s' ∧
    match r with
    | Some d' => data_ok d' s' ∧ low_gas STOP_AT_GASLIMIT (st_chain s)
    | None => all_settled s' ∧ assigned s' = cumulated s'
    end).
Proof. apply compute_all_rewards_spec. Qed.

(** New validator rewards keep the contract solvent: what they add to its
    debts is exactly what came in. *)
Theorem rewards_arrival_solvent s A c :
  Inv s A → bootstrap_of s = false → cumulated s ≤ get_cumulated_validator_rewards c →
  Inv (set_chain c s) A.
Proof. apply inv_arrive. Qed.

(** C31: activating waiting stake settles the rewards first: it succeeds, if the waiting
    list fits into the vector of affected users (or else, if [full] allows it, fails
    with the one error of the vector), the
    owner and every user whose active stake changes are up to date when it
    changes, the amount moves from waiting to active stake in full, and what
    everybody can claim stays as it was. *)
Theorem activation_settles_rewards full s A m :
  Inv s A → roomy full FundType.Waiting A → m ≤ tt_of FundType.Waiting A →
  tt_of FundType.Active A + m ≤ cap_of s →
  outcome (swap_waiting_to_active_compute_rewards m) s (crowded full) (λ _ s',
    frame s s' ∧ st_settings s' = st_settings s ∧
    ∃ A', Inv_kept s s' A' ∧ grown FundType.Active (len_of FundType.Waiting A) A A' ∧
      moved FundType.Waiting FundType.Active m (activated_of m A) A A').
Proof. apply swap_compute_rewards_spec. Qed.

(** The rewards of a user are computed in closed form and without failing
    or changing the storage: nothing when nothing new came in, and otherwise the
    service fee and the share of missing stake for the owner, and for everyone
    the share of the active stake in the cap, each rounded down. *)
Theorem load_updated_user_rewards_exact s u :
  reward_ready u s → load_updated_user_rewards u s = Ok (updated_rewards u s, s).
Proof. apply load_updated_user_rewards_eq. Qed.

(** Splitting a reward loses at most one unit to rounding. *)
Theorem split_service_reward_bounds s r :
  fee_of s ≤ PERCENTAGE_DENOMINATOR →
  runs (split_service_reward r) s (λ '(service, delegators) s',
    s' = s ∧ service + delegators ≤ r ∧ r ≤ service + delegators + 1).
Proof.
  intros Hfee. eapply runs_eq; [by apply split_service_reward_eq|]. cbv beta iota.
  unfold service_part, delegators_part. unfold PERCENTAGE_DENOMINATOR in *.
  set (f := fee_of s) in *. split; [done|].
  assert (f * r + (10000 - f) * r = 10000 * r) as Hsum
    by (rewrite <-N.mul_add_distr_r; f_equal; lia).
  revert Hsum. generalize (f * r) as x, ((10000 - f) * r) as y. intros y x Hsum.
  pose proof (N.Div0.div_mod x 10000) as Hx. pose proof (N.mod_lt x 10000 ltac:(done)) as Hmx.
  pose proof (N.Div0.div_mod y 10000) as Hy. pose proof (N.mod_lt y 10000 ltac:(done)) as Hmy.
  revert Hx Hmx Hy Hmy. generalize (x / 10000), (x mod 10000), (y / 10000), (y mod 10000).
  clear -Hsum. intros. lia.
Qed.

(** The constructor establishes the invariant, with the deployer as user 1,
    nothing staked and the bootstrap mode on. *)
Theorem init_establishes_inv (c : C) auction fee share n_blocks minimum cap :
  fee ≤ PERCENTAGE_DENOMINATOR → share ≤ PERCENTAGE_DENOMINATOR →
  get_cumulated_validator_rewards c = 0 → 0 < cap →
  runs (init auction fee share n_blocks minimum cap) (initial_State c) (λ _ s',
    Inv s' empty_funds ∧ staked_ok s' empty_funds ∧ bootstrap_of s' = true ∧
    cap_of s' = cap ∧ get_user_id (get_caller c) (st_users s') = OWNER_USER_ID).
Proof.
  intros. eapply runs_mono; [by apply init_spec|]. intros _ s' (? & ? & ? & ? & ? & _). done.
Qed.
End Delegators.

(** ** The theorems applied to the example state *)
Lemma stake_endpoint_ok_witness :
  runs (stake_endpoint 25) (example_state 400) (λ _ s',
    ∃ A', staked 25 (example_state 400) example_funds s' A').
Proof.
  apply uncrowded, stake_endpoint_ok; [apply example_inv|apply example_staked_ok|apply example_open|numbers|
    apply example_room1|numbers].
Defined.


Lemma unbond_user_ok_witness :
  payable_now (example_state 300) example_funds = 15 ∧
  get_unbondable 300 (example_state 300) =
    Ok (payable_now (example_state 300) example_funds, example_state 300) ∧
  runs unbond_user (example_state 300) (λ r s',
    ∃ A', unbonded 3 r (example_state 300) example_funds s' A').
Proof.
  replace 3 with (caller_id (example_state 300)) by (vm_compute; reflexivity).
  split; [numbers|].
  change (get_unbondable 300) with
    (get_unbondable (C:=SimpleChain) (get_caller (st_chain (example_state 300)))).
  apply (unbond_user_ok (example_state 300) example_funds); [apply example_inv|reflexivity|discriminate| |numbers].
  split; numbers.
Defined.

Lemma claim_rewards_ok_witness :
  claimable 2 (example_state 200) = 450 ∧
  runs claim_rewards (example_state 200) (λ _ s',
    claimed 2 (example_state 200) example_funds s').
Proof.
  replace 2 with (caller_id (example_state 200)) by (vm_compute; reflexivity).
  split; [numbers|].
  apply claim_rewards_ok;
    [apply example_inv|apply example_open|reflexivity|discriminate|numbers].
Defined.

Lemma compute_all_rewards_exact_witness :
  runs (compute_all_rewards (ComputeAllRewardsData_new 1900)) (example_state 100) (λ r s',
    Inv s' example_funds ∧ progress (example_state 100) s' ∧
    earnings_raised (example_state 100) s' ∧
    match r with
    | Some d' => data_ok d' s' ∧ low_gas STOP_AT_GASLIMIT (st_chain (example_state 100))
    | None => all_settled s' ∧ assigned s' = cumulated s'
    end).
Proof.
  apply compute_all_rewards_exact; [apply example_inv|numbers|].
  split; [numbers|]. intros _. split; [numbers|]. split; [numbers|].
  intros u Hu%elem_of_ids_up_to. simpl in Hu. lia.
Defined.

Definition richer_chain : SimpleChain :=
  mk_SimpleChain 100 100 21 2500 10600 [] [] [] [].

Lemma rewards_arrival_solvent_witness :
  Inv (set_chain richer_chain (example_state 100)) example_funds.
Proof. apply rewards_arrival_solvent; [apply example_inv|reflexivity|numbers]. Defined.

Lemma activation_settles_rewards_witness :
  let s := example_state 100 in
  runs (swap_waiting_to_active_compute_rewards 35) s (λ _ s',
    frame s s' ∧ st_settings s' = st_settings s ∧
    ∃ A', Inv_kept s s' A' ∧ grown FundType.Active (len_of FundType.Waiting example_funds) example_funds A' ∧
      moved FundType.Waiting FundType.Active 35 (activated_of 35 example_funds) example_funds A').
Proof.
  apply uncrowded, activation_settles_rewards; [apply example_inv|rooms|numbers|numbers].
Defined.

Lemma load_updated_user_rewards_exact_witness :
  let s := example_state 100 in
  unclaimed_rewards (updated_rewards 1 s) = 190 + 360 + 900 ∧
  load_updated_user_rewards 1 s = Ok (updated_rewards 1 s, s).
Proof.
  split; [numbers|].
  apply load_updated_user_rewards_exact. split; [numbers|numbers|numbers].
Defined.

Lemma split_service_reward_bounds_witness :
  runs (split_service_reward 1999) (example_state 100) (λ '(service, delegators) s',
    s' = example_state 100 ∧ service + delegators ≤ 1999 ∧ 1999 ≤ service + delegators + 1).
Proof. apply split_service_reward_bounds. numbers. Defined.

Lemma init_establishes_inv_witness :
  runs (init 900 1000 500 10 5 190) (initial_State (mk_SimpleChain 100 100 1 0 0 [] [] [] []))
    (λ _ s', Inv s' empty_funds ∧ staked_ok s' empty_funds ∧ bootstrap_of s' = true ∧
      cap_of s' = 190 ∧ get_user_id 100 (st_users s') = OWNER_USER_ID).
Proof.
  exact (init_establishes_inv (mk_SimpleChain 100 100 1 0 0 [] [] [] []) 900 1000 500 10 5 190
    ltac:(numbers) ltac:(numbers) ltac:(numbers) ltac:(numbers)).
Defined.
