(* ===== verification/GlobalTheorems.v ===== *)
(** * Global operations and the whole contract: theorems

    The owner's resumable operations, what delegators may do in between, and the
    invariant of the contract over all transactions. *)
From stdpp Require Import base numbers list gmap strings relations.
From S2P Require Import Prelude PtrList FundTypes FundModule FundLedger FundRep FundLoops.
From S2P Require Import FundTotals FundMoves FundSpec FundInvariant UserData NodeConfig Settings.
From S2P Require Import Chain State FundTransf FundView Rewards UserStake ResetCheckpoint Contract.
From S2P Require Import TransfSpec RewardSpec ContractInv StakeSpec EndpointSpec PayoutSpec.
From S2P Require Import SolvencySpec GlobalOpSpec GlobalOpStart ContractSystem Examples.

(** What the views read as the total of a fund type. *)
Definition total_of {C} (t : FundType) (s : State C) : N :=
  get_user_stake_of_type USER_STAKE_TOTALS_ID t (st_funds s).

Section Theorems.
Context {C : Type} `{ChainLaws C}.
Implicit Type s : State C.

(** On every state that transactions, new blocks with new rewards and
    interrupted global operations reach from a deployment, all funds pass the
    consistency check of the test suite; the rewards assigned and paid never
    exceed the rewards received; between global operations the active and the
    unstaked stake are exactly the delegation cap, and below it, with nobody
    waiting, in bootstrap mode; and the operation under way can be continued. *)
Theorem contract_invariant (c : C) auction fee share n_blocks minimum cap s0 s :
  fee ≤ PERCENTAGE_DENOMINATOR → share ≤ PERCENTAGE_DENOMINATOR →
  get_cumulated_validator_rewards c = 0 → 0 < cap →
  init auction fee share n_blocks minimum cap (initial_State c) = Ok (tt, s0) →
  rtc contract_step s0 s →
  contract_ok s ∧ (∀ n, check_consistency (st_funds s) n = true) ∧ assigned s ≤ cumulated s ∧
  (st_global_op_checkpoint s = GlobalOpCheckpoint.None →
    if bootstrap_of s then
      total_of FundType.Active s + total_of FundType.UnStaked s < cap_of s ∧
      total_of FundType.Waiting s = 0
    else total_of FundType.Active s + total_of FundType.UnStaked s = cap_of s).
Proof.
  intros Hfee Hshare Hcum Hcap Hinit Hsteps.
  pose proof (runs_inv _ _ _ _ _ (init_spec c auction fee share n_blocks minimum cap Hfee Hshare
    Hcum Hcap) Hinit) as (HI & Hst & _ & _ & _ & Hop).
  assert (contract_ok s) as Hok.
  { apply (contract_reachable_ok s0 s Hsteps). exists empty_funds. by rewrite Hop. }
  split; [done|]. destruct Hok as [A HA]. pose proof (op_ok_rep _ _ _ HA) as HR.
  split; [intros n; by eapply check_rep|]. split; [by eapply op_ok_assigned|].
  intros Hnone. rewrite Hnone in HA. destruct HA as [_ [Hcap' Hw]]. unfold total_of.
  rewrite !(stake_total HR). unfold within_cap, cap_ok, none_waits in *.
  destruct (bootstrap_of s); auto.
Qed.

(** C10: continuing the global operation under way succeeds from every state in
    which one can be, however often it was interrupted and wherever; it changes
    nobody's holdings, leaves a state in which it can be continued again, stores
    the new settings exactly when it completes, and only stops early because the
    gas runs low; of what the operation has to move, what is not left for later has
    moved, and no waiting time of anybody is cut short.  The lists that are still to
    be walked fit into the vector of affected users, or else, if [full] allows it,
    the walk fails with the one error of the vector. *)
Theorem continue_global_operation_ok full s A :
  let orc := st_global_op_checkpoint s in
  feature_on "continueGlobalOperation" true (st_chain s) = true →
  num_users_of s < usize_max_plus_1 → op_ok orc s A → op_room full orc A →
  outcome continue_global_operation_endpoint s (crowded full) (λ status s', ∃ A',
    op_run (plan_of orc) (st_settings s) (target orc (st_settings s)) s A status s' A').
Proof. apply continue_endpoint_spec. Qed.


(** C12: the owner changes the delegation cap to any admissible value ([cap_plan] says
    what has to move): unstaked stake and then active stake that no longer fit become
    deferred payments, or waiting stake becomes active to fill a larger cap, with
    everybody owning what they owned and nobody's waiting time cut short: what was
    active waits from the current block, what was unstaked from the block of its
    unstaking.  When the operation completes, at once or after interruptions for low
    gas, all of the plan has been carried out and the new cap is stored; until then
    the part that is not in the plan of the checkpoint.  The lists that are walked
    fit into the vector of affected users, or else, if [full] allows it, the walk
    fails with the one error of the vector. *)
Theorem modify_total_delegation_cap_ok full s A cap :
  get_caller (st_chain s) = get_owner_address (st_chain s) →
  st_global_op_checkpoint s = GlobalOpCheckpoint.None →
  num_users_of s < usize_max_plus_1 → Inv s A → staked_ok s A → cap_admissible cap s A →
  step_room full (len_of FundType.Waiting A) (len_of FundType.UnStaked A)
    (len_of FundType.Active A + len_of FundType.Waiting A) A →
  outcome (modify_total_delegation_cap cap) s (crowded full) (λ status s', ∃ A',
    op_run (cap_plan cap s A) (cap_meantime cap s A) (cap_final cap s A) s A status s' A').
Proof. apply modify_cap_spec. Qed.

(** Whenever a change of the delegation cap succeeds, in full or in part,
    the owner asked for it, no operation was under way and the value was
    admissible: not above the stake there is, only over no unstaked funds when it
    grows, and with the money to pay those who leave when it shrinks. *)
Theorem modify_total_delegation_cap_checked s A cap status s' :
  Rep (st_funds s) A → (bootstrap_of s = true → cap ≠ max_available A) →
  modify_total_delegation_cap cap s = Ok (status, s') →
  get_caller (st_chain s) = get_owner_address (st_chain s) ∧
  st_global_op_checkpoint s = GlobalOpCheckpoint.None ∧ cap_admissible cap s A.
Proof.
  intros HR Hne. apply (ensures_inv _ s (λ _ _, _)). by apply modify_cap_guards.
Qed.

(** C13: setting the service fee settles the rewards of everybody under the old
    fee first; the new fee is stored when that is done, at once or after
    interruptions for low gas, and nobody's stake changes. *)
Theorem set_service_fee_ok s A fee :
  fee ≤ PERCENTAGE_DENOMINATOR → num_users_of s < usize_max_plus_1 →
  st_global_op_checkpoint s = GlobalOpCheckpoint.None → Inv s A → staked_ok s A →
  runs (set_service_fee_endpoint fee) s (λ status s', ∃ A',
    op_run (mk_Plan 0 0 0) (st_settings s) (set_service_fee fee (st_settings s)) s A status s' A').
Proof. apply set_service_fee_spec. Qed.

(** Delegators can take out their money while a global operation is
    interrupted: unbonding pays exactly what leaves the caller's withdrawable
    and deferred funds, what is due but for low gas, and the operation can still
    be continued. *)
Theorem unbond_during_operation s A :
  let u := caller_id s in
  op_ok (st_global_op_checkpoint s) s A → Rep (st_funds s) A →
  not_paused (st_chain s) = true → u ≠ 0 → user_roomy u FundType.DeferredPayment A →
  withdrawable u A ≤ get_sc_balance (st_chain s) →
  runs unbond_user s (λ r s', ∃ A', withdrawn u r s A s' A').
Proof. apply unbond_during_op. Qed.
End Theorems.

(** ** Witnesses

    The example state with a change of the cap from 190 to 170 under way. *)
Definition example_change : GlobalOpCheckpoint :=
  GlobalOpCheckpoint.ModifyTotalDelegationCap
    (mk_ModifyTotalDelegationCapData 170 0 0 20
      (ModifyDelegationCapStep.ComputeAllRewards (ComputeAllRewardsData_new 1900))).
Definition changing_state (caller : N) : State SimpleChain :=
  set_global_op_checkpoint example_change (example_state caller).

Lemma changing_ok caller : op_ok example_change (changing_state caller) example_funds.
Proof.
  assert (op_ok example_change (example_state caller) example_funds) as Hok.
  { split; [reflexivity|]. split; [split; numbers|].
    split; [apply example_inv|]. exact (data_ok_new (example_state caller)). }
  exact (op_ok_checkpoint example_change example_change (example_state caller) example_funds Hok).
Qed.

Lemma changing_room full : op_room full example_change example_funds.
Proof. rooms. Qed.

(** The gas of the example never runs low. *)
Lemma example_gas caller : ¬ low_gas STOP_AT_GASLIMIT (example_chain caller).
Proof.
  intros (c & Hr & Hlow).
  assert (c = example_chain caller) as ->.
  { revert Hr. apply (rtc_ind_r (λ c, c = example_chain caller)); [done|]. by intros c1 c2 _ -> ->. }
  revert Hlow. by vm_compute.
Qed.

(** A deployment, and a first stake by the deployer's delegator 200. *)
Definition deployed : State SimpleChain :=
  match init 900 1000 500 10 5 190 (initial_State (mk_SimpleChain 200 200 1 0 0 [] [] [] [])) with
  | Ok (_, s) => s
  | Err _ => initial_State (mk_SimpleChain 200 200 1 0 0 [] [] [] [])
  end.
Definition staked : State SimpleChain :=
  match stake_endpoint 60 deployed with Ok (_, s) => s | Err _ => deployed end.

Lemma contract_invariant_witness :
  total_of FundType.Active staked = 60 ∧ contract_ok staked ∧
  total_of FundType.Active staked + total_of FundType.UnStaked staked < 190.
Proof.
  split; [numbers|].
  assert (rtc contract_step deployed staked) as Hsteps.
  { eapply rtc_l; [|apply rtc_refl]. apply (step_tx (Stake 60)); [split; numbers|exact I|].
    vm_compute. reflexivity. }
  destruct (contract_invariant (mk_SimpleChain 200 200 1 0 0 [] [] [] []) 900 1000 500 10 5 190
    deployed staked ltac:(numbers) ltac:(numbers) ltac:(numbers) ltac:(numbers)
    ltac:(vm_compute; reflexivity) Hsteps) as (Hok & _ & _ & Hcap).
  split; [exact Hok|]. destruct (Hcap ltac:(vm_compute; reflexivity)) as [Hlt _]. exact Hlt.
Defined.

Lemma continue_global_operation_ok_witness :
  runs continue_global_operation_endpoint (changing_state 100) (λ status s', ∃ A',
    op_run (mk_Plan 0 20 0) (st_settings (changing_state 100))
      (target example_change (st_settings (changing_state 100)))
      (changing_state 100) example_funds status s' A').
Proof.
  replace (mk_Plan 0 20 0) with (plan_of example_change) by (vm_compute; reflexivity).
  apply uncrowded, (continue_global_operation_ok False (changing_state 100) example_funds);
    [reflexivity|numbers|apply changing_ok|apply changing_room].
Defined.


Lemma example_admissible cap : cap ≤ 190 → cap_admissible cap (example_state 100) example_funds.
Proof.
  intros Hhi. right. unfold previous_cap, protected_of, max_available.
  change (bootstrap_of (example_state 100)) with false.
  replace (tt_of FundType.Active example_funds) with 150 by (vm_compute; reflexivity).
  replace (tt_of FundType.Waiting example_funds) with 50 by (vm_compute; reflexivity).
  replace (tt_of FundType.UnStaked example_funds) with 40 by (vm_compute; reflexivity).
  replace (tt_of FundType.DeferredPayment example_funds) with 8 by (vm_compute; reflexivity).
  replace (tt_of FundType.WithdrawOnly example_funds) with 7 by (vm_compute; reflexivity).
  replace (cap_of (example_state 100)) with 190 by (vm_compute; reflexivity).
  replace (cumulated (example_state 100)) with 1900 by (vm_compute; reflexivity).
  replace (get_sc_balance _) with 10000 by (vm_compute; reflexivity).
  split_and!; [lia|done|lia|lia].
Qed.

Lemma modify_total_delegation_cap_ok_witness :
  runs (modify_total_delegation_cap 130) (example_state 100) (λ status s', ∃ A',
    op_run (mk_Plan 0 40 20) (cap_meantime 130 (example_state 100) example_funds)
      (cap_final 130 (example_state 100) example_funds)
      (example_state 100) example_funds status s' A').
Proof.
  replace (mk_Plan 0 40 20) with (cap_plan 130 (example_state 100) example_funds)
    by (vm_compute; reflexivity).
  apply uncrowded, modify_total_delegation_cap_ok;
    [reflexivity|reflexivity|numbers|apply example_inv|apply example_staked_ok
    |apply example_admissible; numbers|rooms].
Defined.

Lemma modify_total_delegation_cap_checked_witness :
  cap_admissible 160 (example_state 100) example_funds.
Proof.
  destruct (modify_total_delegation_cap 160 (example_state 100)) as [[status s']|e] eqn:Heq;
    [|by vm_compute in Heq].
  apply (modify_total_delegation_cap_checked (example_state 100) example_funds 160 status s');
    [apply example_rep|discriminate|exact Heq].
Defined.

Lemma set_service_fee_ok_witness :
  runs (set_service_fee_endpoint 2500) (example_state 100) (λ status s', ∃ A',
    op_run (mk_Plan 0 0 0) (st_settings (example_state 100)) (set_service_fee 2500 (st_settings (example_state 100)))
      (example_state 100) example_funds status s' A').
Proof.
  apply set_service_fee_ok;
    [numbers|numbers|reflexivity|apply example_inv|apply example_staked_ok].
Defined.

Lemma unbond_during_operation_witness :
  runs unbond_user (changing_state 300) (λ r s', ∃ A',
    withdrawn 3 r (changing_state 300) example_funds s' A').
Proof.
  replace 3 with (caller_id (changing_state 300)) by (vm_compute; reflexivity).
  apply unbond_during_operation;
    [apply changing_ok|apply example_rep|reflexivity|discriminate|split; numbers|numbers].
Defined.
