(* ===== verification/NodeCalls.v ===== *)
(** * Starting operations on nodes and settling them

    The endpoints succeed exactly when the nodes of the call are in the right
    state, and the callbacks always succeed on the nodes of their call. *)
From stdpp Require Import base numbers list gmap strings.
From S2P Require Import Prelude FundTypes FundModule UserData NodeConfig Settings Chain State.
From S2P Require Import FundTransf FundView Rewards UserStake NodeActivation NodeSpec.

(** ** Registration *)

(** A key that [addNodes] accepts. *)
Definition addable (ns : NodeStore) (k : BLSKey) : Prop :=
  get_node_id k ns = 0 ∨ get_node_state (get_node_id k ns) ns = NodeState.Removed.

Lemma add_node_runs ns dn arg n ns' :
  ns_num_nodes ns + N.of_nat (length dn) + 1 < usize_max_plus_1 → adding ns dn n ns' →
  arg.1 ∉ dn.*1 → addable ns arg.1 → runs (add_node arg n) ns' (adding ns (dn ++ [arg])).
Proof.
  intros Hmax Ha Hnew Hadd. apply ensures_runs; [by apply add_node_ensures|].
  destruct arg as [k sig]. simpl in *.
  pose proof (ad_kept _ _ _ _ Ha k (or_introl Hnew)) as Hk.
  run_gets. destruct (N.eqb_spec (get_node_id k ns') 0) as [Hz|Hz].
  - repeat (apply runs_bind, runs_modify). by apply runs_ret.
  - rewrite Hk in Hz. destruct Hadd as [?|Hrem]; [done|].
    run_gets.
    rewrite decide_True by (rewrite (ad_state _ _ _ _ Ha) by done; done).
    repeat (apply runs_bind, runs_modify). by apply runs_ret.
Qed.

Lemma add_nodes_adding ns args :
  registered (ns_num_nodes ns) ns →
  ns_num_nodes ns + N.of_nat (length args) < usize_max_plus_1 →
  NoDup args.*1 → (∀ k, k ∈ args.*1 → addable ns k) →
  runs (add_nodes args) ns (λ _ ns', ∃ n ns1, adding ns args n ns1 ∧ ns' = set_num_nodes n ns1).
Proof.
  intros Hreg Hmax Hnd Hadd. unfold add_nodes. run_gets.
  apply runs_bind. eapply runs_mono.
  { apply (runs_for_each _ (adding ns) args).
    - split; try done; [lia|by intros ?? ?%not_elem_of_nil].
    - intros dn x rest n ns' -> Ha. rewrite length_app in Hmax. simpl in Hmax.
      rewrite fmap_app, fmap_cons in Hnd. apply NoDup_app in Hnd as (_ & Hdisj & _).
      apply add_node_runs; [lia|done| |].
      + intros Hin. by apply (Hdisj x.1 Hin), elem_of_cons; left.
      + apply Hadd. rewrite fmap_app, fmap_cons. set_solver. }
  intros n ns' Ha. apply runs_modify. by exists n, ns'.
Qed.

Lemma adding_registered ns args n ns1 :
  adding ns args n ns1 → registered (ns_num_nodes (set_num_nodes n ns1)) (set_num_nodes n ns1).
Proof. intros Ha. by destruct (ad_registered _ _ _ _ Ha). Qed.

(** What [removeNodes] has done after the keys [dn]. *)
Record removing (ns : NodeStore) (dn : list BLSKey) (ns' : NodeStore) : Prop := {
  rm_ids k : get_node_id k ns' = get_node_id k ns;
  rm_rest : ns_num_nodes ns' = ns_num_nodes ns ∧ ns_node_id_to_bls ns' = ns_node_id_to_bls ns ∧
    ns_node_signature ns' = ns_node_signature ns;
  rm_state j : get_node_state j ns' =
    if decide (j ∈ (λ k, get_node_id k ns) <$> dn) then NodeState.Removed
    else get_node_state j ns;
}.

Lemma remove_node_runs ns dn k ns' :
  removing ns dn ns' → get_node_id k ns ∉ (λ k, get_node_id k ns) <$> dn →
  get_node_state_endpoint k ns = NodeState.Inactive →
  runs (remove_node k tt) ns' (λ _, removing ns (dn ++ [k])).
Proof.
  intros [Hid (En & Eb & Es) Hst] Hnew Hin. unfold get_node_state_endpoint in Hin.
  destruct (N.eqb_spec (get_node_id k ns) 0) as [|Hz]; [done|].
  run_gets. rewrite Hid.
  apply runs_bind, runs_require; [by apply negb_true_iff, N.eqb_neq|].
  run_gets.
  apply runs_bind, runs_require; [|apply runs_modify].
  { apply bool_decide_eq_true. by rewrite Hst, decide_False. }
  split; [done|done|]. intros j. rewrite get_node_state_set, Hst, fmap_app.
  destruct (decide (get_node_id k ns = j)) as [<-|Hne]; [by rewrite decide_True by set_solver|].
  apply decide_ext. set_solver.
Qed.

(** ** Node operations *)
Section NodeCalls.
Context {C : Type} `{ChainLaws C}.
Implicit Type s : State C.

(** When a vector of nodes can be staked. *)
Record stakeable (amount : N) (keys : list BLSKey) s : Prop := {
  sa_owner : get_caller (st_chain s) = get_owner_address (st_chain s);
  sa_bootstrap : bootstrap_mode (st_settings s) = false;
  sa_no_op : st_global_op_checkpoint s = GlobalOpCheckpoint.None;
  sa_funds : ∃ unprotected, total_unprotected s = Ok (unprotected, s) ∧ amount ≤ unprotected;
  sa_share : validate_owner_stake_share s = Ok (tt, s);
  sa_registered : registered (ns_num_nodes (st_nodes s)) (st_nodes s);
  sa_nodup : NoDup keys;
  sa_length : N.of_nat (length keys) ≤ MAX_NODES_PER_OPERATION;
  sa_inactive k : k ∈ keys → get_node_state_endpoint k (st_nodes s) = NodeState.Inactive;
}.

Lemma endpoint_state k s st :
  st ≠ NodeState.Removed → get_node_state_endpoint k (st_nodes s) = st →
  get_node_id k (st_nodes s) ≠ 0 ∧ state_of (get_node_id k (st_nodes s)) s = st.
Proof.
  unfold get_node_state_endpoint, state_of.
  destruct (N.eqb_spec (get_node_id k (st_nodes s)) 0); [congruence|done].
Qed.

(** Distinct registered keys have distinct ids. *)
Lemma ids_of_inj n keys k s :
  registered n (st_nodes s) → get_node_id k (st_nodes s) ≠ 0 →
  get_node_id k (st_nodes s) ∈ ids_of keys s → k ∈ keys.
Proof.
  intros Hreg Hk (k' & Heq & Hk')%list_elem_of_fmap.
  by rewrite (registered_inj _ _ k k' Hreg Hk Heq).
Qed.

Lemma ids_of_nodup n keys s :
  registered n (st_nodes s) → NoDup keys →
  (∀ k, k ∈ keys → get_node_id k (st_nodes s) ≠ 0) → NoDup (ids_of keys s).
Proof.
  intros Hreg Hnd Hk. induction keys as [|k keys IH]; [apply NoDup_nil_2|].
  apply NoDup_cons in Hnd as [Hni Hnd]. apply NoDup_cons. split.
  - intros Hin. apply Hni. eapply ids_of_inj; [done| |done]. apply Hk. set_solver.
  - apply IH; [done|]. intros k' ?. apply Hk. set_solver.
Qed.

Lemma length_ids_of keys s : length (ids_of keys s) = length keys.
Proof. apply length_fmap. Qed.

Lemma stake_one_node_runs amount s0 dn k rest acc s :
  stakeable amount (dn ++ k :: rest) s0 → staking s0 dn acc s →
  runs (stake_one_node k acc) s (staking s0 (dn ++ [k])).
Proof.
  intros Hs Hst. apply ensures_runs; [by apply stake_one_node_ensures|].
  destruct Hst as [Ht Hids _ _ _ _], acc as [ids sigs]. simpl in *.
  destruct (endpoint_state k s0 NodeState.Inactive) as [Hk Hin]; [done| |].
  { apply (sa_inactive _ _ _ Hs). set_solver. }
  assert (get_node_id k (st_nodes s0) ∉ ids) as Hnew.
  { rewrite Hids. intros Hin'%(ids_of_inj _ _ _ _ (sa_registered _ _ _ Hs) Hk).
    pose proof (sa_nodup _ _ _ Hs) as Hnd. apply NoDup_app in Hnd as (_ & Hd & _).
    apply (Hd k Hin'). set_solver. }
  run_gets. rewrite (nodes_only_ids k s0 s) by apply Ht.
  apply runs_bind, runs_require; [by apply negb_true_iff, N.eqb_neq|].
  run_gets. fold (state_of (get_node_id k (st_nodes s0)) s).
  rewrite (tk_after _ _ _ _ _ Ht), decide_False by done.
  apply runs_bind, runs_require; [by rewrite Hin|].
  apply runs_bind. unfold push_node. rewrite (proj2 (N.ltb_lt _ _)).
  2: { pose proof (sa_length _ _ _ Hs) as Hl. rewrite length_app in Hl. simpl in Hl.
       rewrite Hids, length_ids_of. lia. }
  apply runs_ret, runs_bind, runs_zoom. change (lens_get s) with (st_nodes s).
  destruct (reg_signature _ _ (sa_registered _ _ _ Hs) (get_node_id k (st_nodes s0)))
    as [sig Hsig].
  { destruct (reg_key _ _ (sa_registered _ _ _ Hs) k Hk). lia. }
  unfold get_node_signature. eapply runs_eq.
  { by rewrite (sr_signature _ _ (tk_registry _ _ _ _ _ Ht)), Hsig. }
  apply runs_bind, runs_zoom, runs_modify. by apply runs_ret.
Qed.

Lemma stake_nodes_spec amount keys s :
  stakeable amount keys s →
  runs (stake_nodes amount keys) s (λ _ s', nodes_staked amount keys s s').
Proof.
  intros Hs. apply ensures_runs; [apply stake_nodes_ensures|].
  pose proof Hs as [Ho Hb Hop (v & Hv & Hle) Hsh _ _ _ _]. unfold stake_nodes.
  apply runs_bind, runs_bind, runs_gets, runs_bind, runs_gets, runs_require.
  { by apply N.eqb_eq. }
  apply runs_bind, runs_gets, runs_bind, runs_require; [by apply negb_true_iff|].
  apply runs_bind, runs_bind, runs_gets, runs_require.
  { unfold is_global_op_in_progress. by rewrite Hop. }
  apply runs_bind. eapply runs_eq; [exact Hv|].
  apply runs_bind, runs_require; [by apply N.leb_le|].
  apply runs_bind. eapply runs_eq; [exact Hsh|].
  apply runs_bind. eapply runs_mono.
  { apply (runs_for_each _ (staking s) keys).
    - split; simpl; [apply taking_nil|done|done|by intros ?? ?%not_elem_of_nil|
        apply not_elem_of_nil|done].
    - intros dn k rest acc s1 -> Hst. by eapply stake_one_node_runs. }
  intros [ids sigs] s1 _. run_gets. by apply runs_modify.
Qed.

(** *** Unstaking *)
Definition is_active (st : NodeState) : Prop := st = NodeState.Active.
Definition deactivating (_ : NodeState) : NodeState := NodeState.PendingDeactivation.

Definition unstake_call (unstake_tokens : bool) (keys : list BLSKey) s : AsyncCall :=
  mk_AsyncCall (auction_addr (st_settings s))
    (if unstake_tokens then auction_unstake keys else auction_unstake_nodes keys)
    0 (Some (auction_unstake_callback (ids_of keys s))).

(** The keys of a call, looked up into a vector. *)
Record looked_up s0 (dn : list BLSKey) (ids : NodeIndexArrayVec) s : Prop := {
  lu_same : s = s0;
  lu_ids : ids = ids_of dn s0;
  lu_known k : k ∈ dn → get_node_id k (st_nodes s0) ≠ 0;
  lu_len : N.of_nat (length ids) ≤ MAX_NODES_PER_OPERATION;
}.

Lemma looked_up_nil s : looked_up s [] [] s.
Proof. split; try done. by intros ? ?%not_elem_of_nil. Qed.

Lemma known_node_id_ensures s0 dn k ids s :
  looked_up s0 dn ids s → ensures (known_node_id k ids) s (looked_up s0 (dn ++ [k])).
Proof.
  intros [-> Hids Hk Hl]. unfold known_node_id. apply ensures_bind, ensures_gets.
  apply ensures_bind, ensures_require. intros Hi%negb_true_iff%N.eqb_neq.
  apply push_node_ensures. intros Hlt. split.
  - done.
  - rewrite Hids. unfold ids_of. by rewrite fmap_app.
  - intros k' [?| ->%list_elem_of_singleton]%elem_of_app; auto.
  - rewrite length_app. simpl. lia.
Qed.

Lemma unstake_nodes_ensures tok keys s :
  ensures (unstake_nodes tok keys) s (λ _ s',
    st_global_op_checkpoint s = GlobalOpCheckpoint.None ∧ 0 ∉ ids_of keys s ∧
    started is_active deactivating (ids_of keys s) (unstake_call tok keys s) s s').
Proof.
  unfold unstake_nodes, no_node_op_during_reset, require_no_global_op.
  apply ensures_bind, ensures_bind, ensures_gets, ensures_require. intros Hop.
  assert (st_global_op_checkpoint s = GlobalOpCheckpoint.None) as Hnone.
  { unfold is_global_op_in_progress, is_none in Hop. by destruct (st_global_op_checkpoint s). }
  apply ensures_bind. eapply ensures_mono.
  { apply (ensures_for_each _ (looked_up s) keys); [apply looked_up_nil|].
    intros. by apply known_node_id_ensures. }
  intros ids s1 [-> Hids Hk Hl]. simpl in Hids, Hk. unfold perform_unstake_nodes.
  apply ensures_bind. eapply ensures_mono.
  { apply (ensures_for_each _ (λ dn _, taking is_active deactivating dn s) ids).
    - apply taking_nil.
    - intros dn i [] s1 Ht. apply ensures_bind, ensures_gets, ensures_bind, ensures_require.
      intros Hst%bool_decide_eq_true. apply ensures_modify.
      apply (taking_snoc is_active deactivating); [by intros ? ->|done|done]. }
  intros [] s1 Ht. simpl in Ht. apply ensures_bind, ensures_gets, ensures_modify.
  split_and!; [done| |].
  - intros (k & Heq & Hin)%list_elem_of_fmap. by destruct (Hk k Hin).
  - unfold unstake_call. rewrite (no_settings _ _ (tk_only _ _ _ _ _ Ht)), <-Hids.
    by apply taking_started.
Qed.

(** When the nodes of a call can be taken from [P]. *)
Record takeable (P : NodeState → Prop) (keys : list BLSKey) s : Prop := {
  ta_no_op : st_global_op_checkpoint s = GlobalOpCheckpoint.None;
  ta_registered : registered (ns_num_nodes (st_nodes s)) (st_nodes s);
  ta_nodup : NoDup keys;
  ta_length : N.of_nat (length keys) ≤ MAX_NODES_PER_OPERATION;
  ta_state k : k ∈ keys → get_node_id k (st_nodes s) ≠ 0 ∧
    P (state_of (get_node_id k (st_nodes s)) s);
}.

Lemma takeable_nodup P keys s : takeable P keys s → NoDup (ids_of keys s).
Proof.
  intros Ht. eapply ids_of_nodup; [by apply Ht|by apply Ht|].
  intros k Hk. by destruct (ta_state _ _ _ Ht k Hk).
Qed.

Lemma runs_no_node_op s :
  st_global_op_checkpoint s = GlobalOpCheckpoint.None →
  no_node_op_during_reset s = Ok (tt, s).
Proof.
  intros Hop. unfold no_node_op_during_reset, require_no_global_op, bind, gets.
  unfold is_global_op_in_progress. by rewrite Hop.
Qed.

Lemma unstake_nodes_runs tok keys s :
  takeable is_active keys s →
  runs (unstake_nodes tok keys) s (λ _ s',
    started is_active deactivating (ids_of keys s) (unstake_call tok keys s) s s').
Proof.
  intros Ht. eapply runs_mono;
    [apply ensures_runs; [apply unstake_nodes_ensures|]|by intros _ s' (_ & _ & ?)].
  pose proof (takeable_nodup _ _ _ Ht) as Hnd.
  destruct Ht as [Hop Hreg _ Hlen Hst]. unfold unstake_nodes.
  apply runs_bind. eapply runs_eq; [by apply runs_no_node_op|].
  apply runs_bind. eapply runs_mono.
  { apply (runs_for_each _ (looked_up s) keys); [apply looked_up_nil|].
    intros dn k rest ids s1 -> Hl. apply ensures_runs; [by apply known_node_id_ensures|].
    destruct Hl as [-> Hids _ _]. run_gets.
    destruct (Hst k) as [Hk _]; [set_solver|].
    apply runs_bind, runs_require; [by apply negb_true_iff, N.eqb_neq|].
    unfold push_node. rewrite (proj2 (N.ltb_lt _ _)); [by apply runs_ret|].
    rewrite length_app in Hlen. simpl in Hlen. rewrite Hids, length_ids_of. lia. }
  intros ids s1 [-> Hids Hk Hl]. unfold perform_unstake_nodes.
  apply runs_bind. eapply runs_mono.
  { apply (runs_for_each _ (λ dn _, taking is_active deactivating dn s) ids).
    - apply taking_nil.
    - intros dn i rest [] s1 Heq Htk.
      assert (i ∉ dn ∧ is_active (state_of i s)) as [Hi Hact].
      { rewrite <-Hids, Heq in Hnd. apply NoDup_app in Hnd as (_ & Hd & _). split.
        - intros Hin. apply (Hd i Hin). set_solver.
        - assert (i ∈ ids_of keys s) as (k & -> & Hin)%list_elem_of_fmap.
          { rewrite <-Hids, Heq. set_solver. }
          by apply Hst. }
      assert (state_of i s1 = NodeState.Active) as Hs1.
      { by rewrite (tk_after _ _ _ _ _ Htk), decide_False. }
      apply runs_bind, runs_gets, runs_bind, runs_require; [by apply bool_decide_eq_true|].
      apply runs_zoom, runs_modify.
      apply (taking_snoc is_active deactivating); [by intros ? ->|done|done]. }
  intros [] s1 _. run_gets. by apply runs_modify.
Qed.

(** *** Unbonding *)
Definition is_unbonding (st : NodeState) : Prop := ∃ started, st = NodeState.UnBondPeriod started.
Definition unbonding (st : NodeState) : NodeState :=
  match st with NodeState.UnBondPeriod started => NodeState.PendingUnBond started | _ => st end.

Lemma unbonding_moves st : is_unbonding st → ¬ is_unbonding (unbonding st).
Proof. intros [n ->] [m ?]. done. Qed.

(** Taking one node, if it is in its unbonding period. *)
Lemma prepare_spec P f dn i s0 s :
  P = is_unbonding → f = unbonding → taking P f dn s0 s →
  runs (prepare_node_for_unbond_if_possible i) s (λ b s',
    if b : bool then is_unbonding (state_of i s) ∧ taking P f (dn ++ [i]) s0 s'
    else s' = s ∧ ¬ is_unbonding (state_of i s)).
Proof.
  intros -> -> Ht. run_gets. fold (state_of i s).
  destruct (state_of i s) as [| | | | |n| |] eqn:Est;
    try (apply runs_ret; split; [done|by intros [? ?]]).
  apply runs_bind, runs_zoom, runs_modify, runs_ret. split; [by eexists|].
  replace (NodeState.PendingUnBond n) with (unbonding (state_of i s)) by (by rewrite Est).
  apply taking_snoc; [apply unbonding_moves|done|by eexists].
Qed.

Definition unbond_call (keys : list BLSKey) (ids : NodeIndexArrayVec) s : AsyncCall :=
  mk_AsyncCall (auction_addr (st_settings s)) (auction_unbond_nodes keys) 0
    (Some (auction_unbond_callback ids)).

Record unbonding_some s0 (dn : list BLSKey) (ids : NodeIndexArrayVec) s : Prop := {
  ub_taking : taking is_unbonding unbonding ids s0 s;
  ub_ids : ids = ids_of dn s0;
  ub_known k : k ∈ dn → get_node_id k (st_nodes s0) ≠ 0;
  ub_len : N.of_nat (length ids) ≤ MAX_NODES_PER_OPERATION;
}.

Lemma unbond_one_node_ensures s0 dn k ids s :
  unbonding_some s0 dn ids s →
  ensures (unbond_one_node k ids) s (unbonding_some s0 (dn ++ [k])).
Proof.
  intros [Ht Hids Hk Hl]. unfold unbond_one_node.
  apply ensures_bind, ensures_gets. rewrite (nodes_only_ids k s0 s) by apply Ht.
  apply ensures_bind, ensures_require. intros Hi%negb_true_iff%N.eqb_neq.
  apply ensures_bind. eapply ensures_mono.
  { apply runs_outcome. by apply prepare_spec. }
  intros [] s1 Hs1; (apply ensures_bind, ensures_require; intros Hb); [|done].
  destruct Hs1 as [_ Ht1]. apply push_node_ensures. intros Hlt. split.
  - done.
  - rewrite Hids. unfold ids_of. by rewrite fmap_app.
  - intros k' [?| ->%list_elem_of_singleton]%elem_of_app; auto.
  - rewrite length_app. simpl. lia.
Qed.

Lemma no_node_op_ensures {A} (m : M (State C) A) s Q :
  ensures m s Q → ensures (no_node_op_during_reset ;;; m) s (λ a s',
    st_global_op_checkpoint s = GlobalOpCheckpoint.None ∧ Q a s').
Proof.
  intros Hm. unfold no_node_op_during_reset, require_no_global_op.
  apply ensures_bind, ensures_bind, ensures_gets, ensures_require. intros Hop.
  eapply ensures_mono; [exact Hm|]. intros a s' HQ. split; [|done].
  unfold is_global_op_in_progress, is_none in Hop. by destruct (st_global_op_checkpoint s).
Qed.

Lemma unbond_specific_ensures keys s :
  ensures (unbond_specific_nodes_endpoint keys) s (λ _ s',
    st_global_op_checkpoint s = GlobalOpCheckpoint.None ∧ 0 ∉ ids_of keys s ∧
    started is_unbonding unbonding (ids_of keys s) (unbond_call keys (ids_of keys s) s) s s').
Proof.
  unfold unbond_specific_nodes_endpoint. apply owner_only_ensures. intros _.
  apply no_node_op_ensures.
  apply ensures_bind, ensures_require. intros _.
  apply ensures_bind. eapply ensures_mono.
  { apply (ensures_for_each _ (unbonding_some s) keys).
    - split; [apply taking_nil|done|by intros ? ?%not_elem_of_nil|done].
    - intros. by apply unbond_one_node_ensures. }
  intros ids s1 [Ht Hids Hk Hl]. simpl in Hids, Hk.
  apply ensures_bind, ensures_gets, ensures_modify. split.
  - intros (k & Heq & Hin)%list_elem_of_fmap. by destruct (Hk k Hin).
  - unfold unbond_call. rewrite (no_settings _ _ (tk_only _ _ _ _ _ Ht)), <-Hids.
    by apply taking_started.
Qed.

Lemma unbond_specific_runs keys s :
  get_caller (st_chain s) = get_owner_address (st_chain s) → keys ≠ [] →
  takeable is_unbonding keys s →
  runs (unbond_specific_nodes_endpoint keys) s (λ _ s',
    started is_unbonding unbonding (ids_of keys s) (unbond_call keys (ids_of keys s) s) s s').
Proof.
  intros Ho Hne Ht. eapply runs_mono;
    [apply ensures_runs; [apply unbond_specific_ensures|]|by intros _ s' (_ & _ & ?)].
  pose proof (takeable_nodup _ _ _ Ht) as Hnd. destruct Ht as [Hop Hreg _ Hlen Hst].
  apply owner_only_runs; [done|].
  apply runs_bind. eapply runs_eq; [by apply runs_no_node_op|].
  apply runs_bind, runs_require; [by rewrite bool_decide_false|].
  apply runs_bind. eapply runs_mono.
  { apply (runs_for_each _ (unbonding_some s) keys).
    - split; [apply taking_nil|done|by intros ? ?%not_elem_of_nil|done].
    - intros dn k rest ids s1 -> Hub. apply ensures_runs; [by apply unbond_one_node_ensures|].
      destruct Hub as [Htk Hids _ _]. destruct (Hst k) as [Hk Hun]; [set_solver|].
      run_gets. rewrite (nodes_only_ids k s s1) by apply Htk.
      apply runs_bind, runs_require; [by apply negb_true_iff, N.eqb_neq|].
      apply runs_bind. eapply runs_mono; [by apply prepare_spec|].
      intros [] s2 Hs2.
      + apply runs_bind, runs_require; [done|]. unfold push_node.
        rewrite (proj2 (N.ltb_lt _ _)); [by apply runs_ret|].
        rewrite length_app in Hlen. simpl in Hlen. rewrite Hids, length_ids_of. lia.
      + destruct Hs2 as [_ []]. rewrite (tk_after _ _ _ _ _ Htk), decide_False; [done|].
        rewrite Hids. unfold ids_of in Hnd. rewrite fmap_app, fmap_cons in Hnd.
        apply NoDup_app in Hnd as (_ & Hd & _). intros Hin.
        apply (Hd _ Hin). set_solver. }
  intros ids s1 _. run_gets. by apply runs_modify.
Qed.

(** The descending scan over all ids. *)
Record scanning s0 (dn : list N) (acc : NodeIndexArrayVec * list BLSKey) s : Prop := {
  sn_taking : taking is_unbonding unbonding (fst acc) s0 s;
  sn_ids i : i ∈ fst acc ↔ i ∈ dn ∧ is_unbonding (state_of i s0);
  sn_keys : (λ i, ns_node_id_to_bls (st_nodes s0) !! i) <$> fst acc = Some <$> snd acc;
  sn_len : N.of_nat (length (fst acc)) ≤ MAX_NODES_PER_OPERATION;
  sn_nil : fst acc = [] → s = s0;
}.

Lemma scanning_nil s : scanning s [] ([], []) s.
Proof. split; [apply taking_nil| |done|done|done]. intros i. simpl. set_solver. Qed.

Lemma scan_ensures s0 dn i acc s :
  i ∉ dn → scanning s0 dn acc s →
  ensures (unbond_if_possible i acc) s (scanning s0 (dn ++ [i])).
Proof.
  intros Hi [Ht Hids Hkeys Hl Hnil]. destruct acc as [ids keys]. simpl in *.
  assert (state_of i s = state_of i s0) as Es.
  { rewrite (tk_after _ _ _ _ _ Ht), decide_False; [done|]. intros [? _]%Hids. done. }
  apply ensures_bind. eapply ensures_mono; [apply runs_outcome; by apply prepare_spec|].
  rewrite Es. intros [] s1 Hs1.
  - destruct Hs1 as [Hun Ht1]. apply ensures_bind, push_node_ensures. intros Hlt.
    apply ensures_bind. unfold ensures, outcome at 1, zoom, get_node_id_to_bls.
    change (lens_get s1) with (st_nodes s1).
    rewrite (sr_bls _ _ (tk_registry _ _ _ _ _ Ht1)).
    destruct (ns_node_id_to_bls (st_nodes s0) !! i) as [k|] eqn:Hk; [|done].
    replace (lens_set (st_nodes s1) s1) with s1 by (by destruct s1).
    apply ensures_ret. split; simpl.
    + done.
    + intros j. rewrite !elem_of_app, !list_elem_of_singleton, Hids. naive_solver.
    + by rewrite !fmap_app, Hkeys; simpl; rewrite Hk.
    + rewrite length_app. simpl. lia.
    + by intros ?%app_eq_nil%proj2.
  - destruct Hs1 as [-> Hun]. apply ensures_ret. split; simpl; try done.
    intros j. rewrite elem_of_app, list_elem_of_singleton, Hids. naive_solver.
Qed.

Lemma nodup_descending s : NoDup (reverse (ids_up_to (ns_num_nodes (st_nodes s)))).
Proof. rewrite reverse_Permutation. apply nodup_ids_up_to. Qed.

Lemma unbond_all_ensures s :
  ensures unbond_all_possible_nodes s (λ _ s',
    st_global_op_checkpoint s = GlobalOpCheckpoint.None ∧
    ∃ ids keys,
      (∀ i, i ∈ ids ↔ 1 ≤ i ≤ ns_num_nodes (st_nodes s) ∧ is_unbonding (state_of i s)) ∧
      (λ i, ns_node_id_to_bls (st_nodes s) !! i) <$> ids = Some <$> keys ∧
      if decide (ids = []) then s' = s
      else started is_unbonding unbonding ids (unbond_call keys ids s) s s').
Proof.
  unfold unbond_all_possible_nodes. apply owner_only_ensures. intros _.
  apply no_node_op_ensures.
  apply ensures_bind, ensures_gets, ensures_bind. eapply ensures_mono.
  { apply (ensures_for_each_split _ (scanning s)); [apply scanning_nil|].
    intros dn i rest acc s1 Heq Hs1. apply scan_ensures; [|done].
    pose proof (nodup_descending s) as Hnd. rewrite Heq in Hnd. apply NoDup_app in Hnd as (_ & Hd & _).
    intros Hin. apply (Hd i Hin). set_solver. }
  intros [ids keys] s1 [Ht Hids Hkeys Hl Hnl]. simpl in *.
  assert (∀ Q : unit → State C → Prop, ensures (match ids with
    | [] => ret tt | _ => perform_unbond ids keys end) s1 Q ↔
    if decide (ids = []) then Q tt s1 else
      Q tt (set_chain (call_and_exit (unbond_call keys ids s1) (st_chain s1)) s1)) as ->.
  { intros Q. by destruct ids. }
  assert (∀ i, i ∈ ids ↔ 1 ≤ i ≤ ns_num_nodes (st_nodes s) ∧ is_unbonding (state_of i s))
    as Hspec.
  { intros i. by rewrite Hids, elem_of_reverse, elem_of_ids_up_to. }
  case_decide as Hnil.
  - exists ids, keys. split_and!; [done|done|]. rewrite decide_True by done. auto.
  - exists ids, keys. split_and!; [done|done|]. rewrite decide_False by done.
    unfold unbond_call at 2. rewrite (no_settings _ _ (tk_only _ _ _ _ _ Ht)).
    by apply taking_started.
Qed.

(** The nodes in their unbonding period, from the last registered on. *)
Definition unbonding_nodes s : list N :=
  filter (λ i, bool_decide (unbonding (state_of i s) ≠ state_of i s))
    (reverse (ids_up_to (ns_num_nodes (st_nodes s)))).

Lemma unbonding_nodes_spec i s :
  i ∈ unbonding_nodes s ↔ 1 ≤ i ≤ ns_num_nodes (st_nodes s) ∧ is_unbonding (state_of i s).
Proof.
  unfold unbonding_nodes. rewrite list_elem_of_filter, elem_of_reverse, elem_of_ids_up_to.
  assert (bool_decide (unbonding (state_of i s) ≠ state_of i s) ↔ is_unbonding (state_of i s)) as ->;
    [|tauto].
  rewrite bool_decide_spec. destruct (state_of i s); simpl; split;
    try done; try (by intros [? ?]); by eexists.
Qed.

Lemma unbond_all_runs s :
  get_caller (st_chain s) = get_owner_address (st_chain s) →
  st_global_op_checkpoint s = GlobalOpCheckpoint.None →
  registered (ns_num_nodes (st_nodes s)) (st_nodes s) →
  N.of_nat (length (unbonding_nodes s)) ≤ MAX_NODES_PER_OPERATION →
  runs unbond_all_possible_nodes s (λ _ _, True).
Proof.
  intros Ho Hop Hreg Hlen. apply owner_only_runs; [done|].
  apply runs_bind. eapply runs_eq; [by apply runs_no_node_op|].
  apply runs_bind, runs_gets, runs_bind. eapply runs_mono.
  { apply (runs_for_each _ (scanning s)); [apply scanning_nil|].
    intros dn i rest acc s1 Heq Hs1. pose proof (nodup_descending s) as Hnd.
    rewrite Heq in Hnd. pose proof Hnd as Hnd'. apply NoDup_app in Hnd as (_ & Hd & _).
    assert (i ∉ dn) as Hi by (intros Hin; apply (Hd i Hin); set_solver).
    apply ensures_runs; [by apply scan_ensures|].
    destruct Hs1 as [Ht Hids _ _ _], acc as [ids keys]. simpl in *.
    assert (state_of i s1 = state_of i s) as Es.
    { rewrite (tk_after _ _ _ _ _ Ht), decide_False; [done|]. intros [? _]%Hids. done. }
    assert (∀ j, j ∈ dn ++ i :: rest → 1 ≤ j ≤ ns_num_nodes (st_nodes s)) as Hrange.
    { intros j. by rewrite <-Heq, elem_of_reverse, elem_of_ids_up_to. }
    apply runs_bind. eapply runs_mono; [by apply prepare_spec|].
    intros [] s2 Hs2; [|by apply runs_ret]. destruct Hs2 as [Hun Ht2]. rewrite Es in Hun.
    assert (length (ids ++ [i]) <= length (unbonding_nodes s))%nat as Hle.
    { apply submseteq_length, NoDup_submseteq; [by apply Ht2|]. intros j Hj.
      apply unbonding_nodes_spec.
      apply elem_of_app in Hj as [[? ?]%Hids| ->%list_elem_of_singleton];
        (split; [apply Hrange; set_solver|done]). }
    rewrite length_app in Hle. simpl in Hle.
    apply runs_bind. unfold push_node. rewrite (proj2 (N.ltb_lt _ _)) by lia.
    apply runs_ret, runs_bind, runs_zoom. change (lens_get s2) with (st_nodes s2).
    destruct (reg_id _ _ Hreg i) as (k & Hk & _); [apply Hrange; set_solver|].
    unfold get_node_id_to_bls. eapply runs_eq.
    { by rewrite (sr_bls _ _ (tk_registry _ _ _ _ _ Ht2)), Hk. }
    by apply runs_ret. }
  intros [ids keys] s1 _. destruct ids; [by apply runs_ret|].
  run_gets. by apply runs_modify.
Qed.

(** *** The callbacks *)
Definition callback_ids (cb : Callback) : NodeIndexArrayVec :=
  match cb with
  | auction_stake_callback ids | auction_unstake_callback ids | auction_unbond_callback ids => ids
  end.

(** The state in which a call has left its nodes. *)
Definition awaited (cb : Callback) (st : NodeState) : Prop :=
  match cb with
  | auction_stake_callback _ => st = NodeState.PendingActivation
  | auction_unstake_callback _ => st = NodeState.PendingDeactivation
  | auction_unbond_callback _ => pending_unbond st
  end.

(** Where the callback takes the nodes of a success and of a failure. *)
Definition on_success (cb : Callback) (nonce : N) : NodeState :=
  match cb with
  | auction_stake_callback _ => NodeState.Active
  | auction_unstake_callback _ => NodeState.UnBondPeriod nonce
  | auction_unbond_callback _ => NodeState.Inactive
  end.
Definition on_failure (cb : Callback) (st : NodeState) : NodeState :=
  match cb with
  | auction_stake_callback _ => NodeState.Inactive
  | auction_unstake_callback _ => NodeState.Active
  | auction_unbond_callback _ => unbond_undone st
  end.

Definition node_failed (ns : NodeStore) (res : CallResult) (i : N) : Prop :=
  match res with CallOk args => failed_in ns args i | CallErr _ => True end.

Lemma failed_dec ns res i : Decision (node_failed ns res i).
Proof. destruct res; [apply failed_in_dec|by left]. Qed.

Record callback_done (cb : Callback) (res : CallResult) s s' : Prop := {
  cd_only : nodes_only s s';
  cd_others j : j ∉ callback_ids cb → state_of j s' = state_of j s;
  cd_failed j : j ∈ callback_ids cb → node_failed (st_nodes s) res j →
    state_of j s' = on_failure cb (state_of j s);
  cd_ok j : j ∈ callback_ids cb → ¬ node_failed (st_nodes s) res j →
    state_of j s' = on_success cb (get_block_nonce (st_chain s));
}.

(** Settling with a state for the successes and a step for the failures. *)
Lemma settle_split_spec ids args st_ok e_ok (fail : NodeIndexArrayVec → M (State C) unit) f s :
  NoDup ids → N.of_nat (length ids) ≤ MAX_NODES_PER_OPERATION →
  (∀ ids' s1, ids' ⊆ ids → NoDup ids' → (∀ j, j ∈ ids' → state_of j s1 = state_of j s) →
     runs (fail ids') s1 (λ _ s', nodes_only s1 s' ∧
       ∀ j, state_of j s' = if decide (j ∈ ids') then f (state_of j s1) else state_of j s1)) →
  runs (let! '(node_ids_ok, node_ids_fail) := zoom (split_node_ids_by_err ids args) in
        settle_states node_ids_ok st_ok e_ok ;;; fail node_ids_fail) s
    (λ _ s', nodes_only s s' ∧
      (∀ j, j ∉ ids → state_of j s' = state_of j s) ∧
      (∀ j, j ∈ ids → failed_in (st_nodes s) args j → state_of j s' = f (state_of j s)) ∧
      (∀ j, j ∈ ids → ¬ failed_in (st_nodes s) args j → state_of j s' = st_ok)).
Proof.
  intros Hnd Hlen Hfail.
  destruct (split_node_ids_spec (st_nodes s) ids args Hnd Hlen) as (a & b & Heq & Hp & Hb).
  assert (∀ j, j ∈ ids ↔ j ∈ a ∨ j ∈ b) as Hin.
  { intros j. rewrite <-Hp. apply elem_of_app. }
  rewrite <-Hp in Hnd. apply NoDup_app in Hnd as (_ & Hdisj & Hndb).
  apply runs_bind, runs_zoom. eapply runs_eq; [exact Heq|].
  replace (lens_set (st_nodes s) s) with s by (by destruct s).
  apply runs_bind. eapply runs_mono; [apply settle_states_spec|]. intros _ s1 [Hn1 Hs1].
  assert (∀ j, j ∈ b → state_of j s1 = state_of j s) as Hs1b.
  { intros j Hj. rewrite Hs1, decide_False; [done|]. intros Ha. by apply (Hdisj j). }
  eapply runs_mono; [apply Hfail; [|done|done]|].
  { intros j Hj. apply Hin. by right. }
  intros _ s2 [Hn2 Hs2]. split; [by eapply nodes_only_trans|].
  split_and!; intros j Hj.
  - rewrite Hs2, Hs1, !decide_False by (rewrite Hin in Hj; tauto). done.
  - intros Hf. assert (j ∈ b) by (by apply Hb). rewrite Hs2, decide_True by done.
    by rewrite Hs1b.
  - intros Hf. rewrite Hs2, decide_False by (intros [_ ?]%Hb; done).
    rewrite Hs1, decide_True; [done|]. apply Hin in Hj as [?|[_ ?]%Hb]; done.
Qed.

Lemma fail_to_spec st e ids' s1 :
  runs (settle_states ids' st e) s1 (λ _ s', nodes_only s1 s' ∧
    ∀ j, state_of j s' = if decide (j ∈ ids') then (λ _, st) (state_of j s1) else state_of j s1).
Proof. apply (settle_states_spec ids' st e s1). Qed.

Lemma run_callback_spec cb res s :
  NoDup (callback_ids cb) →
  N.of_nat (length (callback_ids cb)) ≤ MAX_NODES_PER_OPERATION →
  (∀ j, j ∈ callback_ids cb → awaited cb (state_of j s)) →
  runs (run_callback cb res) s (λ _ s', callback_done cb res s s').
Proof.
  intros Hnd Hlen Hwait.
  assert (∀ s' st_ok f,
    st_ok = on_success cb (get_block_nonce (st_chain s)) → f = on_failure cb →
    (nodes_only s s' ∧ (∀ j, j ∉ callback_ids cb → state_of j s' = state_of j s) ∧
     (∀ j, j ∈ callback_ids cb → node_failed (st_nodes s) res j → state_of j s' = f (state_of j s)) ∧
     (∀ j, j ∈ callback_ids cb → ¬ node_failed (st_nodes s) res j → state_of j s' = st_ok)) →
    callback_done cb res s s') as Hmk.
  { intros s' st_ok f -> -> (? & ? & ? & ?). by split. }
  assert (∀ m : M (State C) unit, (runs m s (λ _ s', nodes_only s s' ∧ ∀ j, state_of j s' =
      if decide (j ∈ callback_ids cb) then on_failure cb (state_of j s) else state_of j s)) →
    ∀ msg, res = CallErr msg → runs m s (λ _ s', callback_done cb res s s')) as Herr.
  { intros m Hm msg ->. eapply runs_mono; [apply Hm|]. intros _ s' [Hn Hs].
    split; [done|..]; intros j Hj; rewrite Hs, ?decide_False, ?decide_True by done; done. }
  destruct cb as [ids|ids|ids], res as [args|msg]; simpl in Hnd, Hlen, Hwait; simpl.
  - eapply runs_mono.
    { apply (settle_split_spec ids args NodeState.Active stake_node_ok_event
        (λ l, settle_states l NodeState.Inactive
           (stake_node_fail_event "staking failed for some nodes")) (λ _, NodeState.Inactive));
        [done|done|]. intros. apply fail_to_spec. }
    intros [] s' Hs'. by apply (Hmk s' NodeState.Active (λ _, NodeState.Inactive)).
  - eapply Herr; [|done]. apply (settle_states_spec ids NodeState.Inactive (stake_node_fail_event msg)).
  - eapply runs_eq_fun; [by apply unstake_callback_eq|]. eapply runs_mono.
    { apply (settle_split_spec ids args (NodeState.UnBondPeriod (get_block_nonce (st_chain s)))
        unstake_node_ok_event (λ l, settle_states l NodeState.Active
           (unstake_node_fail_event "unstaking failed for some nodes")) (λ _, NodeState.Active));
        [done|done|]. intros. apply fail_to_spec. }
    intros [] s' Hs'. 
    by apply (Hmk s' (NodeState.UnBondPeriod (get_block_nonce (st_chain s))) (λ _, NodeState.Active)).
  - eapply Herr; [|done]. apply (settle_states_spec ids NodeState.Active (unstake_node_fail_event msg)).
  - eapply runs_mono.
    { apply (settle_split_spec ids args NodeState.Inactive unbond_node_ok_event
        (λ l, auction_unbond_callback_fail l "unbonding failed for some nodes") unbond_undone);
        [done|done|].
      intros ids' s1 Hsub Hnd' Hs1. apply unbond_fail_spec; [done|].
      intros j Hj. rewrite Hs1 by done. by apply Hwait, Hsub. }
    intros [] s' Hs'. by apply (Hmk s' NodeState.Inactive unbond_undone).
  - eapply Herr; [|done]. by apply unbond_fail_spec.
Qed.
End NodeCalls.
