(* ===== verification/NodeProtocol.v ===== *)
(** * The contract and the auction, asynchronously

    The node endpoints leave with a call to the auction; the callback arrives in
    a later transaction, and other calls may come in between, in any order.  The
    system is a step relation on the contract's state and the callbacks under
    way; its invariant makes every callback succeed. *)
From stdpp Require Import base numbers list gmap strings.
From S2P Require Import Prelude FundTypes FundModule UserData NodeConfig Settings Chain State.
From S2P Require Import FundTransf FundView Rewards UserStake NodeActivation Contract NodeSpec.
From S2P Require Import NodeCalls.

(** ** The system *)

(** The node endpoints, except [forceNodeUnBondPeriod]. *)
Inductive NodeOp : Set :=
| AddNodes (bls_keys_signatures : list (BLSKey * BLSSignature))
| RemoveNodes (bls_keys : list BLSKey)
| StakeNodes (amount : N) (bls_keys : list BLSKey)
| UnStakeNodes (bls_keys : list BLSKey)
| UnStakeNodesAndTokens (bls_keys : list BLSKey)
| UnBondSpecificNodes (bls_keys : list BLSKey)
| UnBondAllPossibleNodes
| ClaimUnusedFunds
| UnJailNodes (bls_keys : list BLSKey) (fine_payment : N)
| UnStakeTokens (amount : N)
| UnBondTokens (amount : N).

Definition run_node_op {C} `{Chain C} (op : NodeOp) : M (State C) unit :=
  match op with
  | AddNodes args => add_nodes_endpoint args
  | RemoveNodes keys => remove_nodes_endpoint keys
  | StakeNodes amount keys => stake_nodes amount keys
  | UnStakeNodes keys => unstake_nodes_endpoint keys
  | UnStakeNodesAndTokens keys => unstake_nodes_and_tokens_endpoint keys
  | UnBondSpecificNodes keys => unbond_specific_nodes_endpoint keys
  | UnBondAllPossibleNodes => unbond_all_possible_nodes
  | ClaimUnusedFunds => claim_unused_funds
  | UnJailNodes keys fine_payment => unjail_nodes keys fine_payment
  | UnStakeTokens amount => unstake_tokens amount
  | UnBondTokens amount => unbond_tokens amount
  end.

(** Node ids stay below the width of an index. *)
Definition op_fits {C} (op : NodeOp) (s : State C) : Prop :=
  match op with
  | AddNodes args => ns_num_nodes (st_nodes s) + N.of_nat (length args) < usize_max_plus_1
  | _ => True
  end.

Section System.
Context {C : Type} `{CallLog C}.

(** The callbacks of the calls that a transaction issued. *)
Definition new_callbacks (s s' : State C) : list Callback :=
  omap ac_callback (drop (length (calls_of (st_chain s))) (calls_of (st_chain s'))).

Inductive node_step : State C * list Callback → State C * list Callback → Prop :=
| step_endpoint op s s' p :
    op_fits op s → run_node_op op s = Ok (tt, s') →
    node_step (s, p) (s', p ++ new_callbacks s s')
| step_callback cb res s s' p1 p2 :
    run_callback cb res s = Ok (tt, s') →
    node_step (s, p1 ++ cb :: p2) (s', p1 ++ p2)
| step_elsewhere s s' p :
    st_nodes s' = st_nodes s → node_step (s, p) (s', p).

End System.

(** ** The invariant *)
Definition is_pending (st : NodeState) : Prop :=
  match st with
  | NodeState.PendingActivation | NodeState.PendingDeactivation | NodeState.PendingUnBond _ => True
  | _ => False
  end.

Section InFlight.
Context {C : Type}.
Implicit Type s : State C.

Record in_flight (sp : State C * list Callback) : Prop := {
  if_registered : registered (ns_num_nodes (st_nodes (fst sp))) (st_nodes (fst sp));
  if_nodup : NoDup (concat (callback_ids <$> snd sp));
  if_len cb : cb ∈ snd sp → N.of_nat (length (callback_ids cb)) ≤ MAX_NODES_PER_OPERATION;
  if_awaited cb i : cb ∈ snd sp → i ∈ callback_ids cb → awaited cb (state_of i (fst sp));
  if_pending i : is_pending (state_of i (fst sp)) → ∃ cb, cb ∈ snd sp ∧ i ∈ callback_ids cb;
  if_known i : is_pending (state_of i (fst sp)) → 1 ≤ i ≤ ns_num_nodes (st_nodes (fst sp));
}.

Lemma awaited_pending cb st : awaited cb st → is_pending st.
Proof. destruct cb; simpl; [by intros ->..|by intros [? ->]]. Qed.

Lemma elem_of_flying i (p : list Callback) :
  i ∈ concat (callback_ids <$> p) ↔ ∃ cb, cb ∈ p ∧ i ∈ callback_ids cb.
Proof.
  rewrite list_elem_of_In, in_concat. setoid_rewrite <-list_elem_of_In. split.
  - intros (l & (cb & -> & Hcb)%list_elem_of_fmap & Hi). by exists cb.
  - intros (cb & Hcb & Hi). exists (callback_ids cb). split; [|done].
    by apply list_elem_of_fmap_2.
Qed.

(** Steps that move no node to or from a pending state. *)
Lemma in_flight_quiet s s' p :
  in_flight (s, p) → registered (ns_num_nodes (st_nodes s')) (st_nodes s') →
  ns_num_nodes (st_nodes s) ≤ ns_num_nodes (st_nodes s') →
  (∀ i, is_pending (state_of i s') → is_pending (state_of i s)) →
  (∀ i, is_pending (state_of i s) → state_of i s' = state_of i s) →
  in_flight (s', p).
Proof.
  intros [Hr Hnd Hl Ha Hp Hk] Hr' Hn Hto Hfrom. simpl in *. split; simpl; auto.
  - intros cb i Hcb Hi. pose proof (Ha cb i Hcb Hi) as Hw.
    by rewrite (Hfrom i (awaited_pending _ _ Hw)).
  - intros i Hi%Hto. specialize (Hk i Hi). lia.
Qed.

Lemma in_flight_elsewhere s s' p :
  in_flight (s, p) → st_nodes s' = st_nodes s → in_flight (s', p).
Proof.
  intros [] Hn. unfold state_of in *. simpl in *.
  by split; simpl; unfold state_of; rewrite ?Hn.
Qed.

(** A contract with no registered node. *)
Lemma in_flight_initial c : in_flight (initial_State c, []).
Proof.
  split; simpl; try done.
  - split; [intros k Hk; by destruct Hk|intros i Hi; simpl in Hi; lia..].
  - apply NoDup_nil_2.
  - by intros ? ?%not_elem_of_nil.
  - by intros ? ? ?%not_elem_of_nil.
Qed.
End InFlight.

(** Steps that take nodes for a call. *)
Section Steps.
Context {C : Type} `{ChainLaws C}.
Implicit Type s : State C.

Lemma in_flight_started P f cb call s s' p :
  in_flight (s, p) →
  (∀ st, P st → awaited cb (f st) ∧ ¬ is_pending st) →
  (∀ i, i ∈ callback_ids cb → 1 ≤ i ≤ ns_num_nodes (st_nodes s)) →
  started P f (callback_ids cb) call s s' → in_flight (s', p ++ [cb]).
Proof.
  intros [Hr Hnd Hl Ha Hp Hk] HP Hids Hst. simpl in *.
  assert (∀ cb' i, cb' ∈ p → i ∈ callback_ids cb' → i ∉ callback_ids cb) as Hdisj.
  { intros cb' i Hcb Hi Hin. pose proof (Ha cb' i Hcb Hi) as Hw%awaited_pending.
    by apply (HP _ (sd_before _ _ _ _ _ _ Hst i Hin)). }
  assert (∀ i, i ∈ callback_ids cb → awaited cb (state_of i s')) as Hnew.
  { intros i Hi. rewrite (sd_after _ _ _ _ _ _ Hst), decide_True by done.
    by apply HP, (sd_before _ _ _ _ _ _ Hst). }
  assert (∀ i, i ∉ callback_ids cb → state_of i s' = state_of i s) as Hold.
  { intros i Hi. by rewrite (sd_after _ _ _ _ _ _ Hst), decide_False. }
  pose proof (sd_registry _ _ _ _ _ _ Hst) as Hreg. split; simpl.
  - rewrite (sr_num _ _ Hreg). by apply (same_registry_registered _ (st_nodes s)).
  - rewrite fmap_app, concat_app. simpl. rewrite app_nil_r. apply NoDup_app. split_and!.
    + done.
    + intros i (cb' & Hcb & Hi)%elem_of_flying. by apply (Hdisj cb').
    + by apply Hst.
  - intros cb' [?| ->%list_elem_of_singleton]%elem_of_app; [auto|by apply Hst].
  - intros cb' i [Hcb| ->%list_elem_of_singleton]%elem_of_app Hi; [|auto].
    rewrite Hold by (by apply (Hdisj cb')). auto.
  - intros i Hi. destruct (decide (i ∈ callback_ids cb)) as [Hin|Hin].
    + exists cb. set_solver.
    + rewrite Hold in Hi by done. destruct (Hp i Hi) as (cb' & ? & ?).
      exists cb'. set_solver.
  - intros i Hi. rewrite (sr_num _ _ Hreg).
    destruct (decide (i ∈ callback_ids cb)) as [Hin|Hin]; [auto|].
    rewrite Hold in Hi by done. auto.
Qed.

(** The callbacks. *)
Lemma in_flight_members cb s p1 p2 :
  in_flight (s, p1 ++ cb :: p2) →
  NoDup (callback_ids cb) ∧ N.of_nat (length (callback_ids cb)) ≤ MAX_NODES_PER_OPERATION ∧
  (∀ j, j ∈ callback_ids cb → awaited cb (state_of j s)) ∧
  (∀ cb' j, cb' ∈ p1 ++ p2 → j ∈ callback_ids cb' → j ∉ callback_ids cb) ∧
  NoDup (concat (callback_ids <$> p1 ++ p2)).
Proof.
  intros [Hr Hnd Hl Ha Hp Hk]. simpl in *.
  rewrite fmap_app, fmap_cons, concat_app in Hnd. simpl in Hnd.
  rewrite Permutation_app_swap_app in Hnd.
  apply NoDup_app in Hnd as (Hndc & Hd & Hnd). split_and!.
  - done.
  - apply Hl. set_solver.
  - intros j Hj. apply (Ha cb); [set_solver|done].
  - intros cb' j Hcb Hj Hin. apply (Hd j Hin).
    rewrite <-concat_app, <-fmap_app. apply elem_of_flying. by exists cb'.
  - by rewrite fmap_app, concat_app.
Qed.

Lemma settled_not_pending cb nonce st :
  awaited cb st → ¬ is_pending (on_success cb nonce) ∧ ¬ is_pending (on_failure cb st).
Proof. destruct cb; simpl; [tauto..|]. intros [n ->]. simpl. tauto. Qed.

Lemma in_flight_done cb res s s' p1 p2 :
  in_flight (s, p1 ++ cb :: p2) → callback_done cb res s s' → in_flight (s', p1 ++ p2).
Proof.
  intros Hf Hd. pose proof (in_flight_members _ _ _ _ Hf) as (_ & _ & Hw & Hdisj & Hnd).
  destruct Hf as [Hr _ Hl Ha Hp Hk]. simpl in *.
  pose proof (nodes_only_registry _ _ (cd_only _ _ _ _ Hd)) as Hreg.
  assert (∀ i, is_pending (state_of i s') → i ∉ callback_ids cb ∧ state_of i s' = state_of i s)
    as Hpend.
  { intros i Hi. destruct (decide (i ∈ callback_ids cb)) as [Hin|Hin].
    2: { split; [done|]. by apply (cd_others _ _ _ _ Hd). }
    destruct (settled_not_pending cb (get_block_nonce (st_chain s)) _ (Hw i Hin)) as [Hs Hu].
    exfalso. destruct (failed_dec (st_nodes s) res i) as [Hfa|Hfa].
    - by rewrite (cd_failed _ _ _ _ Hd) in Hi.
    - by rewrite (cd_ok _ _ _ _ Hd) in Hi. }
  split; simpl.
  - rewrite (sr_num _ _ Hreg). by apply (same_registry_registered _ (st_nodes s)).
  - done.
  - intros cb' Hcb. apply Hl. set_solver.
  - intros cb' i Hcb Hi. rewrite (cd_others _ _ _ _ Hd) by (by apply (Hdisj cb')).
    apply Ha; [set_solver|done].
  - intros i Hi. destruct (Hpend i Hi) as [Hin Heq]. rewrite Heq in Hi.
    destruct (Hp i Hi) as (cb' & Hcb & Hi'). exists cb'. split; [|done].
    assert (cb' ≠ cb) by (by intros ->). set_solver.
  - intros i Hi. destruct (Hpend i Hi) as [Hin Heq]. rewrite Heq in Hi.
    rewrite (sr_num _ _ Hreg). auto.
Qed.

End Steps.

(** ** Every step keeps the invariant *)

(** Registering keys moves no node but removed ones and new ones. *)
Record undisturbed (ns ns' : NodeStore) : Prop := {
  un_state j : get_node_state j ns' = get_node_state j ns ∨
    get_node_state j ns' = NodeState.Inactive ∧
    (get_node_state j ns = NodeState.Removed ∨ ns_num_nodes ns < j);
}.

Lemma undisturbed_put ns ns' i :
  undisturbed ns ns' → get_node_state i ns' = NodeState.Removed ∨ ns_num_nodes ns < i →
  ∀ ns2, (∀ j, get_node_state j ns2 = if decide (i = j) then NodeState.Inactive
            else get_node_state j ns') → undisturbed ns ns2.
Proof.
  intros [Hu] Hi ns2 Hs2. split. intros j. rewrite Hs2. case_decide as Hij; [|apply Hu].
  subst j. right. split; [done|]. destruct Hi as [Hi|]; [|by right]. left.
  destruct (Hu i) as [<-|[Hin _]]; [done|congruence].
Qed.

Lemma add_node_undisturbed ns dn arg n ns' :
  ns_num_nodes ns + N.of_nat (length dn) + 1 < usize_max_plus_1 →
  adding ns dn n ns' → undisturbed ns ns' →
  ensures (add_node arg n) ns' (λ _, undisturbed ns).
Proof.
  intros Hmax Ha Hu. destruct arg as [k sig]. apply ensures_bind, ensures_gets.
  pose proof (ad_ge _ _ _ _ Ha). pose proof (ad_num _ _ _ _ Ha).
  destruct (get_node_id k ns' =? 0).
  - assert (usize_add n 1 = n + 1) as -> by (apply N.mod_small; lia).
    do 4 apply ensures_bind, ensures_modify. apply ensures_ret.
    apply (undisturbed_put ns ns' (n + 1)); [done|right; lia|].
    apply (with_new_node_spec (n + 1) k sig ns').
  - apply ensures_bind, ensures_gets. case_decide as Hrem; [|done].
    do 2 apply ensures_bind, ensures_modify. apply ensures_ret.
    apply (undisturbed_put ns ns' (get_node_id k ns')); [done|by left|].
    intros j. apply get_node_state_set.
Qed.

Lemma add_nodes_ensures args ns :
  registered (ns_num_nodes ns) ns →
  ns_num_nodes ns + N.of_nat (length args) < usize_max_plus_1 →
  ensures (add_nodes args) ns (λ _ ns', registered (ns_num_nodes ns') ns' ∧
    ns_num_nodes ns ≤ ns_num_nodes ns' ∧ undisturbed ns ns').
Proof.
  intros Hreg Hmax. apply ensures_bind, ensures_gets, ensures_bind.
  eapply ensures_mono.
  { apply (ensures_for_each_split _ (λ dn n ns', adding ns dn n ns' ∧ undisturbed ns ns')).
    - split; [|split; by left].
      split; try done; [lia|by intros ?? ?%not_elem_of_nil].
    - intros dn arg rest n ns' -> [Ha Hu]. rewrite length_app in Hmax. simpl in Hmax.
      apply ensures_and; [apply add_node_ensures; [lia|done]|].
      eapply add_node_undisturbed; [|done|done]. lia. }
  intros n ns' [Ha [Hu]]. apply ensures_modify. split_and!.
  - by eapply adding_registered.
  - simpl. by destruct Ha.
  - by split.
Qed.

Lemma remove_nodes_ensures keys ns :
  ensures (remove_nodes keys) ns (λ _ ns', same_registry ns ns' ∧
    ∀ j, get_node_state j ns' = get_node_state j ns ∨
      get_node_state j ns = NodeState.Inactive ∧ get_node_state j ns' = NodeState.Removed).
Proof.
  apply (ensures_for_each remove_node (λ _ _ ns', same_registry ns ns' ∧
    ∀ j, get_node_state j ns' = get_node_state j ns ∨
      get_node_state j ns = NodeState.Inactive ∧ get_node_state j ns' = NodeState.Removed)).
  - split; [done|by left].
  - intros _ k [] ns' [Hr Hs]. apply ensures_bind, ensures_gets.
    apply ensures_bind, ensures_require. intros _.
    apply ensures_bind, ensures_gets, ensures_bind, ensures_require.
    intros Hin%bool_decide_eq_true. apply ensures_modify. split; [by destruct Hr|].
    intros j. rewrite get_node_state_set. case_decide as Hj; [|apply Hs]. subst j. right.
    split; [|done]. destruct (Hs (get_node_id k ns')) as [<-|[_ ?]]; congruence.
Qed.

Section Preserved.
Context {C : Type} `{!Chain C, !ChainLaws C, !CallLog C}.
Implicit Type s : State C.

(** Calls without a callback. *)
Lemma plain_call_quiet call amount s :
  ensures (plain_call call amount) s (λ _ s',
    st_nodes s' = st_nodes s ∧ new_callbacks s s' = []).
Proof.
  apply ensures_bind, ensures_gets, ensures_modify. split; [done|].
  unfold new_callbacks. simpl. by rewrite calls_call, drop_app_length.
Qed.

Lemma new_callbacks_call (s s' : State C) call cb :
  st_chain s' = call_and_exit call (st_chain s) → ac_callback call = Some cb →
  new_callbacks s s' = [cb].
Proof.
  intros Hc Hcb. unfold new_callbacks. rewrite Hc, calls_call, drop_app_length.
  simpl. by rewrite Hcb.
Qed.

Lemma new_callbacks_same (s s' : State C) :
  st_chain s' = st_chain s → new_callbacks s s' = [].
Proof. intros Hc. unfold new_callbacks. by rewrite Hc, drop_all. Qed.

(** The ids of a call are known ids. *)
Lemma ids_of_known keys (s : State C) n :
  registered n (st_nodes s) → 0 ∉ ids_of keys s → ∀ i, i ∈ ids_of keys s → 1 ≤ i ≤ n.
Proof.
  intros Hr H0 i Hi. assert (i ≠ 0) as Hne by (by intros ->).
  apply list_elem_of_fmap in Hi as (k & -> & _). destruct (reg_key _ _ Hr k Hne). lia.
Qed.

Lemma in_flight_call P f cb call (s s' : State C) p :
  in_flight (s, p) → started P f (callback_ids cb) call s s' → ac_callback call = Some cb →
  (∀ st, P st → awaited cb (f st) ∧ ¬ is_pending st) →
  (∀ i, i ∈ callback_ids cb → 1 ≤ i ≤ ns_num_nodes (st_nodes s)) →
  in_flight (s', p ++ new_callbacks s s').
Proof.
  intros Hf Hst Hcb HP Hids.
  rewrite (new_callbacks_call s s' call cb); [|by apply Hst|done].
  by eapply in_flight_started.
Qed.

Lemma in_flight_unchanged (s s' : State C) p :
  in_flight (s, p) → st_nodes s' = st_nodes s → new_callbacks s s' = [] →
  in_flight (s', p ++ new_callbacks s s').
Proof.
  intros Hf Hn ->. rewrite app_nil_r. by eapply in_flight_elsewhere.
Qed.

Lemma unbonding_awaited ids st :
  is_unbonding st → awaited (auction_unbond_callback ids) (unbonding st) ∧ ¬ is_pending st.
Proof. intros [n ->]. split; [by exists n|simpl; tauto]. Qed.

Section Preservation.
Context (s : State C) (p : list Callback) (Hf : in_flight (s, p)).
Local Abbreviation keeps m := (ensures m s (λ _ s', in_flight (s', p ++ new_callbacks s s'))).

Let Hreg : registered (ns_num_nodes (st_nodes s)) (st_nodes s) := if_registered _ Hf.

Lemma keeps_plain_call call amount : keeps (plain_call call amount).
Proof.
  eapply ensures_mono; [apply plain_call_quiet|]. intros _ s' [Hn Hc].
  by apply in_flight_unchanged.
Qed.

Lemma keeps_owner_only {A} (m : M (State C) A) Q :
  ensures m s Q → ensures (only_owner ;;; m) s Q.
Proof. intros Hm. by apply owner_only_ensures. Qed.

Lemma keeps_add_nodes args :
  ns_num_nodes (st_nodes s) + N.of_nat (length args) < usize_max_plus_1 →
  keeps (add_nodes_endpoint args).
Proof.
  intros Hmax. apply keeps_owner_only, ensures_zoom.
  eapply ensures_mono; [by apply add_nodes_ensures|]. intros _ ns' (Hr & Hn & [Hu]).
  change (lens_get s) with (st_nodes s) in Hn, Hu.
  rewrite new_callbacks_same, app_nil_r by done.
  eapply in_flight_quiet; [exact Hf|exact Hr|exact Hn|..];
    intros i; specialize (Hu i); unfold state_of; simpl;
    destruct Hu as [->|[-> Hu]]; try done.
  intros Hi. pose proof (if_known _ Hf i Hi) as Hk. simpl in Hk. destruct Hu as [Hu|Hu]; [|lia].
  unfold is_pending in Hi. by rewrite Hu in Hi.
Qed.

Lemma keeps_remove_nodes keys : keeps (remove_nodes_endpoint keys).
Proof.
  apply keeps_owner_only, ensures_zoom.
  eapply ensures_mono; [apply remove_nodes_ensures|]. intros _ ns' [Hr Hu].
  rewrite new_callbacks_same, app_nil_r by done.
  eapply in_flight_quiet; [exact Hf|..]; simpl.
  - change (lens_get s) with (st_nodes s) in Hr. rewrite (sr_num _ _ Hr).
    by apply (same_registry_registered _ (st_nodes s)).
  - change (lens_get s) with (st_nodes s) in Hr. rewrite (sr_num _ _ Hr). lia.
  - intros i. unfold state_of. simpl. by destruct (Hu i) as [->|[_ ->]].
  - intros i. unfold state_of. simpl. change (lens_get s) with (st_nodes s) in Hu.
    by destruct (Hu i) as [->|[-> _]].
Qed.

Lemma keeps_stake_nodes amount keys : keeps (stake_nodes amount keys).
Proof.
  eapply ensures_mono; [apply stake_nodes_ensures|]. intros [] s' Hst.
  destruct (nst_started _ _ _ _ Hst) as (sigs & _ & _ & Hs).
  refine (in_flight_call _ _ (auction_stake_callback (ids_of keys s)) _ s s' p Hf Hs eq_refl _ _).
  - intros st ->. split; [done|simpl; tauto].
  - apply ids_of_known; [done|]. by apply (nst_known _ _ _ _ Hst).
Qed.

Lemma keeps_unstake_nodes tok keys : keeps (unstake_nodes tok keys).
Proof.
  eapply ensures_mono; [apply unstake_nodes_ensures|]. intros [] s' (_ & H0 & Hs).
  refine (in_flight_call _ _ (auction_unstake_callback (ids_of keys s)) _ s s' p Hf Hs eq_refl _ _).
  - intros st ->. split; [done|simpl; tauto].
  - by apply ids_of_known.
Qed.

Lemma keeps_unbond_specific keys : keeps (unbond_specific_nodes_endpoint keys).
Proof.
  eapply ensures_mono; [apply unbond_specific_ensures|]. intros [] s' (_ & H0 & Hs).
  refine (in_flight_call _ _ (auction_unbond_callback (ids_of keys s)) _ s s' p Hf
    Hs eq_refl (unbonding_awaited _) _).
  by apply ids_of_known.
Qed.

Lemma keeps_unbond_all : keeps unbond_all_possible_nodes.
Proof.
  eapply ensures_mono; [apply unbond_all_ensures|].
  intros [] s' (_ & ids & keys & Hids & _ & Hs). case_decide.
  - subst s'. apply in_flight_unchanged; [done|done|by apply new_callbacks_same].
  - refine (in_flight_call _ _ (auction_unbond_callback ids) _ s s' p Hf
      Hs eq_refl (unbonding_awaited _) _).
    intros i Hi. by apply Hids.
Qed.

Lemma keeps_unjail keys fine_payment : keeps (unjail_nodes keys fine_payment).
Proof.
  apply keeps_owner_only, ensures_bind. eapply ensures_mono.
  { apply (ensures_for_each _ (λ _ _ s', s' = s)); [done|].
    intros _ k [] s1 ->. apply ensures_bind, ensures_gets, ensures_bind, ensures_require.
    intros _. apply ensures_bind, ensures_gets, ensures_require. done. }
  intros [] s1 ->. apply keeps_plain_call.
Qed.

Lemma keeps_logged e call amount :
  keeps (log_event e ;;; plain_call call amount).
Proof.
  apply ensures_bind, ensures_modify. eapply ensures_mono; [apply plain_call_quiet|].
  intros [] s' [Hn Hc]. apply in_flight_unchanged; [done|exact Hn|].
  rewrite <-Hc. unfold new_callbacks. simpl. by rewrite calls_emit.
Qed.

Lemma keeps_node_op op : op_fits op s → keeps (run_node_op op).
Proof.
  destruct op; simpl; intros Hfit.
  - by apply keeps_add_nodes.
  - apply keeps_remove_nodes.
  - apply keeps_stake_nodes.
  - apply keeps_owner_only, keeps_unstake_nodes.
  - apply keeps_owner_only, keeps_unstake_nodes.
  - apply keeps_unbond_specific.
  - apply keeps_unbond_all.
  - apply keeps_owner_only. eapply ensures_mono; [apply no_node_op_ensures, keeps_plain_call|].
    by intros a s' [_ ?].
  - apply keeps_unjail.
  - apply keeps_logged.
  - apply keeps_logged.
Qed.
End Preservation.

(** Every callback under way succeeds, whatever the auction answers. *)
Lemma callback_runs cb res s p1 p2 :
  in_flight (s, p1 ++ cb :: p2) → runs (run_callback cb res) s (λ _ s', callback_done cb res s s').
Proof.
  intros Hf. destruct (in_flight_members _ _ _ _ Hf) as (? & ? & ? & _). by apply run_callback_spec.
Qed.

Lemma in_flight_step sp sp' : in_flight sp → node_step sp sp' → in_flight sp'.
Proof.
  intros Hf Hs. revert Hf.
  destruct Hs as [op s s' p Hfit Heq|cb res s s' p1 p2 Heq|s s' p Hn]; intros Hf.
  - by apply (ensures_inv _ _ _ tt s' (keeps_node_op s p Hf op Hfit)).
  - eapply in_flight_done; [done|].
    by apply (runs_inv _ _ _ tt s' (callback_runs cb res s p1 p2 Hf)).
  - by eapply in_flight_elsewhere.
Qed.

Lemma in_flight_reachable sp sp' : in_flight sp → rtc node_step sp sp' → in_flight sp'.
Proof. intros Hf Hr. revert Hf. induction Hr; eauto using in_flight_step. Qed.
End Preserved.
