(* ===== verification/System.v ===== *)
(** * The whole contract as a system

    Any call of an exported endpoint, any answer of the auction to a call under
    way and any change of the chain between transactions, in any order.  The
    invariants of the money and of the nodes hold together on every state that is
    reached. *)
From stdpp Require Import base numbers list gmap strings relations.
From S2P Require Import Prelude PtrList FundTypes FundModule FundLedger FundRep FundLoops.
From S2P Require Import FundTotals FundMoves FundSpec UserData NodeConfig Settings Chain State.
From S2P Require Import FundTransf FundView Rewards UserStake ResetCheckpoint NodeActivation Contract.
From S2P Require Import TransfSpec RewardSpec ContractInv StakeSpec EndpointSpec PayoutSpec.
From S2P Require Import SolvencySpec GlobalOpSpec GlobalOpStart ContractSystem NodeSpec NodeCalls.
From S2P Require Import NodeProtocol UserSpec DustSpec ViewSpec Frame Dispatch.

(** ** The system *)
Section System.
Context {C : Type} `{CallLog C}.
Implicit Type s : State C.

(** A cleanup is started afresh or resumed at a fund of its list: the contract
    does not check it (see Findings.v). *)
Definition dust_resumable (t : FundType) s : Prop :=
  let id := st_dust_cleanup_checkpoint s in
  id = 0 ∨ ∃ i, fs_fund_by_id (st_funds s) !! id = Some i ∧ fund_type (fund_desc i) = t.

(** What is left out: the uses of the owner's calls that the contract should refuse
    and does not.  Each of them breaks an invariant, see Findings.v. *)
Definition proper (call : Call) s : Prop :=
  match call with
  | Call.modifyTotalDelegationCap cap => sane (ModifyTotalDelegationCap cap) s
  | Call.dustCleanupWaitingList _ => dust_resumable FundType.Waiting s
  | Call.dustCleanupActive _ => dust_resumable FundType.Active s
  | Call.forceNodeUnBondPeriod keys =>
      ∀ k, k ∈ keys → ¬ is_pending (state_of (get_node_id k (st_nodes s)) s)
  | _ => True
  end.

(** The ids of users, funds and nodes last. *)
Definition call_fits (call : Call) s : Prop :=
  fits s ∧ op_fits (match call with Call.addNodes args => AddNodes args
                    | _ => UnBondAllPossibleNodes end) s.

Inductive system_step : State C * list Callback → State C * list Callback → Prop :=
| sys_call call r s s' p :
    call_fits call s → proper call s → dispatch call s = Ok (r, s') →
    system_step (s, p) (s', p ++ new_callbacks s s')
| sys_callback cb res s s' p1 p2 :
    run_callback cb res s = Ok (tt, s') → system_step (s, p1 ++ cb :: p2) (s', p1 ++ p2)
| sys_upgrade s s' p :
    0 < cap_of s → update_init s = Ok (tt, s') → system_step (s, p) (s', p)
| sys_chain c s p : later_chain c s → system_step (s, p) (set_chain c s, p).

(** The invariant: of the money, of the users, and of the nodes with the calls
    under way. *)
Record system_ok (sp : State C * list Callback) : Prop := {
  so_contract : contract_ok (fst sp);
  so_users : addressed (st_users (fst sp));
  so_nodes : in_flight sp;
}.

(** What a deployment reaches. *)
Definition deploys (c : C) s : Prop := ∃ auction fee share n_blocks minimum cap,
  fee ≤ PERCENTAGE_DENOMINATOR ∧ share ≤ PERCENTAGE_DENOMINATOR ∧
  get_cumulated_validator_rewards c = 0 ∧ 0 < cap ∧
  init auction fee share n_blocks minimum cap (initial_State c) = Ok (tt, s).
Definition reached s p : Prop := ∃ c s0, deploys c s0 ∧ rtc system_step (s0, []) (s, p).
End System.

(** ** What each call may change *)
Inductive Scope : Set := Nothing | Money | Nodes.

Definition scope (call : Call) : Scope :=
  match call with
  | Call.addNodes _ | Call.removeNodes _ | Call.stakeNodes _ _ | Call.unStakeNodes _
  | Call.unStakeNodesAndTokens _ | Call.forceNodeUnBondPeriod _ | Call.unBondNodes _
  | Call.unBondAllPossibleNodes | Call.claimUnusedFunds | Call.unJailNodes _ _
  | Call.unStakeTokens _ | Call.unBondTokens _ => Nodes
  | Call.updateUserAddress _ | Call.setNumBlocksBeforeUnBond _ | Call.setMinimumStake _
  | Call.continueGlobalOperation | Call.modifyTotalDelegationCap _ | Call.setServiceFee _
  | Call.claimRewards | Call.stake _ | Call.unStake _ | Call.unBond
  | Call.dustCleanupWaitingList _ | Call.dustCleanupActive _ => Money
  | _ => Nothing
  end.

Section Scopes.
Context {C : Type} `{!Chain C, !ChainLaws C, !CallLog C}.
Implicit Type s : State C.

(** The views read. *)
#[local] Hint Extern 1 (within eq (zoom _)) => apply within_zoom_read; within : within.
#[local] Hint Extern 1 (within eq (get_user_address _)) => apply within_decode : within.
#[local] Hint Extern 1 (within eq (get_node_id_to_bls _)) => apply within_decode : within.
#[local] Hint Extern 1 (within eq (get_node_signature _)) => apply within_decode : within.

Lemma pure_load u : within (@eq (State C)) (load_updated_user_rewards u).
Proof.
  unfold load_updated_user_rewards, get_total_cumulated_rewards, split_service_reward,
    stake_of_type. within.
Qed.
Lemma pure_unprotected : within (@eq (State C)) total_unprotected.
Proof. unfold total_unprotected, get_total_cumulated_rewards, stake_of_type. within. Qed.
Lemma pure_foreach {X} t (closure : FundItem → X → M (State C) X) acc :
  (∀ i x, within eq (closure i x)) → within eq (foreach_fund_by_type t Forwards closure acc).
Proof. apply within_foreach_by_type. Qed.
Lemma pure_foreach_user {X} u t (closure : FundItem → X → M (State C) X) acc :
  (∀ i x, within eq (closure i x)) →
  within eq (foreach_fund_by_user_type u t Forwards closure acc).
Proof. apply within_foreach_by_user_type. Qed.
#[local] Hint Resolve pure_load pure_unprotected : within.

#[local] Hint Extern 1 (within _ (foreach_fund_by_type _ _ _ _)) =>
  apply pure_foreach; intros; within : within.
#[local] Hint Extern 1 (within _ (foreach_fund_by_user_type _ _ _ _ _)) =>
  apply pure_foreach_user; intros; within : within.

Lemma dispatch_pure call : scope call = Nothing → within (@eq (State C)) (dispatch call).
Proof.
  destruct call; intros [=]; simpl; unfold nothing, amount, node_id_of, get_all_user_stake_by_type,
    get_user_deferred_payment_list, get_full_waiting_list, get_full_active_list,
    auction_contract_addr, is_bootstrap_mode, get_total_cumulated_rewards,
    get_claimable_rewards, get_total_unclaimed_rewards, validate_owner_stake_share,
    validate_delegation_cap_invariant, get_unbondable, stake_of_type,
    get_node_signature_endpoint, get_all_node_states, get_total_delegation_cap,
    is_bootstrap_mode, eligible_deferred_payment, current_bl_nonce; within.
Qed.

(** The calls on money, staking and addresses apart, in any frame. *)
Definition registers (call : Call) : bool :=
  match call with Call.stake _ | Call.updateUserAddress _ => true | _ => false end.

Lemma ensures_nothing (m : M (State C) unit) s (Q : State C → Prop) :
  ensures m s (λ _ s', Q s') → ensures (nothing m) s (λ _ s', Q s').
Proof. intros Hm. apply ensures_bind. eapply ensures_mono; [exact Hm|done]. Qed.
Lemma ensures_value {X} (m : M (State C) X) (f : X → list Value) s (Q : State C → Prop) :
  ensures m s (λ _ s', Q s') → ensures (let! x := m in ret (f x)) s (λ _ s', Q s').
Proof. intros Hm. apply ensures_bind. eapply ensures_mono; [exact Hm|done]. Qed.

(** The calls that send money. *)
Definition pays (call : Call) : bool :=
  match call with Call.claimRewards | Call.unBond => true | _ => false end.

Section Frames.
Context (R : relation (State C)) `{!MoneyFrame R}.

Lemma quiet_nothing m : within R m → within R (nothing m).
Proof. intros. unfold nothing. within. Qed.

Lemma dispatch_frame call s :
  scope call = Money → registers call = false →
  (pays call = true → PayFrame R (get_caller (st_chain s))) →
  ensures (dispatch call) s (λ _ s', R s s').
Proof.
  destruct call; intros [=] [=] Hpay; simpl;
    first [apply (ensures_nothing _ _ (R s))|apply (ensures_value _ _ _ (R s))].
  - by apply quiet_n_blocks.
  - by apply quiet_min_stake.
  - by apply quiet_continue_endpoint.
  - by apply quiet_modify_cap.
  - by apply quiet_set_fee.
  - apply quiet_claim; [done|by apply Hpay].
  - by apply quiet_unstake.
  - apply quiet_unbond; [done|by apply Hpay].
  - by apply quiet_dust_waiting.
  - by apply quiet_dust_active.
Qed.

Lemma dispatch_within `{!∀ to, PayFrame R to} call :
  scope call = Money → registers call = false → within R (dispatch call).
Proof. intros Hsc Hr s. apply dispatch_frame; [done..|]. intros _. apply _. Qed.
End Frames.

Lemma dispatch_quiet call : scope call = Money → within (nodes_kept (C:=C)) (dispatch call).
Proof.
  intros Hsc. destruct (registers call) eqn:Hr; [|by apply (dispatch_within nodes_kept)].
  destruct call; try discriminate Hr; simpl.
  - apply within_bind; [by apply within_zoom|intros; within].
  - apply quiet_nothing; [apply _|]. apply quiet_stake; [apply _|]. intros a. by apply within_zoom.
Qed.

(** The endpoint of a node call. *)
Definition node_op (call : Call) : option NodeOp :=
  match call with
  | Call.addNodes args => Some (AddNodes args)
  | Call.removeNodes keys => Some (RemoveNodes keys)
  | Call.stakeNodes amount keys => Some (StakeNodes amount keys)
  | Call.unStakeNodes keys => Some (UnStakeNodes keys)
  | Call.unStakeNodesAndTokens keys => Some (UnStakeNodesAndTokens keys)
  | Call.unBondNodes keys => Some (UnBondSpecificNodes keys)
  | Call.unBondAllPossibleNodes => Some UnBondAllPossibleNodes
  | Call.claimUnusedFunds => Some ClaimUnusedFunds
  | Call.unJailNodes keys fine_payment => Some (UnJailNodes keys fine_payment)
  | Call.unStakeTokens amount => Some (UnStakeTokens amount)
  | Call.unBondTokens amount => Some (UnBondTokens amount)
  | _ => None
  end.

Lemma dispatch_node_op call op :
  node_op call = Some op → dispatch call = nothing (run_node_op (C:=C) op).
Proof. by destruct call; intros [= <-]. Qed.

Lemma scope_nodes call :
  scope call = Nodes → (∃ op, node_op call = Some op) ∨ ∃ keys, call = Call.forceNodeUnBondPeriod keys.
Proof. destruct call; intros [=]; eauto. Qed.

(** The calls on nodes, in any frame that leaves calls to the auction free. *)
Section NodeFrames.
Context (R : relation (State C)) `{!NodeFrame R} (calls_free : ∀ a, within R (async_call a)).

Lemma thrifty_node_op op : within R (run_node_op op).
Proof.
  destruct op; simpl.
  - apply thrifty_add_nodes, _.
  - apply thrifty_remove_nodes, _.
  - apply thrifty_stake_nodes; [apply _|done].
  - apply thrifty_unstake_endpoint, _.
  - apply thrifty_unstake_tokens_endpoint, _.
  - apply thrifty_unbond_specific, _.
  - apply thrifty_unbond_all, _.
  - apply thrifty_claim_unused, _.
  - apply thrifty_unjail; [apply _|done].
  - apply thrifty_unstake_tokens, _.
  - apply thrifty_unbond_tokens, _.
Qed.

Lemma dispatch_nodes call : scope call = Nodes → within R (dispatch call).
Proof.
  intros [[op Hop]|[keys ->]]%scope_nodes.
  - rewrite (dispatch_node_op call op Hop). unfold nothing.
    apply within_bind; [apply thrifty_node_op|intros; within].
  - simpl. unfold nothing. apply within_bind; [apply thrifty_force, _|intros; within].
Qed.
End NodeFrames.

Lemma dispatch_thrifty call : scope call = Nodes → within (money_kept (C:=C)) (dispatch call).
Proof. apply (dispatch_nodes money_kept). intros. apply money_kept_call. Qed.

(** All calls but two pay nobody. *)
Lemma dispatch_unpaid call : pays call = false → within (unpaid (C:=C)) (dispatch call).
Proof.
  intros Hp. destruct (scope call) eqn:Hsc.
  - intros s. eapply ensures_mono; [by apply dispatch_pure|]. by intros r s' <-.
  - destruct (registers call) eqn:Hr.
    + destruct call; try discriminate Hr; simpl.
      * apply within_bind; [by apply within_zoom|intros; within].
      * apply quiet_nothing; [apply _|]. apply quiet_stake; [apply _|].
        intros a. by apply within_zoom.
    + intros s. apply (dispatch_frame unpaid); [done|done|by rewrite Hp].
  - apply (dispatch_nodes unpaid); [|done]. intros. apply unpaid_call.
Qed.
End Scopes.

(** ** The money is kept *)
Section MoneyInvariant.
Context {C : Type} `{!Chain C, !ChainLaws C, !CallLog C}.
Implicit Type s : State C.

Lemma money_kept_alike s s' : money_kept s s' → alike s s'.
Proof.
  intros [Ef Eu Es Er Eop Ed Ev].
  destruct (chain_view_eq _ _ Ev) as (_ & _ & _ & Hc).
  split; unfold cap_of, fee_of, bootstrap_of, cumulated; congruence || by intros; rewrite Eu.
Qed.

Lemma op_ok_money_kept s s' A :
  money_kept s s' → op_ok (st_global_op_checkpoint s) s A →
  op_ok (st_global_op_checkpoint s') s' A.
Proof.
  intros Hk Hok. rewrite (mk_op _ _ Hk). apply (op_ok_alike _ s); [|done].
  by apply money_kept_alike.
Qed.

(** A cleanup that is resumable is at a place of its list. *)
Lemma resumable_split t s A :
  Rep (st_funds s) A → dust_resumable t s →
  ∃ pre bs, dgrp Backwards type_key t (af_ledger A) = pre ++ bs ∧
    (if st_dust_cleanup_checkpoint s =? 0 then pre = []
     else st_dust_cleanup_checkpoint s = head0 (ids bs)).
Proof. apply stored_split. Qed.

Lemma fits_dust_room s A : fits_in s A → dust_room True A.
Proof. intros []. split; [lia|apply vec_room_any; by right..]. Qed.

(** The owner's cleanups. *)
Lemma owner_idle_guards {X} msg (m : M (State C) X) s :
  ensures (only_owner ;;; require_no_global_op msg ;;; m) s (λ _ _,
    get_caller (st_chain s) = get_owner_address (st_chain s) ∧
    st_global_op_checkpoint s = GlobalOpCheckpoint.None).
Proof.
  apply owner_only_ensures. intros Hown. apply no_global_op_ensures. intros Hop.
  by apply ensures_const.
Qed.

Lemma dust_waiting_keeps s A limit :
  op_ok (st_global_op_checkpoint s) s A → fits_in s A → dust_resumable FundType.Waiting s →
  ensures (dust_cleanup_waiting_list limit) s (λ _ s', accounts_kept s A s').
Proof.
  intros Hok Hf Hres.
  pose proof (op_ok_rep _ _ _ Hok) as HR.
  destruct (resumable_split _ _ _ HR Hres) as (pre & bs & Hg & Hcur).
  eapply ensures_guard; [apply owner_idle_guards|]. intros [Hown Hop]. rewrite Hop in Hok. destruct Hok as [HI Hst].
  eapply runs_mono; [apply (dust_cleanup_waiting_spec s A limit pre bs); try done|].
  { assert (N.of_nat (length bs) ≤ len_of FundType.Waiting A).
    { unfold len_of, klen. rewrite <-(length_dgrp Backwards), Hg, length_app. lia. }
    destruct Hf. lia. }
  intros _ s' (vs & rest & A' & -> & Hc). split; [|apply Hc]. exists A'. split; [|apply Hc].
  rewrite (wc_op _ _ _ _ _ _ _ _ Hc), Hop. split; apply Hc.
Qed.

Lemma dust_active_keeps s A limit :
  op_ok (st_global_op_checkpoint s) s A → fits_in s A → dust_resumable FundType.Active s →
  ensures (dust_cleanup_active limit) s (λ _ s', accounts_kept s A s').
Proof.
  intros Hok Hf Hres.
  pose proof (op_ok_rep _ _ _ Hok) as HR.
  destruct (resumable_split _ _ _ HR Hres) as (pre & bs & Hg & Hcur).
  eapply ensures_guarded; [apply owner_idle_guards|]. intros [Hown Hop]. rewrite Hop in Hok. destruct Hok as [HI [Hcap Hnone]].
  eapply outcome_ensures, outcome_post; [apply (dust_cleanup_active_spec True s A limit pre bs); try done|].
  { by apply (fits_dust_room s). }
  intros _ s' (vs & rest & A' & -> & _ & Hc). split; [|apply Hc]. exists A'. split; [|apply Hc].
  rewrite (ac_op _ _ _ _ _ _ _ Hc), Hop. split; apply Hc.
Qed.

(** Settings and addresses that the money does not depend on. *)
Lemma accounts_alike s s' A :
  alike s s' → st_global_op_checkpoint s' = st_global_op_checkpoint s →
  op_ok (st_global_op_checkpoint s) s A → accounts_kept s A s'.
Proof.
  intros Hal Hop Hok. split; [|by apply earnings_alike]. exists A. split; [|done].
  rewrite Hop. by apply (op_ok_alike _ s).
Qed.

Lemma settings_keeps s A (f : SettingsStore → SettingsStore) :
  (∀ st, total_delegation_cap (f st) = total_delegation_cap st ∧
    service_fee (f st) = service_fee st ∧ bootstrap_mode (f st) = bootstrap_mode st) →
  op_ok (st_global_op_checkpoint s) s A →
  ensures (only_owner ;;; zoom (modify f)) s (λ _ s', accounts_kept s A s').
Proof.
  intros Hf Hok. apply owner_only_ensures. intros _. apply ensures_zoom, ensures_modify.
  apply accounts_alike; [|done|done]. destruct (Hf (st_settings s)) as (Hc & Hs & Hb). by split.
Qed.

(** Every fund has a registered owner, also while an operation is under way. *)
Lemma op_ok_owned orc s A : op_ok orc s A → owned s A.
Proof.
  intros Hok. pose proof (op_ok_rep _ _ _ Hok) as HR.
  assert (∀ u t, unregistered u s → ut_of u t A = 0) as Ho.
  { destruct orc as [|d|]; simpl in Hok.
    - apply Hok.
    - destruct Hok as (_ & _ & Hph). unfold phase_ok in Hph.
      destruct (step d); [by destruct Hph as [[] _]|by destruct Hph as [? []]|
        by destruct Hph as [[? []] _]|by destruct Hph as ([? []] & _)].
    - by destruct Hok as ([[] _] & _). }
  intros b Hb. apply elem_of_users. intros Hun. by apply (owner_registered s A b).
Qed.

(** Registering an address changes no id. *)
Definition ids_kept (us us' : UserStore) : Prop :=
  us_num_users us' = us_num_users us ∧ ∀ a, get_user_id a us' = get_user_id a us.
#[local] Instance ids_kept_preorder : PreOrder ids_kept.
Proof.
  split; [by split|]. intros us1 us2 us3 [Hn Hi] [Hn' Hi'].
  split; [congruence|]. intros a. by rewrite Hi', Hi.
Qed.

Lemma update_user_address_ids addresses : within ids_kept (update_user_address addresses).
Proof. unfold update_user_address. within. by apply within_modify. Qed.

Lemma addresses_keeps s A addresses :
  op_ok (st_global_op_checkpoint s) s A →
  ensures (zoom (update_user_address addresses)) s (λ _ s', accounts_kept s A s').
Proof.
  intros Hok. apply ensures_zoom. eapply ensures_mono; [apply update_user_address_ids|].
  intros _ us [Hn Hi]. by apply accounts_alike; [split|..].
Qed.

(** What a call on money does to what everybody owns. *)
Lemma money_call_effect call s A :
  scope call = Money → op_ok (st_global_op_checkpoint s) s A → fits s → proper call s →
  ensures (dispatch call) s (λ r s',
    match call with
    | Call.stake payment =>
        ∃ A', op_ok (st_global_op_checkpoint s') s' A' ∧ staked payment s A s' A'
    | Call.unBond => ∃ v A', r = [num v] ∧ withdrawn (caller_id s) v s A s' A'
    | Call.claimRewards => op_ok (st_global_op_checkpoint s') s' A ∧ claimed (caller_id s) s A s'
    | Call.continueGlobalOperation | Call.modifyTotalDelegationCap _ | Call.setServiceFee _ =>
        accounts_operated s A s'
    | _ => accounts_kept s A s'
    end).
Proof.
  intros Hsc Hok Hfits Hproper. pose proof (op_ok_rep _ _ _ Hok) as HR.
  pose proof (fits_rep s A HR Hfits) as Hf.
  destruct call; try discriminate Hsc; simpl dispatch;
    first [apply ensures_nothing|apply ensures_value|apply ensures_bind].
  - eapply ensures_mono; [by apply (addresses_keeps s A)|]. by intros [[? ?] ?] s' ?.
  - by apply (settings_keeps s A).
  - by apply (settings_keeps s A).
  - by apply (continue_keeps s A).
  - apply (modify_cap_keeps s A); [done..|]. unfold max_available.
    rewrite <-!(stake_total HR). exact Hproper.
  - by apply (fee_keeps s A).
  - by apply (claim_keeps s A).
  - by apply (stake_keeps s A).
  - by apply (unstake_keeps s A).
  - eapply ensures_mono; [by apply (unbond_keeps s A)|]. intros v s' [A' Hw].
    apply ensures_ret. by exists v, A'.
  - by apply (dust_waiting_keeps s A).
  - by apply (dust_active_keeps s A).
Qed.

Lemma money_call_keeps call s A :
  scope call = Money → op_ok (st_global_op_checkpoint s) s A → fits s → proper call s →
  ensures (dispatch call) s (λ _ s', contract_ok s').
Proof.
  intros. eapply ensures_mono; [by apply (money_call_effect call s A)|]. intros r s' He.
  destruct call; try by eapply holdings_kept_ok, He.
  - exists A. apply He.
  - destruct He as (A' & ? & _). by exists A'.
  - destruct He as (w & A' & _ & Hw). exists A'. apply Hw.
Qed.

Lemma call_keeps_money call s :
  contract_ok s → fits s → proper call s → ensures (dispatch call) s (λ _ s', contract_ok s').
Proof.
  intros [A Hok] Hfits Hproper. destruct (scope call) eqn:Hsc.
  - eapply ensures_mono; [by apply dispatch_pure|]. intros _ s' <-. by exists A.
  - by apply (money_call_keeps call s A).
  - eapply ensures_mono; [by apply dispatch_thrifty|]. intros v s' Hk. exists A.
    by apply (op_ok_money_kept s).
Qed.
End MoneyInvariant.

(** ** The nodes are kept *)
Section NodeInvariant.
Context {C : Type} `{!Chain C, !ChainLaws C, !CallLog C}.
Implicit Type s : State C.

Lemma new_callbacks_kept s s' : calls_of (st_chain s') = calls_of (st_chain s) →
  new_callbacks s s' = [].
Proof. intros Hc. unfold new_callbacks. by rewrite Hc, drop_all. Qed.

(** Forcing nodes that wait for no answer into their unbonding period. *)
Lemma force_ensures keys s :
  ensures (force_node_unbond_period keys) s (λ _ s', same_registry (st_nodes s) (st_nodes s') ∧
    st_chain s' = st_chain s ∧
    ∀ i, state_of i s' = state_of i s ∨
      state_of i s' = NodeState.UnBondPeriod 0 ∧ ∃ k, k ∈ keys ∧ get_node_id k (st_nodes s) = i).
Proof.
  apply owner_only_ensures. intros _.
  apply (ensures_for_each_split _ (λ dn _ s', same_registry (st_nodes s) (st_nodes s') ∧
    st_chain s' = st_chain s ∧
    ∀ i, state_of i s' = state_of i s ∨
      state_of i s' = NodeState.UnBondPeriod 0 ∧ ∃ k, k ∈ keys ∧ get_node_id k (st_nodes s) = i)).
  - split_and!; [done|done|by left].
  - intros dn k rest [] s' Hk (Hr & Hc & Hs). apply ensures_bind, ensures_gets.
    apply ensures_bind, ensures_require. intros Hid. apply ensures_zoom, ensures_modify.
    split_and!; [by destruct Hr|done|]. intros i. unfold state_of. simpl.
    rewrite get_node_state_set. case_decide as Hi; [|apply Hs]. right. split; [done|].
    exists k. split; [set_solver|]. by rewrite <-Hi, (same_registry_id _ _ k Hr).
Qed.

Lemma op_fits_call call s : call_fits call s → ∀ op, node_op call = Some op → op_fits op s.
Proof. intros [_ Hf] op. by destruct call; intros [= <-]. Qed.

Lemma call_keeps_nodes call s p :
  in_flight (s, p) → call_fits call s → proper call s →
  ensures (dispatch call) s (λ _ s', in_flight (s', p ++ new_callbacks s s')).
Proof.
  intros Hf Hfits Hproper. destruct (scope call) eqn:Hsc.
  - eapply ensures_mono; [by apply dispatch_pure|]. intros r s' <-.
    apply in_flight_unchanged; [done|done|by apply new_callbacks_kept].
  - eapply ensures_mono; [by apply dispatch_quiet|]. intros r s' [Hn Hc].
    apply in_flight_unchanged; [done|done|by apply new_callbacks_kept].
  - apply scope_nodes in Hsc as [[op Hop]|[keys ->]].
    + rewrite (dispatch_node_op call op Hop). apply ensures_nothing.
      apply keeps_node_op; [done|]. by eapply op_fits_call.
    + simpl dispatch. apply ensures_nothing. eapply ensures_mono; [apply force_ensures|].
      intros r s' (Hr & Hc & Hs). rewrite new_callbacks_same, app_nil_r by done.
      eapply in_flight_quiet; [exact Hf|rewrite (sr_num _ _ Hr)..| |].
      * apply (same_registry_registered _ (st_nodes s)); [done|]. apply (if_registered _ Hf).
      * done.
      * intros i Hi. destruct (Hs i) as [Heq|[Heq _]]; rewrite Heq in Hi; [done|by destruct Hi].
      * intros i Hi. destruct (Hs i) as [Heq|(_ & k & Hk & Hki)]; [done|].
        exfalso. apply (Hproper k Hk). by rewrite Hki.
Qed.
End NodeInvariant.

(** ** The users are kept *)
Section UserInvariant.
Context {C : Type} `{!Chain C, !ChainLaws C, !CallLog C}.
Implicit Type s : State C.

Lemma call_keeps_users call s :
  addressed (st_users s) → fits s →
  ensures (dispatch call) s (λ _ s', addressed (st_users s')).
Proof.
  intros Hus [Hmax _]. destruct (scope call) eqn:Hsc.
  - eapply ensures_mono; [by apply dispatch_pure|]. by intros r s' <-.
  - destruct (registers call) eqn:Hr.
    + destruct call; try discriminate Hr; simpl dispatch.
      * apply ensures_bind, ensures_zoom.
        eapply ensures_mono; [by apply update_user_address_addressed|].
        by intros [[x y] z] us [? _].
      * apply ensures_nothing, (stake_endpoint_users _ _ addressed).
        by apply get_or_create_addressed.
    + eapply ensures_mono; [by apply (dispatch_within users_kept)|].
      intros r s' Hk. by rewrite Hk.
  - eapply ensures_mono; [by apply dispatch_thrifty|]. intros r s' Hk. by rewrite (mk_users _ _ Hk).
Qed.

Lemma init_users (c : C) auction fee share n_blocks minimum cap :
  ensures (init auction fee share n_blocks minimum cap) (initial_State c) (λ _ s',
    addressed (st_users s')).
Proof.
  unfold init, current_caller, set_owner_min_stake_share_validated.
  repeat first [apply ensures_modify|apply ensures_require; intros _
    |apply ensures_gets|apply ensures_zoom|apply ensures_bind].
  assert (∀ a, get_user_id a (set_user_id (get_caller c) OWNER_USER_ID empty_UserStore) =
    if decide (get_caller c = a) then OWNER_USER_ID else 0) as Hid
    by (intros a; apply get_user_id_set).
  unfold OWNER_USER_ID in *. split; [split|].
  - intros a. change (get_user_id a (set_user_id (get_caller c) 1 empty_UserStore) ≤ 1).
    rewrite Hid. case_decide; lia.
  - intros a b.
    change (get_user_id a (set_user_id (get_caller c) 1 empty_UserStore) =
      get_user_id b (set_user_id (get_caller c) 1 empty_UserStore) →
      get_user_id a (set_user_id (get_caller c) 1 empty_UserStore) ≠ 0 → a = b).
    rewrite !Hid. case_decide; case_decide; congruence.
  - intros u a. simpl. rewrite insert_empty, lookup_singleton_Some. intros [<- <-].
    split; [|done].
    change (get_user_id (get_caller c) (set_user_id (get_caller c) 1 empty_UserStore) = 1).
    by rewrite Hid, decide_True.
  - intros u Hu. simpl in *. assert (u = 1) as -> by lia. by rewrite insert_empty, lookup_singleton_eq.
Qed.
End UserInvariant.

(** ** Every step *)
Section Steps.
Context {C : Type} `{!Chain C, !ChainLaws C, !CallLog C}.
Implicit Type s : State C.

(** The answer to a call under way is processed, and touches no money. *)
Lemma callback_answered cb res s p1 p2 :
  system_ok (s, p1 ++ cb :: p2) →
  runs (run_callback cb res) s (λ _ s', system_ok (s', p1 ++ p2) ∧ money_kept s s' ∧
    callback_done cb res s s').
Proof.
  intros [[A Hok] Hus Hf].
  destruct (callback_runs cb res s p1 p2 Hf) as ([] & s' & Heq & Hd).
  exists tt, s'. split; [done|].
  pose proof (thrifty_callback money_kept cb res s) as Hk. unfold ensures, outcome in Hk. rewrite Heq in Hk.
  split; [split|by split].
  - exists A. by apply (op_ok_money_kept s).
  - simpl. by rewrite (mk_users _ _ Hk).
  - by eapply in_flight_done.
Qed.

(** An upgrade leaves a cap that is known alone. *)
Lemma upgrade_same s : 0 < cap_of s → update_init s = Ok (tt, s).
Proof.
  intros Hcap. unfold update_init, update_total_delegation_cap_if_necessary,
    get_total_delegation_cap, bind, zoom, gets. simpl.
  change (total_delegation_cap (st_settings s)) with (cap_of s).
  rewrite (proj2 (N.eqb_neq (cap_of s) 0)) by lia. by destruct s.
Qed.

Lemma system_step_ok sp sp' : system_step sp sp' → system_ok sp → system_ok sp'.
Proof.
  intros [call r s s' p Hfits Hproper Heq|cb res s s' p1 p2 Heq|s s' p Hcap Heq|c s p Hl] Hok.
  - destruct Hok as [Hm Hu Hn]. split.
    + apply (ensures_inv (dispatch call) s (λ _ s', contract_ok s') r s'); [|done].
      by apply call_keeps_money; [|apply Hfits|].
    + apply (ensures_inv (dispatch call) s (λ _ s', addressed (st_users s')) r s'); [|done].
      by apply call_keeps_users; [|apply Hfits].
    + by apply (ensures_inv (dispatch call) s
        (λ _ s', in_flight (s', p ++ new_callbacks s s')) r s'); [apply call_keeps_nodes|].
  - apply (runs_inv (run_callback cb res) s (λ _ s', system_ok (s', p1 ++ p2)) tt s'); [|done].
    eapply runs_mono; [by apply callback_answered|]. tauto.
  - rewrite (upgrade_same s Hcap) in Heq. by injection Heq as <-.
  - destruct Hok as [[A Hm] Hu Hn]. split; [|done|].
    + exists A. by apply op_ok_arrive.
    + by eapply in_flight_elsewhere.
Qed.

Lemma system_steps_ok sp sp' : rtc system_step sp sp' → system_ok sp → system_ok sp'.
Proof. induction 1; eauto using system_step_ok. Qed.

(** A deployment. *)
Lemma deployed_ok (c : C) s : deploys c s → system_ok (s, []).
Proof.
  intros (auction & fee & share & n_blocks & minimum & cap & Hfee & Hshare & Hcum & Hcap & Heq).
  split.
  - destruct (init_spec c auction fee share n_blocks minimum cap Hfee Hshare Hcum Hcap)
      as ([] & s' & Heq' & HI & Hst & _ & _ & _ & Hop).
    rewrite Heq in Heq'. injection Heq' as <-. exists empty_funds. simpl. by rewrite Hop.
  - by apply (ensures_inv _ _ (λ _ s', addressed (st_users s')) tt s
      (init_users c auction fee share n_blocks minimum cap)).
  - eapply in_flight_elsewhere; [apply (in_flight_initial c)|].
    apply (ensures_inv _ _ (λ _ s', nodes_kept (initial_State c) s') tt s
      (quiet_init auction fee share n_blocks minimum cap (initial_State c)) Heq).
Qed.

Lemma reached_ok s p : reached s p → system_ok (s, p).
Proof. intros (c & s0 & Hd & Hsteps). by eapply system_steps_ok, deployed_ok. Qed.
(** Reaching one state more. *)
Lemma reached_deployed (c : C) s : deploys c s → reached s [].
Proof. intros Hd. exists c, s. by split. Qed.
Lemma reached_step s p s' p' : reached s p → system_step (s, p) (s', p') → reached s' p'.
Proof. intros (c & s0 & ? & ?) ?. exists c, s0. split; [done|]. by eapply rtc_r. Qed.
Lemma reached_call call r s s' p p' :
  reached s p → call_fits call s → proper call s → dispatch call s = Ok (r, s') →
  p ++ new_callbacks s s' = p' → reached s' p'.
Proof. intros Hr Hf Hp Heq <-. eapply reached_step; [exact Hr|]. by eapply sys_call. Qed.
Lemma reached_chain c s p : reached s p → later_chain c s → reached (set_chain c s) p.
Proof. intros Hr Hl. eapply reached_step; [exact Hr|]. by apply sys_chain. Qed.
End Steps.
