(* ===== verification/NodeTheorems.v ===== *)
(** * The theorems about the nodes

    Registration, the endpoints that start an operation on nodes, and the
    callbacks that end it. *)
From stdpp Require Import base numbers list gmap strings.
From S2P Require Import Prelude FundTypes FundModule UserData NodeConfig Settings Chain State.
From S2P Require Import FundTransf FundView Rewards UserStake NodeActivation Contract NodeSpec.
From S2P Require Import NodeCalls NodeProtocol Examples.

(** ** Registration *)

(** C37: adding nodes with new or removed keys succeeds and keeps ids and keys in
    one-to-one correspondence; each added node is inactive and has its
    signature, and every other key keeps its id and its state. *)
Theorem add_nodes_registers ns args :
  registered (ns_num_nodes ns) ns →
  ns_num_nodes ns + N.of_nat (length args) < usize_max_plus_1 →
  NoDup args.*1 → (∀ k, k ∈ args.*1 → addable ns k) →
  runs (add_nodes args) ns (λ _ ns',
    registered (ns_num_nodes ns') ns' ∧
    (∀ k sig, (k, sig) ∈ args → get_node_state_endpoint k ns' = NodeState.Inactive ∧
       get_node_signature_endpoint k ns' = Ok (Some sig, ns')) ∧
    (∀ k, k ∉ args.*1 → get_node_id k ns' = get_node_id k ns ∧
       get_node_state_endpoint k ns' = get_node_state_endpoint k ns)).
Proof.
  intros. eapply runs_mono; [by apply add_nodes_adding|]. intros _ ns2 (n & ns' & Ha & ->).
  split_and!; [by eapply adding_registered|..].
  - intros k sig Hin. destruct (ad_added _ _ _ _ Ha k sig Hin) as (Hk & Hst & Hsig).
    apply N.eqb_neq in Hk. split.
    + unfold get_node_state_endpoint.
      change (get_node_id k (set_num_nodes n ns')) with (get_node_id k ns'). by rewrite Hk.
    + unfold get_node_signature_endpoint, bind, gets, get_node_signature.
      change (get_node_id k (set_num_nodes n ns')) with (get_node_id k ns'). rewrite Hk.
      simpl. by rewrite Hsig.
  - intros k Hk. pose proof (ad_kept _ _ _ _ Ha k (or_introl Hk)) as Hid.
    unfold get_node_state_endpoint.
    change (get_node_id k (set_num_nodes n ns')) with (get_node_id k ns').
    split; [done|]. rewrite Hid. destruct (N.eqb_spec (get_node_id k ns) 0) as [|Hnz]; [done|].
    rewrite <-(ad_state _ _ _ _ Ha k Hk Hnz). by rewrite Hid.
Qed.

(** Removing inactive nodes succeeds: their keys read as removed, can be
    added again and keep their ids, and every other node keeps its state. *)
Theorem remove_nodes_ok ns keys :
  registered (ns_num_nodes ns) ns → NoDup keys →
  (∀ k, k ∈ keys → get_node_state_endpoint k ns = NodeState.Inactive) →
  runs (remove_nodes keys) ns (λ _ ns',
    registered (ns_num_nodes ns') ns' ∧
    (∀ k, k ∈ keys → get_node_state_endpoint k ns' = NodeState.Removed ∧ addable ns' k) ∧
    (∀ k, k ∉ keys → get_node_state_endpoint k ns' = get_node_state_endpoint k ns) ∧
    (∀ k, get_node_id k ns' = get_node_id k ns)).
Proof.
  intros Hreg Hnd Hin.
  assert (∀ k, k ∈ keys → get_node_id k ns ≠ 0) as Hknown.
  { intros k Hk Hz. specialize (Hin k Hk). unfold get_node_state_endpoint in Hin.
    by rewrite Hz in Hin. }
  assert (∀ k (dn : list BLSKey), k ∈ keys → get_node_id k ns ∈ (λ k, get_node_id k ns) <$> dn → k ∈ dn) as Hinj.
  { intros k dn Hk (k' & Heq & Hk')%list_elem_of_fmap.
    by rewrite (registered_inj _ ns k k' Hreg (Hknown k Hk) Heq). }
  unfold remove_nodes. eapply runs_mono.
  { apply (runs_for_each _ (λ dn _, removing ns dn) keys).
    - split; [done|done|]. intros j. by rewrite decide_False by set_solver.
    - intros dn k rest [] ns' -> Hrm. apply NoDup_app in Hnd as (_ & Hdisj & _).
      apply remove_node_runs; [done| |apply Hin; set_solver].
      intros Hk%Hinj; [|set_solver]. apply (Hdisj k Hk). set_solver. }
  intros _ ns' [Hid (En & Eb & Es) Hst]. split_and!.
  - destruct Hreg as [Hkey Hi Hs]. split; intros *; rewrite ?Hid, ?En, ?Eb, ?Es; auto.
    intros Hr. destruct (Hi i Hr) as (k & Hk). exists k. by rewrite Hid.
  - intros k Hk. assert (get_node_state (get_node_id k ns') ns' = NodeState.Removed) as Hr.
    { rewrite Hst, Hid, decide_True; [done|].
      by apply (list_elem_of_fmap_2 (λ k, get_node_id k ns)). }
    split; [|by right]. unfold get_node_state_endpoint. rewrite Hr. by case_match.
  - intros k Hk. unfold get_node_state_endpoint. rewrite Hst, Hid.
    destruct (N.eqb_spec (get_node_id k ns) 0) as [|Hz]; [done|].
    rewrite decide_False; [done|]. intros (k' & Heq & Hk')%list_elem_of_fmap.
    destruct Hk. by rewrite (registered_inj _ ns k k' Hreg Hz Heq).
  - done.
Qed.

(** The view of all node states lists every registered key once, in the
    order of the ids, with the discriminant of its state, and no other key. *)
Theorem get_all_node_states_exact ns :
  registered (ns_num_nodes ns) ns →
  runs get_all_node_states ns (λ r ns', ns' = ns ∧
    (λ ks, get_node_id ks.1 ns) <$> r = ids_up_to (ns_num_nodes ns) ∧
    ∀ k st, (k, st) ∈ r ↔
      get_node_id k ns ≠ 0 ∧ st = discriminant (get_node_state (get_node_id k ns) ns)).
Proof.
  intros Hreg. unfold get_all_node_states. run_gets.
  eapply runs_mono.
  { apply (runs_for_each _ (λ dn r ns', ns' = ns ∧ (λ ks, get_node_id ks.1 ns) <$> r = dn ∧
      ∀ k st, (k, st) ∈ r → get_node_id k ns ≠ 0 ∧
        st = discriminant (get_node_state (get_node_id k ns) ns)) (ids_up_to (ns_num_nodes ns))).
    - split_and!; [done|done|by intros ?? ?%not_elem_of_nil].
    - intros dn i rest r ns' Heq (-> & Hids & Hr).
      assert (1 ≤ i ≤ ns_num_nodes ns) as Hi.
      { apply elem_of_ids_up_to. rewrite Heq. set_solver. }
      destruct (reg_id _ _ Hreg i Hi) as (k & Hk & Hid).
      apply runs_bind. unfold get_node_id_to_bls. eapply runs_eq; [by rewrite Hk|].
      apply runs_bind, runs_gets, runs_ret. split_and!; [done| |].
      + by rewrite fmap_app, Hids; simpl; rewrite Hid.
      + intros k' st [Hin|[= -> ->]%list_elem_of_singleton]%elem_of_app; [by apply Hr|].
        rewrite Hid. split; [lia|done]. }
  intros r ns' (-> & Hids & Hr). split_and!; [done|done|]. intros k st. split; [apply Hr|].
  intros [Hk ->]. destruct (reg_key _ _ Hreg k Hk) as [Hle _].
  assert (get_node_id k ns ∈ (λ ks, get_node_id ks.1 ns) <$> r) as Hin.
  { rewrite Hids. apply elem_of_ids_up_to. lia. }
  apply list_elem_of_fmap in Hin as ([k' st'] & Heq & Hin). simpl in Heq.
  rewrite (registered_inj _ ns k k' Hreg Hk Heq).
  by destruct (Hr k' st' Hin) as [_ ->].
Qed.

(** ** Node operations *)
Section NodeTheorems.
Context {C : Type} `{ChainLaws C}.
Implicit Type s : State C.

(** Staking distinct inactive nodes with enough unprotected funds and a
    large enough owner stake succeeds: exactly those nodes become pending, the
    storage is otherwise unchanged, and the call to the auction carries the
    keys with their signatures, the amount, and the callback with their ids. *)
Theorem stake_nodes_ok amount keys s :
  stakeable amount keys s →
  runs (stake_nodes amount keys) s (λ _ s', nodes_staked amount keys s s').
Proof. apply stake_nodes_spec. Qed.

(** C36: whenever staking nodes succeeds, the caller was the owner, bootstrap
    was over, no global operation was under way, the funds and the owner's
    share sufficed, and exactly the named nodes, all inactive and different,
    were taken into the pending state. *)
Theorem stake_nodes_checked amount keys s s' :
  stake_nodes amount keys s = Ok (tt, s') → nodes_staked amount keys s s'.
Proof.
  apply (ensures_inv (stake_nodes amount keys) s (λ _ s', nodes_staked amount keys s s')).
  apply stake_nodes_ensures.
Qed.

(** Unstaking distinct active nodes succeeds for the owner: exactly those
    nodes wait for their deactivation, nothing else is stored, and the call to
    the auction names their keys and will come back with their ids. *)
Theorem unstake_nodes_ok tok keys s :
  get_caller (st_chain s) = get_owner_address (st_chain s) → takeable is_active keys s →
  runs (if tok : bool then unstake_nodes_and_tokens_endpoint keys
        else unstake_nodes_endpoint keys) s (λ _ s',
    started is_active deactivating (ids_of keys s) (unstake_call tok keys s) s s').
Proof. intros Ho Ht. destruct tok; (apply owner_only_runs; [done|]); by apply unstake_nodes_runs. Qed.

(** Unbonding distinct nodes in their unbonding period succeeds for the
    owner; each node remembers when its unbonding started. *)
Theorem unbond_specific_nodes_ok keys s :
  get_caller (st_chain s) = get_owner_address (st_chain s) → keys ≠ [] →
  takeable is_unbonding keys s →
  runs (unbond_specific_nodes_endpoint keys) s (λ _ s',
    started is_unbonding unbonding (ids_of keys s) (unbond_call keys (ids_of keys s) s) s s').
Proof. apply unbond_specific_runs. Qed.

(** C38: unbonding all possible nodes finds every registered node in its
    unbonding period and no other, calls the auction with exactly their keys,
    and does nothing at all if there is none; it succeeds for the owner as long
    as there are at most a hundred of them. *)
Theorem unbond_all_possible_nodes_exact s :
  get_caller (st_chain s) = get_owner_address (st_chain s) →
  st_global_op_checkpoint s = GlobalOpCheckpoint.None →
  registered (ns_num_nodes (st_nodes s)) (st_nodes s) →
  N.of_nat (length (unbonding_nodes s)) ≤ MAX_NODES_PER_OPERATION →
  runs unbond_all_possible_nodes s (λ _ s', ∃ ids keys,
    (∀ i, i ∈ ids ↔ 1 ≤ i ≤ ns_num_nodes (st_nodes s) ∧ is_unbonding (state_of i s)) ∧
    (λ i, ns_node_id_to_bls (st_nodes s) !! i) <$> ids = Some <$> keys ∧
    if decide (ids = []) then s' = s
    else started is_unbonding unbonding ids (unbond_call keys ids s) s s').
Proof.
  intros. eapply runs_mono; [apply ensures_runs; [apply unbond_all_ensures|]|].
  - by apply unbond_all_runs.
  - by intros _ s' (_ & ?).
Qed.

(** A callback always succeeds on the nodes of its call: it settles each of
    them by the status that came back for its key, or all of them as failures
    if the call itself failed, and touches no other node and nothing else. *)
Theorem callback_settles cb res s :
  NoDup (callback_ids cb) →
  N.of_nat (length (callback_ids cb)) ≤ MAX_NODES_PER_OPERATION →
  (∀ j, j ∈ callback_ids cb → awaited cb (state_of j s)) →
  runs (run_callback cb res) s (λ _ s', callback_done cb res s s').
Proof. apply run_callback_spec. Qed.

(** A call taken and then failed leaves every node where it was. *)
Lemma started_undone P f cb call msg s s1 :
  started P f (callback_ids cb) call s s1 →
  (∀ st, P st → awaited cb (f st) ∧ on_failure cb (f st) = st) →
  runs (run_callback cb (CallErr msg)) s1 (λ _ s', ∀ j, state_of j s' = state_of j s).
Proof.
  intros Hst HP.
  assert (∀ j, j ∈ callback_ids cb → state_of j s1 = f (state_of j s) ∧ P (state_of j s)) as Hin.
  { intros j Hj. split; [|by apply (sd_before _ _ _ _ _ _ Hst)].
    by rewrite (sd_after _ _ _ _ _ _ Hst), decide_True. }
  eapply runs_mono; [apply run_callback_spec; [apply Hst|apply Hst|]|].
  { intros j Hj. destruct (Hin j Hj) as [-> ?]. by apply HP. }
  intros [] s' Hd j. destruct (decide (j ∈ callback_ids cb)) as [Hj|Hj].
  - rewrite (cd_failed _ _ _ _ Hd) by done. destruct (Hin j Hj) as [-> ?]. by apply HP.
  - rewrite (cd_others _ _ _ _ Hd) by done.
    by rewrite (sd_after _ _ _ _ _ _ Hst), decide_False.
Qed.

(** Staking nodes and then failing in the auction leaves every node in the
    state that it had. *)
Theorem failed_staking_undone amount keys msg s :
  stakeable amount keys s →
  runs (stake_nodes amount keys ;;;
        run_callback (auction_stake_callback (ids_of keys s)) (CallErr msg)) s
    (λ _ s', ∀ j, state_of j s' = state_of j s).
Proof.
  intros Hs. apply runs_bind. eapply runs_mono; [by apply stake_nodes_spec|].
  intros [] s1 Hst. destruct (nst_started _ _ _ _ Hst) as (sigs & _ & _ & Hsd).
  apply (started_undone _ _ (auction_stake_callback (ids_of keys s)) _ _ _ _ Hsd).
  by intros st ->.
Qed.

(** Unbonding nodes and then failing in the auction leaves every node in its
    unbonding period, counted from the same block as before. *)
Theorem failed_unbonding_undone keys msg s :
  get_caller (st_chain s) = get_owner_address (st_chain s) → keys ≠ [] →
  takeable is_unbonding keys s →
  runs (unbond_specific_nodes_endpoint keys ;;;
        run_callback (auction_unbond_callback (ids_of keys s)) (CallErr msg)) s
    (λ _ s', ∀ j, state_of j s' = state_of j s).
Proof.
  intros Ho Hne Ht. apply runs_bind. eapply runs_mono; [by apply unbond_specific_runs|].
  intros [] s1 Hst.
  apply (started_undone _ _ (auction_unbond_callback (ids_of keys s)) _ _ _ _ Hst).
  intros st [n ->]. split; [by exists n|done].
Qed.
End NodeTheorems.

(** Splitting the nodes of a call by the statuses that came back loses no
    node, invents none and never overflows: the failed ones are exactly those
    whose key has a status other than zero. *)
Theorem split_node_ids_exact ns ids args :
  NoDup ids → N.of_nat (length ids) ≤ MAX_NODES_PER_OPERATION →
  ∃ ids_ok ids_fail,
    split_node_ids_by_err ids args ns = Ok ((ids_ok, ids_fail), ns) ∧
    ids_ok ++ ids_fail ≡ₚ ids ∧
    (∀ i, i ∈ ids_fail ↔ i ∈ ids ∧ failed_in ns args i).
Proof. apply split_node_ids_spec. Qed.

(** ** The protocol with the auction *)

(** On every run of the system from an empty contract, with the node
    endpoints, the callbacks in any order and any other activity interleaved, ids
    and keys correspond one to one, no node is in two calls, every call's nodes
    wait for it, and every node that waits is in a call. *)
Theorem node_protocol_invariant {C} `{!Chain C, !ChainLaws C, !CallLog C} (c : C) sp :
  rtc node_step (initial_State c, []) sp → in_flight sp.
Proof. apply in_flight_reachable, in_flight_initial. Qed.

(** No callback is ever lost: on every run of the system, each callback under
    way succeeds whatever the auction answers, and settles exactly its nodes. *)
Theorem callbacks_never_fail {C} `{!Chain C, !ChainLaws C, !CallLog C} (c : C) s p cb res :
  rtc node_step (initial_State c, []) (s, p) → cb ∈ p →
  runs (run_callback cb res) s (λ _ s', callback_done cb res s s').
Proof.
  intros Hr (p1 & p2 & ->)%list_elem_of_split. apply callback_runs with (p1 := p1) (p2 := p2).
  eapply in_flight_reachable; [apply in_flight_initial|exact Hr].
Qed.

(** ** The theorems applied to a contract with six nodes *)
Definition six_keys : list (BLSKey * BLSSignature) :=
  [(11, 1); (12, 2); (13, 3); (14, 4); (15, 5); (16, 6)].

(** Nodes 1 to 3 are inactive, 4 is active, 5 and 6 are unbonding. *)
Definition registered_nodes : NodeStore :=
  match add_nodes six_keys empty_NodeStore with Ok (_, ns) => ns | Err _ => empty_NodeStore end.
Definition example_nodes : NodeStore :=
  set_node_state 4 NodeState.Active (set_node_state 5 (NodeState.UnBondPeriod 7)
    (set_node_state 6 (NodeState.UnBondPeriod 9) registered_nodes)).

Definition with_nodes (caller : N) : State SimpleChain :=
  lens_set example_nodes (example_state caller).

Lemma empty_registered : registered 0 empty_NodeStore.
Proof. split; [intros k Hk; by destruct Hk|intros i Hi; simpl in Hi; lia..]. Qed.

Lemma example_registered : registered 6 example_nodes.
Proof.
  apply (same_registry_registered 6 registered_nodes); [by split|].
  assert (runs (add_nodes six_keys) empty_NodeStore (λ _ ns', ∃ n ns1,
    adding empty_NodeStore six_keys n ns1 ∧ ns' = set_num_nodes n ns1)) as (a & ns & Heq & n & ns1 & Ha & ->).
  { apply add_nodes_adding; [apply empty_registered|numbers| |].
    - apply (bool_decide_unpack _). vm_compute. exact I.
    - intros k Hk. by left. }
  unfold registered_nodes. rewrite Heq. apply adding_registered in Ha.
  assert (ns_num_nodes registered_nodes = 6) as Hn by (vm_compute; reflexivity).
  unfold registered_nodes in Hn. rewrite Heq in Hn. by rewrite Hn in Ha.
Qed.

(** Facts about the listed keys, one by one. *)
Ltac each_key :=
  let k := fresh in let Hk := fresh in
  intros k Hk;
  repeat (apply elem_of_cons in Hk as [->|Hk]; [vm_compute|]);
  [..|by apply not_elem_of_nil in Hk].

Ltac distinct := apply (bool_decide_unpack _); vm_compute; exact I.

Lemma example_takeable (P : NodeState → Prop) keys caller :
  NoDup keys → N.of_nat (length keys) ≤ MAX_NODES_PER_OPERATION →
  (∀ k, k ∈ keys → get_node_id k example_nodes ≠ 0 ∧
     P (get_node_state (get_node_id k example_nodes) example_nodes)) →
  takeable P keys (with_nodes caller).
Proof. intros. split; [done|apply example_registered|done|done|done]. Qed.

Lemma example_stakeable : stakeable 100 [11; 13] (with_nodes 100).
Proof.
  split; [reflexivity|reflexivity|reflexivity| |numbers|apply example_registered|distinct|numbers|].
  - exists 8035. split; [vm_compute; reflexivity|numbers].
  - each_key; reflexivity.
Qed.

Lemma add_nodes_registers_witness :
  runs (add_nodes six_keys) empty_NodeStore (λ _ ns',
    registered (ns_num_nodes ns') ns' ∧
    (∀ k sig, (k, sig) ∈ six_keys → get_node_state_endpoint k ns' = NodeState.Inactive ∧
       get_node_signature_endpoint k ns' = Ok (Some sig, ns')) ∧
    (∀ k, k ∉ six_keys.*1 → get_node_id k ns' = get_node_id k empty_NodeStore ∧
       get_node_state_endpoint k ns' = get_node_state_endpoint k empty_NodeStore)).
Proof.
  apply add_nodes_registers; [apply empty_registered|numbers|distinct|].
  intros k _. left. reflexivity.
Defined.

Lemma remove_nodes_ok_witness :
  runs (remove_nodes [12; 11]) example_nodes (λ _ ns',
    registered (ns_num_nodes ns') ns' ∧
    (∀ k, k ∈ [12; 11] → get_node_state_endpoint k ns' = NodeState.Removed ∧ addable ns' k) ∧
    (∀ k, k ∉ [12; 11] → get_node_state_endpoint k ns' = get_node_state_endpoint k example_nodes) ∧
    (∀ k, get_node_id k ns' = get_node_id k example_nodes)).
Proof.
  apply remove_nodes_ok; [exact example_registered|distinct|]. each_key; reflexivity.
Defined.

Lemma get_all_node_states_exact_witness :
  runs get_all_node_states example_nodes (λ r ns', ns' = example_nodes ∧
    (λ ks, get_node_id ks.1 example_nodes) <$> r = ids_up_to (ns_num_nodes example_nodes) ∧
    ∀ k st, (k, st) ∈ r ↔ get_node_id k example_nodes ≠ 0 ∧
      st = discriminant (get_node_state (get_node_id k example_nodes) example_nodes)).
Proof. apply get_all_node_states_exact. exact example_registered. Defined.

Lemma stake_nodes_ok_witness :
  runs (stake_nodes 100 [11; 13]) (with_nodes 100) (λ _ s',
    nodes_staked 100 [11; 13] (with_nodes 100) s').
Proof. apply stake_nodes_ok. exact example_stakeable. Defined.

(** The state after staking two nodes. *)
Definition after_staking : State SimpleChain :=
  transact (stake_nodes 100 [11; 13]) (with_nodes 100).

Lemma stake_nodes_checked_witness :
  nodes_staked 100 [11; 13] (with_nodes 100) after_staking.
Proof. apply stake_nodes_checked. vm_compute. reflexivity. Defined.

Lemma unstake_nodes_ok_witness :
  runs (unstake_nodes_endpoint [14]) (with_nodes 100) (λ _ s',
    started is_active deactivating (ids_of [14] (with_nodes 100))
      (unstake_call false [14] (with_nodes 100)) (with_nodes 100) s').
Proof.
  apply (unstake_nodes_ok false); [reflexivity|].
  apply example_takeable; [distinct|numbers|]. each_key; by split.
Defined.

Lemma example_unbonding : takeable is_unbonding [16; 15] (with_nodes 100).
Proof.
  apply example_takeable; [distinct|numbers|]. each_key; (split; [done|by eexists]).
Qed.

Lemma unbond_specific_nodes_ok_witness :
  runs (unbond_specific_nodes_endpoint [16; 15]) (with_nodes 100) (λ _ s',
    started is_unbonding unbonding (ids_of [16; 15] (with_nodes 100))
      (unbond_call [16; 15] (ids_of [16; 15] (with_nodes 100)) (with_nodes 100))
      (with_nodes 100) s').
Proof. apply unbond_specific_nodes_ok; [reflexivity|discriminate|exact example_unbonding]. Defined.

Lemma unbond_all_possible_nodes_exact_witness :
  let s := with_nodes 100 in
  runs unbond_all_possible_nodes s (λ _ s', ∃ ids keys,
    (∀ i, i ∈ ids ↔ 1 ≤ i ≤ ns_num_nodes (st_nodes s) ∧ is_unbonding (state_of i s)) ∧
    (λ i, ns_node_id_to_bls (st_nodes s) !! i) <$> ids = Some <$> keys ∧
    if decide (ids = []) then s' = s
    else started is_unbonding unbonding ids (unbond_call keys ids s) s s').
Proof.
  apply unbond_all_possible_nodes_exact; [reflexivity|reflexivity|exact example_registered|numbers].
Defined.

Lemma callback_settles_witness :
  let cb := auction_stake_callback [3; 1] in
  runs (run_callback cb (CallOk [(11, 0); (13, 2)])) after_staking (λ _ s',
    callback_done cb (CallOk [(11, 0); (13, 2)]) after_staking s').
Proof. apply callback_settles; [distinct|numbers|]. each_key; reflexivity. Defined.

Lemma failed_staking_undone_witness :
  let s := with_nodes 100 in
  runs (stake_nodes 100 [11; 13] ;;;
        run_callback (auction_stake_callback (ids_of [11; 13] s)) (CallErr "out of funds")) s
    (λ _ s', ∀ j, state_of j s' = state_of j s).
Proof. apply (failed_staking_undone 100). exact example_stakeable. Defined.

Lemma failed_unbonding_undone_witness :
  let s := with_nodes 100 in
  runs (unbond_specific_nodes_endpoint [16; 15] ;;;
        run_callback (auction_unbond_callback (ids_of [16; 15] s)) (CallErr "too early")) s
    (λ _ s', ∀ j, state_of j s' = state_of j s).
Proof. apply failed_unbonding_undone; [reflexivity|discriminate|exact example_unbonding]. Defined.

(** A run: the owner registers six nodes and stakes two of them. *)
Definition empty_contract : State SimpleChain :=
  initial_State (mk_SimpleChain 100 100 1 0 0 [] [] [] []).
Definition with_six : State SimpleChain :=
  transact (run_node_op (AddNodes six_keys)) empty_contract.
Definition staking_two : State SimpleChain :=
  transact (run_node_op (StakeNodes 0 [11; 13])) with_six.

Lemma step_op op s s' cbs :
  op_fits op s → run_node_op op s = Ok (tt, s') → new_callbacks s s' = cbs →
  node_step (s, []) (s', cbs).
Proof. intros Hf Hr <-. by apply (step_endpoint op s s' []). Qed.

Lemma run_of_the_system :
  rtc node_step (empty_contract, []) (staking_two, [auction_stake_callback [1; 3]]).
Proof.
  apply (rtc_l _ _ (with_six, [])).
  { apply (step_op (AddNodes six_keys)); [numbers|vm_compute; reflexivity..]. }
  apply rtc_once.
  apply (step_op (StakeNodes 0 [11; 13])); [exact I|vm_compute; reflexivity..].
Qed.

Lemma node_protocol_invariant_witness :
  in_flight (staking_two, [auction_stake_callback [1; 3]]).
Proof. apply (node_protocol_invariant (st_chain empty_contract)). exact run_of_the_system. Defined.

Lemma callbacks_never_fail_witness :
  let cb := auction_stake_callback [1; 3] in
  runs (run_callback cb (CallOk [(13, 5)])) staking_two (λ _ s',
    callback_done cb (CallOk [(13, 5)]) staking_two s').
Proof.
  apply (callbacks_never_fail (st_chain empty_contract) staking_two [auction_stake_callback [1; 3]]).
  - exact run_of_the_system.
  - by left.
Defined.

Lemma split_node_ids_exact_witness :
  let args := [(13, 5); (99, 1); (11, 0); (13, 2)] in
  ∃ ids_ok ids_fail,
    split_node_ids_by_err [1; 3; 2] args example_nodes = Ok ((ids_ok, ids_fail), example_nodes) ∧
    ids_ok ++ ids_fail ≡ₚ [1; 3; 2] ∧
    (∀ i, i ∈ ids_fail ↔ i ∈ [1; 3; 2] ∧ failed_in example_nodes args i).
Proof. apply split_node_ids_exact; [distinct|numbers]. Defined.
