(* ===== verification/SystemTheorems.v ===== *)
(** * The theorems about the whole contract

    Every exported call, every answer of the auction and every change of the
    chain together: what holds on all states that are reached, and what each call
    can change at all. *)
From stdpp Require Import base numbers list gmap strings relations.
From S2P Require Import Prelude PtrList FundTypes FundModule FundLedger FundRep FundLoops.
From S2P Require Import FundTotals FundMoves FundSpec FundInvariant UserData UserSpec NodeConfig.
From S2P Require Import Settings Chain State FundTransf FundView Rewards UserStake ResetCheckpoint.
From S2P Require Import NodeActivation Contract TransfSpec RewardSpec ContractInv StakeSpec.
From S2P Require Import EndpointSpec PayoutSpec SolvencySpec GlobalOpSpec GlobalOpStart.
From S2P Require Import ContractSystem NodeSpec NodeCalls NodeProtocol DustSpec ViewSpec Frame.
From S2P Require Import Dispatch System Examples GlobalTheorems.

Section Theorems.
Context {C : Type} `{!Chain C, !ChainLaws C, !CallLog C}.
Implicit Type s : State C.

(** C1: take any state that is reached ([reached]) from a deployment by calls of
    exported endpoints by anybody with any arguments, answers of the auction in any
    order, upgrades and changes of the chain, as long as the 32-bit ids last ([call_fits]) and
    the owner does none of what the contract should refuse and does not ([proper];
    Findings.v shows what each breaks): end the bootstrap mode with a cap equal to
    all that is there, resume a dust cleanup at a fund of the other list or at a
    deleted one, or force a node that awaits an answer.  Rewards never shrink, and
    none come in before the bootstrap mode ends.
    Then, with [p] the answers still to come: the operation under way can be
    continued; all funds pass the consistency check of the test suite; the rewards
    assigned and paid never exceed the rewards received; active and unstaked stake
    are tied to the delegation cap between operations; every registered user has
    an address of their own; ids and keys of nodes correspond one to one; and the
    nodes in a pending state are exactly those of the answers to come, each of one
    only. *)
Theorem system_invariant s p :
  reached s p →
  contract_ok s ∧ (∀ n, check_consistency (st_funds s) n = true) ∧ assigned s ≤ cumulated s ∧
  (st_global_op_checkpoint s = GlobalOpCheckpoint.None →
    if bootstrap_of s then
      total_of FundType.Active s + total_of FundType.UnStaked s < cap_of s ∧
      total_of FundType.Waiting s = 0
    else total_of FundType.Active s + total_of FundType.UnStaked s = cap_of s) ∧
  addressed (st_users s) ∧ registered (ns_num_nodes (st_nodes s)) (st_nodes s) ∧
  NoDup (concat (callback_ids <$> p)) ∧
  (∀ cb i, cb ∈ p → i ∈ callback_ids cb → awaited cb (state_of i s)) ∧
  (∀ i, is_pending (state_of i s) → ∃ cb, cb ∈ p ∧ i ∈ callback_ids cb).
Proof.
  intros [[A HA] Hus [Hreg Hnd _ Haw Hpe _]]%reached_ok. simpl in *.
  pose proof (op_ok_rep _ _ _ HA) as HR.
  split_and!; [by exists A|intros n; by eapply check_rep|by eapply op_ok_assigned| |done..].
  intros Hnone. rewrite Hnone in HA. destruct HA as [_ [Hcap Hw]]. unfold total_of.
  rewrite !(stake_total HR). unfold within_cap, cap_ok, none_waits in *.
  destruct (bootstrap_of s); auto.
Qed.

(** C14: on every state that is reached (as in C1: in particular no node that awaits
    an answer was forced into its unbonding period, which makes the callback panic,
    see [forced_node_breaks_callback]), every answer of the auction still to come
    is processed without failing, whatever it says and whichever comes first: it
    settles exactly the nodes of its call, touches no money, no user and no
    setting, and leaves a state from which the system goes on. *)
Theorem answers_always_processed s p1 cb p2 res :
  reached s (p1 ++ cb :: p2) →
  runs (run_callback cb res) s (λ _ s', callback_done cb res s s' ∧ money_kept s s' ∧
    reached s' (p1 ++ p2)).
Proof.
  intros Hr. destruct (callback_answered cb res s p1 p2 (reached_ok _ _ Hr))
    as ([] & s' & Heq & _ & Hk & Hd). exists tt, s'. split_and!; [done..|].
  eapply reached_step; [exact Hr|]. by eapply sys_callback.
Qed.

(** C19: a call changes no more than its kind: the views change nothing, whoever
    asks; the calls on nodes leave funds, users, settings, rewards and the
    operation under way alone; the calls on money leave the nodes alone and
    call nobody, and only staking and [updateUserAddress] touch the users. *)
Theorem calls_keep_to_their_scope call r s s' :
  dispatch call s = Ok (r, s') →
  match scope call with
  | Nothing => s' = s
  | Nodes => money_kept s s'
  | Money => nodes_kept s s' ∧ (registers call = false → st_users s' = st_users s)
  end.
Proof.
  intros Heq. destruct (scope call) eqn:Hsc.
  - symmetry. apply (ensures_inv (dispatch call) s (λ _ s', s = s') r s'); [|done].
    by apply dispatch_pure.
  - split.
    + apply (ensures_inv (dispatch call) s (λ _ s', nodes_kept s s') r s'); [|done].
      by apply dispatch_quiet.
    + intros Hreg. apply (ensures_inv (dispatch call) s (λ _ s', users_kept s s') r s'); [|done].
      by apply (dispatch_within users_kept).
  - apply (ensures_inv (dispatch call) s (λ _ s', money_kept s s') r s'); [|done].
    by apply dispatch_thrifty.
Qed.

(** Between global operations the contract's own check of the delegation cap,
    an exported view, succeeds on every state that is reached. *)
Theorem delegation_cap_view_holds s p :
  reached s p → st_global_op_checkpoint s = GlobalOpCheckpoint.None →
  dispatch Call.validateDelegationCapInvariant s = Ok ([], s).
Proof.
  intros [[A HA] _ _]%reached_ok Hnone. simpl in HA. rewrite Hnone in HA.
  destruct HA as [HI [Hcap _]]. simpl dispatch. unfold nothing.
  enough (validate_delegation_cap_invariant s = Ok (tt, s)) as Hv by (unfold bind; by rewrite Hv).
  unfold validate_delegation_cap_invariant, stake_of_type, get_total_delegation_cap,
    is_bootstrap_mode, bind, gets, zoom. rewrite !(stake_total (inv_rep _ _ HI)).
  unfold within_cap, cap_ok, bootstrap_of, cap_of in Hcap. simpl.
  destruct (bootstrap_mode (st_settings s)); unfold require.
  - rewrite (proj2 (N.ltb_lt _ _) Hcap). by destruct s.
  - rewrite (proj2 (N.eqb_eq _ _) Hcap). by destruct s.
Qed.

(** C15: a registered delegator can withdraw on every state that is reached (as in
    C1), even while a global operation is interrupted, if the contract is not
    paused, the ids last and its balance covers the caller's withdrawable and
    deferred funds (the rest may be staked with the auction): the call pays the
    caller what the view of unbondable funds reports, or the part of it that the
    gas allows; it takes exactly that from the caller's withdrawable and due funds,
    nothing from anybody else, and the system goes on. *)
Theorem withdrawal_always_open s p :
  let a := get_caller (st_chain s) in
  let u := get_user_id a (st_users s) in
  reached s p → fits s → not_paused (st_chain s) = true → u ≠ 0 →
  get_user_stake_of_type u FundType.WithdrawOnly (st_funds s)
    + get_user_stake_of_type u FundType.DeferredPayment (st_funds s)
    ≤ get_sc_balance (st_chain s) →
  ∃ v A, dispatch (Call.getUnBondable a) s = Ok ([num v], s) ∧
    runs (dispatch Call.unBond) s (λ r s', ∃ w A', r = [num w] ∧ up_to v w s ∧
      withdrawn u w s A s' A' ∧ reached s' p).
Proof.
  intros a u Hr Hfits Hp Hu Hbal. pose proof (reached_ok s p Hr) as [[A HA] _ _]. simpl in HA.
  pose proof (op_ok_rep _ _ _ HA) as HR. exists (payable_now s A), A. split.
  { simpl dispatch. unfold bind at 1, a. by rewrite (get_unbondable_eq s A). }
  assert (user_roomy u FundType.DeferredPayment A) as Hroom.
  { pose proof (ulen_le u FundType.DeferredPayment A). destruct (fits_rep s A HR Hfits).
    unfold user_roomy. lia. }
  rewrite !(stake_user HR) in Hbal by done.
  destruct (unbond_during_op s A HA HR Hp Hu Hroom Hbal) as (w & s' & Heq & A' & Hw).
  assert (dispatch Call.unBond s = Ok ([num w], s')) as Hd.
  { simpl dispatch. unfold bind. by rewrite Heq. }
  exists [num w], s'. split; [done|]. exists w, A'. split_and!; [done|apply Hw|done|].
  eapply (reached_call Call.unBond _ s); [exact Hr|by split|exact I|exact Hd|].
  rewrite new_callbacks_kept, app_nil_r; [done|].
  pose proof (quiet_unbond nodes_kept s _) as Hk. unfold ensures, outcome in Hk.
  rewrite Heq in Hk. apply Hk.
Qed.

(** C22: the list views fail on no state that is reached, whoever asks and whatever
    is under way: with the funds those of the ledger [A], the waiting queue and
    the active stake are listed fund by fund with the addresses of their owners,
    deferred payments with the block they wait from, and all users with their
    breakdown by type, whose columns add up to the totals. *)
Theorem list_views_exact s p :
  reached s p → ∃ A, Rep (st_funds s) A ∧
    get_full_waiting_list s =
      Ok (waiting_row s <$> grp type_key FundType.Waiting (af_ledger A), s) ∧
    get_full_active_list s = Ok (active_row s <$> grp type_key FundType.Active (af_ledger A), s) ∧
    (∀ a, let u := get_user_id a (st_users s) in u ≠ 0 →
      get_user_deferred_payment_list a s =
        Ok (deferred_row <$> grp user_key (u, FundType.DeferredPayment) (af_ledger A), s)) ∧
    get_all_user_stake_by_type s = Ok (user_row s A <$> users s, s) ∧
    (∀ u, u ∈ users s → get_user_id (address_of u s) (st_users s) = u) ∧
    (∀ t, sum_over (λ u, ut_of u t A) (users s) =
      get_user_stake_of_type USER_STAKE_TOTALS_ID t (st_funds s)).
Proof.
  intros [[A HA] Hus _]%reached_ok. simpl in *. pose proof (op_ok_rep _ _ _ HA) as HR.
  pose proof (op_ok_owned _ _ _ HA) as Ho. exists A. repeat apply conj.
  - done.
  - by apply full_waiting_list_eq.
  - by apply full_active_list_eq.
  - intros a Hu. by apply deferred_payment_list_eq.
  - by apply all_user_stake_by_type_eq.
  - intros u Hu. apply (uo_address _ (adr_ok _ Hus)). by apply address_found.
  - intros t. rewrite (stake_total HR). by apply users_sum_type.
Qed.

(** C20: the cleanup of the waiting list, called by the owner between operations on
    a state that satisfies the invariant and has ids left, and started afresh or resumed
    at a fund that is still in the waiting list ([dust_resumable]: the checkpoint may
    also be that of the other cleanup or of a deleted fund, and then the invariants
    are lost, see Findings.v), succeeds: it turns exactly the waiting funds below the
    limit that it visits into withdrawable ones, keeps what everybody owns and
    all invariants, stops only at the end or when the gas runs low, and a cleanup
    that visits the whole list leaves no dust to count. *)
Theorem dust_cleanup_waiting_ok s A limit :
  get_caller (st_chain s) = get_owner_address (st_chain s) →
  st_global_op_checkpoint s = GlobalOpCheckpoint.None →
  Inv s A → staked_ok s A → fits s → dust_resumable FundType.Waiting s →
  runs (dust_cleanup_waiting_list limit) s (λ _ s', ∃ pre vs rest A',
    dgrp Backwards type_key FundType.Waiting (af_ledger A) = pre ++ vs ++ rest ∧
    (st_dust_cleanup_checkpoint s = 0 → pre = []) ∧
    waiting_cleaned limit pre vs rest s A s' A').
Proof.
  intros Hown Hop HI Hst Hf Hres. pose proof (inv_rep _ _ HI) as HR.
  destruct (resumable_split _ _ _ HR Hres) as (pre & bs & Hg & Hcur).
  pose proof (fits_rep s A HR Hf) as Hfit.
  eapply runs_mono; [apply (dust_cleanup_waiting_spec s A limit pre bs); try done|].
  { assert (N.of_nat (length bs) ≤ len_of FundType.Waiting A).
    { unfold len_of, klen. rewrite <-(length_dgrp Backwards), Hg, length_app. lia. }
    destruct Hfit. lia. }
  intros _ s' (vs & rest & A' & -> & Hc). exists pre, vs, rest, A'. split_and!; [done| |done].
  intros H0. by rewrite H0 in Hcur.
Qed.

(** C21: the cleanup of the active stake, called by the owner between operations on
    a state that satisfies the invariant and has ids left, and started afresh or resumed
    at a fund that is still active ([dust_resumable], as for the waiting list), settles the
    rewards of the owners of the funds it visits and turns exactly the visited
    active funds below the limit into unstaked ones; then waiting stake takes the
    place of unstaked stake: as much of it as is waiting, and as is unstaked (as
    the cap leaves in bootstrap mode), becomes active, and the unstaked stake it
    replaces becomes deferred payments.  Everybody owns what they owned, the stake
    of each user drops by their dust, and all invariants are kept.  It fails only
    when more than 10000 funds are unstaked, active or waiting, with the error of
    the full vector of affected users. *)
Theorem dust_cleanup_active_ok s A limit :
  get_caller (st_chain s) = get_owner_address (st_chain s) →
  st_global_op_checkpoint s = GlobalOpCheckpoint.None →
  Inv s A → staked_ok s A → fits s → dust_resumable FundType.Active s →
  let n t := count_of t (st_funds s) in
  outcome (dust_cleanup_active limit) s
    (crowded (MAX_AFFECTED_USERS
      < n FundType.UnStaked + n FundType.Active + n FundType.Waiting))
    (λ _ s', ∃ pre vs rest A',
    dgrp Backwards type_key FundType.Active (af_ledger A) = pre ++ vs ++ rest ∧
    (st_dust_cleanup_checkpoint s = 0 → pre = []) ∧
    (rest = [] ∨ low_gas (reserved_gas s) (st_chain s)) ∧
    (∃ A1, moved FundType.Active FundType.UnStaked (total (dust limit vs))
        (λ u, dust_of u limit vs) A A1 ∧ replacement (bootstrap_of s) (cap_of s) A1 A') ∧
    active_cleaned limit vs rest s A s' A').
Proof.
  intros Hown Hop HI [Hcap _] Hf Hres n. pose proof (inv_rep _ _ HI) as HR.
  destruct (resumable_split _ _ _ HR Hres) as (pre & bs & Hg & Hcur).
  eapply outcome_post; [apply (dust_cleanup_active_spec _ s A limit pre bs); try done|].
  { destruct (fits_rep s A HR Hf). unfold n. rewrite !(rep_count _ _ _ HR).
    split; [lia|apply vec_room_over; lia..]. }
  intros _ s' (vs & rest & A' & -> & Hlow & Hc). exists pre, vs, rest, A'. split_and!; try done; [|apply Hc].
  intros H0. by rewrite H0 in Hcur.
Qed.
End Theorems.

(** ** Exports *)

(** Every call is exported under its name, and every exported name is that of a
    call or an endpoint of the framework, in both contracts. *)
Definition every_call : list Call :=
  [Call.version; Call.getNumNodes; Call.getNodeId 0; Call.getNodeSignature 0;
   Call.getNodeState 0; Call.getAllNodeStates; Call.getNodeBlockNonceOfUnstake 0;
   Call.addNodes []; Call.removeNodes []; Call.getUserId 0; Call.getUserAddress 0;
   Call.getNumUsers; Call.updateUserAddress []; Call.userIdsWithoutAddress; Call.fundById 0;
   Call.totalStake; Call.getUserStake 0; Call.getUserWithdrawOnlyStake 0;
   Call.getUserWaitingStake 0; Call.getUserActiveStake 0; Call.getUserUnstakedStake 0;
   Call.getUserDeferredPaymentStake 0; Call.getTotalWithdrawOnlyStake;
   Call.getTotalWaitingStake; Call.getTotalActiveStake; Call.getTotalUnstakedStake;
   Call.getTotalDeferredPaymentStake; Call.getUserStakeByType 0; Call.getTotalStakeByType;
   Call.getAllUserStakeByType; Call.getUserDeferredPaymentList 0; Call.getFullWaitingList;
   Call.getFullActiveList; Call.stakeNodes 0 []; Call.unStakeNodes [];
   Call.unStakeNodesAndTokens []; Call.forceNodeUnBondPeriod []; Call.unBondNodes [];
   Call.unBondAllPossibleNodes; Call.claimUnusedFunds; Call.unJailNodes [] 0;
   Call.unStakeTokens 0; Call.unBondTokens 0; Call.getAuctionContractAddress;
   Call.getServiceFee; Call.getTotalDelegationCap; Call.isBootstrapMode;
   Call.getOwnerMinStakeShare; Call.getNumBlocksBeforeUnBond; Call.setNumBlocksBeforeUnBond 0;
   Call.getMinimumStake; Call.setMinimumStake 0; Call.getGlobalOperationCheckpoint;
   Call.isGlobalOperationInProgress; Call.getTotalCumulatedRewards; Call.getClaimableRewards 0;
   Call.getTotalUnclaimedRewards; Call.getTotalUnProtected; Call.validateOwnerStakeShare;
   Call.validateDelegationCapInvariant; Call.continueGlobalOperation;
   Call.modifyTotalDelegationCap 0; Call.setServiceFee 0; Call.claimRewards; Call.stake 0;
   Call.unStake 0; Call.getUnStakeable 0; Call.unBond; Call.getUnBondable 0;
   Call.dustCleanupCheckpoint; Call.countDustItemsWaitingList 0; Call.countDustItemsActive 0;
   Call.dustCleanupWaitingList 0; Call.dustCleanupActive 0].

Theorem exports_complete :
  exports_update = exports_full ∧ (call_name <$> every_call) ++ framework_endpoints = exports_full ∧
  ∀ call, call_name call ∈ call_name <$> every_call.
Proof.
  split_and!; [vm_compute; reflexivity..|].
  intros call. apply (bool_decide_unpack _). destruct call; vm_compute; exact I.
Qed.

(** ** Witnesses

    A deployment with the cap of 190; the delegation is filled, two nodes are
    registered and the first one is sent to be staked. *)
Definition first_chain : SimpleChain := mk_SimpleChain 200 200 1 0 0 [] [] [] [].
Definition funded_chain : SimpleChain := mk_SimpleChain 200 200 2 0 190 [] [] [] [].
Definition after {X} (r : result (X * State SimpleChain)) (s : State SimpleChain) :
    State SimpleChain :=
  match r with Ok (_, s') => s' | Err _ => s end.

Definition filled : State SimpleChain := after (dispatch (Call.stake 190) deployed) deployed.
Definition funded : State SimpleChain := set_chain funded_chain filled.
Definition registering : State SimpleChain :=
  after (dispatch (Call.addNodes [(11, 21); (12, 22)]) funded) funded.
Definition activating : State SimpleChain :=
  after (dispatch (Call.stakeNodes 100 [11]) registering) registering.

Lemma activating_reached : reached activating [auction_stake_callback [1]].
Proof.
  apply (reached_call (Call.stakeNodes 100 [11]) [] registering _ []);
    [|split; [split; numbers|exact I]|exact I|vm_compute; reflexivity|vm_compute; reflexivity].
  apply (reached_call (Call.addNodes [(11, 21); (12, 22)]) [] funded _ []);
    [|split; [split; numbers|numbers]|exact I|vm_compute; reflexivity|vm_compute; reflexivity].
  apply (reached_chain funded_chain filled); [|split; [numbers|intros _; reflexivity]].
  apply (reached_call (Call.stake 190) [] deployed _ []);
    [|split; [split; numbers|exact I]|exact I|vm_compute; reflexivity|vm_compute; reflexivity].
  apply (reached_deployed first_chain). exists 900, 1000, 500, 10, 5, 190.
  split_and!; [numbers|numbers|reflexivity|numbers|vm_compute; reflexivity].
Qed.

Lemma system_invariant_witness :
  total_of FundType.Active activating + total_of FundType.UnStaked activating = 190 ∧
  awaited (auction_stake_callback [1]) (state_of 1 activating).
Proof.
  destruct (system_invariant activating _ activating_reached)
    as (_ & _ & _ & Hcap & _ & _ & _ & Haw & _). split.
  - assert (bootstrap_of activating = false) as Hb by (vm_compute; reflexivity).
    rewrite Hb in Hcap. apply Hcap. vm_compute. reflexivity.
  - apply (Haw (auction_stake_callback [1]) 1); apply list_elem_of_here.
Defined.

Lemma answers_always_processed_witness :
  runs (run_callback (auction_stake_callback [1]) (CallErr "no funds")) activating (λ _ s',
    state_of 1 s' = NodeState.Inactive ∧ st_funds s' = st_funds activating ∧ reached s' []).
Proof.
  eapply runs_mono.
  { apply (answers_always_processed activating [] _ [] _ activating_reached). }
  intros _ s' (Hd & Hk & Hr). split_and!; [|apply Hk|exact Hr].
  rewrite (cd_failed _ _ _ _ Hd 1 (list_elem_of_here _ _) I). vm_compute. reflexivity.
Defined.

Lemma calls_keep_to_their_scope_witness :
  dispatch Call.getFullActiveList activating = Ok ([num 200; num 190], activating) ∧
  money_kept registering activating ∧ nodes_kept deployed filled.
Proof.
  split_and!.
  - vm_compute. reflexivity.
  - apply (calls_keep_to_their_scope (Call.stakeNodes 100 [11]) []). vm_compute. reflexivity.
  - apply (calls_keep_to_their_scope (Call.stake 190) []). vm_compute. reflexivity.
Defined.

Lemma delegation_cap_view_holds_witness :
  dispatch Call.validateDelegationCapInvariant activating = Ok ([], activating).
Proof.
  apply (delegation_cap_view_holds activating _ activating_reached). vm_compute. reflexivity.
Defined.

(** A second delegator joins the queue, leaves it again and withdraws. *)
Definition visited_by (caller balance : N) (s : State SimpleChain) : State SimpleChain :=
  set_chain (mk_SimpleChain caller 200 3 0 balance [] [] [] []) s.
Definition queued : State SimpleChain :=
  after (dispatch (Call.stake 50) (visited_by 300 90 activating)) (visited_by 300 90 activating).
Definition leaving : State SimpleChain :=
  after (dispatch (Call.unStake 50) (visited_by 300 140 queued)) (visited_by 300 140 queued).

Lemma queued_reached : reached queued [auction_stake_callback [1]].
Proof.
  apply (reached_call (Call.stake 50) [] (visited_by 300 90 activating) _
    [auction_stake_callback [1]]);
    [|split; [split; numbers|exact I]|exact I|vm_compute; reflexivity|vm_compute; reflexivity].
  apply reached_chain; [apply activating_reached|split; [numbers|intros _; vm_compute; reflexivity]].
Qed.
Lemma leaving_reached : reached leaving [auction_stake_callback [1]].
Proof.
  apply (reached_call (Call.unStake 50) [] (visited_by 300 140 queued) _
    [auction_stake_callback [1]]);
    [|split; [split; numbers|exact I]|exact I|vm_compute; reflexivity|vm_compute; reflexivity].
  apply reached_chain; [apply queued_reached|split; [numbers|intros _; vm_compute; reflexivity]].
Qed.

Lemma withdrawal_always_open_witness :
  ∃ v A, dispatch (Call.getUnBondable 300) leaving = Ok ([num v], leaving) ∧
    runs (dispatch Call.unBond) leaving (λ r s', ∃ w A', r = [num w] ∧ up_to v w leaving ∧
      withdrawn 2 w leaving A s' A' ∧ reached s' [auction_stake_callback [1]]).
Proof.
  assert (get_caller (st_chain leaving) = 300) as Ha by (vm_compute; reflexivity).
  assert (get_user_id 300 (st_users leaving) = 2) as Hu by (vm_compute; reflexivity).
  pose proof (withdrawal_always_open leaving [auction_stake_callback [1]]) as Hw.
  cbv zeta in Hw. rewrite Ha, Hu in Hw. apply Hw; [apply leaving_reached|split; numbers|reflexivity|discriminate|].
  numbers.
Defined.

Lemma list_views_exact_witness :
  ∃ A, Rep (st_funds queued) A ∧
    get_full_waiting_list queued =
      Ok (waiting_row queued <$> grp type_key FundType.Waiting (af_ledger A), queued) ∧
    dispatch Call.getFullWaitingList queued = Ok ([num 300; num 50; num 3], queued).
Proof.
  destruct (list_views_exact queued _ queued_reached) as (A & HR & Hw & _).
  exists A. split; [exact HR|]. split; [exact Hw|]. vm_compute. reflexivity.
Defined.

Lemma example_fits caller : fits (example_state caller).
Proof. split; numbers. Qed.

Lemma dust_cleanup_waiting_ok_witness :
  count_dust_items_waiting_list 25 (st_funds (example_state 100)) = Ok 1 ∧
  runs (dust_cleanup_waiting_list 25) (example_state 100) (λ _ s', ∃ vs rest A',
    dgrp Backwards type_key FundType.Waiting (af_ledger example_funds) = vs ++ rest ∧
    waiting_cleaned 25 [] vs rest (example_state 100) example_funds s' A').
Proof.
  split; [vm_compute; reflexivity|]. eapply runs_mono.
  - apply (dust_cleanup_waiting_ok (example_state 100) example_funds 25);
      [reflexivity|reflexivity|apply example_inv|apply example_staked_ok|apply example_fits|].
    left. reflexivity.
  - intros _ s' (pre & vs & rest & A' & Hg & Hpre & Hc).
    rewrite (Hpre eq_refl) in Hg, Hc. exists vs, rest, A'. split; [exact Hg|exact Hc].
Defined.

Lemma dust_cleanup_active_ok_witness :
  runs (dust_cleanup_active 60) (example_state 100) (λ _ s', ∃ vs rest A',
    dgrp Backwards type_key FundType.Active (af_ledger example_funds) = vs ++ rest ∧
    (∃ A1, moved FundType.Active FundType.UnStaked (total (dust 60 vs))
      (λ u, dust_of u 60 vs) example_funds A1 ∧ replacement false 190 A1 A') ∧
    active_cleaned 60 vs rest (example_state 100) example_funds s' A').
Proof.
  apply outcome_runs. eapply outcome_mono.
  - apply (dust_cleanup_active_ok (example_state 100) example_funds 60);
      [reflexivity|reflexivity|apply example_inv|apply example_staked_ok|apply example_fits|].
    left. reflexivity.
  - intros e [Hn _]. vm_compute in Hn. discriminate Hn.
  - intros _ s' (pre & vs & rest & A' & Hg & Hpre & _ & Hm & Hc).
    rewrite (Hpre eq_refl) in Hg. exists vs, rest, A'.
    split; [exact Hg|]. split; [exact Hm|exact Hc].
Defined.
