(* ===== verification/Findings.v ===== *)
(** * Where the program departs from its documentation

    Theorems and runs of the contract that end where a comment, a message or an
    invariant of the source says they cannot, among them one after which the
    contract owes more than it holds. *)
From stdpp Require Import base numbers list gmap strings.
From S2P Require Import Prelude PtrList FundTypes FundModule FundLedger FundSpec FundInvariant.
From S2P Require Import UserData NodeConfig Settings Chain State FundTransf FundView Rewards.
From S2P Require Import UserStake ResetCheckpoint NodeActivation Contract RewardSpec ContractInv.
From S2P Require Import FundRep FundLoops FundTotals FundMoves SolvencySpec StakeSpec EndpointSpec PayoutSpec.
From S2P Require Import GlobalOpSpec GlobalOpStart ContractSystem DustSpec Dispatch.
From S2P Require Import Examples NodeSpec NodeCalls NodeProtocol NodeTheorems System SystemTheorems.

(** The next call, by [caller], with these readings of the gas left. *)
Definition call_by (caller : N) (gas : list N) (s : State SimpleChain) : State SimpleChain :=
  let c := st_chain s in
  set_chain (mk_SimpleChain caller (sc_owner c) (sc_nonce c) (sc_rewards c) (sc_balance c)
    gas [] [] []) s.

Definition failed_with {S A} (e : Error) (r : result (A * S)) : Prop :=
  match r with Ok _ => False | Err e' => e' = e end.
Definition returned {S A} (a : A) (r : result (A * S)) : Prop :=
  match r with Ok (a', _) => a' = a | Err _ => False end.

Definition waiting_of (u : N) (s : State SimpleChain) : N :=
  get_user_stake_of_type u FundType.Waiting (st_funds s).
Definition active_of (u : N) (s : State SimpleChain) : N :=
  get_user_stake_of_type u FundType.Active (st_funds s).

(** ** Ending the bootstrap mode with a cap equal to what is staked *)

(** C39: lowering the cap to exactly what is staked, in bootstrap mode, reports
    success and ends the mode but leaves the old cap; the check that every later
    payment makes then fails, so that nobody can stake any more. *)
Theorem bootstrap_end_keeps_old_cap {C} `{Chain C} (s : State C) new_cap :
  let total t := get_user_stake_of_type USER_STAKE_TOTALS_ID t (st_funds s) in
  get_caller (st_chain s) = get_owner_address (st_chain s) →
  st_global_op_checkpoint s = GlobalOpCheckpoint.None → bootstrap_of s = true →
  new_cap = total FundType.Active + total FundType.UnStaked →
  total FundType.Waiting = 0 → new_cap ≠ cap_of s →
  runs (modify_total_delegation_cap new_cap) s (λ status s',
    status = OperationCompletionStatus.Completed ∧ bootstrap_of s' = false ∧
    cap_of s' = cap_of s ∧ st_funds s' = st_funds s ∧
    validate_delegation_cap_invariant s' = Err (Panic "delegation cap invariant violated")).
Proof.
  intros total Ho Hop Hboot Hnew Hw Hne. unfold modify_total_delegation_cap.
  apply owner_only_runs; [done|]. apply runs_bind, runs_bind, runs_gets, runs_require.
  { unfold is_global_op_in_progress. by rewrite Hop. }
  do 3 run_gets. run_gets.
  fold (total FundType.Waiting) (total FundType.Active) (total FundType.UnStaked).
  change (bootstrap_mode (st_settings s)) with (bootstrap_of s). rewrite Hboot, Hw, N.add_0_r.
  rewrite <-Hnew, (proj2 (N.ltb_ge _ _)) by lia.
  apply runs_bind, runs_bind, runs_zoom, runs_modify, runs_ret.
  rewrite N.compare_refl. apply runs_ret.
  split_and!; [done|done|done|done|].
  unfold validate_delegation_cap_invariant, stake_of_type, get_total_delegation_cap,
    is_bootstrap_mode, bind, gets. simpl.
  fold (total FundType.Active) (total FundType.UnStaked). rewrite <-Hnew.
  unfold cap_of in Hne. by rewrite (proj2 (N.eqb_neq _ _)).
Qed.

(** The owner has staked 40 of a cap of 190. *)
Definition bootstrapping : State SimpleChain :=
  transact (stake_endpoint 40) (call_by 100 []
    (transact (init 900 1000 500 10 5 190)
      (initial_State (mk_SimpleChain 100 100 1 0 100 [] [] [] [])))).

Lemma bootstrap_end_keeps_old_cap_witness :
  runs (modify_total_delegation_cap 40) bootstrapping (λ status s',
    status = OperationCompletionStatus.Completed ∧ bootstrap_of s' = false ∧
    cap_of s' = cap_of bootstrapping ∧ st_funds s' = st_funds bootstrapping ∧
    validate_delegation_cap_invariant s' = Err (Panic "delegation cap invariant violated")).
Proof.
  apply bootstrap_end_keeps_old_cap; try (vm_compute; reflexivity). vm_compute. discriminate.
Defined.

(** ** The minimum stake of a user *)

(** The check that a user keeps no less than the minimum stake reads the total
    active stake instead of the user's: it accepts every user, whatever is left,
    as soon as all users together have the minimum. *)
Theorem minimum_stake_check_accepts_anyone {C} (s : State C) user :
  min_stake (st_settings s) ≤
    get_user_stake_of_type USER_STAKE_TOTALS_ID FundType.Active (st_funds s) →
  validate_user_minimum_stake user s = Ok (tt, s).
Proof.
  intros Hmin. unfold validate_user_minimum_stake, stake_of_type, get_minimum_stake, bind, gets.
  rewrite (proj2 (N.leb_le (min_stake _) _)), orb_true_r; [done|].
  etrans; [exact Hmin|]. lia.
Qed.

(** User 2 keeps 2 of active stake and nothing waiting, below the minimum of 5. *)
Definition left_below_minimum : State SimpleChain :=
  transact (unstake_endpoint 78) (call_by 200 [] (example_state 200)).

Lemma minimum_stake_check_accepts_anyone_witness :
  waiting_of 2 left_below_minimum + active_of 2 left_below_minimum = 2 ∧
  min_stake (st_settings left_below_minimum) = 5 ∧
  validate_user_minimum_stake 2 left_below_minimum = Ok (tt, left_below_minimum).
Proof.
  split; [vm_compute; reflexivity|]. split; [vm_compute; reflexivity|].
  apply minimum_stake_check_accepts_anyone. vm_compute. discriminate.
Defined.

(** ** The service fee *)

(** A stranger sets the service fee to 90 per cent. *)
Lemma service_fee_set_by_a_stranger :
  let s := call_by 555 [] (example_state 100) in
  get_caller (st_chain s) ≠ get_owner_address (st_chain s) ∧
  returned OperationCompletionStatus.Completed (set_service_fee_endpoint 9000 s) ∧
  service_fee (st_settings (transact (set_service_fee_endpoint 9000) s)) = 9000.
Proof. split; [discriminate|]. split; vm_compute; reflexivity. Qed.

(** ** The dust cleanup *)

(** The owner's cleanup of the waiting list is interrupted at fund 4. *)
Definition dust_interrupted : State SimpleChain :=
  transact (dust_cleanup_waiting_list 100) (call_by 100 [10 ^ 12; 0] (example_state 100)).
(** User 2 unstakes that fund, which is deleted. *)
Definition dust_fund_gone : State SimpleChain :=
  transact (unstake_endpoint 30) (call_by 200 [] dust_interrupted).
(** The owner goes on. *)
Definition dust_resumed : State SimpleChain :=
  transact (dust_cleanup_waiting_list 100) (call_by 100 [] dust_fund_gone).

(** Resuming on a deleted fund does not reset the cleanup: it converts the empty
    entry and so empties the list of withdrawable funds, whose total stays. *)
Lemma dust_cleanup_of_a_deleted_fund_corrupts :
  check_consistency (st_funds dust_fund_gone) 3 = true ∧
  returned tt (dust_cleanup_waiting_list 100 (call_by 100 [] dust_fund_gone)) ∧
  fund_list_by_type FundType.WithdrawOnly (st_funds dust_resumed) = mk_FundsListInfo 57 0 0 ∧
  check_consistency (st_funds dust_resumed) 3 = false.
Proof. split_and!; vm_compute; reflexivity. Qed.

(** The cleanup of active stake resumes where the cleanup of the waiting list was
    interrupted: it unstakes waiting stake, and breaks the cap. *)
Lemma dust_cleanup_active_unstakes_waiting :
  let s := call_by 100 [] dust_interrupted in
  let s' := transact (dust_cleanup_active 40) s in
  returned tt (dust_cleanup_active 40 s) ∧
  waiting_of USER_STAKE_TOTALS_ID s = 30 ∧ waiting_of USER_STAKE_TOTALS_ID s' = 0 ∧
  active_of USER_STAKE_TOTALS_ID s' = active_of USER_STAKE_TOTALS_ID s ∧
  failed_with (Panic "delegation cap invariant violated") (stake_endpoint 10 (call_by 400 [] s')).
Proof. split_and!; vm_compute; reflexivity. Qed.

(** The cleanup of the waiting list walks the list of whatever fund is at the
    checkpoint.  What a walk that settles no rewards keeps: *)
Section Misdirected.
Context {C : Type} `{!Chain C, !ChainLaws C}.
Implicit Type s : State C.

Record only_funds s s' : Prop := {
  of_settings : st_settings s' = st_settings s;
  of_rewards : st_rewards s' = st_rewards s;
  of_reads : reads (st_chain s) (st_chain s');
}.

Lemma sweep_unsettled s A t d limit gas cur pre bs :
  Rep (st_funds s) A → fund_type d ≠ t → dgrp Backwards type_key t (af_ledger A) = pre ++ bs →
  (if cur =? 0 then pre = [] else cur = head0 (ids bs)) →
  af_max A + N.of_nat (length bs) < usize_max_plus_1 →
  runs (swap_dust cur limit t (λ _, ret (Some d)) (gas_below gas)) s (λ r s', ∃ vs rest A',
    bs = vs ++ rest ∧ (rest = [] ∨ low_gas gas (st_chain s)) ∧ r = head0 (ids rest) ∧
    Rep (st_funds s') A' ∧ only_funds s s' ∧
    moved t (fund_type d) (total (dust limit vs)) (λ u, dust_of u limit vs) A A').
Proof.
  intros HR Hd Hg Hcur Hmax. eapply runs_mono.
  { apply (split_convert_checkpoint_rep (λ s1 A1, Rep (st_funds s1) A1 ∧ only_funds s s1)
      (low_gas gas (st_chain s)) Backwards t (gas_below gas)
      (λ i, if balance i <? limit then ret (Some d) else ret None) (sweep limit d))
      with (A := A) (pre := pre) (bs := bs); try done.
    - by intros s1 A1 [? _].
    - intros s1 A1 [HR1 [Hs Hr Hre]].
      destruct (gas_below_eq s1 gas) as (stop & c & Heq & _ & _ & Hc & Hlow).
      eapply runs_eq; [exact Heq|]. split; [|split; [done|split; [done|done|by etrans]]].
      intros Hst. eapply low_gas_reads; [exact Hre|by apply Hlow].
    - intros s1 A1 b [HR1 Ho] Hb Ht. change (balance (item_of (af_ledger A1) b)) with (b_bal b).
      unfold sweep. destruct (b_bal b <? limit); apply runs_ret; (split; [done|]);
        (split; [done|]); intros d' fs [= <-] HR'. split; [done|]. by destruct Ho.
    - by intros b d' [-> _]%sweep_Some. }
  intros r s' (vs & rest & -> & Hst & -> & HR' & Ho).
  exists vs, rest, (snd (l_convert_all (sweep limit d) None vs A)). split_and!; try done.
  rewrite <-(sweep_extracted limit d vs).
  destruct (convert_all_moved type_key (sweep limit d) t (fund_type d) (λ _ _, eq_refl)
    ltac:(by intros b d' [-> _]%sweep_Some) (not_eq_sym Hd) Backwards t None vs A pre rest
    ltac:(done) (rep_af_ok _ _ _ HR) Hg) as [M1 M2 M3 M4 M5 M6].
  split; try done; intros u; rewrite <-(sweep_flow u limit d); auto.
Qed.

(** Away from the start of a list the type makes no difference. *)
Lemma swap_dust_stored id limit t t' f (g : M (State C) bool) :
  id ≠ 0 → swap_dust id limit t f g = swap_dust id limit t' f g.
Proof.
  intros Hne. unfold swap_dust, split_convert_max_by_type_with_checkpoint.
  by rewrite (proj2 (N.eqb_neq id 0)).
Qed.

Lemma cap_broken s A :
  Rep (st_funds s) A → bootstrap_of s = false →
  tt_of FundType.Active A + tt_of FundType.UnStaked A ≠ cap_of s →
  validate_delegation_cap_invariant s = Err (Panic "delegation cap invariant violated").
Proof.
  intros HR Hb Hne. unfold validate_delegation_cap_invariant, stake_of_type,
    get_total_delegation_cap, is_bootstrap_mode, bind, gets, zoom. rewrite !(stake_total HR).
  unfold bootstrap_of in Hb. rewrite Hb. unfold require, cap_of in *.
  by rewrite (proj2 (N.eqb_neq _ _)).
Qed.

(** C40: on any consistent fund storage with ids left, between operations, if the
    shared checkpoint is at an active fund, where [dustCleanupActive] was
    interrupted, then the owner's [dustCleanupWaitingList] succeeds and turns the
    active funds from there on that are below the limit into withdrawable ones,
    without settling the rewards of their owners; and if there is any such fund,
    the check of the delegation cap that every stake makes, which held before, then
    fails (outside bootstrap mode). *)
Theorem waiting_cleanup_takes_active_stake s A limit i :
  get_caller (st_chain s) = get_owner_address (st_chain s) →
  st_global_op_checkpoint s = GlobalOpCheckpoint.None → Rep (st_funds s) A →
  af_max A + len_of FundType.Active A < usize_max_plus_1 →
  fs_fund_by_id (st_funds s) !! st_dust_cleanup_checkpoint s = Some i →
  fund_type (fund_desc i) = FundType.Active →
  runs (dust_cleanup_waiting_list limit) s (λ _ s', ∃ pre vs rest A',
    dgrp Backwards type_key FundType.Active (af_ledger A) = pre ++ vs ++ rest ∧
    st_dust_cleanup_checkpoint s = head0 (ids (vs ++ rest)) ∧
    (rest = [] ∨ low_gas DUST_GASLIMIT (st_chain s)) ∧ Rep (st_funds s') A' ∧
    st_rewards s' = st_rewards s ∧
    moved FundType.Active FundType.WithdrawOnly (total (dust limit vs))
      (λ u, dust_of u limit vs) A A' ∧
    (bootstrap_of s = false → within_cap s A → 0 < total (dust limit vs) →
      validate_delegation_cap_invariant s' = Err (Panic "delegation cap invariant violated"))).
Proof.
  intros Hown Hop HR Hmax Hi Ht. set (id := st_dust_cleanup_checkpoint s) in *.
  destruct (stored_split Backwards FundType.Active id HR) as (pre & bs & Hg & Hcur);
    [right; by exists i|].
  assert (id ≠ 0) as Hne.
  { intros H0. rewrite H0, (rep_none _ _ _ HR 0) in Hi; [done| |done].
    intros (b & Hz & Hb)%list_elem_of_fmap. pose proof (rep_id_pos HR b Hb). lia. }
  unfold dust_cleanup_waiting_list. apply owner_only_runs; [done|]. apply runs_bind.
  eapply runs_eq; [by apply no_global_op_ok|]. eapply runs_mono.
  { apply update_dust_spec. fold id. rewrite (swap_dust_stored id limit _ FundType.Active) by done.
    apply (sweep_unsettled s A FundType.Active FundDescription.WithdrawOnly limit DUST_GASLIMIT
      id pre bs); try done.
    unfold len_of, klen in Hmax. rewrite <-(length_dgrp Backwards), Hg, length_app in Hmax. lia. }
  intros _ s' (r & s1 & (vs & rest & A' & -> & Hst & -> & HR' & [Es Er _] & Hm) & ->).
  rewrite (proj2 (N.eqb_neq id 0)) in Hcur by done.
  exists pre, vs, rest, A'. split_and!; try done. intros Hb Hcap Hpos.
  apply (cap_broken _ A'); [done|unfold bootstrap_of; simpl; by rewrite Es|].
  unfold within_cap, cap_ok in Hcap. rewrite Hb in Hcap. unfold cap_of in *. simpl. rewrite Es.
  pose proof (mv_src _ _ _ _ _ _ Hm). pose proof (mv_other _ _ _ _ _ _ Hm FundType.UnStaked
    ltac:(done) ltac:(done)). lia.
Qed.
End Misdirected.

(** A cleanup of active stake was interrupted at fund 2 of the example. *)
Definition misdirected : State SimpleChain := set_dust_cleanup_checkpoint 2 (example_state 100).

Lemma enough_gas (c : SimpleChain) limit : sc_gas c = [] → limit ≤ 10 ^ 12 → ¬ low_gas limit c.
Proof.
  intros Hg Hl (c' & Hr & Hlt). assert (c' = c) as ->.
  { clear Hlt. induction Hr as [|c c1 c2 Hc _ IH]; [done|].
    simpl in Hc. rewrite Hg in Hc. simpl in Hc. subst c1. by apply IH. }
  simpl in Hlt. rewrite Hg in Hlt. simpl in Hlt. lia.
Qed.

Lemma waiting_cleanup_takes_active_stake_witness :
  runs (dust_cleanup_waiting_list 60) misdirected (λ _ s',
    active_of USER_STAKE_TOTALS_ID misdirected = 150 ∧
    active_of USER_STAKE_TOTALS_ID s' = 100 ∧ st_rewards s' = st_rewards misdirected ∧
    validate_delegation_cap_invariant s' = Err (Panic "delegation cap invariant violated")).
Proof.
  eapply runs_mono.
  { apply (waiting_cleanup_takes_active_stake misdirected example_funds 60
      (fund_by_id 2 (st_funds misdirected)));
      [reflexivity|reflexivity|apply example_rep|numbers|vm_compute; reflexivity|
       vm_compute; reflexivity]. }
  intros _ s' (pre & vs & rest & A' & Hg & Hcur & Hrest & HR & Hr & Hm & Hcap).
  destruct Hrest as [->|Hlow]; [|by apply enough_gas in Hlow; [| |numbers]].
  rewrite app_nil_r in Hg, Hcur.
  assert (dgrp Backwards type_key FundType.Active (af_ledger example_funds) =
    [mk_Bucket 2 2 FundDescription.Active 50; mk_Bucket 1 1 FundDescription.Active 100]) as Hl
    by (vm_compute; reflexivity).
  rewrite Hl in Hg. change (2 = head0 (ids vs)) in Hcur.
  assert (vs = [mk_Bucket 2 2 FundDescription.Active 50; mk_Bucket 1 1 FundDescription.Active 100])
    as ->.
  { destruct pre as [|b1 pre]; [by symmetry|]. simpl in Hg. injection Hg as _ Hg.
    destruct pre as [|b2 pre]; simpl in Hg; [by rewrite <-Hg in Hcur|]. injection Hg as _ Hg.
    symmetry in Hg. apply app_eq_nil in Hg as [_ Hg]. by rewrite Hg in Hcur. }
  assert (total (dust 60 [mk_Bucket 2 2 FundDescription.Active 50;
    mk_Bucket 1 1 FundDescription.Active 100]) = 50) as Hd by (vm_compute; reflexivity).
  rewrite Hd in Hm, Hcap. split; [vm_compute; reflexivity|].
  split; [|split; [exact Hr|apply Hcap; [reflexivity|vm_compute; reflexivity|numbers]]].
  unfold active_of. rewrite (stake_total HR). pose proof (mv_src _ _ _ _ _ _ Hm) as Hs.
  assert (tt_of FundType.Active example_funds = 150) as Ha by (vm_compute; reflexivity). lia.
Defined.

(** The run that follows, from a deployment with the cap of 190: the owner (100), 200
    and 300 stake 100, 50 and 40; the cleanup of active stake is interrupted at
    the fund of 300; rewards of 1000 come in, and 300 claims; the cleanup of the
    waiting list goes on from the fund of 300. *)
Definition on_chain (caller rewards balance : N) (gas : list N) (s : State SimpleChain) :
    State SimpleChain :=
  set_chain (mk_SimpleChain caller 100 (sc_nonce (st_chain s)) rewards balance gas [] [] []) s.
Definition staked_by_three : State SimpleChain :=
  transact (stake_endpoint 40) (on_chain 300 0 190 []
    (transact (stake_endpoint 50) (on_chain 200 0 150 []
      (transact (stake_endpoint 100) (on_chain 100 0 100 []
        (transact (init 900 1000 500 10 5 190)
          (initial_State (mk_SimpleChain 100 100 1 0 0 [] [] [] [])))))))).
Definition active_interrupted : State SimpleChain :=
  on_chain 300 1000 1190 []
    (transact (dust_cleanup_active 60) (on_chain 100 0 190 [10 ^ 12; 0] staked_by_three)).
Definition one_claimed : State SimpleChain :=
  let s := transact claim_rewards active_interrupted in
  on_chain 100 1000 (get_sc_balance (st_chain s)) [] s.
Definition overdrawn : State SimpleChain := transact (dust_cleanup_waiting_list 60) one_claimed.

(** The contract then owes more than it holds: the part of the rewards that 300 was
    paid, and that 200 should have had, goes to the owner once more. *)
Lemma interrupted_cleanups_end_insolvent :
  returned tt (dust_cleanup_active 60 (on_chain 100 0 190 [10 ^ 12; 0] staked_by_three)) ∧
  returned tt (claim_rewards active_interrupted) ∧
  returned tt (dust_cleanup_waiting_list 60 one_claimed) ∧
  (claimable 1 one_claimed, claimable 2 one_claimed, claimable 3 one_claimed) = (573, 236, 0) ∧
  (claimable 1 overdrawn, claimable 2 overdrawn, claimable 3 overdrawn) = (999, 0, 0) ∧
  get_total_stake (st_funds overdrawn) = 190 ∧ get_sc_balance (st_chain overdrawn) = 1001 ∧
  cumulated overdrawn = 1000 ∧ rs_sent_rewards (st_rewards overdrawn) = 189.
Proof. split_and!; vm_compute; reflexivity. Qed.

(** The cleanup of active stake leaves it unstaked, not withdrawable. *)
Lemma dust_cleanup_active_leaves_unstaked :
  let s := call_by 100 [] (example_state 100) in
  let s' := transact (dust_cleanup_active 60) s in
  let of_type t s := get_user_stake_of_type USER_STAKE_TOTALS_ID t (st_funds s) in
  active_of 2 s = 50 ∧ active_of 2 s' = 30 ∧
  of_type FundType.WithdrawOnly s' = of_type FundType.WithdrawOnly s.
Proof. split_and!; vm_compute; reflexivity. Qed.

(** ** Forcing the unbonding period *)

(** A node that waits for its unbonding and is forced into its unbonding period
    makes the failing callback of its call panic. *)
Definition unbonding_called : State SimpleChain :=
  transact (unbond_specific_nodes_endpoint [15; 16]) (with_nodes 100).
Lemma forced_node_breaks_callback :
  let s := transact (force_node_unbond_period [15]) unbonding_called in
  failed_with (Panic "node not pending unbond")
    (run_callback (auction_unbond_callback [5; 6]) (CallErr "too early") s).
Proof. vm_compute. reflexivity. Qed.
