(* ===== verification/AuctionMock.v ===== *)
(** * The auction mock (auction-mock/src/lib.rs, auction-mock/src/storage.rs)

    The stand-in for the auction contract that the scenarios run against: it
    records the keys of each call, reports a deliberate error for chosen keys or
    fails altogether, takes the exact stake of its nodes and pays it back when
    they are unbonded. *)
From stdpp Require Import base numbers list gmap strings.
From S2P Require Import Prelude UserData NodeConfig Chain.

Module Auction.

(** ** Storage (storage.rs) *)
Record AuctionStore := mk_AuctionStore {
  as_stake_per_node : N;
  as_num_nodes : N;
  as_stake_bls_key : gmap N BLSKey;
  as_stake_bls_sig : gmap N BLSSignature;
  as_unstake_bls_key : gmap N BLSKey;
  as_unbond_bls_key : gmap N BLSKey;
  as_staking_failure : bool;
  as_bls_deliberate_error : gmap BLSKey N;
  as_unjailed : list BLSKey;
}.

Definition empty_AuctionStore : AuctionStore :=
  mk_AuctionStore 0 0 ∅ ∅ ∅ ∅ false ∅ [].

Definition set_num_nodes (n : N) (a : AuctionStore) : AuctionStore :=
  mk_AuctionStore (as_stake_per_node a) n (as_stake_bls_key a) (as_stake_bls_sig a)
    (as_unstake_bls_key a) (as_unbond_bls_key a) (as_staking_failure a)
    (as_bls_deliberate_error a) (as_unjailed a).
Definition set_stake_bls_key (node_index : N) (k : BLSKey) (a : AuctionStore) : AuctionStore :=
  mk_AuctionStore (as_stake_per_node a) (as_num_nodes a) (<[node_index := k]> (as_stake_bls_key a))
    (as_stake_bls_sig a) (as_unstake_bls_key a) (as_unbond_bls_key a) (as_staking_failure a)
    (as_bls_deliberate_error a) (as_unjailed a).
Definition set_stake_bls_signature (node_index : N) (g : BLSSignature) (a : AuctionStore)
    : AuctionStore :=
  mk_AuctionStore (as_stake_per_node a) (as_num_nodes a) (as_stake_bls_key a)
    (<[node_index := g]> (as_stake_bls_sig a)) (as_unstake_bls_key a) (as_unbond_bls_key a)
    (as_staking_failure a) (as_bls_deliberate_error a) (as_unjailed a).
Definition set_unstake_bls_key (node_index : N) (k : BLSKey) (a : AuctionStore) : AuctionStore :=
  mk_AuctionStore (as_stake_per_node a) (as_num_nodes a) (as_stake_bls_key a) (as_stake_bls_sig a)
    (<[node_index := k]> (as_unstake_bls_key a)) (as_unbond_bls_key a) (as_staking_failure a)
    (as_bls_deliberate_error a) (as_unjailed a).
Definition set_unbond_bls_key (node_index : N) (k : BLSKey) (a : AuctionStore) : AuctionStore :=
  mk_AuctionStore (as_stake_per_node a) (as_num_nodes a) (as_stake_bls_key a) (as_stake_bls_sig a)
    (as_unstake_bls_key a) (<[node_index := k]> (as_unbond_bls_key a)) (as_staking_failure a)
    (as_bls_deliberate_error a) (as_unjailed a).
Definition set_staking_failure (will_fail : bool) (a : AuctionStore) : AuctionStore :=
  mk_AuctionStore (as_stake_per_node a) (as_num_nodes a) (as_stake_bls_key a) (as_stake_bls_sig a)
    (as_unstake_bls_key a) (as_unbond_bls_key a) will_fail
    (as_bls_deliberate_error a) (as_unjailed a).
Definition set_bls_deliberate_error (k : BLSKey) (err_code : N) (a : AuctionStore) : AuctionStore :=
  mk_AuctionStore (as_stake_per_node a) (as_num_nodes a) (as_stake_bls_key a) (as_stake_bls_sig a)
    (as_unstake_bls_key a) (as_unbond_bls_key a) (as_staking_failure a)
    (<[k := err_code]> (as_bls_deliberate_error a)) (as_unjailed a).
Definition set_unjailed (ks : list BLSKey) (a : AuctionStore) : AuctionStore :=
  mk_AuctionStore (as_stake_per_node a) (as_num_nodes a) (as_stake_bls_key a) (as_stake_bls_sig a)
    (as_unstake_bls_key a) (as_unbond_bls_key a) (as_staking_failure a)
    (as_bls_deliberate_error a) ks.

(** An entry never written reads as 0. *)
Definition get_bls_deliberate_error (k : BLSKey) (a : AuctionStore) : N :=
  default 0 (as_bls_deliberate_error a !! k).

(** ** The contract (lib.rs) *)
Record AuctionState (C : Type) := mk_AuctionState {
  au_store : AuctionStore;
  au_chain : C;
}.
Arguments mk_AuctionState {C}.
Arguments au_store {C}.
Arguments au_chain {C}.

(** A returned buffer: a key, or the one byte of an error code, each read as a
    number. *)
Abbreviation Buffer := N (only parsing).

Section AuctionMock.
Context {C : Type} `{Chain C}.

#[export] Program Instance auction_store_lens : Lens (AuctionState C) AuctionStore := {|
  lens_get := au_store;
  lens_set a m := mk_AuctionState a (au_chain m) |}.
Next Obligation. done. Qed.
Next Obligation. by intros []. Qed.
Next Obligation. done. Qed.

Definition pay_caller (amount : N) : M (AuctionState C) unit := λ m,
  match direct_egld (get_caller (au_chain m)) amount (au_chain m) with
  | Ok c => Ok (tt, mk_AuctionState (au_store m) c)
  | Err e => Err e
  end.

Definition init : M (AuctionState C) unit := ret tt.

Definition require_no_staking_failure : M (AuctionState C) unit :=
  let! failure := gets (λ m, as_staking_failure (au_store m)) in
  require (negb failure) "auction smart contract deliberate error".

(** A key with a deliberate error is returned with its code. *)
Definition push_error (bls_key : BLSKey) (result_err_data : list Buffer)
    : M (AuctionState C) (list Buffer) :=
  let! err_code := gets (λ m, get_bls_deliberate_error bls_key (au_store m)) in
  if 0 <? err_code then ret (result_err_data ++ [bls_key] ++ [err_code])
  else ret result_err_data.

Definition stake_one (key_sig_pair : BLSKey * BLSSignature) (acc : N * list Buffer)
    : M (AuctionState C) (N * list Buffer) :=
  let '(new_num_nodes, result_err_data) := acc in
  let new_num_nodes := usize_add new_num_nodes 1 in
  let '(bls_key, bls_sig) := key_sig_pair in
  zoom (modify (set_stake_bls_key new_num_nodes bls_key)) ;;;
  zoom (modify (set_stake_bls_signature new_num_nodes bls_sig)) ;;;
  let! result_err_data := push_error bls_key result_err_data in
  ret (new_num_nodes, result_err_data).

(** Every pair is two arguments. *)
Definition stake (num_nodes : N) (bls_keys_signatures : list (BLSKey * BLSSignature))
    (payment : N) : M (AuctionState C) (list Buffer) :=
  require ((num_nodes * 2) mod usize_max_plus_1
      =? 2 * N.of_nat (length bls_keys_signatures)) "incorrect number of arguments" ;;;
  require_no_staking_failure ;;;
  let! new_num_nodes := gets (λ m, as_num_nodes (au_store m)) in
  let! stake_per_node := gets (λ m, as_stake_per_node (au_store m)) in
  let expected_payment := num_nodes * stake_per_node in
  require (payment =? expected_payment) "incorrect payment to auction mock" ;;;
  let! '(new_num_nodes, result_err_data) :=
    for_each bls_keys_signatures (new_num_nodes, []) stake_one in
  zoom (modify (set_num_nodes new_num_nodes)) ;;;
  ret result_err_data.

(** The loops of [unStake] and [unBond] count their keys from 0. *)
Definition record_key (set_key : N → BLSKey → AuctionStore → AuctionStore) (bls_key : BLSKey)
    (acc : N * list Buffer) : M (AuctionState C) (N * list Buffer) :=
  let '(n, result_err_data) := acc in
  zoom (modify (set_key n bls_key)) ;;;
  let! result_err_data := push_error bls_key result_err_data in
  ret (n + 1, result_err_data).

Definition unstake_endpoint (bls_keys : list BLSKey) : M (AuctionState C) (list Buffer) :=
  require_no_staking_failure ;;;
  let! '(_, result_err_data) := for_each bls_keys (0, []) (record_key set_unstake_bls_key) in
  ret result_err_data.

Definition unstake_nodes_endpoint (bls_keys : list BLSKey) : M (AuctionState C) (list Buffer) :=
  unstake_endpoint bls_keys.

Definition unbond_endpoint (bls_keys : list BLSKey) : M (AuctionState C) (list Buffer) :=
  require_no_staking_failure ;;;
  let bls_keys_len := N.of_nat (length bls_keys) in
  let! '(_, result_err_data) := for_each bls_keys (0, []) (record_key set_unbond_bls_key) in
  let! stake_per_node := gets (λ m, as_stake_per_node (au_store m)) in
  let unbond_stake := stake_per_node * bls_keys_len in
  pay_caller unbond_stake ;;;
  ret result_err_data.

Definition unbond_nodes_endpoint (bls_keys : list BLSKey) : M (AuctionState C) (list Buffer) :=
  unbond_endpoint bls_keys.

Definition unstake_tokens (_amount : N) : M (AuctionState C) unit := ret tt.
Definition unbond_tokens (amount : N) : M (AuctionState C) unit := pay_caller amount.
Definition claim : M (AuctionState C) unit := ret tt.
Definition unjail_endpoint (bls_keys : list BLSKey) (_fine_payment : N)
    : M (AuctionState C) unit :=
  zoom (modify (set_unjailed bls_keys)).

(** The endpoint that a call names, run with the value sent with it. *)
Definition run_auction_call (call : AuctionCall) (egld : N) : M (AuctionState C) (list Buffer) :=
  match call with
  | auction_stake num_nodes bls_keys_signatures => stake num_nodes bls_keys_signatures egld
  | auction_unstake bls_keys => unstake_endpoint bls_keys
  | auction_unstake_nodes bls_keys => unstake_nodes_endpoint bls_keys
  | auction_unbond bls_keys => unbond_endpoint bls_keys
  | auction_unbond_nodes bls_keys => unbond_nodes_endpoint bls_keys
  | auction_unstake_tokens amount => unstake_tokens amount ;;; ret []
  | auction_unbond_tokens amount => unbond_tokens amount ;;; ret []
  | auction_claim => claim ;;; ret []
  | auction_unjail bls_keys => unjail_endpoint bls_keys egld ;;; ret []
  end.
End AuctionMock.
(** ** Names (latest/src/auction_proxy.rs and auction-mock/wasm/src/lib.rs) *)
Definition auction_call_name (call : AuctionCall) : string :=
  match call with
  | auction_stake _ _ => "stake"
  | auction_unstake _ => "unStake"
  | auction_unstake_nodes _ => "unStakeNodes"
  | auction_unbond _ => "unBond"
  | auction_unbond_nodes _ => "unBondNodes"
  | auction_unstake_tokens _ => "unStakeTokens"
  | auction_unbond_tokens _ => "unBondTokens"
  | auction_claim => "claim"
  | auction_unjail _ => "unJail"
  end.

Definition auction_exports : list string :=
  ["stake"; "unStake"; "unStakeNodes"; "unBond"; "unBondNodes"; "unStakeTokens"; "unBondTokens";
   "claim"; "unJail"; "setBlsDeliberateError"; "getBlsDeliberateError"].

(** Every call that the contract makes has its endpoint in the mock, and every
    endpoint but those of the deliberate errors is for such a call. *)
Lemma auction_calls_exported :
  (∀ call, auction_call_name call ∈ auction_exports) ∧
  ∀ name, name ∈ auction_exports →
    name = "setBlsDeliberateError" ∨ name = "getBlsDeliberateError" ∨
    ∃ call, auction_call_name call = name.
Proof.
  split.
  - intros call. apply (bool_decide_unpack _). by destruct call.
  - intros name. unfold auction_exports. rewrite !elem_of_cons, elem_of_nil.
    intros [->|[->|[->|[->|[->|[->|[->|[->|[->|[->|[->|[]]]]]]]]]]]]; auto; right; right.
    + by exists (auction_stake 0 []).
    + by exists (auction_unstake []).
    + by exists (auction_unstake_nodes []).
    + by exists (auction_unbond []).
    + by exists (auction_unbond_nodes []).
    + by exists (auction_unstake_tokens 0).
    + by exists (auction_unbond_tokens 0).
    + by exists auction_claim.
    + by exists (auction_unjail []).
Qed.
End Auction.
