(* ===== verification/World.v ===== *)
(** * A blockchain to run scenarios on

    The contract, the auction mock and accounts with their balances.  A
    transaction runs an exported call; the call to the auction that it leaves
    with is executed at once, and so is its callback; the value of a failed call
    comes back.  Reading the gas takes [w_gas_step] of it: nothing in the debugger
    that runs the contract as Rust code, something on a virtual machine. *)
From stdpp Require Import base numbers list gmap strings.
From S2P Require Import Prelude FundTypes FundModule UserData NodeConfig Settings Chain State.
From S2P Require Import FundTransf FundView Rewards UserStake ResetCheckpoint NodeActivation Contract.
From S2P Require Import Dispatch NodeCalls AuctionMock.

(** ** The world *)
Record World := mk_World {
  w_contract : State SimpleChain;
  w_auction : Auction.AuctionStore;
  w_balances : gmap Address N;
  w_owner : Address;
  w_nonce : N;
  w_rewards : N;
  w_gas_step : N;
}.

Definition sc_delegation : Address := 1.
Definition sc_auction : Address := 2.

Definition balance_of (a : Address) (w : World) : N := default 0 (w_balances w !! a).
Definition set_balance_of (a : Address) (v : N) (w : World) : World :=
  mk_World (w_contract w) (w_auction w) (<[a := v]> (w_balances w)) (w_owner w) (w_nonce w)
    (w_rewards w) (w_gas_step w).
Definition credit (w : World) (transfer : Address * N) : World :=
  let '(a, v) := transfer in set_balance_of a (balance_of a w + v) w.
Definition set_contract (s : State SimpleChain) (w : World) : World :=
  mk_World s (w_auction w) (w_balances w) (w_owner w) (w_nonce w) (w_rewards w)
    (w_gas_step w).
Definition set_auction (a : Auction.AuctionStore) (w : World) : World :=
  mk_World (w_contract w) a (w_balances w) (w_owner w) (w_nonce w) (w_rewards w)
    (w_gas_step w).
Definition set_block (owner : Address) (nonce rewards : N) (w : World) : World :=
  mk_World (w_contract w) (w_auction w) (w_balances w) owner nonce rewards (w_gas_step w).

(** The readings of the gas, more than a transaction of a scenario makes. *)
Definition readings (gas : N) (w : World) : list N :=
  (λ i, gas - w_gas_step w * N.of_nat i) <$> seq 1 100.

(** What a contract at [a] sees when [caller] calls it with [value]. *)
Definition chain_for (caller : Address) (gas : N) (a : Address) (value : N) (w : World)
    : SimpleChain :=
  mk_SimpleChain caller (w_owner w) (w_nonce w) (w_rewards w) (balance_of a w + value)
    (readings gas w) [] [] [].

(** After a run the balance of the contract is what its chain says, and what it
    sent has arrived. *)
Definition settle (a : Address) (c : SimpleChain) (w : World) : World :=
  foldl credit (set_balance_of a (sc_balance c) w) (sc_transfers c).

(** ** Transactions *)
Inductive Outcome : Set :=
| out (values : list Value)
| user_error (msg : string)
| vm_error.

Definition outcome_of_error (e : Error) : Outcome :=
  match e with Panic msg => user_error msg | _ => vm_error end.

(** The value sent with a call. *)
Definition payment_of (call : Call) : N :=
  match call with
  | Call.stake payment => payment
  | Call.unJailNodes _ fine_payment => fine_payment
  | _ => 0
  end.

Definition pairs (buffers : list N) : list (BLSKey * N) :=
  (fix go l := match l with k :: c :: l => (k, c) :: go l | _ => [] end) buffers.

(** The call of the contract to the auction, and the answer to it. *)
Definition run_async (gas : N) (call : AsyncCall) (w : World) : World * CallResult :=
  let m := Auction.mk_AuctionState (w_auction w)
             (chain_for sc_delegation gas sc_auction (ac_egld call) w) in
  match Auction.run_auction_call (ac_call call) (ac_egld call) m with
  | Ok (buffers, m') =>
      (settle sc_auction (Auction.au_chain m') (set_auction (Auction.au_store m') w),
       CallOk (pairs buffers))
  | Err e =>
      (credit w (sc_delegation, ac_egld call),
       CallErr (match e with Panic msg => msg | _ => "execution failed" end))
  end.

Definition run_answer (gas : N) (cb : option Callback) (res : CallResult) (w : World)
    : World * list Event :=
  match cb with
  | None => (w, [])
  | Some cb =>
      let s := set_chain (chain_for sc_auction gas sc_delegation 0 w) (w_contract w) in
      match run_callback cb res s with
      | Ok (_, s') => (settle sc_delegation (st_chain s') (set_contract s' w), sc_events (st_chain s'))
      | Err _ => (w, [])
      end
  end.

Definition run_asyncs (gas : N) (calls : list AsyncCall) (w : World) : World * list Event :=
  foldl (λ '(w, events) call,
    let '(w, res) := run_async gas call w in
    let '(w, events') := run_answer gas (ac_callback call) res w in
    (w, events ++ events')) (w, []) calls.

(** A transaction of [from]: its outcome, the world after it and the events. *)
Definition run_call (from : Address) (gas : N) (call : Call) (w : World)
    : Outcome * World * list Event :=
  let payment := payment_of call in
  if balance_of from w <? payment then (vm_error, w, []) else
  let s := set_chain (chain_for from gas sc_delegation payment w) (w_contract w) in
  match dispatch call s with
  | Ok (values, s') =>
      let c := st_chain s' in
      let w := set_balance_of from (balance_of from w - payment) w in
      let w := settle sc_delegation c (set_contract s' w) in
      let '(w, events) := run_asyncs gas (sc_calls c) w in
      (out values, w, sc_events c ++ events)
  | Err e => (outcome_of_error e, w, [])
  end.

(** ** Scenarios *)
Inductive Step : Type :=
| setAccounts (balances : list (Address * N))
| setStakePerNode (stake_per_node : N)
| setAuctionAddress (auction : Address)
| setContract (s : State SimpleChain)
| setRewards (cumulated : N)
| setBlockNonce (nonce : N)
| scDeploy (from auction : Address) (fee share n_blocks minimum cap : N)
| scCall (from : Address) (gas : N) (call : Call) (expected : Outcome)
| scCallLogs (from : Address) (gas : N) (call : Call) (expected : Outcome) (logs : list Event)
| scQuery (call : Call) (expected : list Value)
| transfer (from to : Address) (value : N)
| validatorReward (value : N)
| checkBalances (balances : list (Address * N)).

#[export] Instance ComputeAllRewardsData_eq_dec : EqDecision ComputeAllRewardsData.
Proof. solve_decision. Defined.
#[export] Instance ModifyDelegationCapStep_eq_dec : EqDecision ModifyDelegationCapStep.
Proof. solve_decision. Defined.
#[export] Instance ModifyTotalDelegationCapData_eq_dec : EqDecision ModifyTotalDelegationCapData.
Proof. solve_decision. Defined.
#[export] Instance GlobalOpCheckpoint_eq_dec : EqDecision GlobalOpCheckpoint.
Proof. solve_decision. Defined.
#[export] Instance Value_eq_dec : EqDecision Value.
Proof. solve_decision. Defined.
#[export] Instance Outcome_eq_dec : EqDecision Outcome.
Proof. solve_decision. Defined.
#[export] Instance Event_eq_dec : EqDecision Event.
Proof. solve_decision. Defined.

(** The world after a step, if what the step expects is the case. *)
Definition expect (b : bool) (w : World) : option World := if b then Some w else None.

Definition run_step (step : Step) (w : World) : option World :=
  match step with
  | setAccounts balances => Some (foldl (λ w '(a, v), set_balance_of a v w) w balances)
  | setStakePerNode stake_per_node =>
      Some (set_auction (Auction.mk_AuctionStore stake_per_node 0 ∅ ∅ ∅ ∅ false ∅ []) w)
  | setAuctionAddress auction =>
      let s := w_contract w in
      Some (set_contract (lens_set (set_auction_addr auction (st_settings s)) s) w)
  | setContract s => Some (set_contract s w)
  | setRewards cumulated => Some (set_block (w_owner w) (w_nonce w) cumulated w)
  | setBlockNonce nonce =>
      Some (set_block (w_owner w) nonce (w_rewards w) w)
  | scDeploy from auction fee share n_blocks minimum cap =>
      let w := set_block from (w_nonce w) (w_rewards w) w in
      let s := initial_State (chain_for from 0 sc_delegation 0 w) in
      match init auction fee share n_blocks minimum cap s with
      | Ok (_, s') => Some (settle sc_delegation (st_chain s') (set_contract s' w))
      | Err _ => None
      end
  | scCall from gas call expected =>
      let '(outcome, w', _) := run_call from gas call w in
      expect (bool_decide (outcome = expected)) w'
  | scCallLogs from gas call expected logs =>
      let '(outcome, w', events) := run_call from gas call w in
      expect (bool_decide (outcome = expected ∧ events = logs)) w'
  | scQuery call expected =>
      let '(outcome, _, _) := run_call sc_delegation 0 call w in
      expect (bool_decide (outcome = out expected)) w
  | transfer from to value =>
      if balance_of from w <? value then None else
      Some (credit (set_balance_of from (balance_of from w - value) w) (to, value))
  | validatorReward value =>
      let w := credit w (sc_delegation, value) in
      Some (set_block (w_owner w) (w_nonce w) (w_rewards w + value) w)
  | checkBalances balances =>
      expect (forallb (λ '(a, v), balance_of a w =? v) balances) w
  end.

Definition empty_World (gas_step : N) : World :=
  mk_World (initial_State (mk_SimpleChain 0 0 0 0 0 [] [] [] [])) Auction.empty_AuctionStore
    ∅ 0 0 0 gas_step.

Definition run_steps (steps : list Step) (w : World) : option World :=
  foldl (λ r step, r ≫= run_step step) (Some w) steps.

(** A scenario passes if every step finds what it expects. *)
Definition scenario_passes (gas_step : N) (steps : list Step) : bool :=
  match run_steps steps (empty_World gas_step) with Some _ => true | None => false end.
