(* ===== verification/Books.v ===== *)
(** * The books of the contract

    What a call does to the total of everything that the delegators own, to the
    rewards recorded as sent and to the balance of the contract: the three move
    together, so that what the contract owes is matched by what it holds. *)
From stdpp Require Import base numbers list gmap strings.
From S2P Require Import Prelude PtrList FundTypes FundModule FundLedger FundRep FundLoops.
From S2P Require Import FundTotals FundMoves UserData NodeConfig Settings Chain State FundTransf.
From S2P Require Import FundView Rewards UserStake ResetCheckpoint NodeActivation Contract RewardSpec ContractInv.
From S2P Require Import StakeSpec EndpointSpec PayoutSpec SolvencySpec GlobalOpSpec GlobalOpStart ContractSystem.
From S2P Require Import UserSpec ViewSpec NodeSpec NodeCalls NodeProtocol Frame Dispatch System.

(** The part of a payment that becomes stake. *)
Definition staked_with (call : Call) : N :=
  match call with Call.stake payment => payment | _ => 0 end.

Section Books.
Context {C : Type} `{!Chain C, !ChainLaws C, !CallLog C}.
Implicit Type s : State C.

Definition total_stake s : N := get_total_stake (st_funds s).
Definition sent s : N := rs_sent_rewards (st_rewards s).
Definition balance s : N := get_sc_balance (st_chain s).

(** ** The total *)
Lemma total_stake_types s A :
  Rep (st_funds s) A → total_stake s =
    tt_of FundType.WithdrawOnly A + tt_of FundType.Waiting A + tt_of FundType.Active A
    + tt_of FundType.UnStaked A + tt_of FundType.DeferredPayment A.
Proof.
  intros HR. unfold total_stake, get_total_stake, get_user_total_stake.
  by rewrite !(stake_total HR).
Qed.

(** The total of all lists is the sum over any users that include all owners. *)
Lemma total_stake_holdings s s' A :
  Rep (st_funds s) A → owned s' A → total_stake s = sum_over (λ u, holdings u A) (users s').
Proof.
  intros HR Ho. rewrite (total_stake_types s A HR). unfold holdings.
  by rewrite !sum_over_plus, !(users_sum_type s' A).
Qed.

Lemma owned_more s s' A : num_users_of s ≤ num_users_of s' → owned s A → owned s' A.
Proof.
  unfold num_users_of. intros Hn Ho b Hb. specialize (Ho b Hb). unfold users in *.
  rewrite elem_of_ids_up_to in *. lia.
Qed.

(** What a call adds to the holdings of users it adds to the total. *)
Lemma total_stake_added s s' A A' (f : N → N) :
  op_ok (st_global_op_checkpoint s) s A → op_ok (st_global_op_checkpoint s') s' A' →
  num_users_of s ≤ num_users_of s' → (∀ u, holdings u A' = holdings u A + f u) →
  total_stake s' = total_stake s + sum_over f (users s').
Proof.
  intros Hok Hok' Hn Hh.
  rewrite (total_stake_holdings s' s' A'), (total_stake_holdings s s' A);
    [|by eapply op_ok_rep|by eapply owned_more, op_ok_owned|by eapply op_ok_rep|by eapply op_ok_owned].
  rewrite <-sum_over_plus. apply sum_over_ext. intros u _. apply Hh.
Qed.

Lemma total_stake_kept s s' A :
  op_ok (st_global_op_checkpoint s) s A → num_users_of s ≤ num_users_of s' →
  holdings_kept A s' → total_stake s' = total_stake s.
Proof.
  intros Hok Hn (A' & Hok' & Hh).
  rewrite (total_stake_added s s' A A' (λ _, 0)), sum_over_0; [lia|done..|].
  intros u. rewrite Hh. lia.
Qed.

(** Staking adds the payment. *)
Lemma total_stake_staked s s' A A' payment :
  op_ok (st_global_op_checkpoint s) s A → op_ok (st_global_op_checkpoint s') s' A' →
  num_users_of s ≤ num_users_of s' → staked payment s A s' A' →
  total_stake s' = total_stake s + payment.
Proof.
  intros Hok Hok' Hn Hs. pose proof (inv_ids _ _ (sk_inv _ _ _ _ _ Hs) (get_caller (st_chain s))) as Hle. pose proof (sk_user _ _ _ _ _ Hs) as Hu. pose proof (sk_holdings _ _ _ _ _ Hs) as Hh.
  revert Hle Hu Hh. generalize (get_user_id (get_caller (st_chain s)) (st_users s')) as u. intros u Hle Hu Hh.
  rewrite (total_stake_added s s' A A' (λ w, if decide (w = u) then payment else 0)); [|done..].
  f_equal. rewrite (sum_over_ext _ (λ w, if decide (u = w) then payment else 0))
    by (intros w _; by apply decide_ext).
  rewrite sum_over_single, decide_True; [done| |apply nodup_ids_up_to].
  apply elem_of_ids_up_to. unfold num_users_of in *. lia.
Qed.

(** Withdrawing takes what is paid. *)
Lemma released_holdings u r A A' : released u r A A' → holdings u A' + r = holdings u A.
Proof.
  intros Hr. pose proof (rl_paid _ _ _ _ Hr) as Hp. unfold withdrawable in Hp. unfold holdings.
  destruct (rl_types _ _ _ _ Hr FundType.Waiting ltac:(done) ltac:(done)) as [_ ->].
  destruct (rl_types _ _ _ _ Hr FundType.Active ltac:(done) ltac:(done)) as [_ ->].
  destruct (rl_types _ _ _ _ Hr FundType.UnStaked ltac:(done) ltac:(done)) as [_ ->].
  lia.
Qed.

Lemma total_stake_withdrawn s s' A A' u r :
  op_ok (st_global_op_checkpoint s) s A → withdrawn u r s A s' A' → u ∈ users s →
  total_stake s' + r = total_stake s.
Proof.
  intros Hok Hw Hu. pose proof (wd_ok _ _ _ _ _ _ Hw) as Hok'.
  pose proof (wd_users _ _ _ _ _ _ Hw) as Eu. pose proof (wd_released _ _ _ _ _ _ Hw) as Hr.
  assert (users s' = users s) as Eus by (unfold users; by rewrite Eu).
  rewrite (total_stake_holdings s' s' A'), (total_stake_holdings s s A);
    [|by eapply op_ok_rep|by eapply op_ok_owned|by eapply op_ok_rep|by eapply op_ok_owned].
  rewrite Eus.
  pose proof (sum_over_change (λ w, holdings w A') (λ w, holdings w A) (users s) u
    (nodup_ids_up_to _) Hu (λ w _, rl_other _ _ _ _ Hr w)) as Hs. cbv beta in Hs.
  pose proof (released_holdings u r A A' Hr). lia.
Qed.

(** ** The money of a call *)

(** The balance and the rewards sent stay. *)
Record still s s' : Prop := {
  sl_balance : balance s' = balance s;
  sl_sent : sent s' = sent s;
}.
#[export] Instance still_preorder : PreOrder still.
Proof. split; [by split|]. intros s1 s2 s3 [] []. split; congruence. Qed.

#[export] Instance still_frame : MoneyFrame still.
Proof.
  split; try by split.
  - apply _.
  - intros s. unfold gas_left, ensures, outcome. pose proof (gas_balance (st_chain s)) as Hb.
    destruct (get_gas_left (st_chain s)) as [g c]. by split.
  - intros e. apply within_modify. intros s. split; [apply emit_balance|done].
Qed.

Lemma dispatch_still call s :
  scope call = Money → pays call = false → ensures (dispatch call) s (λ _ s', still s s').
Proof.
  intros Hsc Hp. destruct (registers call) eqn:Hr; [|apply dispatch_frame; [apply _|congruence..]].
  destruct call; try discriminate Hr; simpl.
  - revert s. apply within_bind; [by apply within_zoom|intros; within].
  - revert s. apply quiet_nothing, quiet_stake; [apply _..|]. intros a. by apply within_zoom.
Qed.

(** Users are only ever added. *)
Lemma get_or_create_grows us a :
  us_num_users us + 1 < usize_max_plus_1 →
  ensures (get_or_create_user a) us (λ _ us', us_num_users us ≤ us_num_users us').
Proof.
  intros Hn. unfold get_or_create_user, new_user. apply ensures_bind, ensures_gets.
  case_match.
  - repeat first [apply ensures_bind|apply ensures_gets|apply ensures_modify|apply ensures_ret].
    simpl. unfold usize_add. rewrite N.mod_small by done. lia.
  - apply ensures_bind, ensures_gets, ensures_bind. case_match.
    + by apply ensures_modify, ensures_ret.
    + by apply ensures_ret, ensures_ret.
Qed.

Lemma dispatch_grows call s :
  scope call = Money → fits s →
  ensures (dispatch call) s (λ _ s', num_users_of s ≤ num_users_of s').
Proof.
  intros Hsc [Hmax _]. destruct (registers call) eqn:Hr.
  - destruct call; try discriminate Hr; simpl dispatch.
    + apply ensures_bind, ensures_zoom. eapply ensures_mono; [apply update_user_address_ids|].
      intros [[x y] z] us [Hn _]. apply ensures_ret. unfold num_users_of. simpl in *. rewrite Hn. done.
    + apply (ensures_nothing _ _ (λ s', num_users_of s ≤ num_users_of s')).
      apply (stake_endpoint_users _ _ (λ us, num_users_of s ≤ us_num_users us)).
      by apply get_or_create_grows.
  - eapply ensures_mono; [by apply (dispatch_within users_kept)|].
    intros r s' Hk. unfold num_users_of. by rewrite Hk.
Qed.

(** Only users withdraw. *)
Lemma unbond_known s :
  addressed (st_users s) → ensures (dispatch Call.unBond) s (λ _ _, caller_id s ∈ users s).
Proof.
  intros Hus. apply (ensures_value _ _ _ (λ _, caller_id s ∈ users s)).
  eapply ensures_mono; [apply unbond_guards|]. intros r s' [_ Hu].
  pose proof (uo_range _ (adr_ok _ Hus) (get_caller (st_chain s))). unfold caller_id in *.
  apply elem_of_ids_up_to. lia.
Qed.

(** What a call on money puts into the balance, or takes out of it, is matched by
    what it adds to or takes from the stake, or records as sent. *)
Lemma money_call_books call s A :
  scope call = Money → op_ok (st_global_op_checkpoint s) s A → addressed (st_users s) →
  fits s → proper call s →
  ensures (dispatch call) s (λ _ s',
    total_stake s' + sent s + balance s = total_stake s + sent s' + balance s' + staked_with call).
Proof.
  intros Hsc Hok Hus Hfits Hproper.
  pose proof (ensures_and _ _ _ _ (money_call_effect call s A Hsc Hok Hfits Hproper)
    (dispatch_grows call s Hsc Hfits)) as He.
  destruct (pays call) eqn:Hp.
  - destruct call; try discriminate Hp.
    + eapply ensures_mono; [exact He|].
      intros r s' [[_ Hc] _]. unfold total_stake, sent, balance, staked_with.
      rewrite (cl_funds _ _ _ _ Hc), (cl_sent _ _ _ _ Hc), <-(cl_balance _ _ _ _ Hc). lia.
    + eapply ensures_mono; [exact (ensures_and _ _ _ _ He (unbond_known s Hus))|].
      intros r s' [[(w & A' & _ & Hw) _] Hu].
      pose proof (total_stake_withdrawn s s' A A' _ w Hok Hw Hu). unfold sent, balance, staked_with.
      rewrite (wd_rewards _ _ _ _ _ _ Hw), <-(wd_balance _ _ _ _ _ _ Hw). lia.
  - pose proof (ensures_and _ _ _ _ He (dispatch_still call s Hsc Hp)) as Hs.
    eapply ensures_mono; [exact Hs|]. intros r s' [[He' Hn] [-> ->]].
    enough (total_stake s' = total_stake s + staked_with call) by lia.
    destruct call; try discriminate Hsc; try discriminate Hp; simpl staked_with; rewrite ?N.add_0_r;
      try by eapply total_stake_kept, He'.
    destruct He' as (A' & Hok' & Hst). by eapply total_stake_staked.
Qed.

(** ** What everybody can claim *)

(** The state in which the rewards of the users in [l] are up to date. *)
Definition settled_all (l : list N) s : State C := foldr rewarded s l.

Record all_rewarded (l : list N) s A s' : Prop := {
  al_inv : Inv s' A;
  al_same : ∃ rs, s' = lens_set rs s ∧ rs_sent_rewards rs = rs_sent_rewards (st_rewards s);
  al_done u : u ∈ l → unclaimed_of u s' = claimable u s ∧ checkpoint_of u s' = cumulated s;
  al_rest u : u ∉ l → unclaimed_of u s' = unclaimed_of u s ∧ checkpoint_of u s' = checkpoint_of u s;
}.

Lemma settled_all_spec l s A :
  Inv s A → NoDup l → (∀ u, u ∈ l → u ∈ users s) → all_rewarded l s A (settled_all l s).
Proof.
  intros HI. induction l as [|u l IH]; simpl; intros Hnd Hl.
  { split; [done|exists (st_rewards s); by destruct s|set_solver|done]. }
  apply NoDup_cons in Hnd as [Hu Hnd].
  destruct (IH Hnd ltac:(set_solver)) as [HI' Hsame Hdone Hrest]. fold (settled_all l s).
  set (s1 := settled_all l s) in *.
  assert (users s1 = users s ∧ cumulated s1 = cumulated s ∧
    claimable u s1 = claimable u s) as (Eus & Ec & Ecl).
  { destruct (Hrest u Hu) as [Hun Hcp]. destruct Hsame as (rs & Hs & _).
    unfold claimable. rewrite !updated_unclaimed, Hun, Hcp. by rewrite Hs. }
  split.
  - apply inv_rewarded; [done|]. rewrite Eus. set_solver.
  - destruct Hsame as (rs & Hs & Hsent). eexists. split; [unfold rewarded, put_rewards; by rewrite Hs|].
    exact Hsent.
  - intros v. unfold rewarded. rewrite put_unclaimed, put_checkpoint.
    destruct (decide (u = v)) as [<-|Hne]; [intros _|intros Hv; apply Hdone; set_solver].
    split; [exact Ecl|]. rewrite updated_checkpoint; [exact Ec|apply HI'].
  - intros v Hv. unfold rewarded. rewrite put_unclaimed, put_checkpoint.
    rewrite !decide_False by set_solver. apply Hrest. set_solver.
Qed.

(** All that can be claimed and all that was sent has been received. *)
Lemma claimable_received s A :
  Inv s A → sum_over (λ u, claimable u s) (users s) + sent s ≤ cumulated s.
Proof.
  intros HI. destruct (settled_all_spec (users s) s A HI (nodup_ids_up_to _) ltac:(done))
    as [HI' (rs & Hs & Hsent) Hdone _].
  set (s1 := settled_all (users s) s) in *.
  assert (users s1 = users s ∧ cumulated s1 = cumulated s) as [Eus Ec] by (by rewrite Hs).
  pose proof (assigned_received s1 A HI') as Ha. unfold assigned in Ha. rewrite Eus, Ec in Ha.
  rewrite (sum_over_ext _ (λ u, claimable u s)) in Ha by (intros u Hu; by apply Hdone).
  assert (rs_sent_rewards (st_rewards s1) = sent s) as Es by (by rewrite Hs).
  by rewrite Es in Ha.
Qed.

(** The view of it. *)
Lemma total_unclaimed_eq s A :
  Inv s A → get_total_unclaimed_rewards s = Ok (sum_over (λ u, claimable u s) (users s), s).
Proof.
  intros HI. unfold get_total_unclaimed_rewards. unfold bind at 1, gets at 1. fold (users s).
  enough (∀ l acc, for_each l acc (λ user sum_unclaimed,
    let! user_data := load_updated_user_rewards user in
    ret (sum_unclaimed + unclaimed_rewards user_data)) s
    = Ok (acc + sum_over (λ u, claimable u s) l, s)) as Hl by apply (Hl (users s) 0).
  induction l as [|u l IH]; intros acc; simpl.
  { unfold ret. do 2 f_equal. lia. }
  unfold bind at 1, bind at 1. rewrite load_updated_user_rewards_eq by (by apply (inv_ready s A)).
  unfold ret at 1. rewrite IH. fold (claimable u s). do 2 f_equal. lia.
Qed.

(** ** A deployment *)
Lemma init_nothing (c : C) auction fee share n_blocks minimum cap :
  ensures (init auction fee share n_blocks minimum cap) (initial_State c) (λ _ s',
    total_stake s' = 0 ∧ sent s' = 0 ∧ cumulated s' = get_cumulated_validator_rewards c).
Proof.
  unfold init, current_caller, set_owner_min_stake_share_validated.
  repeat first [apply ensures_modify|apply ensures_require; intros _
    |apply ensures_gets|apply ensures_zoom|apply ensures_bind].
  done.
Qed.

Lemma deployed_nothing (c : C) s :
  deploys c s → total_stake s = 0 ∧ sent s = 0 ∧ cumulated s = 0.
Proof.
  intros (auction & fee & share & n & minimum & cap & _ & _ & Hc & _ & Heq).
  rewrite <-Hc at 3. by apply (ensures_inv _ _ (λ _ s', total_stake s' = 0 ∧ sent s' = 0 ∧
    cumulated s' = get_cumulated_validator_rewards c) tt s
    (init_nothing c auction fee share n minimum cap)).
Qed.
End Books.
