(* ===== verification/Bank.v ===== *)
(** * The contract as a bank

    What delegators may expect, without lists of funds, reward checkpoints, nodes
    or operations in stages: every address has an account with a deposit and with
    earnings, and a transaction changes the account of its caller or none.  The
    contract refines this bank: every call of every endpoint, every answer of the
    auction and everything that happens between transactions is a move of it. *)
From stdpp Require Import base numbers list gmap strings relations.
From S2P Require Import Prelude PtrList FundTypes FundModule FundLedger FundRep FundLoops.
From S2P Require Import FundTotals FundMoves UserData NodeConfig Settings Chain State FundTransf.
From S2P Require Import FundView Rewards UserStake ResetCheckpoint NodeActivation Contract RewardSpec ContractInv.
From S2P Require Import StakeSpec EndpointSpec PayoutSpec SolvencySpec GlobalOpSpec GlobalOpStart ContractSystem.
From S2P Require Import UserSpec ViewSpec NodeSpec NodeCalls NodeProtocol Frame Dispatch System Books.
From S2P Require Import FundSpec Examples SystemTheorems.

(** ** The bank *)
Record Account : Set := mk_Account { deposited : N; earned : N }.
Definition no_account : Account := mk_Account 0 0.
Definition Bank : Set := Address → Account.

Inductive Move : Set :=
| Deposit (a : Address) (v : N)
| Withdraw (a : Address) (v : N)
| Claim (a : Address) (v : N)
| Accrue
| Operate (o : Address)
| Reshare
| Rest.

(** Only the account of [a] changes, by [f]. *)
Definition only (a : Address) (f : Account → Account) (b b' : Bank) : Prop :=
  ∀ x, b' x = if decide (x = a) then f (b x) else b x.

Definition bank_step (m : Move) (b b' : Bank) : Prop :=
  match m with
  | Deposit a v => only a (λ x, mk_Account (deposited x + v) (earned x)) b b'
  | Withdraw a v =>
      v ≤ deposited (b a) ∧ only a (λ x, mk_Account (deposited x - v) (earned x)) b b'
  | Claim a v => v = earned (b a) ∧ only a (λ x, mk_Account (deposited x) 0) b b'
  | Accrue => ∀ x, deposited (b' x) = deposited (b x) ∧ earned (b x) ≤ earned (b' x)
  | Operate o => ∀ x, deposited (b' x) = deposited (b x) ∧ earned (b x) ≤ earned (b' x) ∧
      (x ≠ o → earned (b' x) = earned (b x))
  | Reshare => ∀ x, deposited (b' x) = deposited (b x)
  | Rest => ∀ x, b' x = b x
  end.

Lemma account_eq x y : deposited x = deposited y → earned x = earned y → x = y.
Proof. destruct x, y. simpl. congruence. Qed.

(** ** The accounts of the contract *)
Section Accounts.
Context {C : Type} `{!Chain C, !ChainLaws C, !CallLog C}.
Implicit Type s : State C.

Definition id_of s (a : Address) : N := get_user_id a (st_users s).

Definition account_of s : Bank := λ a,
  mk_Account (get_user_total_stake_endpoint a s)
    (if id_of s a =? 0 then 0 else claimable (id_of s a) s).

(** The address of the first user, whom rounding favours. *)
Definition owner_account s : Address :=
  default 0 (us_user_address (st_users s) !! OWNER_USER_ID).

Definition settledb s : bool :=
  forallb (λ u, checkpoint_of u s =? cumulated s) (users s).

(** The payments that a move makes, each to the account it is taken from; and the
    move made with its payments. *)
Definition payments (m : Move) : list (Address * N) :=
  match m with Withdraw a v | Claim a v => payout a v | _ => [] end.
Definition pays_out (m : Move) s s' : Prop :=
  payments_of (st_chain s') = payments_of (st_chain s) ++ payments m.
Definition bank_move (m : Move) s s' : Prop :=
  bank_step m (account_of s) (account_of s') ∧ pays_out m s s'.

(** What a withdrawal reports to have paid. *)
Definition paid_by (r : list Value) : N := match r with [num v] => v | _ => 0 end.

(** The move of a call that has returned [r]. *)
Definition move_of (call : Call) (r : list Value) s : Move :=
  let a := get_caller (st_chain s) in
  match call with
  | Call.stake payment => Deposit a payment
  | Call.unBond => Withdraw a (paid_by r)
  | Call.claimRewards => Claim a (earned (account_of s a))
  | Call.continueGlobalOperation | Call.modifyTotalDelegationCap _ | Call.setServiceFee _ =>
      if moves_stake (st_global_op_checkpoint s) && negb (settledb s) then Reshare
      else Operate (owner_account s)
  | _ => Rest
  end.

Lemma settledb_spec s : settledb s = true → all_settled s.
Proof.
  unfold settledb, all_settled. rewrite forallb_forall. intros Hall u Hu.
  apply N.eqb_eq, Hall. by apply list_elem_of_In.
Qed.

(** *** Reading the accounts *)
Lemma nobody_owns s A u : owned s A → u ∉ users s → holdings u A = 0.
Proof.
  intros Ho Hu. assert (∀ t, ut_of u t A = 0) as Hz; [|unfold holdings; by rewrite !Hz].
  intros t. unfold ut_of. apply amount_zero. intros b Hb. rewrite of_user_type_spec.
  apply bool_decide_false. intros [= <- _]. by apply Hu, Ho.
Qed.

Lemma deposited_holdings s A a :
  op_ok (st_global_op_checkpoint s) s A → deposited (account_of s a) = holdings (id_of s a) A.
Proof.
  intros Hok. pose proof (op_ok_rep _ _ _ Hok) as HR. simpl. unfold get_user_total_stake_endpoint.
  fold (id_of s a). destruct (N.eqb_spec (id_of s a) 0) as [Hz|Hz].
  - rewrite Hz. symmetry. eapply nobody_owns; [by eapply op_ok_owned|].
    unfold users. rewrite elem_of_ids_up_to. lia.
  - by apply (holdings_user s A).
Qed.

Lemma known_user s a : addressed (st_users s) → id_of s a ≠ 0 → id_of s a ∈ users s.
Proof.
  intros Hus Hne. pose proof (uo_range _ (adr_ok _ Hus) a). apply elem_of_ids_up_to.
  unfold id_of in *. lia.
Qed.

(** Accounts of users who keep their ids. *)
Lemma account_kept s s' A a :
  addressed (st_users s) → op_ok (st_global_op_checkpoint s) s A →
  accounts_kept s A s' → id_of s' a = id_of s a → account_of s' a = account_of s a.
Proof.
  intros Hus Hok [(A' & Hok' & Hh) He] Hid. apply account_eq.
  - by rewrite (deposited_holdings s' A'), (deposited_holdings s A), Hid, Hh.
  - simpl. rewrite Hid. destruct (N.eqb_spec (id_of s a) 0); [done|].
    apply He. by apply known_user.
Qed.

(** *** What calls do to the ids *)
Lemma dispatch_ids call s :
  (∀ v, call ≠ Call.stake v) → ensures (dispatch call) s (λ _ s', ∀ a, id_of s' a = id_of s a).
Proof.
  intros Hns. destruct (scope call) eqn:Hsc.
  - eapply ensures_mono; [by apply dispatch_pure|]. by intros r s' <-.
  - destruct (registers call) eqn:Hr.
    + destruct call; try discriminate Hr; [|by destruct (Hns payment)]. simpl.
      apply ensures_bind, ensures_zoom. eapply ensures_mono; [apply update_user_address_ids|].
      intros [[x y] z] us [_ Hid]. apply ensures_ret. exact Hid.
    + eapply ensures_mono; [by apply (dispatch_within users_kept)|].
      intros r s' Hk a. unfold id_of. by rewrite Hk.
  - eapply ensures_mono; [by apply dispatch_thrifty|]. intros r s' Hk a. unfold id_of.
    by rewrite (mk_users _ _ Hk).
Qed.

(** Staking gives at most the caller a new id. *)
Definition id_given (a : Address) (us us' : UserStore) : Prop :=
  (∀ b, b ≠ a → get_user_id b us' = get_user_id b us) ∧
  (get_user_id a us' = get_user_id a us ∨
   get_user_id a us = 0 ∧ get_user_id a us' = us_num_users us + 1).

Lemma get_or_create_gives us a :
  us_num_users us + 1 < usize_max_plus_1 →
  ensures (get_or_create_user a) us (λ _, id_given a us).
Proof.
  intros Hmax. unfold get_or_create_user, new_user. apply ensures_bind, ensures_gets.
  destruct (N.eqb_spec (get_user_id a us) 0) as [Hz|Hz].
  - repeat first [apply ensures_bind|apply ensures_gets|apply ensures_modify|apply ensures_ret].
    assert (usize_add (us_num_users us) 1 = us_num_users us + 1) as -> by (by apply N.mod_small).
    split; [|right; split; [done|]]; unfold get_user_id; simpl.
    + intros b Hb. by rewrite lookup_insert_ne.
    + by rewrite lookup_insert_eq.
  - apply ensures_bind, ensures_gets, ensures_bind.
    case_match; [apply ensures_modify|apply ensures_ret]; apply ensures_ret; by split; [|left].
Qed.

(** *** The moves *)
Lemma fresh_claims_nothing s A u : Inv s A → u ≠ 0 → unregistered u s → claimable u s = 0.
Proof.
  intros HI Hu Hun. unfold claimable. rewrite updated_unclaimed, (inv_fresh _ _ HI) by done.
  case_match; [done|]. unfold new_rewards. rewrite (active_of_user (inv_rep _ _ HI)) by done.
  rewrite (inv_owners _ _ HI) by done. pose proof (inv_owner_id _ _ HI).
  destruct (N.eqb_spec u OWNER_USER_ID) as [->|]; [|done].
  destruct Hun as [?|?]; unfold OWNER_USER_ID in *; lia.
Qed.

Lemma stake_move s A s' A' payment :
  addressed (st_users s) → addressed (st_users s') → Inv s A → owned s A →
  st_global_op_checkpoint s = GlobalOpCheckpoint.None →
  op_ok (st_global_op_checkpoint s') s' A' → staked payment s A s' A' →
  id_given (get_caller (st_chain s)) (st_users s) (st_users s') →
  op_ok (st_global_op_checkpoint s) s A →
  bank_step (Deposit (get_caller (st_chain s)) payment) (account_of s) (account_of s').
Proof.
  intros Hus Hus' HI Ho Hop Hok' Hs [Hother Hcaller] Hok x. set (a := get_caller (st_chain s)) in *.
  pose proof (sk_user _ _ _ _ _ Hs) as Hne. pose proof (sk_holdings _ _ _ _ _ Hs) as Hh.
  fold a in Hne, Hh. change (get_user_id a (st_users s')) with (id_of s' a) in *.
  assert (∀ y, id_of s' y ≠ 0 → claimable (id_of s' y) s' = claimable (id_of s' y) s) as Hcl.
  { intros y Hy. apply (sk_earnings _ _ _ _ _ Hs). by apply known_user. }
  apply account_eq.
  - rewrite (deposited_holdings s' A') by done. rewrite Hh.
    pose proof (deposited_holdings s A x Hok) as Hd. revert Hd. generalize (account_of s x).
    intros acc Hd. destruct (decide (x = a)) as [->|Hx]; simpl; rewrite Hd.
    + rewrite decide_True by done. f_equal.
      destruct Hcaller as [->|[Hz Hn]]; [done|].
      change (get_user_id a (st_users s')) with (id_of s' a) in *.
      change (get_user_id a (st_users s)) with (id_of s a) in *. rewrite Hz.
      rewrite !(nobody_owns s A); [done|done|unfold users; rewrite elem_of_ids_up_to; lia|done|].
      unfold users. rewrite elem_of_ids_up_to. lia.
    + rewrite decide_False; [|intros Heq; apply Hx; unfold id_of in *; apply (uo_inj _ (adr_ok _ Hus')); congruence].
      rewrite N.add_0_r. unfold id_of. by rewrite Hother.
  - transitivity (earned (account_of s x)); [|by case_decide]. simpl.
    destruct (decide (x = a)) as [->|Hx].
    + rewrite (proj2 (N.eqb_neq (id_of s' a) 0)) by done. rewrite Hcl by done.
      destruct Hcaller as [Hc|[Hz Hn]].
      * change (id_of s' a = id_of s a) in Hc. rewrite Hc in *. by rewrite (proj2 (N.eqb_neq _ _)).
      * change (id_of s a = 0) in Hz. rewrite Hz. simpl. apply (fresh_claims_nothing s A); [done|done|].
        right. unfold num_users_of. change (id_of s' a = us_num_users (st_users s) + 1) in Hn. lia.
    + assert (id_of s' x = id_of s x) as Hid by (unfold id_of; by apply Hother).
      specialize (Hcl x). rewrite Hid in *. destruct (N.eqb_spec (id_of s x) 0); auto.
Qed.

Lemma withdraw_move s A s' A' v :
  addressed (st_users s) → op_ok (st_global_op_checkpoint s) s A →
  withdrawn (caller_id s) v s A s' A' →
  bank_step (Withdraw (get_caller (st_chain s)) v) (account_of s) (account_of s').
Proof.
  intros Hus Hok Hw. pose proof (withdrawn_earnings _ _ _ _ _ _ Hok Hw) as [_ He].
  destruct Hw as [_ _ Hok' Hrl _ _ _ Eu _]. set (a := get_caller (st_chain s)) in *.
  assert (∀ x, id_of s' x = id_of s x) as Hid by (intros x; unfold id_of; by rewrite Eu).
  change (caller_id s) with (id_of s a) in Hrl.
  pose proof (released_holdings _ _ _ _ Hrl) as Hp. split.
  { rewrite (deposited_holdings s A) by done. lia. }
  intros x. apply account_eq.
  - rewrite (deposited_holdings s' A'), Hid by done.
    pose proof (deposited_holdings s A x Hok) as Hd. revert Hd. generalize (account_of s x).
    intros acc Hd. destruct (decide (x = a)) as [->|Hx]; simpl; rewrite Hd; [lia|].
    destruct (decide (id_of s x = id_of s a)) as [Heq|Hne]; [|by apply Hrl].
    assert (id_of s x = 0) as Hz.
    { destruct (decide (id_of s x = 0)) as [|Hnz]; [done|]. destruct Hx.
      by apply (uo_inj _ (adr_ok _ Hus)). }
    rewrite Hz, !(nobody_owns s' A'), (nobody_owns s A); [done|by eapply op_ok_owned|..];
      [|by eapply op_ok_owned|]; unfold users; rewrite elem_of_ids_up_to; lia.
  - transitivity (earned (account_of s x)); [|by case_decide]. simpl. rewrite Hid.
    destruct (N.eqb_spec (id_of s x) 0); [done|]. by apply He, known_user.
Qed.

Lemma claim_move s A s' :
  addressed (st_users s) → op_ok (st_global_op_checkpoint s) s A → caller_id s ≠ 0 →
  claimed (caller_id s) s A s' →
  bank_step (Claim (get_caller (st_chain s)) (earned (account_of s (get_caller (st_chain s)))))
    (account_of s) (account_of s').
Proof.
  intros Hus Hok Hne Hc. split; [done|]. intros x. set (a := get_caller (st_chain s)) in *.
  change (caller_id s) with (id_of s a) in *.
  assert (id_of s' x = id_of s x) as Hid by (unfold id_of; by rewrite (cl_users _ _ _ _ Hc)).
  assert (deposited (account_of s' x) = deposited (account_of s x)) as Hd.
  { simpl. unfold get_user_total_stake_endpoint. by rewrite (cl_users _ _ _ _ Hc), (cl_funds _ _ _ _ Hc). }
  apply account_eq; [by case_decide|]. simpl. rewrite Hid.
  destruct (decide (x = a)) as [->|Hx]; simpl.
  - rewrite (proj2 (N.eqb_neq _ _) Hne), claimable_settled;
      [exact (cl_unclaimed _ _ _ _ Hc)|].
    etrans; [exact (cl_checkpoint _ _ _ _ Hc)|]. symmetry. unfold cumulated.
    by destruct (chain_view_eq _ _ (cl_view _ _ _ _ Hc)) as (_ & _ & _ & ?).
  - destruct (N.eqb_spec (id_of s x) 0) as [|Hnz]; [done|]. apply (cl_earnings _ _ _ _ Hc).
    intros Heq. apply Hx. by apply (uo_inj _ (adr_ok _ Hus)).
Qed.

Lemma operate_move s A s' r call :
  addressed (st_users s) → op_ok (st_global_op_checkpoint s) s A → accounts_operated s A s' →
  (∀ x, id_of s' x = id_of s x) →
  (∃ cap, call = Call.modifyTotalDelegationCap cap) ∨ (∃ fee, call = Call.setServiceFee fee) ∨
    call = Call.continueGlobalOperation →
  bank_step (move_of call r s) (account_of s) (account_of s').
Proof.
  intros Hus Hok [(A' & Hok' & Hh) Her] Hid Hcall.
  assert (∀ x, deposited (account_of s' x) = deposited (account_of s x)) as Hd.
  { intros x. by rewrite (deposited_holdings s' A'), (deposited_holdings s A), Hid, Hh. }
  replace (move_of call r s) with
    (if moves_stake (st_global_op_checkpoint s) && negb (settledb s) then Reshare
     else Operate (owner_account s)) by (by destruct Hcall as [[? ->]|[[? ->]| ->]]).
  destruct (moves_stake (st_global_op_checkpoint s) && negb (settledb s)) eqn:Hsh; [exact Hd|].
  assert (earnings_raised s s') as [_ Hoth Hown].
  { apply Her. intros Hmv. rewrite Hmv in Hsh. apply settledb_spec.
    by destruct (settledb s). }
  intros x. split; [apply Hd|]. simpl. rewrite Hid.
  destruct (N.eqb_spec (id_of s x) 0) as [Hz|Hnz]; [done|].
  pose proof (known_user s x Hus Hnz) as Hin.
  destruct (decide (id_of s x = OWNER_USER_ID)) as [Ho|Hno].
  - rewrite Ho in *. split; [by apply Hown|]. intros Hx. destruct Hx.
    assert (is_Some (us_user_address (st_users s) !! OWNER_USER_ID)) as [b Hb].
    { apply (adr_known _ Hus). apply elem_of_ids_up_to in Hin. lia. }
    unfold owner_account. rewrite Hb. simpl.
    destruct (uo_address _ (adr_ok _ Hus) _ _ Hb) as [Hib _].
    assert (get_user_id x (st_users s) = OWNER_USER_ID) as Hox by exact Ho.
    by apply (uo_inj _ (adr_ok _ Hus)); rewrite Hox.
  - rewrite Hoth by done. by split.
Qed.

(** New rewards. *)
Lemma parts_mono fee r r' :
  r ≤ r' → service_part fee r ≤ service_part fee r' ∧ delegators_part fee r ≤ delegators_part fee r'.
Proof. intros Hr. split; by apply N.Div0.div_le_mono, N.mul_le_mono_l. Qed.

Lemma new_rewards_mono u r r' s : r ≤ r' → new_rewards u r s ≤ new_rewards u r' s.
Proof.
  intros Hr. destruct (parts_mono (fee_of s) r r' Hr) as [Hs Hd]. unfold new_rewards.
  assert (∀ w c, delegators_part (fee_of s) r * w / c ≤ delegators_part (fee_of s) r' * w / c) as Hq
    by (intros w c; by apply N.Div0.div_le_mono, N.mul_le_mono_r).
  apply N.add_le_mono; [destruct (u =? OWNER_USER_ID); [apply N.add_le_mono; [done|]|done]|];
    case_match; done.
Qed.

Lemma claimable_mono u s c :
  cumulated s ≤ get_cumulated_validator_rewards c → claimable u s ≤ claimable u (set_chain c s).
Proof.
  intros Hle. unfold claimable. rewrite !updated_unclaimed.
  change (unclaimed_of u (set_chain c s)) with (unclaimed_of u s).
  change (checkpoint_of u (set_chain c s)) with (checkpoint_of u s).
  change (cumulated (set_chain c s)) with (get_cumulated_validator_rewards c).
  apply N.add_le_mono_l. case_match eqn:H1; [apply N.le_0_l|]. apply N.eqb_neq in H1.
  rewrite (proj2 (N.eqb_neq _ _)) by lia.
  change (new_rewards u ?r (set_chain c s)) with (new_rewards u r s). apply new_rewards_mono. lia.
Qed.

Lemma accrue_move c s :
  later_chain c s → bank_step Accrue (account_of s) (account_of (set_chain c s)).
Proof.
  intros [Hle _] x. split; [done|]. simpl.
  change (id_of (set_chain c s) x) with (id_of s x). case_match; [done|]. by apply claimable_mono.
Qed.

(** A call is a move of the bank. *)
Lemma money_kept_rest s A s' :
  addressed (st_users s) → op_ok (st_global_op_checkpoint s) s A → money_kept s s' →
  bank_step Rest (account_of s) (account_of s').
Proof.
  intros Hus Hok Hk x. pose proof (money_kept_alike _ _ Hk) as Hal.
  eapply account_kept; [done..| |].
  - apply accounts_alike; [done|apply (mk_op _ _ Hk)|done].
  - unfold id_of. by rewrite (mk_users _ _ Hk).
Qed.

Lemma stake_call_move payment s A :
  op_ok (st_global_op_checkpoint s) s A → addressed (st_users s) → fits s →
  ensures (dispatch (Call.stake payment)) s (λ r s',
    bank_step (move_of (Call.stake payment) r s) (account_of s) (account_of s')).
Proof.
  intros Hok Hus Hfits. set (call := Call.stake payment).
  pose proof (money_call_effect call s A eq_refl Hok Hfits I) as He.
  assert (ensures (dispatch call) s (λ _ s',
    id_given (get_caller (st_chain s)) (st_users s) (st_users s'))) as Hg.
  { apply ensures_nothing, (stake_endpoint_users _ _ (id_given _ (st_users s))).
    by apply get_or_create_gives, Hfits. }
  assert (ensures (dispatch call) s (λ _ _, open_for_users s)) as Hopen.
  { apply (ensures_nothing _ _ (λ _, open_for_users s)).
    eapply ensures_mono; [apply stake_guards|by intros ? ? [? _]]. }
  eapply ensures_mono; [exact (ensures_and _ _ _ _ (ensures_and _ _ _ _ He
    (call_keeps_users call s Hus Hfits)) (ensures_and _ _ _ _ Hg Hopen))|].
  intros r s' [[(A' & Hok' & Hs) Hus'] [Hid [_ Hop]]].
  eapply (stake_move s A s' A'); try done; [|by eapply op_ok_owned].
  rewrite Hop in Hok. apply Hok.
Qed.

(** The calls that send no money. *)
Lemma unpaid_move call s (Q : list Value → State C → Prop) :
  pays call = false → ensures (dispatch call) s Q →
  ensures (dispatch call) s (λ r s', Q r s' ∧ pays_out (move_of call r s) s s').
Proof.
  intros Hp HQ. eapply ensures_mono; [exact (ensures_and _ _ _ _ HQ (dispatch_unpaid call Hp s))|].
  intros r s' [HQ' Hu]. split; [done|]. unfold pays_out. rewrite Hu.
  assert (payments (move_of call r s) = []) as ->; [|by rewrite app_nil_r].
  destruct call; try discriminate Hp; simpl; try done; by case_match.
Qed.

Lemma money_unpaid_move call s A :
  scope call = Money → op_ok (st_global_op_checkpoint s) s A → addressed (st_users s) → fits s →
  proper call s → pays call = false →
  ensures (dispatch call) s (λ r s',
    bank_step (move_of call r s) (account_of s) (account_of s')).
Proof.
  intros Hsc Hok Hus Hfits Hproper Hpay.
  pose proof (money_call_effect call s A Hsc Hok Hfits Hproper) as He.
  pose proof (dispatch_ids call s) as Hids.
  destruct call; try discriminate Hsc; try discriminate Hpay;
    try (by apply (stake_call_move _ _ A)); specialize (Hids ltac:(done));
    pose proof (ensures_and _ _ _ _ He Hids) as Hi;
    try (eapply ensures_mono; [exact Hi|]; intros r s' [He' Hid]; first
      [ intros x; by eapply account_kept
      | solve [eapply operate_move; eauto 6] ]).
Qed.

Lemma money_move call s A :
  scope call = Money → op_ok (st_global_op_checkpoint s) s A → addressed (st_users s) → fits s →
  proper call s →
  ensures (dispatch call) s (λ r s', bank_move (move_of call r s) s s').
Proof.
  intros Hsc Hok Hus Hfits Hproper.
  destruct (pays call) eqn:Hpay.
  2: { apply (unpaid_move call s _ Hpay). by apply (money_unpaid_move call s A). }
  pose proof (money_call_effect call s A Hsc Hok Hfits Hproper) as He.
  destruct call; try discriminate Hpay.
  - assert (ensures (dispatch Call.claimRewards) s (λ _ _, caller_id s ≠ 0)) as Hne.
    { apply (ensures_nothing _ _ (λ _, caller_id s ≠ 0)).
      eapply ensures_mono; [by apply (claim_guards s A)|by intros ? ? (_ & ? & _)]. }
    eapply ensures_mono; [exact (ensures_and _ _ _ _ He Hne)|]. intros r s' [[_ Hc] Hu].
    split; [by apply (claim_move s A)|]. unfold pays_out. rewrite (cl_payments _ _ _ _ Hc).
    change (caller_id s) with (id_of s (get_caller (st_chain s))) in *. simpl.
    by rewrite (proj2 (N.eqb_neq _ 0) Hu).
  - eapply ensures_mono; [exact He|]. intros r s' (v & A' & -> & Hw).
    split; [by eapply withdraw_move|]. exact (wd_payments _ _ _ _ _ _ Hw).
Qed.


Lemma call_move call s :
  contract_ok s → addressed (st_users s) → fits s → proper call s →
  ensures (dispatch call) s (λ r s', bank_move (move_of call r s) s s').
Proof.
  intros [A Hok] Hus Hfits Hproper. destruct (scope call) eqn:Hsc.
  - apply (unpaid_move call s); [by destruct call|].
    eapply ensures_mono; [by apply dispatch_pure|]. intros r s' <-.
    by destruct call; try discriminate Hsc; intros x.
  - by apply (money_move call s A).
  - apply (unpaid_move call s); [by destruct call|].
    eapply ensures_mono; [by apply dispatch_thrifty|]. intros r s' Hk.
    replace (move_of call r s) with Rest by (by destruct call).
    by apply (money_kept_rest s A).
Qed.

(** *** The accounts add up *)
Definition address_of s (u : N) : Address := default 0 (us_user_address (st_users s) !! u).

Lemma address_of_id s u : addressed (st_users s) → u ∈ users s → id_of s (address_of s u) = u.
Proof.
  intros Hus Hu. apply elem_of_ids_up_to in Hu.
  destruct (adr_known _ Hus u Hu) as [a Ha]. unfold address_of. rewrite Ha. simpl.
  by destruct (uo_address _ (adr_ok _ Hus) _ _ Ha).
Qed.

Lemma deposits_sum s A :
  addressed (st_users s) → op_ok (st_global_op_checkpoint s) s A →
  sum_over (λ u, deposited (account_of s (address_of s u))) (users s) = total_stake s.
Proof.
  intros Hus Hok.
  rewrite (total_stake_holdings s s A) by first [by eapply op_ok_rep|by eapply op_ok_owned].
  apply sum_over_ext. intros u Hu. by rewrite (deposited_holdings s A), address_of_id.
Qed.

Lemma earnings_sum s A :
  addressed (st_users s) → Inv s A →
  sum_over (λ u, earned (account_of s (address_of s u))) (users s) + sent s ≤ cumulated s.
Proof.
  intros Hus HI. rewrite (sum_over_ext _ (λ u, claimable u s)); [by apply (claimable_received s A)|].
  intros u Hu. simpl. rewrite address_of_id by done. apply elem_of_ids_up_to in Hu.
  by rewrite (proj2 (N.eqb_neq u 0)) by lia.
Qed.

(** What the views show. *)
Lemma claimable_view s A a :
  Inv s A → dispatch (Call.getClaimableRewards a) s = Ok ([num (earned (account_of s a))], s).
Proof.
  intros HI. simpl. unfold get_claimable_rewards. unfold bind at 1. unfold bind at 1, gets at 1.
  fold (id_of s a). destruct (id_of s a =? 0); [done|]. unfold bind at 1.
  by rewrite load_updated_user_rewards_eq by (by apply (inv_ready s A)).
Qed.

(** A deployment opens a bank without accounts. *)
Lemma deployed_empty c s a : deploys c s → account_of s a = no_account.
Proof.
  intros Hd. pose proof (deployed_ok c s Hd) as [_ Hus _]. simpl in Hus.
  destruct (deployed_nothing c s Hd) as (Hst & _ & Hc).
  destruct Hd as (auction & fee & share & n & minimum & cap & Hfee & Hshare & Hcum & Hcap & Heq).
  destruct (init_spec c auction fee share n minimum cap Hfee Hshare Hcum Hcap)
    as ([] & s' & Heq' & HI & Hstk & _ & _ & _ & Hop).
  rewrite Heq in Heq'. injection Heq' as <-.
  assert (op_ok (st_global_op_checkpoint s) s empty_funds) as Hok by (by rewrite Hop).
  apply account_eq; [by rewrite (deposited_holdings s empty_funds)|]. simpl.
  destruct (N.eqb_spec (id_of s a) 0) as [|Hne]; [done|].
  pose proof (claimable_received s empty_funds HI) as Hr.
  pose proof (sum_over_elem (λ u, claimable u s) (users s) _ (known_user s a Hus Hne)) as Hle.
  cbv beta in Hle. lia.
Qed.
End Accounts.

(** ** Runs of the bank *)
Inductive bank_run : list Move → Bank → Bank → Prop :=
| run_done b b' : (∀ x, b' x = b x) → bank_run [] b b'
| run_move m ms b1 b2 b3 : bank_step m b1 b2 → bank_run ms b2 b3 → bank_run (m :: ms) b1 b3.

(** What an address has paid in and taken out. *)
Definition paid_in (a : Address) (m : Move) : N :=
  match m with Deposit x v => if decide (x = a) then v else 0 | _ => 0 end.
Definition taken_out (a : Address) (m : Move) : N :=
  match m with Withdraw x v => if decide (x = a) then v else 0 | _ => 0 end.

Lemma bank_step_balance m b b' a :
  bank_step m b b' → deposited (b' a) + taken_out a m = deposited (b a) + paid_in a m.
Proof.
  destruct m as [x v|x v|x v| |o| |]; simpl.
  - intros Ho. rewrite Ho. destruct (decide (a = x)) as [->|Hne]; simpl.
    + rewrite decide_True by done. lia.
    + rewrite decide_False by done. lia.
  - intros [Hle Ho]. rewrite Ho. destruct (decide (a = x)) as [->|Hne]; simpl.
    + rewrite decide_True by done. lia.
    + rewrite decide_False by done. lia.
  - intros [_ Ho]. rewrite Ho. by case_decide.
  - intros Ha. by destruct (Ha a) as [-> _].
  - intros Ha. by destruct (Ha a) as [-> _].
  - intros Ha. by rewrite Ha.
  - intros Ha. by rewrite Ha.
Qed.

Lemma bank_run_balance ms b b' a :
  bank_run ms b b' →
  deposited (b' a) + sum_over (taken_out a) ms = deposited (b a) + sum_over (paid_in a) ms.
Proof.
  unfold sum_over. induction 1 as [b b' Heq|m ms b1 b2 b3 Hm Hr IH]; simpl.
  - by rewrite Heq.
  - pose proof (bank_step_balance m b1 b2 a Hm). lia.
Qed.

(** ** The refinement *)
Section Refinement.
Context {C : Type} `{!Chain C, !ChainLaws C, !CallLog C}.
Implicit Type s : State C.

(** The steps of the system, with the moves that they should be. *)
Inductive moves : Move → State C * list Callback → State C * list Callback → Prop :=
| mv_call call r s s' p :
    call_fits call s → proper call s → dispatch call s = Ok (r, s') →
    moves (move_of call r s) (s, p) (s', p ++ new_callbacks s s')
| mv_callback cb res s s' p1 p2 :
    run_callback cb res s = Ok (tt, s') → moves Rest (s, p1 ++ cb :: p2) (s', p1 ++ p2)
| mv_upgrade s s' p : 0 < cap_of s → update_init s = Ok (tt, s') → moves Rest (s, p) (s', p)
| mv_chain c s p : later_chain c s → moves Accrue (s, p) (set_chain c s, p).

Inductive moves_run : list Move → State C * list Callback → State C * list Callback → Prop :=
| mr_done sp : moves_run [] sp sp
| mr_move m ms sp1 sp2 sp3 :
    moves m sp1 sp2 → moves_run ms sp2 sp3 → moves_run (m :: ms) sp1 sp3.

Lemma moves_system sp sp' : (∃ m, moves m sp sp') ↔ system_step sp sp'.
Proof.
  split.
  - intros [m []]; [by eapply sys_call|by eapply sys_callback|by apply sys_upgrade|by apply sys_chain].
  - intros []; eexists; [by eapply mv_call|by eapply mv_callback|by apply mv_upgrade|by apply mv_chain].
Qed.

Lemma moves_bank m sp sp' :
  system_ok sp → moves m sp sp' →
  bank_step m (account_of (fst sp)) (account_of (fst sp')) ∧
  (m ≠ Accrue → pays_out m (fst sp) (fst sp')).
Proof.
  intros [[A HA] Hus _] Hm.
  destruct Hm as [call r s s' p [Hfits _] Hproper Hdis|cb res s s' p1 p2 Hcb|s s' p Hcap Hup|c s p Hl];
    simpl in *.
  - destruct (ensures_inv (dispatch call) s (λ r s', bank_move (move_of call r s) s s') r s')
      as [Hb Hp]; [|done..]. apply call_move; [by exists A|done..].
  - pose proof (ensures_inv _ _ (λ _ s', money_kept s s') tt s'
      (thrifty_callback money_kept cb res s) Hcb) as Hk.
    pose proof (ensures_inv _ _ (λ _ s', unpaid s s') tt s'
      (thrifty_callback unpaid cb res s) Hcb) as Hu.
    split; [by apply (money_kept_rest s A)|]. intros _. unfold pays_out. by rewrite app_nil_r.
  - rewrite upgrade_same in Hup by done. injection Hup as <-.
    split; [done|]. intros _. unfold pays_out. by rewrite app_nil_r.
  - split; [by apply accrue_move|done].
Qed.

Lemma moves_run_bank ms sp sp' :
  system_ok sp → moves_run ms sp sp' → bank_run ms (account_of (fst sp)) (account_of (fst sp')).
Proof.
  intros Hok Hr. revert Hok. induction Hr as [sp|m ms sp1 sp2 sp3 Hm Hr IH]; intros Hok.
  - by apply run_done.
  - eapply run_move; [by apply moves_bank|]. apply IH.
    eapply system_step_ok; [|exact Hok]. apply moves_system. by exists m.
Qed.

(** C2: the contract refines a bank.  Take any state that is reached ([reached]: the
    calls are [proper] and the 32-bit ids last; not covered are an owner who ends
    the bootstrap mode with a cap equal to what is there, resumes a dust cleanup at
    a fund of the other list or at a deleted one, or forces a node that awaits an
    answer; rewards only grow, and come in after the bootstrap mode only).  A
    deployment has empty accounts, and every step, through nodes, global operations
    in stages and cleanups, is the move of the bank that it should be, and makes
    exactly the payments of that move: staking deposits for the caller; withdrawing
    takes an amount from the caller's deposit and sends that amount to the caller;
    claiming empties the caller's earnings and sends them to the caller; a global
    operation leaves all deposits alone, pays nobody and gives nobody but the owner
    anything (unless rewards came in while it was moving stake, which it shares out
    anew); every other call, every answer of the auction and an upgrade change no
    account and pay nobody; and new rewards only add to earnings.  The deposits add
    up to the total stake, and over a whole run the deposit of an address is what it
    has staked less what it was paid back. *)
Theorem contract_refines_bank :
  (∀ c s a, deploys c s → account_of s a = no_account) ∧
  (∀ s p, reached s p →
    (∀ m s' p', moves m (s, p) (s', p') →
      bank_step m (account_of s) (account_of s') ∧
      (m ≠ Accrue → payments_of (st_chain s') = payments_of (st_chain s) ++ payments m)) ∧
    sum_over (λ u, deposited (account_of s (address_of s u))) (users s) = total_stake s) ∧
  (∀ c s0 ms s p a, deploys c s0 → moves_run ms (s0, []) (s, p) →
    deposited (account_of s a) + sum_over (taken_out a) ms = sum_over (paid_in a) ms).
Proof.
  split_and!.
  - intros c s a. apply deployed_empty.
  - intros s p Hr. pose proof (reached_ok s p Hr) as Hok. split.
    + intros m s' p' Hm. by apply (moves_bank m (s, p) (s', p')).
    + destruct Hok as [[A HA] Hus _]. by apply (deposits_sum s A).
  - intros c s0 ms s p a Hd Hr.
    pose proof (bank_run_balance ms _ _ a (moves_run_bank ms (s0, []) (s, p) (deployed_ok c s0 Hd) Hr))
      as Hb.
    simpl fst in Hb. rewrite (deployed_empty c s0 a Hd) in Hb. exact Hb.
Qed.

(** Between global operations the bank is open and solvent: the views show every
    account as it is, and what everybody has earned, with what was sent, is covered by
    what came in. *)
Theorem bank_open s p :
  reached s p → st_global_op_checkpoint s = GlobalOpCheckpoint.None →
  (∀ a, dispatch (Call.getUserStake a) s = Ok ([num (deposited (account_of s a))], s) ∧
    dispatch (Call.getClaimableRewards a) s = Ok ([num (earned (account_of s a))], s)) ∧
  sum_over (λ u, earned (account_of s (address_of s u))) (users s) + sent s ≤ cumulated s.
Proof.
  intros Hr Hop. destruct (reached_ok s p Hr) as [[A HA] Hus _]. simpl in HA, Hus.
  rewrite Hop in HA. destruct HA as [HI _]. split; [|by apply (earnings_sum s A)].
  intros a. split; [done|by apply (claimable_view s A)].
Qed.
End Refinement.

(** ** A delegator claims, another one leaves *)
Definition paying : State SimpleChain :=
  set_chain (mk_SimpleChain 200 200 4 1000 1240 [] [] [] []) queued.

Lemma paying_reached : reached paying [auction_stake_callback [1]].
Proof.
  apply (reached_chain (mk_SimpleChain 200 200 4 1000 1240 [] [] [] []) queued);
    [apply queued_reached|split; [numbers|]].
  assert (bootstrap_of queued = false) as -> by (vm_compute; reflexivity). discriminate.
Qed.

Definition settled_up : State SimpleChain := after (dispatch Call.claimRewards paying) paying.

Lemma claim_rewarded a v : Claim a v ≠ Accrue.
Proof. done. Qed.

Lemma contract_refines_bank_witness :
  dispatch Call.claimRewards paying = Ok ([], settled_up) ∧
  bank_step (Claim 200 (earned (account_of paying 200))) (account_of paying) (account_of settled_up) ∧
  account_of paying 200 = mk_Account 190 1000 ∧ account_of settled_up 200 = mk_Account 190 0 ∧
  account_of settled_up 300 = mk_Account 50 0 ∧
  payments_of (st_chain settled_up) = [(200, 1000)].
Proof.
  assert (dispatch Call.claimRewards paying = Ok ([], settled_up)) as Hd
    by (vm_compute; reflexivity).
  destruct (contract_refines_bank (C:=SimpleChain)) as (_ & Hb & _).
  destruct (Hb paying _ paying_reached) as (Hmove & _).
  assert (moves (move_of Call.claimRewards [] paying) (paying, [auction_stake_callback [1]])
    (settled_up, [auction_stake_callback [1]] ++ new_callbacks paying settled_up)) as Hm
    by (apply (mv_call Call.claimRewards [] paying settled_up);
        [split; [split; numbers|exact I]|exact I|exact Hd]).
  apply Hmove in Hm as [Hs Hp].
  assert (get_caller (st_chain paying) = 200) as Ha by (vm_compute; reflexivity).
  assert (account_of paying 200 = mk_Account 190 1000) as Hacc by (vm_compute; reflexivity).
  assert (payments_of (st_chain paying) = []) as Hnone by (vm_compute; reflexivity).
  change (move_of Call.claimRewards [] paying) with (Claim (get_caller (st_chain paying))
    (earned (account_of paying (get_caller (st_chain paying))))) in Hs, Hp.
  rewrite Ha in Hs, Hp. specialize (Hp (claim_rewarded 200 _)).
  split; [exact Hd|]. split; [exact Hs|]. split; [exact Hacc|].
  split; [vm_compute; reflexivity|]. split; [vm_compute; reflexivity|].
  rewrite Hp, Hnone, Hacc. reflexivity.
Defined.

Lemma bank_open_witness :
  dispatch (Call.getClaimableRewards 200) paying = Ok ([num 1000], paying) ∧
  sum_over (λ u, earned (account_of paying (address_of paying u))) (users paying) + sent paying
    ≤ cumulated paying.
Proof.
  assert (st_global_op_checkpoint paying = GlobalOpCheckpoint.None) as Hop
    by (vm_compute; reflexivity).
  destruct (bank_open paying _ paying_reached Hop) as [Hv Hs]. split; [|exact Hs].
  destruct (Hv 200) as [_ Hc].
  assert (earned (account_of paying 200) = 1000) as He by (vm_compute; reflexivity).
  rewrite He in Hc. exact Hc.
Defined.
