(* ===== verification/Guards.v ===== *)
(** * What every call refuses

    The checks that an endpoint makes before it changes anything, read off the code
    in the order in which it makes them, with the error of each.  A call that one
    of them refuses fails with the error of the first that does; a call that
    succeeds has passed them all. *)
From stdpp Require Import base numbers list gmap strings.
From S2P Require Import Prelude PtrList FundTypes FundModule FundLedger FundRep FundLoops.
From S2P Require Import FundTotals FundMoves UserData NodeConfig Settings Chain State FundTransf.
From S2P Require Import FundView Rewards TransfSpec UserStake ResetCheckpoint NodeActivation Contract RewardSpec ContractInv.
From S2P Require Import StakeSpec EndpointSpec PayoutSpec SolvencySpec GlobalOpSpec GlobalOpStart ContractSystem.
From S2P Require Import UserSpec Frame Dispatch System Books Examples SystemTheorems Bank.

(** ** Checks in order *)
Definition Check : Type := Error * bool.

Fixpoint first_failing (gs : list Check) : option Error :=
  match gs with
  | [] => None
  | (e, b) :: gs => if b then first_failing gs else Some e
  end.

(** The computation fails on [s] with the error of the first check that fails. *)
Definition guarded {S A} (gs : list Check) (m : M S A) (s : S) : Prop :=
  ∀ e, first_failing gs = Some e → m s = Err e.

Section Guarded.
Context {S A : Type}.
Implicit Type (m : M S A) (s : S).

Lemma guarded_nil m s : guarded [] m s.
Proof. by intros e. Qed.

Lemma guarded_bind {B} gs (m : M S B) (k : B → M S A) s :
  guarded gs m s → guarded gs (bind m k) s.
Proof. intros Hm e He. unfold bind. by rewrite (Hm e He). Qed.

Lemma guarded_read {B} gs (m : M S B) (k : B → M S A) s a :
  m s = Ok (a, s) → guarded gs (k a) s → guarded gs (bind m k) s.
Proof. intros Ha Hk e He. unfold bind. rewrite Ha. by apply Hk. Qed.

Lemma guarded_gets {B} gs (f : S → B) (k : B → M S A) s :
  guarded gs (k (f s)) s → guarded gs (bind (gets f) k) s.
Proof. by apply guarded_read. Qed.

Lemma guarded_assoc {B B'} gs (m : M S B) (f : B → M S B') (k : B' → M S A) s :
  guarded gs (bind m (λ b, bind (f b) k)) s → guarded gs (bind (bind m f) k) s.
Proof.
  intros Hm e He. rewrite <-(Hm e He). unfold bind. by destruct (m s) as [[b s']|].
Qed.

(** A computation that only reads, and fails only at its check. *)
Lemma guarded_check {B} gs e b (m : M S B) (k : B → M S A) s a :
  (b = false → m s = Err e) → (b = true → m s = Ok (a, s)) → guarded gs (k a) s →
  guarded ((e, b) :: gs) (bind m k) s.
Proof.
  intros Hno Hyes Hk e'. unfold bind. simpl. destruct b.
  - rewrite Hyes by done. apply Hk.
  - intros [= <-]. by rewrite Hno.
Qed.

Lemma guarded_last e b m s : (b = false → m s = Err e) → guarded [(e, b)] m s.
Proof. intros Hno e'. simpl. destruct b; [done|]. intros [= <-]. by apply Hno. Qed.

Lemma guarded_unit gs (m : M S unit) s : guarded gs (m ;;; ret tt) s → guarded gs m s.
Proof.
  intros Hm e He. specialize (Hm e He). unfold bind in Hm.
  by destruct (m s) as [[u s']|].
Qed.

Lemma guarded_require gs b msg (k : unit → M S A) s :
  guarded gs (k tt) s → guarded ((Panic msg, b) :: gs) (bind (require b msg) k) s.
Proof. apply guarded_check; by intros ->. Qed.

(** Checks on each element of a list. *)
Lemma guarded_each {X} (checks : X → list Check) gs (f : X → A → M S A) (k : A → M S A) l s :
  (∀ x a gs' (k' : A → M S A), guarded gs' (k' a) s →
    guarded (checks x ++ gs') (bind (f x a) k') s) →
  ∀ a, guarded gs (k a) s → guarded (concat (checks <$> l) ++ gs) (bind (for_each l a f) k) s.
Proof.
  intros Hf. induction l as [|x l IH]; intros a Hk; simpl.
  - by apply (guarded_read _ _ _ _ a).
  - rewrite <-(assoc_L (++)). apply guarded_assoc, Hf. by apply IH.
Qed.

Lemma guarded_ensures gs m s :
  guarded gs m s → ensures m s (λ _ _, first_failing gs = None).
Proof.
  intros Hg. unfold ensures, outcome. destruct (m s) as [[a s']|e] eqn:Hm; [|done].
  destruct (first_failing gs) as [e|] eqn:Hf; [|done]. by rewrite (Hg e Hf) in Hm.
Qed.
End Guarded.

(** ** The checks of every call *)
Section Checks.
Context {C : Type} `{CallLog C}.
Implicit Type s : State C.

Definition owner_only s : Check :=
  (Panic "Endpoint can only be called by owner",
   get_caller (st_chain s) =? get_owner_address (st_chain s)).
Definition no_operation (msg : string) s : Check :=
  (Panic msg, negb (is_global_op_in_progress s)).
Definition unpaused s : Check := (Panic "contract paused", not_paused (st_chain s)).
Definition enabled (name : string) s : Check :=
  (feature_off name, feature_on name true (st_chain s)).
Definition node_operation s : Check :=
  no_operation "node operations are temporarily paused as checkpoint is reset" s.

Definition total_in (t : FundType) s : N :=
  get_user_stake_of_type USER_STAKE_TOTALS_ID t (st_funds s).
Definition caller_user s : N := get_user_id (get_caller (st_chain s)) (st_users s).
Definition caller_stake s : N :=
  get_user_stake_of_type (caller_user s) FundType.Waiting (st_funds s)
  + get_user_stake_of_type (caller_user s) FundType.Active (st_funds s).

(** The money that belongs to delegators, and what is left of the balance. *)
Definition protected s : N :=
  cumulated s + total_in FundType.Waiting s + total_in FundType.DeferredPayment s
  + total_in FundType.WithdrawOnly s.
Definition held s : N := get_sc_balance (st_chain s) + rs_sent_rewards (st_rewards s).
Definition solvent_now s : Check := (BigUintNegative, protected s <=? held s).

Definition owner_share s : Check :=
  (Panic "owner doesn't have enough stake in the contract",
   total_in FundType.Active s * owner_min_stake_share (st_settings s) <=?
   get_user_stake_of_type OWNER_USER_ID FundType.Active (st_funds s) * PERCENTAGE_DENOMINATOR).

Definition cap_invariant s : Check :=
  let staked := total_in FundType.Active s + total_in FundType.UnStaked s in
  let cap := total_delegation_cap (st_settings s) in
  (Panic "delegation cap invariant violated",
   if bootstrap_mode (st_settings s) then staked <? cap else staked =? cap).

Definition known_key s (key : BLSKey) : Check :=
  (Panic "unknown node provided", negb (get_node_id key (st_nodes s) =? 0)).
Definition active_key s (key : BLSKey) : Check :=
  (Panic "node must be active",
   bool_decide (get_node_state (get_node_id key (st_nodes s)) (st_nodes s) = NodeState.Active)).

(** The checks on the direction of a change of the cap. *)
Definition change_checks (cap previous : N) s : list Check :=
  match cap ?= previous with
  | Eq => []
  | Gt => [(Panic "no unstaked funds should be present when increasing delegation cap",
            total_in FundType.UnStaked s =? 0)]
  | Lt => [solvent_now s;
           (Panic "not enough funds in contract to pay those who are forced unstaked",
            previous - cap <=? held s - protected s)]
  end.

(** The change of the cap, from the cap that was or, at the end of the bootstrap
    mode, from what there is. *)
Definition cap_checks (cap : N) s : list Check :=
  let available :=
    total_in FundType.Active s + total_in FundType.Waiting s + total_in FundType.UnStaked s in
  if bootstrap_mode (st_settings s)
  then if available <? cap then [] else change_checks cap available s
  else (Panic "new delegation cap must be less or equal to total active + waiting",
        cap <=? available) :: change_checks cap (total_delegation_cap (st_settings s)) s.

Definition guards (call : Call) s : list Check :=
  match call with
  | Call.addNodes _ | Call.removeNodes _
  | Call.setNumBlocksBeforeUnBond _ | Call.setMinimumStake _ => [owner_only s]
  | Call.stakeNodes amount _ =>
      [owner_only s;
       (Panic "cannot stake nodes in bootstrap mode", negb (bootstrap_mode (st_settings s)));
       node_operation s; solvent_now s;
       (Panic "not enough funds in contract to stake nodes", amount <=? held s - protected s);
       owner_share s]
  | Call.unStakeNodes _ | Call.unStakeNodesAndTokens _
  | Call.unBondAllPossibleNodes | Call.claimUnusedFunds => [owner_only s; node_operation s]
  | Call.forceNodeUnBondPeriod keys =>
      [owner_only s;
       (Panic "unknown node provided", forallb (λ key, snd (known_key s key)) keys)]
  | Call.unBondNodes keys =>
      [owner_only s; node_operation s;
       (Panic "no BLS keys provided", negb (bool_decide (keys = [])))]
  | Call.unJailNodes keys _ =>
      owner_only s :: concat ((λ key, [known_key s key; active_key s key]) <$> keys)
  | Call.validateOwnerStakeShare => [owner_share s]
  | Call.validateDelegationCapInvariant => [cap_invariant s]
  | Call.continueGlobalOperation => [enabled "continueGlobalOperation" s]
  | Call.modifyTotalDelegationCap cap =>
      owner_only s ::
      no_operation "cannot modify total delegation cap when last is in progress" s ::
      cap_checks cap s
  | Call.setServiceFee fee =>
      [(Panic "service fee out of range", fee <=? PERCENTAGE_DENOMINATOR);
       no_operation "global checkpoint is in progress" s]
  | Call.claimRewards =>
      [unpaused s; enabled "claimRewards" s;
       (Panic "unknown caller", negb (caller_user s =? 0));
       no_operation "claim rewards is temporarily paused as checkpoint is reset" s]
  | Call.stake payment =>
      [unpaused s;
       (Panic "cannot stake less than minimum stake", min_stake (st_settings s) <=? payment);
       no_operation "staking is temporarily paused as checkpoint is reset" s]
  | Call.unStake value =>
      [unpaused s;
       no_operation "unstaking is temporarily paused as checkpoint is reset" s;
       (Panic "only delegators can unstake", negb (caller_user s =? 0));
       (Panic "cannot unstake more than the user waiting + active stake",
        value <=? caller_stake s);
       (Panic "cannot unstake less than minimum stake",
        (value =? caller_stake s) || (min_stake (st_settings s) <=? value))]
  | Call.unBond => [unpaused s; (Panic "unknown caller", 0 <? caller_user s)]
  | Call.dustCleanupWaitingList _ | Call.dustCleanupActive _ =>
      [owner_only s; no_operation "contract is temporarily paused as checkpoint is reset" s]
  | _ => []
  end.

(** ** The endpoints check in this order *)
#[local] Ltac single_check :=
  let Hk := fresh in let Hb := fresh in
  intros Hk; apply guarded_check with (a := tt); [| |exact Hk];
  unfold only_owner, require_no_global_op, require_not_paused, check_feature_on,
    validate_owner_stake_share, stake_of_type, total_in, require, bind, gets; simpl;
  intros Hb; by rewrite Hb.

Lemma guarded_owner {X} gs (m : M (State C) X) s :
  guarded gs m s → guarded (owner_only s :: gs) (only_owner ;;; m) s.
Proof. single_check. Qed.

Lemma guarded_no_op {X} gs msg (m : M (State C) X) s :
  guarded gs m s → guarded (no_operation msg s :: gs) (require_no_global_op msg ;;; m) s.
Proof. single_check. Qed.

Lemma guarded_unpaused {X} gs (m : M (State C) X) s :
  guarded gs m s → guarded (unpaused s :: gs) (require_not_paused ;;; m) s.
Proof. single_check. Qed.

Lemma guarded_enabled {X} gs name (m : M (State C) X) s :
  guarded gs m s → guarded (enabled name s :: gs) (check_feature_on name true ;;; m) s.
Proof.
  intros Hm. apply guarded_check with (a := tt); [..|exact Hm];
    unfold check_feature_on, bind, gets; by intros ->.
Qed.

Lemma guarded_unprotected {X} gs (k : N → M (State C) X) s :
  guarded gs (k (held s - protected s)) s →
  guarded (solvent_now s :: gs) (let! v := total_unprotected in k v) s.
Proof.
  intros Hk. apply guarded_check with (a := held s - protected s); [| |exact Hk];
    unfold total_unprotected, protected, held, total_in, cumulated,
      get_total_cumulated_rewards, stake_of_type, bind, gets, big_sub, fail, ret.
  - intros Hle%N.leb_gt.
    repeat match goal with |- context [if ?a <? ?b then _ else _] => destruct (N.ltb_spec a b) end;
      [done..|lia].
  - intros Hle%N.leb_le. rewrite !(proj2 (N.ltb_ge _ _)) by lia. do 2 f_equal. lia.
Qed.

Lemma guarded_share {X} gs (m : M (State C) X) s :
  guarded gs m s → guarded (owner_share s :: gs) (validate_owner_stake_share ;;; m) s.
Proof. single_check. Qed.

Lemma guarded_cap_invariant s :
  guarded [cap_invariant s] (validate_delegation_cap_invariant (C:=C)) s.
Proof.
  apply guarded_last. unfold validate_delegation_cap_invariant, stake_of_type,
    get_total_delegation_cap, is_bootstrap_mode, require, bind, gets, total_in. simpl.
  destruct (bootstrap_mode _); simpl; by intros ->.
Qed.

Lemma guarded_unstake_amount {X} gs value (m : M (State C) X) s :
  guarded gs m s →
  guarded ((Panic "cannot unstake more than the user waiting + active stake",
            value <=? caller_stake s) ::
           (Panic "cannot unstake less than minimum stake",
            (value =? caller_stake s) || (min_stake (st_settings s) <=? value)) :: gs)
    (validate_unstake_amount (caller_user s) value ;;; m) s.
Proof.
  intros Hm e. simpl. unfold validate_unstake_amount, stake_of_type, get_minimum_stake, bind, gets.
  fold (caller_stake s). destruct (N.compare_spec value (caller_stake s)) as [Heq|Hlt|Hgt].
  - rewrite Heq, N.leb_refl, N.eqb_refl. apply Hm.
  - rewrite (proj2 (N.leb_le _ _)), (proj2 (N.eqb_neq _ _)) by lia. simpl.
    destruct (min_stake (st_settings s) <=? value); simpl; [apply Hm|by intros [= <-]].
  - rewrite (proj2 (N.leb_gt _ _)) by lia. by intros [= <-].
Qed.

(** The keys of a call that forces nodes to unbond: no state that it writes matters. *)
Lemma force_unknown keys : ∀ s s',
  (∀ key, get_node_id key (st_nodes s') = get_node_id key (st_nodes s)) →
  forallb (λ key, snd (known_key s key)) keys = false →
  for_each keys tt (λ bls_key _,
    let! node_id := node_id_of bls_key in
    require (negb (node_id =? 0)) "unknown node provided" ;;;
    put_node_state node_id (NodeState.UnBondPeriod 0)) s' = Err (Panic "unknown node provided").
Proof.
  induction keys as [|key keys IH]; intros s s' Hid; simpl; [done|].
  unfold bind, node_id_of, gets. rewrite Hid.
  destruct (negb (get_node_id key (st_nodes s) =? 0)); [|done]. intros Hall.
  unfold require, ret. simpl. by apply (IH s).
Qed.

Lemma guarded_change {X} s cap previous (done : X) (up : M (State C) X)
    (down : N → M (State C) X) :
  guarded (change_checks cap previous s)
    (match cap ?= previous with
     | Eq => ret done
     | Gt => require (total_in FundType.UnStaked s =? 0)
               "no unstaked funds should be present when increasing delegation cap" ;;; up
     | Lt =>
         let! swap_amount := big_sub previous cap in
         let! unprotected := total_unprotected in
         require (swap_amount <=? unprotected)
           "not enough funds in contract to pay those who are forced unstaked" ;;;
         down swap_amount
     end) s.
Proof.
  unfold change_checks. destruct (N.compare_spec cap previous) as [_|Hlt|_].
  - apply guarded_nil.
  - apply (guarded_read _ _ _ _ (previous - cap)).
    { unfold big_sub. by rewrite (proj2 (N.ltb_ge _ _)) by lia. }
    apply guarded_unprotected, guarded_require, guarded_nil.
  - apply guarded_require, guarded_nil.
Qed.

Lemma guarded_cap cap s :
  guarded (guards (Call.modifyTotalDelegationCap cap) s) (modify_total_delegation_cap cap) s.
Proof.
  unfold modify_total_delegation_cap. simpl. apply guarded_owner, guarded_no_op.
  do 4 apply guarded_gets. unfold cap_checks.
  fold (total_in FundType.Active s) (total_in FundType.Waiting s) (total_in FundType.UnStaked s).
  destruct (bootstrap_mode (st_settings s)); simpl.
  - destruct (_ <? cap); [apply guarded_nil|].
    set (s1 := lens_set (set_bootstrap_mode false (st_settings s)) s : State C).
    intros e. exact (guarded_change s1 cap _ _ _ _ e).
  - apply guarded_assoc, guarded_require. intros e. exact (guarded_change s cap _ _ _ _ e).
Qed.

Lemma guarded_force keys s :
  guarded (guards (Call.forceNodeUnBondPeriod keys) s) (force_node_unbond_period keys) s.
Proof. apply guarded_owner, guarded_last, force_unknown. done. Qed.

Lemma guarded_unjail keys fine s :
  guarded (guards (Call.unJailNodes keys fine) s) (unjail_nodes keys fine) s.
Proof.
  apply guarded_owner. rewrite <-(app_nil_r (concat _)).
  apply guarded_each; [|apply guarded_nil]. intros key [] gs k Hk. simpl.
  apply guarded_assoc, guarded_gets, guarded_assoc, guarded_require, guarded_assoc, guarded_gets,
    guarded_require, Hk.
Qed.

Lemma guarded_call call s : guarded (guards call s) (dispatch call) s.
Proof.
  destruct call; simpl dispatch; try apply guarded_nil; apply guarded_bind; simpl guards.
  - apply guarded_owner, guarded_nil.
  - apply guarded_owner, guarded_nil.
  - apply guarded_owner, guarded_gets, guarded_require, guarded_no_op, guarded_unprotected,
      guarded_require, guarded_share, guarded_nil.
  - apply guarded_owner, guarded_no_op, guarded_nil.
  - apply guarded_owner, guarded_no_op, guarded_nil.
  - apply guarded_force.
  - apply guarded_owner, guarded_no_op, guarded_require, guarded_nil.
  - apply guarded_owner, guarded_no_op, guarded_nil.
  - apply guarded_owner, guarded_no_op, guarded_nil.
  - apply guarded_unjail.
  - apply guarded_owner, guarded_nil.
  - apply guarded_owner, guarded_nil.
  - apply guarded_unit, guarded_share, guarded_nil.
  - apply guarded_cap_invariant.
  - apply guarded_enabled, guarded_nil.
  - apply guarded_cap.
  - apply guarded_require, guarded_no_op, guarded_nil.
  - apply guarded_unpaused, guarded_enabled, guarded_gets, guarded_gets, guarded_require,
      guarded_no_op, guarded_nil.
  - apply guarded_unpaused, guarded_gets, guarded_require, guarded_no_op, guarded_nil.
  - apply guarded_unpaused, guarded_no_op, guarded_gets, guarded_gets, guarded_require,
      guarded_unstake_amount, guarded_nil.
  - apply guarded_unpaused, guarded_gets, guarded_gets, guarded_require, guarded_nil.
  - apply guarded_owner, guarded_no_op, guarded_nil.
  - apply guarded_owner, guarded_no_op, guarded_nil.
Qed.

(** C17: access control and the checks of all endpoints: whoever calls whatever, on
    any state, if a check of the endpoint fails then the call fails with the error
    of the first that does (a transaction that fails changes nothing; the error of
    a feature that is off is whatever the features module makes of its name,
    [feature_off]); and a call that succeeds has passed every check: the owner's
    endpoints were called by the owner, a paused contract takes no stake and pays
    nothing, no call that an operation in progress forbids went through. *)
Theorem guards_enforced call s :
  (∀ e, first_failing (guards call s) = Some e → dispatch call s = Err e) ∧
  ensures (dispatch call) s (λ _ _, first_failing (guards call s) = None).
Proof. split; [apply guarded_call|apply guarded_ensures, guarded_call]. Qed.
End Checks.

(** ** Nothing else stands in the way of delegators *)
Section Served.
Context {C : Type} `{!Chain C, !ChainLaws C, !CallLog C}.
Implicit Type s : State C.

Lemma first_failing_none e b gs :
  first_failing ((e, b) :: gs) = None ↔ b = true ∧ first_failing gs = None.
Proof. simpl. destruct b; [tauto|]. split; [done|by intros [? _]]. Qed.

Lemma no_operation_none s :
  negb (is_global_op_in_progress s) = true → st_global_op_checkpoint s = GlobalOpCheckpoint.None.
Proof. unfold is_global_op_in_progress. rewrite negb_involutive. apply is_none_spec. Qed.

Lemma outcome_with {S A} (m : M S A) (s : S) E (P Q : A → S → Prop) :
  outcome m s E P → ensures m s Q → outcome m s E Q.
Proof. unfold ensures, outcome. by destruct (m s) as [[a s']|e]. Qed.

Definition for_delegators (call : Call) : bool :=
  match call with
  | Call.stake _ | Call.unStake _ | Call.claimRewards | Call.unBond => true
  | _ => false
  end.

(** The balance covers what is to be paid. *)
Definition covered (call : Call) s : Prop :=
  let account := account_of s (get_caller (st_chain s)) in
  match call with
  | Call.claimRewards => earned account ≤ get_sc_balance (st_chain s)
  | Call.unBond => deposited account ≤ get_sc_balance (st_chain s)
  | _ => True
  end.

(** What can still go wrong: staking and unstaking let waiting stake move up, and
    the users that this affects go into a vector of 10000; and unstaking checks
    last that no less than the minimum stays. *)
Definition crowded_lists s : Prop :=
  let n t := count_of t (st_funds s) in
  MAX_AFFECTED_USERS ≤ n FundType.Waiting + n FundType.UnStaked + n FundType.Active.
Definition late_error (call : Call) s (e : Error) : Prop :=
  match call with
  | Call.stake _ => crowded (crowded_lists s) e
  | Call.unStake _ => below_minimum e ∨ crowded (crowded_lists s) e
  | _ => False
  end.

Lemma crowded_room s A n :
  Rep (st_funds s) A →
  n ≤ len_of FundType.Waiting A + len_of FundType.UnStaked A + len_of FundType.Active A + 1 →
  vec_room (crowded_lists s) n.
Proof.
  intros HR Hn. unfold crowded_lists. rewrite !(rep_count _ _ _ HR).
  destruct (N.le_gt_cases n MAX_AFFECTED_USERS); [by left|right; lia].
Qed.

Lemma served call s A :
  op_ok (st_global_op_checkpoint s) s A → fits_in s A → for_delegators call = true →
  first_failing (guards call s) = None → covered call s →
  outcome (dispatch call) s (late_error call s) (λ _ _, True).
Proof.
  intros Hok Hf Hd Hg Hcov. pose proof (op_ok_rep _ _ _ Hok) as HR.
  assert (∀ {X} (m : M (State C) X) (k : X → M (State C) (list Value)) Q,
    (∀ x s', ∃ r, k x s' = Ok (r, s')) → runs m s Q →
    outcome (bind m k) s (late_error call s) (λ _ _, True)) as Hruns.
  { intros X m k Q Hk Hm. apply outcome_bind, runs_outcome. eapply runs_mono; [exact Hm|].
    intros x s' _. destruct (Hk x s') as [r Hr]. unfold outcome. by rewrite Hr. }
  destruct call; try discriminate Hd; simpl guards in Hg;
    repeat (apply first_failing_none in Hg as [?Hb Hg]); simpl dispatch.
  - pose proof (no_operation_none s Hb2) as Hop. apply negb_true_iff, N.eqb_neq in Hb1.
    rewrite Hop in Hok. destruct Hok as [HI _].
    eapply Hruns; [by eexists|]. apply (claim_rewards_spec s A); try done.
    etrans; [|exact Hcov]. simpl. change (id_of s (get_caller (st_chain s))) with (caller_user s).
    by rewrite (proj2 (N.eqb_neq _ _)).
  - pose proof (no_operation_none s Hb1) as Hop. apply N.leb_le in Hb0.
    rewrite Hop in Hok. destruct Hok as [HI Hst]. destruct Hf.
    apply outcome_bind. eapply outcome_mono;
      [apply (stake_spec (crowded_lists s) s A payment); try done|done|].
    + split; [lia|apply (crowded_room s A); [done|lia]..].
    + intros [] s' _. by apply runs_outcome, runs_ret.
  - pose proof (no_operation_none s Hb0) as Hop. apply negb_true_iff, N.eqb_neq in Hb1.
    rewrite Hop in Hok. destruct Hok as [HI Hst]. destruct Hf.
    assert (caller_stake s = stake_of (caller_id s) A) as Hcs.
    { unfold caller_stake, stake_of. by rewrite !(stake_user HR). }
    rewrite Hcs in *. apply N.leb_le in Hb2. apply orb_true_iff in Hb3.
    rewrite N.eqb_eq, N.leb_le in Hb3.
    pose proof (ulen_le (caller_id s) FundType.Waiting A).
    pose proof (ulen_le (caller_id s) FundType.Active A).
    apply outcome_bind. eapply outcome_mono; [apply (unstake_endpoint_spec (crowded_lists s) s A value); try done|done|].
    + split; [lia|apply (crowded_room s A); [done|lia]..].
    + intros [] s' _. by apply runs_outcome, runs_ret.
  - apply N.ltb_lt in Hb0. eapply Hruns; [by eexists|].
    apply (unbond_during_op s A); [done|done|done|unfold caller_id, caller_user in *; lia|..].
    + pose proof (ulen_le (caller_id s) FundType.DeferredPayment A). destruct Hf.
      unfold user_roomy. lia.
    + etrans; [|exact Hcov]. rewrite (deposited_holdings s A) by done.
      change (id_of s (get_caller (st_chain s))) with (caller_id s).
      unfold withdrawable, holdings. lia.
Qed.

(** C16: nothing but the listed checks stands in the way of a delegator: on every state
    that is reached (as in C1) and as long as the 32-bit ids last ([fits]), if the
    checks of the call hold and the balance covers what is to be paid, then
    claiming and withdrawing succeed; staking succeeds or, if 10000 funds or more
    are waiting, unstaked or active, may fail because the vector of affected users
    is full; and unstaking succeeds, or fails so, or with the error of its last
    check, the minimum that has to stay.  What happens is the move of the bank,
    with its payment to the caller. *)
Theorem delegators_served call s p :
  reached s p → fits s → for_delegators call = true →
  first_failing (guards call s) = None → covered call s →
  outcome (dispatch call) s (late_error call s) (λ r s',
    bank_step (move_of call r s) (account_of s) (account_of s') ∧
    payments_of (st_chain s') = payments_of (st_chain s) ++ payments (move_of call r s)).
Proof.
  intros Hr Hfits Hd Hg Hcov. destruct (reached_ok s p Hr) as [[A HA] Hus _]. simpl in HA, Hus.
  eapply outcome_with.
  - apply (served call s A); try done. by apply fits_rep; [eapply op_ok_rep|].
  - apply call_move; [by exists A|done|done|by destruct call].
Qed.
End Served.

(** A stranger on a running contract: the owner's calls and those of delegators are
    refused. *)
Lemma guards_enforced_witness :
  let s := visited_by 999 0 activating in
  dispatch (Call.addNodes [(13, 23)]) s = Err (Panic "Endpoint can only be called by owner") ∧
  dispatch (Call.modifyTotalDelegationCap 200) s =
    Err (Panic "Endpoint can only be called by owner") ∧
  dispatch (Call.unStake 10) s = Err (Panic "only delegators can unstake") ∧
  dispatch Call.claimRewards s = Err (Panic "unknown caller") ∧
  dispatch (Call.setServiceFee 10001) s = Err (Panic "service fee out of range").
Proof.
  intros s. split_and!; apply (guards_enforced (C:=SimpleChain)); vm_compute; reflexivity.
Defined.

(** A delegator who has left is paid. *)
Lemma delegators_served_witness :
  runs (dispatch Call.unBond) leaving (λ r s',
    bank_step (Withdraw 300 (paid_by r)) (account_of leaving) (account_of s') ∧
    payments_of (st_chain s') = payments_of (st_chain leaving) ++ payout 300 (paid_by r)) ∧
  deposited (account_of leaving 300) = 50.
Proof.
  split; [|vm_compute; reflexivity].
  assert (get_caller (st_chain leaving) = 300) as Ha by (vm_compute; reflexivity).
  apply outcome_runs. eapply outcome_mono; [apply (delegators_served Call.unBond leaving _ leaving_reached)| |].
  - split; numbers.
  - reflexivity.
  - vm_compute. reflexivity.
  - numbers.
  - intros e [].
  - intros r s' Hm. rewrite <-Ha. exact Hm.
Defined.
