(* ===== verification/Fairness.v ===== *)
(** * Rewards are shared by the stake

    What a delegator can claim against what the delegator is entitled to without any
    rounding: the share of the rewards that came in since the last checkpoint by the
    active stake, after the service fee, and for the owner the service fee and the
    share of the stake that is missing to the cap. *)
From stdpp Require Import base numbers list gmap strings.
From S2P Require Import Prelude PtrList FundTypes FundModule FundLedger FundRep FundLoops.
From S2P Require Import FundTotals FundMoves UserData NodeConfig Settings Chain State FundTransf.
From S2P Require Import FundView Rewards UserStake ResetCheckpoint NodeActivation Contract RewardSpec ContractInv.
From S2P Require Import StakeSpec EndpointSpec PayoutSpec SolvencySpec GlobalOpSpec GlobalOpStart ContractSystem.
From S2P Require Import UserSpec ViewSpec NodeSpec NodeCalls NodeProtocol Frame Dispatch System Books.
From S2P Require Import FundSpec Examples GlobalTheorems SystemTheorems Bank.

(** ** Two roundings lose less than two units *)
Lemma div_lt_succ a b : 0 < b → a < b * (a / b + 1).
Proof.
  intros Hb. pose proof (N.div_mod a b ltac:(lia)). pose proof (N.mod_lt a b ltac:(lia)). lia.
Qed.

Lemma service_part_gt fee r : fee * r < PERCENTAGE_DENOMINATOR * (service_part fee r + 1).
Proof. by apply div_lt_succ. Qed.

Lemma share_gt fee r a cap :
  0 < cap → a ≤ cap →
  (PERCENTAGE_DENOMINATOR - fee) * r * a <
    (delegators_part fee r * a / cap + 2) * (PERCENTAGE_DENOMINATOR * cap).
Proof.
  intros Hcap Ha. set (D := PERCENTAGE_DENOMINATOR). set (d := delegators_part fee r).
  set (q := d * a / cap).
  assert ((D - fee) * r < D * (d + 1)) as H1 by (by apply div_lt_succ).
  assert (d * a < cap * (q + 1)) as H2 by (by apply div_lt_succ).
  assert ((D - fee) * r * a ≤ D * (d * a) + D * a) as H3.
  { replace (D * (d * a) + D * a) with (D * (d + 1) * a) by lia. apply N.mul_le_mono_r. lia. }
  assert (D * (d * a) < D * (cap * (q + 1))) as H4 by (apply N.mul_lt_mono_pos_l; [done|lia]).
  assert (D * a ≤ D * cap) as H5 by (by apply N.mul_le_mono_l).
  replace ((q + 2) * (D * cap)) with (D * (cap * (q + 1)) + D * cap) by lia. lia.
Qed.

Section Fairness.
Context {C : Type} `{!Chain C, !ChainLaws C, !CallLog C}.
Implicit Type s : State C.

(** What a user is entitled to, in units of [1 / (10000 * cap)]. *)
Definition entitlement s (u : N) : N :=
  owed_user s u + (if u =? OWNER_USER_ID then owed_owner s else 0).

(** The roundings in the rewards of a user. *)
Definition roundings (u : N) : N := if u =? OWNER_USER_ID then 5 else 2.

Lemma new_rewards_gt s A u r :
  Inv s A → 0 < cap_of s → u ≠ 0 →
  (PERCENTAGE_DENOMINATOR - fee_of s) * r * active_of u s +
    (if u =? OWNER_USER_ID then
       r * (fee_of s * scale_of s
            + (PERCENTAGE_DENOMINATOR - fee_of s) * (scale_of s - total_active s))
     else 0) <
  (new_rewards u r s + roundings u) * (PERCENTAGE_DENOMINATOR * scale_of s).
Proof.
  intros HI Hcap Hu. unfold new_rewards, roundings, scale_of. rewrite N.max_r by lia.
  set (D := PERCENTAGE_DENOMINATOR). set (cap := cap_of s) in *. set (fee := fee_of s).
  pose proof (active_le (inv_rep _ _ HI) u) as Ha. pose proof (inv_cap _ _ HI) as Hc.
  pose proof (total_active_eq (inv_rep _ _ HI)) as Ht. rewrite <-Ht in *. fold cap in Hc.
  set (act := total_active s) in *. set (a := active_of u s) in *.
  set (own := if 0 <? a then delegators_part fee r * a / cap else 0).
  assert ((D - fee) * r * a < (own + 2) * (D * cap)) as Hown.
  { unfold own. destruct (N.ltb_spec 0 a) as [Hpos|Hz]; [apply share_gt; lia|].
    assert (a = 0) as -> by lia. rewrite N.mul_0_r. unfold D, PERCENTAGE_DENOMINATOR. lia. }
  destruct (u =? OWNER_USER_ID); [|lia].
  set (miss := if act <? cap then delegators_part fee r * (cap - act) / cap else 0).
  assert ((D - fee) * r * (cap - act) < (miss + 2) * (D * cap)) as Hmiss.
  { unfold miss. destruct (N.ltb_spec act cap) as [Hlt|Hge]; [apply share_gt; lia|].
    assert (cap - act = 0) as -> by lia. rewrite N.mul_0_r. unfold D, PERCENTAGE_DENOMINATOR. lia. }
  assert (fee * r * cap < (service_part fee r + 1) * (D * cap)) as Hserv.
  { replace ((service_part fee r + 1) * (D * cap)) with (D * (service_part fee r + 1) * cap) by lia.
    apply N.mul_lt_mono_pos_r; [done|apply service_part_gt]. }
  replace (r * (fee * cap + (D - fee) * (cap - act))) with
    (fee * r * cap + (D - fee) * r * (cap - act)) by lia.
  replace ((service_part fee r + miss + own + 5) * (D * cap)) with
    ((own + 2) * (D * cap) + (miss + 2) * (D * cap) + (service_part fee r + 1) * (D * cap)) by lia.
  lia.
Qed.

(** The rewards of a user are the entitlement, rounded down. *)
Lemma claimable_entitlement s A u :
  Inv s A → u ≠ 0 →
  claimable u s * (PERCENTAGE_DENOMINATOR * scale_of s) ≤ entitlement s u ∧
  (0 < cap_of s → entitlement s u <
    (claimable u s + roundings u) * (PERCENTAGE_DENOMINATOR * scale_of s)).
Proof.
  intros HI Hu. unfold claimable, entitlement. rewrite updated_unclaimed.
  set (r := cumulated s - checkpoint_of u s). set (X := PERCENTAGE_DENOMINATOR * scale_of s).
  assert (0 < X) as HX by (unfold X, scale_of, PERCENTAGE_DENOMINATOR; lia).
  assert (0 < roundings u) as Hr by (unfold roundings; case_match; lia).
  assert ((if u =? OWNER_USER_ID then owed_owner s else 0) =
    if u =? OWNER_USER_ID then
      r * (fee_of s * scale_of s
           + (PERCENTAGE_DENOMINATOR - fee_of s) * (scale_of s - total_active s)) else 0) as ->.
  { unfold r. by destruct (N.eqb_spec u OWNER_USER_ID) as [->|]. }
  unfold owed_user. fold r X. destruct (N.eqb_spec r 0) as [Hz|Hnz].
  - rewrite Hz, N.add_0_r, N.mul_0_r, !N.mul_0_l. destruct (u =? OWNER_USER_ID);
      (split; [lia|intros _; rewrite N.mul_add_distr_r; nia]).
  - pose proof (new_rewards_le s u r) as Hle. fold X in Hle. split; [rewrite N.mul_add_distr_r; lia|].
    intros Hcap. pose proof (new_rewards_gt s A u r HI Hcap Hu) as Hgt. fold X in Hgt.
    rewrite <-!N.add_assoc, N.mul_add_distr_r. lia.
Qed.

(** C5: rewards are shared by the stake, to the unit: between global operations the
    view of what an address can claim shows the share of the address in all that came
    in since its checkpoint, by its active stake and after the service fee (for the
    owner, with the fee and the share of the stake that is missing to the cap), added
    to what was unclaimed before, and rounded down by less than two units (five for
    the owner); nobody gets more than the exact share. *)
Theorem rewards_shared_fairly s p a :
  reached s p → st_global_op_checkpoint s = GlobalOpCheckpoint.None →
  get_user_id a (st_users s) ≠ 0 →
  let u := get_user_id a (st_users s) in
  let unit := PERCENTAGE_DENOMINATOR * scale_of s in
  ∃ v, dispatch (Call.getClaimableRewards a) s = Ok ([num v], s) ∧
    v * unit ≤ entitlement s u ∧
    (0 < cap_of s → entitlement s u < (v + roundings u) * unit).
Proof.
  intros Hr Hop Hne u unit. destruct (reached_ok s p Hr) as [[A HA] _ _]. simpl in HA.
  rewrite Hop in HA. destruct HA as [HI _]. exists (claimable u s).
  destruct (claimable_entitlement s A u HI Hne). split_and!; [|done..].
  rewrite (claimable_view s A a HI). simpl. unfold id_of. fold u.
  by rewrite (proj2 (N.eqb_neq u 0)).
Qed.
End Fairness.

(** ** Two delegators, a fee of 10%, and a reward of 1000 *)
Definition half_filled : State SimpleChain := after (dispatch (Call.stake 100) deployed) deployed.
Definition full : State SimpleChain :=
  after (dispatch (Call.stake 90) (visited_by 300 190 half_filled)) (visited_by 300 190 half_filled).
Definition rewarded_chain : SimpleChain := mk_SimpleChain 999 200 4 1000 1190 [] [] [] [].
Definition sharing : State SimpleChain := set_chain rewarded_chain full.

Lemma sharing_reached : reached sharing [].
Proof.
  apply (reached_chain rewarded_chain full).
  2: { split; [numbers|]. assert (bootstrap_of full = false) as -> by (vm_compute; reflexivity).
       discriminate. }
  apply (reached_call (Call.stake 90) [] (visited_by 300 190 half_filled) _ []);
    [|split; [split; numbers|exact I]|exact I|vm_compute; reflexivity|vm_compute; reflexivity].
  apply (reached_chain (mk_SimpleChain 300 200 3 0 190 [] [] [] []) half_filled);
    [|split; [numbers|intros _; reflexivity]].
  apply (reached_call (Call.stake 100) [] deployed _ []);
    [|split; [split; numbers|exact I]|exact I|vm_compute; reflexivity|vm_compute; reflexivity].
  apply (reached_deployed first_chain). exists 900, 1000, 500, 10, 5, 190.
  split_and!; [numbers|numbers|reflexivity|numbers|vm_compute; reflexivity].
Qed.

Lemma rewards_shared_fairly_witness :
  dispatch (Call.getClaimableRewards 300) sharing = Ok ([num 426], sharing) ∧
  entitlement sharing 2 = 9000 * 1000 * 90 ∧
  426 * (10000 * 190) ≤ entitlement sharing 2 < (426 + 2) * (10000 * 190).
Proof.
  assert (get_user_id 300 (st_users sharing) = 2) as Hu by (vm_compute; reflexivity).
  destruct (rewards_shared_fairly sharing [] 300 sharing_reached) as (v & Hv & Hle & Hlt);
    [vm_compute; reflexivity|rewrite Hu; discriminate|].
  assert (dispatch (Call.getClaimableRewards 300) sharing = Ok ([num 426], sharing)) as Hd
    by (vm_compute; reflexivity).
  rewrite Hd in Hv.
  apply (f_equal (λ r, match r with Ok ([num w], _) => w | _ => 0 end)) in Hv.
  cbv beta iota in Hv. subst v. rewrite Hu in *.
  assert (scale_of sharing = 190) as Hs by (vm_compute; reflexivity). rewrite Hs in *.
  split; [exact Hd|]. split; [vm_compute; reflexivity|]. split; [exact Hle|].
  apply Hlt. vm_compute. reflexivity.
Defined.
