(* ===== verification/WorldSpec.v ===== *)
(** * Transactions of the world are runs of the system

    On the world of the scenarios a call to the auction and its callback are
    executed in the transaction that started them.  That is one of the orders in
    which the asynchronous system runs: what holds on the states that the system
    reaches holds after every transaction. *)
From stdpp Require Import base numbers list gmap strings relations.
From S2P Require Import Prelude FundTypes FundModule UserData NodeConfig Settings Chain State.
From S2P Require Import FundTransf FundView Rewards UserStake ResetCheckpoint NodeActivation Contract.
From S2P Require Import RewardSpec ContractInv EndpointSpec GlobalOpStart ContractSystem NodeSpec NodeCalls.
From S2P Require Import NodeProtocol Frame Dispatch System AuctionMock World.

(** ** What a call sees of the chain *)
Section View.
Context {C : Type} `{!Chain C, !ChainLaws C, !CallLog C}.

Lemma dispatch_view call : within (view_kept (C:=C)) (dispatch call).
Proof.
  destruct (scope call) eqn:Hsc.
  - intros s. eapply ensures_mono; [by apply dispatch_pure|]. by intros r s' <-.
  - destruct (registers call) eqn:Hr; [|by apply (dispatch_within view_kept)].
    destruct call; try discriminate Hr; simpl.
    + apply within_bind; [by apply within_zoom|intros; within].
    + apply quiet_nothing, quiet_stake; [apply _..|]. intros a. by apply within_zoom.
  - intros s. eapply ensures_mono; [by apply dispatch_thrifty|]. intros r s' Hk. apply Hk.
Qed.
End View.

(** ** The world *)
Lemma credit_contract w t : w_contract (credit w t) = w_contract w.
Proof. by destruct t. Qed.
Lemma credit_rewards w t : w_rewards (credit w t) = w_rewards w.
Proof. by destruct t. Qed.

Lemma settle_kept a c w :
  w_contract (settle a c w) = w_contract w ∧ w_rewards (settle a c w) = w_rewards w.
Proof.
  unfold settle. set (w0 := set_balance_of _ _ _).
  assert (w_contract w0 = w_contract w ∧ w_rewards w0 = w_rewards w) as H0 by done.
  revert H0. generalize w0. induction (sc_transfers c) as [|t l IH]; intros w1 H1; simpl; [done|].
  apply IH. by rewrite credit_contract, credit_rewards.
Qed.

Lemma run_async_kept gas call w w' res :
  run_async gas call w = (w', res) →
  w_contract w' = w_contract w ∧ w_rewards w' = w_rewards w.
Proof.
  unfold run_async. destruct (Auction.run_auction_call _ _ _) as [[buffers m']|e].
  - intros [= <- _]. exact (settle_kept _ _ (set_auction _ w)).
  - by intros [= <- _].
Qed.

(** The contract has seen all rewards there are. *)
Definition caught_up w : Prop := cumulated (w_contract w) = w_rewards w.

Lemma caught_up_later w caller gas a value :
  caught_up w → later_chain (chain_for caller gas a value w) (w_contract w).
Proof. unfold caught_up, later_chain. simpl. intros ->. by split. Qed.

Lemma run_answer_reached gas cb res p w w' events :
  reached (w_contract w) (cb :: p) → caught_up w →
  run_answer gas (Some cb) res w = (w', events) →
  reached (w_contract w') p ∧ caught_up w' ∧ w_rewards w' = w_rewards w.
Proof.
  intros Hr Hup. unfold run_answer.
  pose proof (reached_chain _ _ _ Hr (caught_up_later w sc_auction gas sc_delegation 0 Hup)) as Hs.
  set (s := set_chain _ _) in *.
  destruct (callback_answered cb res s [] p (reached_ok _ _ Hs)) as ([] & s' & Heq & _ & Hk & _).
  rewrite Heq. intros [= <- _]. destruct (settle_kept sc_delegation (st_chain s') (set_contract s' w)) as [Hc Hw].
  unfold caught_up. rewrite Hc, Hw. simpl. split_and!; [| |done].
  - eapply reached_step; [exact Hs|]. apply (sys_callback cb res s s' [] p), Heq.
  - destruct (chain_view_eq _ _ (mk_view _ _ Hk)) as (_ & _ & _ & Hcum). exact Hcum.
Qed.

(** The calls of a transaction are answered one after the other. *)
Lemma run_asyncs_reached gas calls : ∀ w events w' events',
  reached (w_contract w) (omap ac_callback calls) → caught_up w →
  foldl (λ '(w, events) call,
    let '(w, res) := run_async gas call w in
    let '(w, events') := run_answer gas (ac_callback call) res w in
    (w, events ++ events')) (w, events) calls = (w', events') →
  reached (w_contract w') [] ∧ caught_up w' ∧ w_rewards w' = w_rewards w.
Proof.
  induction calls as [|call calls IH]; intros w events w' events' Hr Hup; simpl.
  { by intros [= <- _]. }
  destruct (run_async gas call w) as [w1 res] eqn:H1.
  destruct (run_async_kept _ _ _ _ _ H1) as [Hc1 Hw1].
  destruct (run_answer gas (ac_callback call) res w1) as [w2 ev] eqn:H2. simpl in Hr.
  rewrite <-Hw1. rewrite <-Hc1 in Hr.
  assert (caught_up w1) as Hup1 by (unfold caught_up; by rewrite Hc1, Hw1).
  destruct (ac_callback call) as [cb|].
  - destruct (run_answer_reached _ _ _ _ _ _ _ Hr Hup1 H2) as (Hr2 & Hup2 & Hw2).
    rewrite <-Hw2. by apply IH.
  - injection H2 as <- _. by apply IH.
Qed.

Lemma run_call_reached from gas call w values w' events :
  let c := chain_for from gas sc_delegation (payment_of call) w in
  let s := set_chain c (w_contract w) in
  reached (w_contract w) [] → later_chain c (w_contract w) →
  call_fits call s → proper call s → run_call from gas call w = (out values, w', events) →
  reached (w_contract w') [] ∧ caught_up w' ∧ w_rewards w' = w_rewards w.
Proof.
  intros c s Hr Hlater Hfits Hproper. unfold run_call. fold c s.
  destruct (balance_of from w <? payment_of call); [done|].
  destruct (dispatch call s) as [[r s']|e] eqn:Hd; [|by destruct e].
  set (w1 := set_balance_of from _ w).
  set (w2 := settle sc_delegation (st_chain s') (set_contract s' w1)).
  unfold run_asyncs. destruct (foldl _ (w2, []) _) as [w3 events3] eqn:Hrun. intros [= _ <- _].
  destruct (settle_kept sc_delegation (st_chain s') (set_contract s' w1)) as [Hc2 Hw2].
  fold w2 in Hc2, Hw2. simpl in Hc2, Hw2. change (w_rewards w1) with (w_rewards w) in Hw2.
  rewrite <-Hw2. refine (run_asyncs_reached gas _ w2 [] w3 events3 _ _ Hrun); unfold caught_up;
    rewrite Hc2.
  - eapply (reached_call call r s s' []); [by apply reached_chain|done..|].
    unfold new_callbacks. by rewrite drop_0.
  - rewrite Hw2.
    pose proof (ensures_inv (dispatch call) s (λ _ s', view_kept s s') r s' (dispatch_view call s) Hd)
      as Hv.
    destruct (chain_view_eq _ _ Hv) as (_ & _ & _ & Hcum). exact Hcum.
Qed.
