(* ===== verification/WorldBooks.v ===== *)
(** * The books of the world

    No transaction of the world makes or loses money: what the contract and the
    auction mock hold together changes by what comes in and what is paid out. *)
From stdpp Require Import base numbers list gmap strings.
From S2P Require Import Prelude PtrList FundTypes FundModule FundLedger FundRep FundLoops.
From S2P Require Import FundTotals FundMoves UserData NodeConfig Settings Chain State FundTransf.
From S2P Require Import FundView Rewards UserStake ResetCheckpoint NodeActivation Contract RewardSpec ContractInv.
From S2P Require Import StakeSpec EndpointSpec PayoutSpec SolvencySpec GlobalOpSpec GlobalOpStart ContractSystem.
From S2P Require Import UserSpec ViewSpec NodeSpec NodeCalls NodeProtocol Frame Dispatch System.
From S2P Require Import Books AuctionMock World WorldSpec.

(** ** The chain of a call *)
Implicit Type s : State SimpleChain.

Definition transfers_of s : list (Address * N) := sc_transfers (st_chain s).
Definition sum_of (l : list N) : N := sum_over id l.

Lemma sum_of_app l l' : sum_of (l ++ l') = sum_of l + sum_of l'.
Proof. apply sum_over_app. Qed.

(** Money is sent to [a] only. *)
Definition sends_to (a : Address) s s' : Prop :=
  ∃ paid, transfers_of s' = transfers_of s ++ ((a,.) <$> paid) ∧ balance s = balance s' + sum_of paid.
#[export] Instance sends_to_preorder a : PreOrder (sends_to a).
Proof.
  split; [intros s; exists []; rewrite app_nil_r; split; [done|unfold sum_of; simpl; lia]|].
  intros s1 s2 s3 (l1 & H1 & B1) (l2 & H2 & B2). exists (l1 ++ l2).
  rewrite H2, H1, sum_of_app, fmap_app, (assoc_L (++)). split; [done|lia].
Qed.

Lemma sends_nothing a s s' :
  transfers_of s' = transfers_of s → balance s' = balance s → sends_to a s s'.
Proof.
  intros Ht Hb. exists []. rewrite Ht, Hb, app_nil_r. split; [done|]. unfold sum_of. simpl. lia.
Qed.

#[export] Instance sends_to_money a : MoneyFrame (sends_to a).
Proof.
  split; try (intros; by apply sends_nothing).
  - apply _.
  - intros s. unfold gas_left, ensures, outcome. simpl.
    destruct (sc_gas (st_chain s)); by apply sends_nothing.
  - intros e. apply within_modify. intros s. by apply sends_nothing.
Qed.
#[export] Instance sends_to_pay a : PayFrame (sends_to a) a.
Proof.
  split; [apply _|by intros; apply sends_nothing|].
  intros amount s. unfold send_egld, ensures, outcome. simpl.
  destruct (N.leb_spec amount (sc_balance (st_chain s))) as [Hle|]; [|done].
  exists [amount]. split; [done|]. unfold balance, sum_of; simpl. lia.
Qed.

Lemma dispatch_sends call s :
  scope call = Money → ensures (dispatch call) s (λ _ s', sends_to (get_caller (st_chain s)) s s').
Proof.
  intros Hsc. destruct (registers call) eqn:Hr.
  - enough (∀ a, within (sends_to a) (dispatch call)) as Hw by apply Hw. intros a.
    destruct call; try discriminate Hr; simpl.
    + apply within_bind; [apply within_zoom; intros; by apply sends_nothing|intros; within].
    + apply quiet_nothing, quiet_stake; [apply _..|]. intros b. apply within_zoom.
      intros. by apply sends_nothing.
  - apply dispatch_frame; [apply _|done..|intros; apply _].
Qed.

(** The auction is called without money, and nothing is sent. *)
Record calls_freely s s' : Prop := {
  cf_transfers : transfers_of s' = transfers_of s;
  cf_balance : balance s' = balance s;
  cf_calls : ∃ calls, calls_of (st_chain s') = calls_of (st_chain s) ++ calls ∧
    sum_over ac_egld calls = 0;
}.
#[export] Instance calls_freely_preorder : PreOrder calls_freely.
Proof.
  split; [intros s; split; [done..|]; exists []; by rewrite app_nil_r|].
  intros s1 s2 s3 [T1 B1 (l1 & H1 & E1)] [T2 B2 (l2 & H2 & E2)]. split; [congruence..|].
  exists (l1 ++ l2). rewrite H2, H1, sum_over_app, (assoc_L (++)). split; [done|lia].
Qed.
#[export] Instance calls_freely_frame : NodeFrame calls_freely.
Proof.
  split; [apply _|..].
  - intros s ns. split; [done..|]. exists []. by rewrite app_nil_r.
  - intros e. apply within_modify. intros s. split; [done..|]. exists []. simpl. by rewrite app_nil_r.
  - intros a Ha. apply within_modify. intros s. split; [done| |].
    + unfold balance; simpl. lia.
    + exists [a]. split; [done|]. simpl. lia.
Qed.

(** The calls on nodes, with the money that goes out with them. *)
Definition calls_paid s s' : Prop := transfers_of s' = transfers_of s ∧
  ∃ calls, calls_of (st_chain s') = calls_of (st_chain s) ++ calls ∧
    balance s = balance s' + sum_over ac_egld calls.

Lemma calls_freely_paid s s' : calls_freely s s' → calls_paid s s'.
Proof. intros [Ht Hb (l & Hl & Hs)]. split; [done|]. exists l. split; [done|lia]. Qed.

Lemma call_paid a s :
  ac_egld a ≤ balance s → calls_paid s (set_chain (call_and_exit a (st_chain s)) s).
Proof.
  intros Hle. split; [done|]. exists [a]. split; [done|].
  unfold balance in *. simpl in *. lia.
Qed.

Lemma unjail_paid keys fine_payment s :
  fine_payment ≤ balance s →
  ensures (unjail_nodes keys fine_payment) s (λ _ s', calls_paid s s').
Proof.
  intros Hle. unfold unjail_nodes. apply ensures_bind. unfold only_owner, current_caller, current_owner.
  repeat first [apply ensures_bind, ensures_gets|apply ensures_require; intros _].
  apply ensures_bind.
  eapply ensures_mono; [apply (within_for_each (R:=eq)); intros; unfold node_id_of, node_state; within|].
  intros r s1 <-. unfold plain_call, auction_contract_addr. apply ensures_bind, ensures_gets, ensures_modify.
  by apply call_paid.
Qed.

Lemma unprotected_below_balance s v :
  sent s ≤ cumulated s → total_unprotected s = Ok (v, s) → v ≤ balance s.
Proof.
  intros Hle Heq.
  apply (ensures_inv total_unprotected s (λ v _, v ≤ balance s) v s); [|done].
  unfold total_unprotected. do 6 apply ensures_bind, ensures_gets.
  unfold balance, cumulated, sent in *.
  do 3 (apply ensures_bind, ensures_big_sub; intros ?). apply ensures_big_sub. intros _. lia.
Qed.

Lemma stake_nodes_paid amount keys s :
  sent s ≤ cumulated s → ensures (stake_nodes amount keys) s (λ _ s', calls_paid s s').
Proof.
  intros Hle. eapply ensures_mono; [apply stake_nodes_ensures|].
  intros r s' Hs. destruct (nst_funds _ _ _ _ Hs) as (v & Hv & Ham).
  destruct (nst_started _ _ _ _ Hs) as (sigs & _ & _ & Hst).
  pose proof (unprotected_below_balance s v Hle Hv) as Hb.
  set (a := mk_AsyncCall _ _ _ _) in Hst. assert (ac_egld a ≤ balance s) as Ha by (etrans; [exact Ham|done]).
  pose proof (call_paid a s Ha) as Hp.
  unfold calls_paid, transfers_of, balance in *. rewrite (sd_call _ _ _ _ _ _ Hst). exact Hp.
Qed.

Lemma dispatch_calls call s :
  scope call = Nodes → payment_of call ≤ balance s → sent s ≤ cumulated s →
  ensures (dispatch call) s (λ _ s', calls_paid s s').
Proof.
  intros Hsc Hle Hsent. apply scope_nodes in Hsc as [[op Hop]|[keys ->]].
  - rewrite (dispatch_node_op call op Hop). apply (ensures_nothing _ _ (calls_paid s)).
    destruct call; try discriminate Hop; injection Hop as <-; simpl run_node_op;
      first [by apply unjail_paid|by apply stake_nodes_paid
        |eapply ensures_mono; [|intros r s'; apply calls_freely_paid]].
    + apply thrifty_add_nodes, _.
    + apply thrifty_remove_nodes, _.
    + apply thrifty_unstake_endpoint, _.
    + apply thrifty_unstake_tokens_endpoint, _.
    + apply thrifty_unbond_specific, _.
    + apply thrifty_unbond_all, _.
    + apply thrifty_claim_unused, _.
    + apply thrifty_unstake_tokens, _.
    + apply thrifty_unbond_tokens, _.
  - simpl. apply (ensures_nothing _ _ (calls_paid s)).
    eapply ensures_mono; [apply thrifty_force, calls_freely_frame|intros r s'; apply calls_freely_paid].
Qed.

(** ** The books of a call *)
Record booked (call : Call) s s' (paid : list N) (calls : list AsyncCall) : Prop := {
  bk_transfers : transfers_of s' = transfers_of s ++ ((get_caller (st_chain s),.) <$> paid);
  bk_calls : calls_of (st_chain s') = calls_of (st_chain s) ++ calls;
  bk_balance : balance s = balance s' + sum_of paid + sum_over ac_egld calls;
  bk_stake : total_stake s' + sent s + sum_of paid = total_stake s + sent s' + staked_with call;
}.

Lemma booked_nothing call s s' calls :
  staked_with call = 0 → transfers_of s' = transfers_of s → 
  calls_of (st_chain s') = calls_of (st_chain s) ++ calls →
  balance s = balance s' + sum_over ac_egld calls → total_stake s' = total_stake s →
  sent s' = sent s → booked call s s' [] calls.
Proof.
  intros Hz Ht Hc Hb Hst Hs. split; rewrite ?Ht, ?app_nil_r; [done..| |];
    change (sum_of []) with 0; lia.
Qed.

Lemma call_books call s :
  system_ok (s, []) → call_fits call s → proper call s → payment_of call ≤ balance s →
  ensures (dispatch call) s (λ _ s', ∃ paid calls, booked call s s' paid calls).
Proof.
  intros [[A Hok] Hus _] [Hfits _] Hproper Hpay. simpl in *. destruct (scope call) eqn:Hsc.
  - eapply ensures_mono; [by apply dispatch_pure|]. intros r s' <-. exists [], [].
    apply booked_nothing; [by destruct call|done|by rewrite app_nil_r|simpl; lia|done..].
  - pose proof (ensures_and _ _ _ _ (money_call_books call s A Hsc Hok Hus Hfits Hproper)
      (ensures_and _ _ _ _ (dispatch_sends call s Hsc) (dispatch_quiet call Hsc s))) as He.
    eapply ensures_mono; [exact He|]. intros r s' (Hb & (paid & Ht & Hbal) & [_ Hc]).
    exists paid, []. split; [done|by rewrite app_nil_r|change (sum_over ac_egld []) with 0; lia|lia].
  - assert (sent s ≤ cumulated s) as Hsent.
    { pose proof (op_ok_assigned _ _ _ Hok) as Ha. unfold assigned in Ha. unfold sent. lia. }
    pose proof (ensures_and _ _ _ _ (dispatch_calls call s Hsc Hpay Hsent)
      (dispatch_thrifty call Hsc s)) as He.
    eapply ensures_mono; [exact He|]. intros r s' ((Ht & calls & Hc & Hb) & [Ef _ _ Er _ _ _]).
    exists [], calls. apply booked_nothing; try done; [by destruct call|..].
    + unfold total_stake. by rewrite Ef.
    + unfold sent. by rewrite Er.
Qed.

(** ** The auction mock *)
Record hands_out (m m' : Auction.AuctionState SimpleChain) : Prop := {
  ho_caller : sc_caller (Auction.au_chain m') = sc_caller (Auction.au_chain m);
  ho_paid : ∃ paid,
    sc_transfers (Auction.au_chain m') =
      sc_transfers (Auction.au_chain m) ++ ((sc_caller (Auction.au_chain m),.) <$> paid) ∧
    sc_balance (Auction.au_chain m) = sc_balance (Auction.au_chain m') + sum_of paid;
}.
#[export] Instance hands_out_preorder : PreOrder hands_out.
Proof.
  split.
  - intros m. split; [done|]. exists []. rewrite app_nil_r. split; [done|].
    change (sum_of []) with 0. lia.
  - intros m1 m2 m3 [C1 (l1 & T1 & B1)] [C2 (l2 & T2 & B2)]. split; [congruence|].
    exists (l1 ++ l2). rewrite T2, T1, C1, sum_of_app, fmap_app, (assoc_L (++)). split; [done|lia].
Qed.

#[local] Existing Instance Auction.auction_store_lens.

Lemma hands_out_store {X} (f : M Auction.AuctionStore X) : within hands_out (zoom f).
Proof.
  apply within_zoom. intros m a. split; [done|]. exists []. rewrite app_nil_r. split; [done|].
  change (sum_of []) with 0. simpl. lia.
Qed.

Lemma hands_out_pay amount : within hands_out (Auction.pay_caller amount).
Proof.
  intros m. unfold Auction.pay_caller, ensures, outcome. simpl.
  destruct (N.leb_spec amount (sc_balance (Auction.au_chain m))) as [Hle|]; [|done].
  split; [done|]. exists [amount]. split; [done|]. unfold sum_of. simpl. lia.
Qed.

#[local] Hint Resolve hands_out_store hands_out_pay : within.
Lemma auction_hands_out call egld : within hands_out (Auction.run_auction_call call egld).
Proof.
  destruct call; simpl; unfold Auction.stake, Auction.unstake_nodes_endpoint,
    Auction.unstake_endpoint, Auction.unbond_nodes_endpoint, Auction.unbond_endpoint,
    Auction.require_no_staking_failure, Auction.stake_one, Auction.record_key,
    Auction.push_error, Auction.unstake_tokens, Auction.unbond_tokens, Auction.claim,
    Auction.unjail_endpoint; within.
Qed.

(** ** Accounts *)
Lemma balance_set a v w b :
  balance_of b (set_balance_of a v w) = if decide (a = b) then v else balance_of b w.
Proof. unfold balance_of. simpl. rewrite lookup_insert. by case_decide. Qed.

Lemma credit_all a paid w b :
  balance_of b (foldl credit w ((a,.) <$> paid)) =
    balance_of b w + (if decide (a = b) then sum_of paid else 0).
Proof.
  revert w. induction paid as [|v paid IH]; intros w; simpl.
  - case_decide; unfold sum_of; simpl; lia.
  - rewrite IH, balance_set. change (sum_of (v :: paid)) with (v + sum_of paid).
    case_decide as Hab; [subst|]; lia.
Qed.

(** Both contracts together. *)
Definition held (w : World) : N := balance_of sc_delegation w + balance_of sc_auction w.

Lemma settle_balance a c to paid w b :
  sc_transfers c = (to,.) <$> paid →
  balance_of b (settle a c w) =
    (if decide (a = b) then sc_balance c else balance_of b w) +
    (if decide (to = b) then sum_of paid else 0).
Proof. intros Ht. unfold settle. by rewrite Ht, credit_all, balance_set. Qed.

(** A call to the auction moves its value, and what the auction pays. *)
Lemma run_async_held gas call w w' res :
  run_async gas call w = (w', res) → held w' = held w + ac_egld call.
Proof.
  unfold run_async. destruct (Auction.run_auction_call _ _ _) as [[buffers m']|e] eqn:Hm.
  - intros [= <- _].
    pose proof (ensures_inv _ _ (λ _ m', hands_out _ m') _ _ (auction_hands_out _ _ _) Hm)
      as [_ (paid & Ht & Hb)]. simpl in Ht, Hb.
    unfold held. rewrite !(settle_balance _ _ _ _ _ _ Ht). unfold balance_of in *. simpl. lia.
  - intros [= <- _]. unfold held. simpl. rewrite !balance_set. simpl. lia.
Qed.

(** The books of the world: what is owed, and what has been paid of it. *)
Record same_debts (w w' : World) : Prop := {
  sb_stake : total_stake (w_contract w') = total_stake (w_contract w);
  sb_sent : sent (w_contract w') = sent (w_contract w);
}.

Lemma run_answer_held gas cb res w w' events :
  run_answer gas cb res w = (w', events) → held w' = held w ∧ same_debts w w'.
Proof.
  unfold run_answer. destruct cb as [cb|]; [|by intros [= <- _]].
  set (s := set_chain _ _). destruct (run_callback cb res s) as [[r s']|e] eqn:Hcb;
    [|by intros [= <- _]]. intros [= <- _].
  pose proof (ensures_inv _ _ (λ _ s', calls_freely s s') r s'
    (thrifty_callback calls_freely cb res s) Hcb) as [Ht Hb _].
  pose proof (ensures_inv _ _ (λ _ s', money_kept s s') r s'
    (thrifty_callback money_kept cb res s) Hcb) as [Ef _ _ Er _ _ _].
  destruct (settle_kept sc_delegation (st_chain s') (set_contract s' w)) as [Hc _].
  unfold transfers_of, balance in Ht, Hb. simpl in Ht, Hb. split.
  - unfold held. rewrite !(settle_balance _ _ sc_delegation [] _ _ Ht). simpl.
    unfold balance_of in *. simpl. change (sum_of []) with 0. simpl. lia.
  - split; rewrite Hc; unfold total_stake, sent; simpl; by rewrite ?Ef, ?Er.
Qed.

Lemma run_asyncs_held gas calls : ∀ w events w' events',
  foldl (λ '(w, events) call,
    let '(w, res) := run_async gas call w in
    let '(w, events') := run_answer gas (ac_callback call) res w in
    (w, events ++ events')) (w, events) calls = (w', events') →
  held w' = held w + sum_over ac_egld calls ∧ same_debts w w'.
Proof.
  induction calls as [|call calls IH]; intros w events w' events'; simpl.
  { intros [= <- _]. split; [|by split]. unfold sum_over. simpl. lia. }
  destruct (run_async gas call w) as [w1 res] eqn:H1.
  destruct (run_answer gas (ac_callback call) res w1) as [w2 ev] eqn:H2.
  intros [Hh [Hst Hse]]%IH. destruct (run_answer_held _ _ _ _ _ _ H2) as [Hh2 [Hst2 Hse2]].
  pose proof (run_async_held _ _ _ _ _ H1) as Hh1.
  destruct (run_async_kept _ _ _ _ _ H1) as [Hc1 _]. rewrite Hc1 in *.
  change (sum_over ac_egld (call :: calls)) with (ac_egld call + sum_over ac_egld calls).
  split; [lia|]. split; congruence.
Qed.

(** ** Transactions *)

(** Accounts other than the two contracts. *)
Definition account (a : Address) : Prop := a ≠ sc_delegation ∧ a ≠ sc_auction.

Lemma run_call_books from gas call w values w' events :
  let s := set_chain (chain_for from gas sc_delegation (payment_of call) w) (w_contract w) in
  account from → system_ok (s, []) → call_fits call s → proper call s →
  run_call from gas call w = (out values, w', events) →
  held w' + sent (w_contract w') + total_stake (w_contract w) + staked_with call =
  held w + sent (w_contract w) + total_stake (w_contract w') + payment_of call.
Proof.
  intros s [Hd Ha] Hok Hfits Hproper. unfold run_call. fold s.
  destruct (balance_of from w <? payment_of call); [done|].
  destruct (dispatch call s) as [[r s']|e] eqn:Hdis; [|by destruct e].
  assert (payment_of call ≤ balance s) as Hpay by (unfold balance; simpl; lia).
  destruct (ensures_inv (dispatch call) s (λ _ s', ∃ paid calls, booked call s s' paid calls) r s')
    as (paid & calls & [Ht Hc Hb Hst]); [by apply call_books|done|].
  unfold transfers_of in Ht. simpl in Ht, Hc. rewrite Hc.
  set (w1 := set_balance_of from _ w).
  set (w2 := settle sc_delegation (st_chain s') (set_contract s' w1)).
  unfold run_asyncs. destruct (foldl _ (w2, []) calls) as [w3 events3] eqn:Hrun. intros [= _ <- _].
  destruct (run_asyncs_held _ _ _ _ _ _ Hrun) as [Hh [Hst3 Hse3]].
  destruct (settle_kept sc_delegation (st_chain s') (set_contract s' w1)) as [Hc2 _].
  fold w2 in Hc2. rewrite Hc2 in Hst3, Hse3. simpl in Hst3, Hse3. rewrite Hst3, Hse3, Hh.
  assert (held w2 + balance_of sc_delegation w = held w + sc_balance (st_chain s')) as Hh2.
  { unfold held, w2. rewrite !(settle_balance _ _ _ _ _ _ Ht).
    change (balance_of ?b (set_contract s' w1)) with (balance_of b w1). unfold w1.
    rewrite !balance_set. unfold sc_delegation, sc_auction in *. simpl.
    rewrite !(decide_False (P := from = _)) by done. lia. }
  change (balance s) with (balance_of sc_delegation w + payment_of call) in Hb.
  change (balance s') with (sc_balance (st_chain s')) in Hb.
  change (total_stake s) with (total_stake (w_contract w)) in Hst.
  change (sent s) with (sent (w_contract w)) in Hst. lia.
Qed.

(** ** Runs of the world

    Accounts call the contract, successfully or not, and send money; blocks come
    with new rewards, once the bootstrap mode has ended. *)
Inductive world_step : World → World → Prop :=
| ws_call from gas call outcome w w' events :
    let s := set_chain (chain_for from gas sc_delegation (payment_of call) w) (w_contract w) in
    account from → call_fits call s → proper call s →
    run_call from gas call w = (outcome, w', events) → world_step w w'
| ws_transfer from to value w w' :
    account from → run_step (transfer from to value) w = Some w' → world_step w w'
| ws_reward value w w' :
    bootstrap_of (w_contract w) = false →
    run_step (validatorReward value) w = Some w' → world_step w w'
| ws_block nonce w w' : run_step (setBlockNonce nonce) w = Some w' → world_step w w'
| ws_upgrade s' w :
    0 < cap_of (w_contract w) → update_init (w_contract w) = Ok (tt, s') →
    world_step w (set_contract s' w).

(** A deployment of the contract, before any rewards. *)
Definition deployed_in (w : World) : Prop :=
  ∃ c : SimpleChain, deploys c (w_contract w) ∧ w_rewards w = 0.

Record world_ok (w : World) : Prop := {
  wo_reached : reached (w_contract w) [];
  wo_later a gas value : later_chain (chain_for a gas sc_delegation value w) (w_contract w);
  wo_covered : total_stake (w_contract w) + w_rewards w ≤ held w + sent (w_contract w);
}.

(** What the contract shows an account that looks at it. *)
Definition seen_by (a : Address) (w : World) : State SimpleChain :=
  set_chain (chain_for a 0 sc_delegation 0 w) (w_contract w).

Lemma seen_reached a gas value w :
  world_ok w → reached (set_chain (chain_for a gas sc_delegation value w) (w_contract w)) [].
Proof. intros [Hr Hl _]. by apply reached_chain. Qed.

Lemma later_chain_view a gas value w :
  later_chain (chain_for a gas sc_delegation value w) (w_contract w) ↔
  cumulated (w_contract w) ≤ w_rewards w ∧
  (bootstrap_of (w_contract w) = true → w_rewards w = cumulated (w_contract w)).
Proof. done. Qed.

Lemma deployed_in_ok w : deployed_in w → world_ok w.
Proof.
  intros (c & Hdep & Hw). destruct (deployed_nothing c _ Hdep) as (Hst & Hse & Hc).
  split; [by eapply reached_deployed| |lia].
  intros a gas value. apply later_chain_view. rewrite Hc, Hw. done.
Qed.

(** A call that fails leaves the world as it was. *)
Lemma run_call_outcome from gas call w outcome w' events :
  run_call from gas call w = (outcome, w', events) →
  (∃ values, outcome = out values) ∨ w' = w.
Proof.
  unfold run_call. case_match; [intros [= _ <- _]; by right|].
  destruct (dispatch _ _) as [[r s']|e]; [|intros [= _ <- _]; by right].
  destruct (run_asyncs _ _ _). intros [= <- _ _]. left. by eexists.
Qed.

Lemma staked_paid call : staked_with call ≤ payment_of call.
Proof. destruct call; simpl; lia. Qed.

Lemma world_call_ok from gas call values w w' events :
  let s := set_chain (chain_for from gas sc_delegation (payment_of call) w) (w_contract w) in
  world_ok w → account from → call_fits call s → proper call s →
  run_call from gas call w = (out values, w', events) → world_ok w'.
Proof.
  intros s Hw Hfrom Hfits Hproper Hrun. pose proof (seen_reached from gas (payment_of call) w Hw) as Hs.
  destruct Hw as [Hr Hl Hcov].
  destruct (run_call_reached from gas call w values w' events Hr (Hl _ _ _) Hfits Hproper Hrun)
    as (Hr' & Hup & Hrew).
  pose proof (run_call_books from gas call w values w' events Hfrom (reached_ok _ _ Hs) Hfits
    Hproper Hrun) as Hb.
  split; [done| |].
  - intros a g v. apply later_chain_view. unfold caught_up in Hup. by rewrite Hup.
  - rewrite Hrew. pose proof (staked_paid call). lia.
Qed.

Lemma held_credit a v w :
  held (credit w (a, v)) =
    held w + (if decide (a = sc_delegation) then v else 0) + (if decide (a = sc_auction) then v else 0).
Proof.
  unfold held. simpl. rewrite !balance_set. unfold sc_delegation, sc_auction.
  repeat case_decide; subst; try done; lia.
Qed.

Lemma world_step_ok w w' : world_step w w' → world_ok w → world_ok w'.
Proof.
  intros [from gas call outcome w1 w2 events s Hfrom Hfits Hproper Hrun
    |from to value w1 w2 [Hd Ha] Hrun|value w1 w2 Hboot [= <-]|nonce w1 w2 [= <-]
    |s' w1 Hcap Hup] Hw.
  - destruct (run_call_outcome _ _ _ _ _ _ _ Hrun) as [[values ->]| ->]; [|done].
    by eapply world_call_ok.
  - destruct Hw as [Hr Hl Hcov]. unfold run_step in Hrun. case_match; [done|].
    injection Hrun as <-.
    set (w0 := set_balance_of from _ w1). assert (held w0 = held w1) as Hh.
    { unfold held, w0. rewrite !balance_set. by rewrite !(decide_False (P := from = _)) by done. }
    split; [exact Hr|exact Hl|]. pose proof (held_credit to value w0).
    change (total_stake (w_contract w1) + w_rewards w1 ≤
      held (credit w0 (to, value)) + sent (w_contract w1)). lia.
  - destruct Hw as [Hr Hl Hcov]. set (w2 := credit w1 (sc_delegation, value)).
    assert (held w2 = held w1 + value) as Hh.
    { unfold w2. rewrite held_credit, decide_True, decide_False by done. lia. }
    destruct (later_chain_view 0 0 0 w1) as [Hv _]. destruct (Hv (Hl 0 0 0)) as [Hle _].
    split; [exact Hr| |].
    + intros a g v. apply later_chain_view.
      change (cumulated (w_contract w1) ≤ w_rewards w1 + value ∧
        (bootstrap_of (w_contract w1) = true → w_rewards w1 + value = cumulated (w_contract w1))).
      split; [lia|congruence].
    + change (total_stake (w_contract w1) + (w_rewards w1 + value) ≤
        held w2 + sent (w_contract w1)). lia.
  - destruct Hw as [Hr Hl Hcov]. by split.
  - rewrite upgrade_same in Hup by done. injection Hup as <-. destruct Hw as [Hr Hl Hcov]. by split.
Qed.

Lemma world_steps_ok w w' : rtc world_step w w' → world_ok w → world_ok w'.
Proof. induction 1; eauto using world_step_ok. Qed.

(** What everybody owns and can claim. *)
Lemma claims_covered a w :
  world_ok w → st_global_op_checkpoint (w_contract w) = GlobalOpCheckpoint.None →
  runs get_total_unclaimed_rewards (seen_by a w) (λ v s', s' = seen_by a w ∧
    total_stake (w_contract w) + v ≤ held w).
Proof.
  intros Hw Hop. pose proof (reached_ok _ _ (seen_reached a 0 0 w Hw)) as [[A Hok] _ _].
  fold (seen_by a w) in Hok. simpl in Hok. rewrite Hop in Hok. destruct Hok as [HI _].
  eapply runs_eq; [by apply (total_unclaimed_eq _ A)|]. split; [done|].
  pose proof (claimable_received _ A HI) as Hc. pose proof (wo_covered w Hw).
  change (sent (seen_by a w)) with (sent (w_contract w)) in Hc.
  change (cumulated (seen_by a w)) with (w_rewards w) in Hc. lia.
Qed.
