(* ===== verification/AuctionSpec.v ===== *)
(** * The auction mock: what it answers, and the contract against it

    The answers of the mock to the calls of the contract, and what the callbacks
    make of them: nodes with a deliberate error are put back, the others move
    on. *)
From stdpp Require Import base numbers list gmap strings.
From S2P Require Import Prelude UserData NodeConfig Settings Chain State NodeActivation.
From S2P Require Import NodeSpec NodeCalls AuctionMock.

Import Auction.

(** ** The mock *)
Section Mock.
Context {C : Type} `{ChainLaws C}.
Implicit Type m : AuctionState C.

Definition err_code_of m (k : BLSKey) : N := get_bls_deliberate_error k (au_store m).

(** The keys with a deliberate error, with their codes, in order. *)
Definition failures m (ks : list BLSKey) : list (BLSKey * N) :=
  (λ k, (k, err_code_of m k)) <$> filter (λ k, 0 < err_code_of m k) ks.

(** Pairs of values, one value after the other. *)
Definition flat (args : list (BLSKey * N)) : list Buffer := args ≫= λ '(k, c), [k; c].

Lemma flat_app args args' : flat (args ++ args') = flat args ++ flat args'.
Proof. apply bind_app. Qed.

Lemma flat_inj args args' : flat args = flat args' → args = args'.
Proof.
  revert args'. induction args as [|[k c] args IH]; intros [|[k' c'] args']; simpl; try done.
  intros [= -> -> Heq]. by rewrite (IH args' Heq).
Qed.

Lemma failures_snoc m ks k :
  failures m (ks ++ [k]) = failures m ks ++ (if 0 <? err_code_of m k then [(k, err_code_of m k)] else []).
Proof.
  unfold failures. rewrite filter_app, fmap_app. f_equal. rewrite filter_cons, filter_nil.
  destruct (N.ltb_spec 0 (err_code_of m k)); case_decide; done || lia.
Qed.

(** What no call changes. *)
Record steady m m' : Prop := {
  sy_stake : as_stake_per_node (au_store m') = as_stake_per_node (au_store m);
  sy_errors : as_bls_deliberate_error (au_store m') = as_bls_deliberate_error (au_store m);
  sy_failure : as_staking_failure (au_store m') = as_staking_failure (au_store m);
}.

Lemma steady_err m m' k : steady m m' → err_code_of m' k = err_code_of m k.
Proof. intros []. unfold err_code_of, get_bls_deliberate_error. congruence. Qed.

Lemma push_error_runs m m0 k ks (Q : list Buffer → AuctionState C → Prop) :
  steady m0 m → Q (flat (failures m0 (ks ++ [k]))) m →
  runs (push_error k (flat (failures m0 ks))) m Q.
Proof.
  intros Hs HQ. unfold push_error. run_gets.
  change (get_bls_deliberate_error k (au_store m)) with (err_code_of m k).
  rewrite (steady_err _ _ _ Hs). rewrite failures_snoc, flat_app in HQ.
  destruct (0 <? err_code_of m0 k); apply runs_ret; [exact HQ|]. by rewrite app_nil_r in HQ.
Qed.

(** The loop of [stake]. *)
Record staked_keys m0 (dn : list (BLSKey * BLSSignature)) (acc : N * list Buffer) m : Prop := {
  kd_steady : steady m0 m;
  kd_chain : au_chain m = au_chain m0;
  kd_num : fst acc = as_num_nodes (au_store m0) + N.of_nat (length dn);
  kd_results : snd acc = flat (failures m0 dn.*1);
  kd_keys i k sig : dn !! i = Some (k, sig) →
    let id := as_num_nodes (au_store m0) + N.of_nat i + 1 in
    as_stake_bls_key (au_store m) !! id = Some k ∧ as_stake_bls_sig (au_store m) !! id = Some sig;
}.

Lemma stake_one_runs m0 dn k sig acc m :
  as_num_nodes (au_store m0) + N.of_nat (length dn) + 1 < usize_max_plus_1 →
  staked_keys m0 dn acc m →
  runs (stake_one (k, sig) acc) m (staked_keys m0 (dn ++ [(k, sig)])).
Proof.
  intros Hfit [Hs Hc Hn Hr Hk]. destruct acc as [n r]. simpl in *. subst n r.
  unfold stake_one. set (n := as_num_nodes _ + N.of_nat (length dn)) in *.
  assert (usize_add n 1 = n + 1) as -> by (apply N.mod_small; lia).
  do 2 apply runs_bind, runs_zoom, runs_modify. apply runs_bind.
  apply (push_error_runs _ m0); [by destruct Hs|]. apply runs_ret. split; simpl.
  - by destruct Hs.
  - done.
  - rewrite length_app. simpl. unfold n. lia.
  - by rewrite fmap_app.
  - intros i k' sig' [Hi|[Hi Hlast]]%lookup_app_Some.
    + assert (as_num_nodes (au_store m0) + N.of_nat i + 1 ≠ n + 1) as Hne.
      { apply lookup_lt_Some in Hi. unfold n. lia. }
      rewrite !lookup_insert_ne by done. by apply Hk.
    + apply list_lookup_singleton_Some in Hlast as [Hz [= -> ->]].
      replace (as_num_nodes (au_store m0) + N.of_nat i + 1) with (n + 1) by (unfold n; lia).
      by rewrite !lookup_insert_eq.
Qed.

(** The loops of [unStake] and [unBond]. *)
Record recorded m0 (dn : list BLSKey) (acc : N * list Buffer) m : Prop := {
  rc_steady : steady m0 m;
  rc_chain : au_chain m = au_chain m0;
  rc_num : fst acc = N.of_nat (length dn);
  rc_results : snd acc = flat (failures m0 dn);
}.

Lemma record_key_runs set_key m0 dn k acc m :
  (∀ n k m, steady m (lens_set (set_key n k (au_store m)) m)) →
  recorded m0 dn acc m → runs (record_key set_key k acc) m (recorded m0 (dn ++ [k])).
Proof.
  intros Hset [Hs Hc Hn Hr]. destruct acc as [n r]. simpl in *. subst n r. unfold record_key.
  apply runs_bind, runs_zoom, runs_modify. apply runs_bind.
  assert (steady m0 (lens_set (set_key (N.of_nat (length dn)) k (lens_get m)) m)) as Hs'.
  { destruct Hs, (Hset (N.of_nat (length dn)) k m). split; simpl in *; congruence. }
  apply (push_error_runs _ m0); [done|]. apply runs_ret. split; simpl; [done|done| |done].
  rewrite length_app. simpl. lia.
Qed.

Lemma record_keys_runs set_key ks m :
  (∀ n k m, steady m (lens_set (set_key n k (au_store m)) m)) →
  runs (for_each ks (0, []) (record_key set_key)) m (recorded m ks).
Proof.
  intros Hset. apply (runs_for_each _ (recorded m) ks); [by split|].
  intros dn k rest acc m' _ Hr. by apply record_key_runs.
Qed.

Lemma no_failure_runs m (Q : unit → AuctionState C → Prop) :
  as_staking_failure (au_store m) = false → Q tt m → runs require_no_staking_failure m Q.
Proof. intros Hf HQ. unfold require_no_staking_failure. run_gets. rewrite Hf. by apply runs_require. Qed.

(** *** The calls *)
Lemma stake_answers m sigs amount :
  as_staking_failure (au_store m) = false →
  as_num_nodes (au_store m) + 2 * N.of_nat (length sigs) + 1 < usize_max_plus_1 →
  amount = N.of_nat (length sigs) * as_stake_per_node (au_store m) →
  runs (stake (N.of_nat (length sigs)) sigs amount) m (λ r m',
    r = flat (failures m sigs.*1) ∧ steady m m' ∧
    as_num_nodes (au_store m') = as_num_nodes (au_store m) + N.of_nat (length sigs) ∧
    (∀ i k sig, sigs !! i = Some (k, sig) →
      let id := as_num_nodes (au_store m) + N.of_nat i + 1 in
      as_stake_bls_key (au_store m') !! id = Some k ∧
      as_stake_bls_sig (au_store m') !! id = Some sig)).
Proof.
  intros Hf Hfit ->. unfold stake.
  apply runs_bind, runs_require.
  { rewrite N.mod_small by lia. apply N.eqb_eq. lia. }
  apply runs_bind, no_failure_runs; [done|]. do 2 run_gets.
  apply runs_bind, runs_require; [by apply N.eqb_eq|].
  apply runs_bind. eapply runs_mono.
  { apply (runs_for_each _ (staked_keys m) sigs).
    - split; simpl; [by split|done|lia|done|done].
    - intros dn [k sig] rest acc m' Heq Hs. apply stake_one_runs; [|done].
      rewrite Heq, length_app in Hfit. simpl in Hfit. lia. }
  intros [n r] m' [Hs Hc Hn Hr Hk]. simpl in *. subst n r.
  apply runs_bind, runs_zoom, runs_modify, runs_ret. split_and!; [done|by destruct Hs|done|exact Hk].
Qed.

Lemma unstake_answers m ks :
  as_staking_failure (au_store m) = false →
  runs (unstake_endpoint ks) m (λ r m',
    r = flat (failures m ks) ∧ steady m m' ∧ au_chain m' = au_chain m).
Proof.
  intros Hf. unfold unstake_endpoint. apply runs_bind, no_failure_runs; [done|].
  apply runs_bind. eapply runs_mono; [by apply record_keys_runs|].
  intros [n r] m' [Hs Hc _ Hr]. apply runs_ret. done.
Qed.

Lemma unbond_answers m ks :
  as_staking_failure (au_store m) = false →
  as_stake_per_node (au_store m) * N.of_nat (length ks) ≤ get_sc_balance (au_chain m) →
  runs (unbond_endpoint ks) m (λ r m',
    r = flat (failures m ks) ∧ steady m m' ∧
    get_sc_balance (au_chain m') + as_stake_per_node (au_store m) * N.of_nat (length ks)
      = get_sc_balance (au_chain m)).
Proof.
  intros Hf Hbal. unfold unbond_endpoint. apply runs_bind, no_failure_runs; [done|].
  apply runs_bind. eapply runs_mono; [by apply record_keys_runs|].
  intros [n r] m' [Hs Hc _ Hr]. simpl in Hr. run_gets. rewrite (sy_stake _ _ Hs).
  destruct (direct_egld_ok (get_caller (au_chain m'))
    (as_stake_per_node (au_store m) * N.of_nat (length ks)) (au_chain m')) as (c & Heq & _ & Hb & _);
    [by rewrite Hc|].
  apply runs_bind. unfold pay_caller. eapply runs_eq; [by rewrite Heq|]. apply runs_ret.
  split_and!; [done|by destruct Hs|]. simpl. rewrite Hb, Hc. lia.
Qed.

(** A mock that was told to fail fails. *)
Lemma failure_answers m call egld :
  as_staking_failure (au_store m) = true →
  match call with
  | auction_stake n sigs => n = N.of_nat (length sigs) ∧ 2 * n < usize_max_plus_1
  | auction_unstake _ | auction_unstake_nodes _ | auction_unbond _ | auction_unbond_nodes _ => True
  | _ => False
  end →
  run_auction_call call egld m = Err (Panic "auction smart contract deliberate error").
Proof.
  intros Hf Hcall.
  assert (∀ {X} (k : M (AuctionState C) X), (require_no_staking_failure ;;; k) m =
    Err (Panic "auction smart contract deliberate error")) as Hfail.
  { intros X k. unfold require_no_staking_failure, bind, gets. by rewrite Hf. }
  destruct call; try done; simpl; [|apply Hfail..].
  destruct Hcall as [-> Hlt]. unfold stake. unfold bind at 1, require at 1.
  rewrite N.mod_small, (proj2 (N.eqb_eq _ _)) by lia. apply Hfail.
Qed.
End Mock.

(** ** The contract against the mock *)
Section RoundTrips.
Context {C D : Type} `{ChainLaws C} `{ChainLaws D}.
Implicit Types (s : State C) (m : AuctionState D).

(** What the callback of a call gets: the returned values in pairs, or a message
    and the mock as it was. *)
Definition answers m (call : AsyncCall) (res : CallResult) m' : Prop :=
  match run_auction_call (ac_call call) (ac_egld call) m with
  | Ok (bufs, m1) => ∃ args, bufs = flat args ∧ res = CallOk args ∧ m' = m1
  | Err _ => ∃ msg, res = CallErr msg ∧ m' = m
  end.

(** The values returned for the keys [ks] of a call. *)
Lemma answers_exist m call ks (Q : AuctionState D → Prop) :
  runs (run_auction_call (ac_call call) (ac_egld call)) m (λ r m', r = flat (failures m ks) ∧ Q m') →
  ∃ res m', answers m call res m'.
Proof.
  intros (r & m1 & Heq & -> & HQ). unfold answers. rewrite Heq.
  by exists (CallOk (failures m ks)), m1, (failures m ks).
Qed.

Lemma answers_failures m call res m' ks (Q : AuctionState D → Prop) :
  runs (run_auction_call (ac_call call) (ac_egld call)) m (λ r m', r = flat (failures m ks) ∧ Q m') →
  answers m call res m' → res = CallOk (failures m ks) ∧ Q m'.
Proof.
  intros (r & m1 & Heq & -> & HQ). unfold answers. rewrite Heq.
  intros (args & ->%flat_inj & -> & ->). done.
Qed.

(** A key's node fails iff the mock reports the key. *)
Lemma failed_iff n m s ks k :
  registered n (st_nodes s) → get_node_id k (st_nodes s) ≠ 0 → k ∈ ks →
  failed_in (st_nodes s) (failures m ks) (get_node_id k (st_nodes s)) ↔ 0 < err_code_of m k.
Proof.
  intros Hreg Hk Hin. split.
  - intros (k' & c & Hin' & Hc & Heq).
    apply list_elem_of_fmap in Hin' as (k1 & [= -> ->] & [Hpos _]%list_elem_of_filter).
    assert (k = k1) as -> by (apply (registered_inj n (st_nodes s)); [done|done|by rewrite Heq]). done.
  - intros Hpos. exists k, (err_code_of m k). split_and!; [|lia|done].
    apply list_elem_of_fmap. exists k. split; [done|]. by apply list_elem_of_filter.
Qed.

(** From the endpoint through the mock to the callback. *)
Lemma settled_by_mock n P f ks cb call m s s1 res m' (Q : AuctionState D → Prop) :
  callback_ids cb = ids_of ks s → registered n (st_nodes s) →
  (∀ k, k ∈ ks → get_node_id k (st_nodes s) ≠ 0) →
  started P f (ids_of ks s) call s s1 → (∀ st, P st → awaited cb (f st)) →
  runs (run_auction_call (ac_call call) (ac_egld call)) m (λ r m', r = flat (failures m ks) ∧ Q m') →
  answers m call res m' →
  Q m' ∧ runs (run_callback cb res) s1 (λ _ s',
    (∀ k, k ∈ ks → state_of (get_node_id k (st_nodes s)) s' =
      if 0 <? err_code_of m k then on_failure cb (f (state_of (get_node_id k (st_nodes s)) s))
      else on_success cb (get_block_nonce (st_chain s1))) ∧
    ∀ j, j ∉ ids_of ks s → state_of j s' = state_of j s).
Proof.
  intros Hids Hreg Hknown Hst Hf Hrun Hans.
  destruct (answers_failures m call res m' ks Q Hrun Hans) as [-> HQ]. split; [done|].
  pose proof (sd_registry _ _ _ _ _ _ Hst) as Hsr.
  assert (∀ k, get_node_id k (st_nodes s1) = get_node_id k (st_nodes s)) as Hid.
  { intros k. unfold get_node_id. by rewrite (sr_keys _ _ Hsr). }
  eapply runs_mono.
  { apply (run_callback_spec cb); rewrite Hids; [apply Hst|apply Hst|].
    intros j Hj. rewrite (sd_after _ _ _ _ _ _ Hst), decide_True by done.
    apply Hf. by apply (sd_before _ _ _ _ _ _ Hst). }
  intros [] s' Hd. split.
  - intros k Hk. assert (get_node_id k (st_nodes s) ∈ ids_of ks s) as Hin.
    { by apply (list_elem_of_fmap_2 (λ k, get_node_id k (st_nodes s))). }
    assert (state_of (get_node_id k (st_nodes s)) s1 = f (state_of (get_node_id k (st_nodes s)) s)) as Hs1.
    { by rewrite (sd_after _ _ _ _ _ _ Hst), decide_True. }
    assert (failed_in (st_nodes s1) (failures m ks) (get_node_id k (st_nodes s)) ↔
      0 < err_code_of m k) as Hiff.
    { rewrite <-(Hid k). apply (failed_iff n); [|by rewrite Hid; apply Hknown|done].
      by apply (same_registry_registered n (st_nodes s)). }
    destruct (N.ltb_spec 0 (err_code_of m k)).
    + rewrite (cd_failed _ _ _ _ Hd) by (rewrite ?Hids; simpl; tauto). by rewrite Hs1.
    + apply (cd_ok _ _ _ _ Hd); [by rewrite Hids|]. simpl. rewrite Hiff. lia.
  - intros j Hj. rewrite (cd_others _ _ _ _ Hd) by (by rewrite Hids).
    by rewrite (sd_after _ _ _ _ _ _ Hst), decide_False.
Qed.
End RoundTrips.
