(* ===== verification/AuctionTheorems.v ===== *)
(** * The contract against the auction mock: theorems

    A node operation from its endpoint through the mock to its callback. *)
From stdpp Require Import base numbers list gmap strings.
From S2P Require Import Prelude UserData NodeConfig Settings Chain State NodeActivation.
From S2P Require Import NodeSpec NodeCalls Examples NodeTheorems AuctionMock AuctionSpec.

Import Auction.

Section Theorems.
Context {C D : Type} `{ChainLaws C} `{ChainLaws D}.
Implicit Types (s : State C) (m : AuctionState D).

(** C23: staking nodes with the exact stake succeeds, the mock accepts the call,
    counts the nodes and keeps their keys with the registered signatures in
    order, and when its answer comes back each node is active if the mock has no
    deliberate error for its key and inactive again if it has; no other node is
    touched. *)
Theorem staking_against_mock amount keys s m :
  stakeable amount keys s → as_staking_failure (au_store m) = false →
  as_num_nodes (au_store m) + 2 * N.of_nat (length keys) + 1 < usize_max_plus_1 →
  amount = N.of_nat (length keys) * as_stake_per_node (au_store m) →
  runs (stake_nodes amount keys) s (λ _ s1, ∃ call,
    st_chain s1 = call_and_exit call (st_chain s) ∧ ac_egld call = amount ∧
    ac_callback call = Some (auction_stake_callback (ids_of keys s)) ∧
    (∃ res m', answers m call res m') ∧
    ∀ res m', answers m call res m' →
      (as_num_nodes (au_store m') = as_num_nodes (au_store m) + N.of_nat (length keys) ∧
       ∀ i k, keys !! i = Some k →
         let id := as_num_nodes (au_store m) + N.of_nat i + 1 in
         as_stake_bls_key (au_store m') !! id = Some k ∧
         as_stake_bls_sig (au_store m') !! id =
           ns_node_signature (st_nodes s) !! get_node_id k (st_nodes s)) ∧
      runs (run_callback (auction_stake_callback (ids_of keys s)) res) s1 (λ _ s',
        (∀ k, k ∈ keys → state_of (get_node_id k (st_nodes s)) s' =
          if 0 <? err_code_of m k then NodeState.Inactive else NodeState.Active) ∧
        ∀ j, j ∉ ids_of keys s → state_of j s' = state_of j s)).
Proof.
  intros Hs Hf Hfit Ham. eapply runs_mono; [by apply stake_nodes_spec|].
  intros [] s1 Hn. destruct (nst_started _ _ _ _ Hn) as (sigs & Hkeys & Hsigs & Hst).
  assert (length keys = length sigs) as Hlen by (by rewrite <-Hkeys, length_fmap).
  pose (call := mk_AsyncCall (auction_addr (st_settings s))
    (auction_stake (N.of_nat (length keys)) sigs) amount
    (Some (auction_stake_callback (ids_of keys s)))).
  exists call. split; [apply Hst|]. split; [done|]. split; [done|].
  pose proof (stake_answers m sigs amount Hf ltac:(by rewrite <-Hlen) ltac:(by rewrite <-Hlen)) as Hrun.
  rewrite Hkeys, <-Hlen in Hrun.
  split; [exact (answers_exist m call keys _ Hrun)|]. intros res m' Hres.
  destruct (settled_by_mock (ns_num_nodes (st_nodes s)) _ _ keys
    (auction_stake_callback (ids_of keys s)) call m s s1 res m' _
    eq_refl (sa_registered _ _ _ Hs) (λ k Hk Hz, nst_known _ _ _ _ Hn
      (proj2 (list_elem_of_fmap _ _ _) (ex_intro _ k (conj (eq_sym Hz) Hk)))) Hst (λ _ _, eq_refl)
    Hrun Hres) as [(_ & Hnum & Hkept) Hcb].
  split.
  - split; [exact Hnum|]. intros i k Hik id.
    rewrite <-Hkeys, list_lookup_fmap in Hik.
    destruct (sigs !! i) as [[k' sig]|] eqn:Hi; [|done]. injection Hik as <-.
    destruct (Hkept i k' sig Hi) as [Hk Hg]. split; [exact Hk|].
    rewrite (Hsigs k' sig); [exact Hg|]. by eapply list_elem_of_lookup_2.
  - eapply runs_mono; [exact Hcb|]. intros _ s' [Hin Hout]. split; [|done].
    intros k Hk. rewrite (Hin k Hk). by destruct (0 <? err_code_of m k).
Qed.

(** C24: unbonding nodes against the mock pays back exactly the stake of the
    nodes of the call; when its answer comes back, each node without a deliberate
    error is inactive and each other one is back in its unbonding period, counted
    from the block it was; no other node is touched. *)
Theorem unbonding_against_mock keys s m :
  get_caller (st_chain s) = get_owner_address (st_chain s) → keys ≠ [] →
  takeable is_unbonding keys s → as_staking_failure (au_store m) = false →
  as_stake_per_node (au_store m) * N.of_nat (length keys) ≤ get_sc_balance (au_chain m) →
  runs (unbond_specific_nodes_endpoint keys) s (λ _ s1,
    let call := unbond_call keys (ids_of keys s) s in
    st_chain s1 = call_and_exit call (st_chain s) ∧
    ac_callback call = Some (auction_unbond_callback (ids_of keys s)) ∧
    (∃ res m', answers m call res m') ∧
    ∀ res m', answers m call res m' →
      get_sc_balance (au_chain m') + as_stake_per_node (au_store m) * N.of_nat (length keys)
        = get_sc_balance (au_chain m) ∧
      runs (run_callback (auction_unbond_callback (ids_of keys s)) res) s1 (λ _ s',
        (∀ k, k ∈ keys → state_of (get_node_id k (st_nodes s)) s' =
          if 0 <? err_code_of m k then state_of (get_node_id k (st_nodes s)) s
          else NodeState.Inactive) ∧
        ∀ j, j ∉ ids_of keys s → state_of j s' = state_of j s)).
Proof.
  intros Ho Hne Ht Hf Hbal. eapply runs_mono; [by apply unbond_specific_runs|].
  intros [] s1 Hst call. split; [apply Hst|]. split; [done|].
  pose proof (unbond_answers m keys Hf Hbal) as Hrun.
  split; [exact (answers_exist m call keys _ Hrun)|]. intros res m' Hres.
  destruct (settled_by_mock (ns_num_nodes (st_nodes s)) _ _ keys
    (auction_unbond_callback (ids_of keys s)) call m s s1 res m' _
    eq_refl (ta_registered _ _ _ Ht) (λ k Hk, proj1 (ta_state _ _ _ Ht k Hk)) Hst
    ltac:(by intros st [n ->]; exists n) Hrun Hres) as [[_ Hpaid] Hcb].
  split; [exact Hpaid|]. eapply runs_mono; [exact Hcb|]. intros _ s' [Hin Hout]. split; [|done].
  intros k Hk. rewrite (Hin k Hk). destruct (ta_state _ _ _ Ht k Hk) as [_ [n Hn]]. rewrite Hn.
  by destruct (0 <? err_code_of m k).
Qed.
End Theorems.

(** ** Witnesses *)

(** A mock with a stake of 50 a node and a deliberate error for key 13. *)
Definition example_mock : AuctionState SimpleChain :=
  mk_AuctionState (set_bls_deliberate_error 13 2
    (mk_AuctionStore 50 4 ∅ ∅ ∅ ∅ false ∅ [])) (mk_SimpleChain 7 7 20 0 1000 [] [] [] []).

Lemma staking_against_mock_witness :
  let s := with_nodes 100 in
  runs (stake_nodes 100 [11; 13]) s (λ _ s1, ∃ call res m',
    answers example_mock call res m' ∧
    runs (run_callback (auction_stake_callback (ids_of [11; 13] s)) res) s1 (λ _ s',
      state_of (get_node_id 11 (st_nodes s)) s' = NodeState.Active ∧
      state_of (get_node_id 13 (st_nodes s)) s' = NodeState.Inactive)).
Proof.
  intros s. eapply runs_mono.
  - apply (staking_against_mock 100 [11; 13] s example_mock);
      [apply example_stakeable|reflexivity|numbers|reflexivity].
  - intros _ s1 (call & _ & _ & _ & (res & m' & Hans) & Hall). exists call, res, m'.
    split; [exact Hans|]. destruct (Hall res m' Hans) as [_ Hcb].
    eapply runs_mono; [exact Hcb|]. intros _ s' [Hin _]. split.
    + apply (Hin 11). set_solver.
    + apply (Hin 13). set_solver.
Defined.

Lemma unbonding_against_mock_witness :
  let s := with_nodes 100 in
  runs (unbond_specific_nodes_endpoint [15; 16]) s (λ _ s1, ∃ res m',
    answers example_mock (unbond_call [15; 16] (ids_of [15; 16] s) s) res m' ∧
    get_sc_balance (au_chain m') + 50 * 2 = 1000 ∧
    runs (run_callback (auction_unbond_callback (ids_of [15; 16] s)) res) s1 (λ _ s',
      state_of (get_node_id 15 (st_nodes s)) s' = NodeState.Inactive)).
Proof.
  intros s. eapply runs_mono.
  - apply (unbonding_against_mock [15; 16] s example_mock); [reflexivity|discriminate| |reflexivity|numbers].
    apply example_takeable; [distinct|numbers|]. each_key; (split; [done|by eexists]).
  - intros _ s1 (_ & _ & (res & m' & Hans) & Hall). exists res, m'.
    split; [exact Hans|]. destruct (Hall res m' Hans) as [Hpaid Hcb]. split; [exact Hpaid|].
    eapply runs_mono; [exact Hcb|]. intros _ s' [Hin _]. apply (Hin 15). set_solver.
Defined.
