(* ===== verification/OldCodec.v ===== *)
(** * Stored bytes (user-fund-storage/fuzz/old_serialization,
    node-storage/fuzz/old_serialization)

    The hand-written codecs of the stored types: how fund descriptions, fund
    items, list headers, node states, BLS keys and signatures are laid out in
    the storage.  Buffers and the codecs of integers and byte arrays belong to
    the framework and are operations of the class [CodecApi]. *)
From Stdlib Require Import Strings.Byte.
From stdpp Require Import base numbers list strings.
From S2P Require Import Prelude.

(** ** Encoding and decoding as state passing over bytes *)
Abbreviation bytes := (list byte) (only parsing).

#[export] Instance byte_eq_dec : EqDecision byte := Byte.byte_eq_dec.

(** An encoder appends to a buffer; a decoder takes from the front of one. *)
Definition Enc (E : Type) : Type := bytes → E + bytes.
Definition Dec (E A : Type) : Type := bytes → E + A * bytes.

Definition DecodeError : Type := string.
Definition EncodeError : Type := string.
Definition INVALID_VALUE : DecodeError := "invalid value".
Definition INPUT_TOO_SHORT : DecodeError := "input too short".
Definition INPUT_TOO_LONG : DecodeError := "input too long".

Section CodecMonad.
Context {E : Type}.
Definition enc_ok : Enc E := λ d, inr d.
Definition enc_then (m k : Enc E) : Enc E := λ d,
  match m d with inl e => inl e | inr d' => k d' end.
Definition dec_ret {A} (a : A) : Dec E A := λ i, inr (a, i).
Definition dec_fail {A} (e : E) : Dec E A := λ _, inl e.
Definition dec_bind {A B} (m : Dec E A) (k : A → Dec E B) : Dec E B := λ i,
  match m i with inl e => inl e | inr (a, i') => k a i' end.
End CodecMonad.

Declare Scope codec_scope.
Delimit Scope codec_scope with codec.
Notation "m ;> k" := (enc_then m k) (at level 199, k at level 200, right associativity) : codec_scope.
Notation "'dec!' x := m 'in' k" := (dec_bind m (fun x => k))
  (at level 10, x binder, m at level 200, k at level 200) : codec_scope.
Open Scope codec_scope.

(** ** The traits of the codec

    [exit c e] ends the transaction: the [_or_exit] variants return the value of
    [exit] where the plain ones return an error. *)
Record NestedCodec (A : Type) := mk_NestedCodec {
  dep_encode : A → Enc EncodeError;
  dep_encode_or_exit : ∀ {Ctx E}, A → Ctx → (Ctx → EncodeError → E) → Enc E;
  dep_decode : Dec DecodeError A;
  dep_decode_or_exit : ∀ {Ctx E}, Ctx → (Ctx → DecodeError → E) → Dec E A;
}.
Arguments mk_NestedCodec {A}.
Arguments dep_encode {A}.
Arguments dep_encode_or_exit {A} _ {Ctx E}.
Arguments dep_decode {A}.
Arguments dep_decode_or_exit {A} _ {Ctx E}.

Record TopCodec (A : Type) := mk_TopCodec {
  top_encode : A → EncodeError + bytes;
  top_encode_or_exit : ∀ {Ctx E}, A → Ctx → (Ctx → EncodeError → E) → E + bytes;
  top_decode : bytes → DecodeError + A;
  top_decode_or_exit : ∀ {Ctx E}, bytes → Ctx → (Ctx → DecodeError → E) → E + A;
}.
Arguments mk_TopCodec {A}.
Arguments top_encode {A}.
Arguments top_encode_or_exit {A} _ {Ctx E}.
Arguments top_decode {A}.
Arguments top_decode_or_exit {A} _ {Ctx E}.

(** What the codecs use of the framework. *)
Class CodecApi := {
  push_byte : byte → bytes → bytes;
  read_byte : Dec DecodeError byte;
  read_byte_or_exit {Ctx E} : Ctx → (Ctx → DecodeError → E) → Dec E byte;
  u64 : NestedCodec N;
  usize : NestedCodec N;
  big_uint : NestedCodec N;
  u8_array (n : nat) : NestedCodec bytes;
  u8_array_top (n : nat) : TopCodec bytes;
  top_encode_from_nested {A} : NestedCodec A → A → EncodeError + bytes;
  top_encode_from_nested_or_exit {A Ctx E} :
    NestedCodec A → A → Ctx → (Ctx → EncodeError → E) → E + bytes;
  top_decode_from_nested {A} : NestedCodec A → bytes → DecodeError + A;
  top_decode_from_nested_or_exit {A Ctx E} :
    NestedCodec A → bytes → Ctx → (Ctx → DecodeError → E) → E + A;
}.

Module OldSerialization.

(** ** fund_type.rs *)
Inductive FundDescription : Set :=
| WithdrawOnly
| Waiting (created : N)
| Active
| UnStaked (created : N)
| DeferredPayment (created : N).

Module FundType.
Inductive FundType : Set :=
| WithdrawOnly
| Waiting
| Active
| UnStaked
| DeferredPayment.
End FundType.
Abbreviation FundType := FundType.FundType.

Definition ALL_TYPES : list FundType :=
  [FundType.WithdrawOnly; FundType.Waiting; FundType.Active;
   FundType.UnStaked; FundType.DeferredPayment].

Definition allow_coalesce (t : FundType) : bool :=
  match t with
  | FundType.WithdrawOnly | FundType.DeferredPayment => true
  | _ => false
  end.

Definition is_stake (t : FundType) : bool :=
  match t with
  | FundType.Waiting | FundType.Active | FundType.UnStaked => true
  | _ => false
  end.

Definition funds_in_contract (t : FundType) : bool :=
  match t with
  | FundType.WithdrawOnly | FundType.Waiting | FundType.DeferredPayment => true
  | _ => false
  end.

Definition DISCR_WITHDRAW_ONLY : byte := x00.
Definition DISCR_WAITING : byte := x01.
Definition DISCR_PENDING_ACT : byte := x02.
Definition DISCR_ACTIVE_FAILED : byte := x03.
Definition DISCR_ACTIVE : byte := x04.
Definition DISCR_UNSTAKED : byte := x05.
Definition DISCR_DEF_PAYMENT : byte := x06.
Definition NR_DISCRIMINANTS : byte := x07.

Definition FundDescription_fund_type (d : FundDescription) : FundType :=
  match d with
  | WithdrawOnly => FundType.WithdrawOnly
  | Waiting _ => FundType.Waiting
  | Active => FundType.Active
  | UnStaked _ => FundType.UnStaked
  | DeferredPayment _ => FundType.DeferredPayment
  end.

Definition FundType_discriminant (t : FundType) : byte :=
  match t with
  | FundType.WithdrawOnly => DISCR_WITHDRAW_ONLY
  | FundType.Waiting => DISCR_WAITING
  | FundType.Active => DISCR_ACTIVE
  | FundType.UnStaked => DISCR_UNSTAKED
  | FundType.DeferredPayment => DISCR_DEF_PAYMENT
  end.

Definition FundDescription_discriminant (d : FundDescription) : byte :=
  FundType_discriminant (FundDescription_fund_type d).

Section Codecs.
Context `{CodecApi}.

(** [dest.push_byte(b)] as an encoder. *)
Definition push {E} (b : byte) : Enc E := λ d, inr (push_byte b d).

Definition FundDescription_dep_encode (d : FundDescription) : Enc EncodeError :=
  match d with
  | WithdrawOnly => push DISCR_WITHDRAW_ONLY
  | Waiting created => push DISCR_WAITING ;> dep_encode u64 created
  | Active => push DISCR_ACTIVE
  | UnStaked created => push DISCR_UNSTAKED ;> dep_encode u64 created
  | DeferredPayment created => push DISCR_DEF_PAYMENT ;> dep_encode u64 created
  end.

Definition FundDescription_dep_encode_or_exit {Ctx E} (d : FundDescription) (c : Ctx)
    (exit : Ctx → EncodeError → E) : Enc E :=
  match d with
  | WithdrawOnly => push DISCR_WITHDRAW_ONLY
  | Waiting created => push DISCR_WAITING ;> dep_encode_or_exit u64 created c exit
  | Active => push DISCR_ACTIVE
  | UnStaked created => push DISCR_UNSTAKED ;> dep_encode_or_exit u64 created c exit
  | DeferredPayment created =>
      push DISCR_DEF_PAYMENT ;> dep_encode_or_exit u64 created c exit
  end.

Definition FundDescription_dep_decode : Dec DecodeError FundDescription :=
  dec! discriminant := read_byte in
  if Byte.eqb discriminant DISCR_WITHDRAW_ONLY then dec_ret WithdrawOnly else
  if Byte.eqb discriminant DISCR_WAITING then
    dec! created := dep_decode u64 in dec_ret (Waiting created) else
  if Byte.eqb discriminant DISCR_ACTIVE then dec_ret Active else
  if Byte.eqb discriminant DISCR_UNSTAKED then
    dec! created := dep_decode u64 in dec_ret (UnStaked created) else
  if Byte.eqb discriminant DISCR_DEF_PAYMENT then
    dec! created := dep_decode u64 in dec_ret (DeferredPayment created) else
  dec_fail INVALID_VALUE.

Definition FundDescription_dep_decode_or_exit {Ctx E} (c : Ctx)
    (exit : Ctx → DecodeError → E) : Dec E FundDescription :=
  dec! discriminant := read_byte_or_exit c exit in
  if Byte.eqb discriminant DISCR_WITHDRAW_ONLY then dec_ret WithdrawOnly else
  if Byte.eqb discriminant DISCR_WAITING then
    dec! created := dep_decode_or_exit u64 c exit in dec_ret (Waiting created) else
  if Byte.eqb discriminant DISCR_ACTIVE then dec_ret Active else
  if Byte.eqb discriminant DISCR_UNSTAKED then
    dec! created := dep_decode_or_exit u64 c exit in dec_ret (UnStaked created) else
  if Byte.eqb discriminant DISCR_DEF_PAYMENT then
    dec! created := dep_decode_or_exit u64 c exit in dec_ret (DeferredPayment created) else
  dec_fail (exit c INVALID_VALUE).

Definition fund_description : NestedCodec FundDescription :=
  mk_NestedCodec FundDescription_dep_encode (@FundDescription_dep_encode_or_exit)
    FundDescription_dep_decode (@FundDescription_dep_decode_or_exit).

(** The top codecs that go through the nested ones. *)
Definition FundDescription_top_encode (x : FundDescription) : EncodeError + bytes :=
  top_encode_from_nested fund_description x.
Definition FundDescription_top_encode_or_exit {Ctx E} (x : FundDescription) (c : Ctx)
    (exit : Ctx → EncodeError → E) : E + bytes :=
  top_encode_from_nested_or_exit fund_description x c exit.
Definition FundDescription_top_decode (input : bytes) : DecodeError + FundDescription :=
  top_decode_from_nested fund_description input.
Definition FundDescription_top_decode_or_exit {Ctx E} (input : bytes) (c : Ctx)
    (exit : Ctx → DecodeError → E) : E + FundDescription :=
  top_decode_from_nested_or_exit fund_description input c exit.

Definition FundDescription_top : TopCodec FundDescription :=
  mk_TopCodec FundDescription_top_encode (@FundDescription_top_encode_or_exit) FundDescription_top_decode
    (@FundDescription_top_decode_or_exit).

Definition FundType_dep_encode (t : FundType) : Enc EncodeError :=
  match t with
  | FundType.WithdrawOnly => push DISCR_WITHDRAW_ONLY
  | FundType.Waiting => push DISCR_WAITING
  | FundType.Active => push DISCR_ACTIVE
  | FundType.UnStaked => push DISCR_UNSTAKED
  | FundType.DeferredPayment => push DISCR_DEF_PAYMENT
  end.

Definition FundType_dep_encode_or_exit {Ctx E} (t : FundType) (c : Ctx)
    (exit : Ctx → EncodeError → E) : Enc E :=
  match t with
  | FundType.WithdrawOnly => push DISCR_WITHDRAW_ONLY
  | FundType.Waiting => push DISCR_WAITING
  | FundType.Active => push DISCR_ACTIVE
  | FundType.UnStaked => push DISCR_UNSTAKED
  | FundType.DeferredPayment => push DISCR_DEF_PAYMENT
  end.

Definition FundType_dep_decode : Dec DecodeError FundType :=
  dec! discriminant := read_byte in
  if Byte.eqb discriminant DISCR_WITHDRAW_ONLY then dec_ret FundType.WithdrawOnly else
  if Byte.eqb discriminant DISCR_WAITING then dec_ret FundType.Waiting else
  if Byte.eqb discriminant DISCR_ACTIVE then dec_ret FundType.Active else
  if Byte.eqb discriminant DISCR_UNSTAKED then dec_ret FundType.UnStaked else
  if Byte.eqb discriminant DISCR_DEF_PAYMENT then dec_ret FundType.DeferredPayment else
  dec_fail INVALID_VALUE.

Definition FundType_dep_decode_or_exit {Ctx E} (c : Ctx)
    (exit : Ctx → DecodeError → E) : Dec E FundType :=
  dec! discriminant := read_byte_or_exit c exit in
  if Byte.eqb discriminant DISCR_WITHDRAW_ONLY then dec_ret FundType.WithdrawOnly else
  if Byte.eqb discriminant DISCR_WAITING then dec_ret FundType.Waiting else
  if Byte.eqb discriminant DISCR_ACTIVE then dec_ret FundType.Active else
  if Byte.eqb discriminant DISCR_UNSTAKED then dec_ret FundType.UnStaked else
  if Byte.eqb discriminant DISCR_DEF_PAYMENT then dec_ret FundType.DeferredPayment else
  dec_fail (exit c INVALID_VALUE).

Definition fund_type : NestedCodec FundType :=
  mk_NestedCodec FundType_dep_encode (@FundType_dep_encode_or_exit)
    FundType_dep_decode (@FundType_dep_decode_or_exit).

Definition FundType_top_encode (x : FundType) : EncodeError + bytes :=
  top_encode_from_nested fund_type x.
Definition FundType_top_encode_or_exit {Ctx E} (x : FundType) (c : Ctx)
    (exit : Ctx → EncodeError → E) : E + bytes :=
  top_encode_from_nested_or_exit fund_type x c exit.
Definition FundType_top_decode (input : bytes) : DecodeError + FundType :=
  top_decode_from_nested fund_type input.
Definition FundType_top_decode_or_exit {Ctx E} (input : bytes) (c : Ctx)
    (exit : Ctx → DecodeError → E) : E + FundType :=
  top_decode_from_nested_or_exit fund_type input c exit.

Definition FundType_top : TopCodec FundType :=
  mk_TopCodec FundType_top_encode (@FundType_top_encode_or_exit) FundType_top_decode
    (@FundType_top_decode_or_exit).
End Codecs.

(** ** fund_item.rs *)
Record FundItem := mk_FundItem {
  fund_desc : FundDescription;
  user_id : N;
  balance : N;
  type_list_next : N;
  type_list_prev : N;
  user_list_next : N;
  user_list_prev : N;
}.

Definition FundItem_is_zero_value (i : FundItem) : bool :=
  (balance i =? 0) && (type_list_next i =? 0) && (type_list_prev i =? 0)
  && (user_list_next i =? 0) && (user_list_prev i =? 0).

Definition FundItem_zero_value : FundItem := mk_FundItem WithdrawOnly 0 0 0 0 0 0.

(** ** fund_list_info.rs *)
Record FundsListInfo := mk_FundsListInfo {
  total_balance : N;
  first : N;
  last : N;
}.

Definition FundsListInfo_is_empty (l : FundsListInfo) : bool :=
  (total_balance l =? 0) && (first l =? 0) && (last l =? 0).

Definition FundsListInfo_zero_value : FundsListInfo := mk_FundsListInfo 0 0 0.

(** ** node_state.rs *)
Module NodeState.
Inductive NodeState : Set :=
| Inactive
| PendingActivation
| ActivationFailed
| Active
| PendingDeactivation
| UnBondPeriod (started : N)
| PendingUnBond (unbond_started : N)
| Removed.
End NodeState.
Abbreviation NodeState := NodeState.NodeState.

Definition NodeState_discriminant (st : NodeState) : byte :=
  match st with
  | NodeState.Inactive => x00
  | NodeState.PendingActivation => x01
  | NodeState.ActivationFailed => x02
  | NodeState.Active => x03
  | NodeState.PendingDeactivation => x04
  | NodeState.UnBondPeriod _ => x05
  | NodeState.PendingUnBond _ => x06
  | NodeState.Removed => x07
  end.

(** ** bls_key.rs and bls_sig.rs

    A boxed array of bytes; its length is part of its type in the source. *)
Definition BLS_KEY_BYTE_LENGTH : nat := 96.
Record BLSKey := mk_BLSKey { key_array : bytes }.
Definition BLSKey_to_vec (k : BLSKey) : bytes := key_array k.
Definition BLSKey_from_array (arr : bytes) : BLSKey := mk_BLSKey arr.
Definition BLSKey_eq (k k' : BLSKey) : bool := bool_decide (key_array k = key_array k').

Definition BLS_SIGNATURE_BYTE_LENGTH : nat := 48.
Record BLSSignature := mk_BLSSignature { signature_array : bytes }.
Definition BLSSignature_to_vec (g : BLSSignature) : bytes := signature_array g.
Definition BLSSignature_from_array (arr : bytes) : BLSSignature := mk_BLSSignature arr.
Definition BLSSignature_eq (g g' : BLSSignature) : bool :=
  bool_decide (signature_array g = signature_array g').

Section Codecs.
Context `{CodecApi}.

(** ** fund_item.rs: codecs *)
Definition FundItem_dep_encode (i : FundItem) : Enc EncodeError :=
  dep_encode fund_description (fund_desc i) ;>
  dep_encode usize (user_id i) ;>
  dep_encode big_uint (balance i) ;>
  dep_encode usize (type_list_next i) ;>
  dep_encode usize (type_list_prev i) ;>
  dep_encode usize (user_list_next i) ;>
  dep_encode usize (user_list_prev i) ;>
  enc_ok.

Definition FundItem_dep_encode_or_exit {Ctx E} (i : FundItem) (c : Ctx)
    (exit : Ctx → EncodeError → E) : Enc E :=
  dep_encode_or_exit fund_description (fund_desc i) c exit ;>
  dep_encode_or_exit usize (user_id i) c exit ;>
  dep_encode_or_exit big_uint (balance i) c exit ;>
  dep_encode_or_exit usize (type_list_next i) c exit ;>
  dep_encode_or_exit usize (type_list_prev i) c exit ;>
  dep_encode_or_exit usize (user_list_next i) c exit ;>
  dep_encode_or_exit usize (user_list_prev i) c exit.

Definition FundItem_dep_decode : Dec DecodeError FundItem :=
  dec! fund_desc := dep_decode fund_description in
  dec! user_id := dep_decode usize in
  dec! balance := dep_decode big_uint in
  dec! type_list_next := dep_decode usize in
  dec! type_list_prev := dep_decode usize in
  dec! user_list_next := dep_decode usize in
  dec! user_list_prev := dep_decode usize in
  dec_ret (mk_FundItem fund_desc user_id balance type_list_next type_list_prev
    user_list_next user_list_prev).

Definition FundItem_dep_decode_or_exit {Ctx E} (c : Ctx)
    (exit : Ctx → DecodeError → E) : Dec E FundItem :=
  dec! fund_desc := dep_decode_or_exit fund_description c exit in
  dec! user_id := dep_decode_or_exit usize c exit in
  dec! balance := dep_decode_or_exit big_uint c exit in
  dec! type_list_next := dep_decode_or_exit usize c exit in
  dec! type_list_prev := dep_decode_or_exit usize c exit in
  dec! user_list_next := dep_decode_or_exit usize c exit in
  dec! user_list_prev := dep_decode_or_exit usize c exit in
  dec_ret (mk_FundItem fund_desc user_id balance type_list_next type_list_prev
    user_list_next user_list_prev).

Definition fund_item : NestedCodec FundItem :=
  mk_NestedCodec FundItem_dep_encode (@FundItem_dep_encode_or_exit)
    FundItem_dep_decode (@FundItem_dep_decode_or_exit).

(** [output.set_slice_u8(&[])] leaves the output empty. *)
Definition FundItem_top_encode (i : FundItem) : EncodeError + bytes :=
  if FundItem_is_zero_value i then inr [] else top_encode_from_nested fund_item i.

Definition FundItem_top_encode_or_exit {Ctx E} (i : FundItem) (c : Ctx)
    (exit : Ctx → EncodeError → E) : E + bytes :=
  if FundItem_is_zero_value i then inr []
  else top_encode_from_nested_or_exit fund_item i c exit.

Definition FundItem_top_decode (input : bytes) : DecodeError + FundItem :=
  if Nat.eqb (length input) 0 then inr FundItem_zero_value
  else top_decode_from_nested fund_item input.

Definition FundItem_top_decode_or_exit {Ctx E} (input : bytes) (c : Ctx)
    (exit : Ctx → DecodeError → E) : E + FundItem :=
  if Nat.eqb (length input) 0 then inr FundItem_zero_value
  else top_decode_from_nested_or_exit fund_item input c exit.

Definition FundItem_top : TopCodec FundItem :=
  mk_TopCodec FundItem_top_encode (@FundItem_top_encode_or_exit)
    FundItem_top_decode (@FundItem_top_decode_or_exit).

(** ** fund_list_info.rs: codecs *)
Definition FundsListInfo_dep_encode (l : FundsListInfo) : Enc EncodeError :=
  dep_encode big_uint (total_balance l) ;>
  dep_encode usize (first l) ;>
  dep_encode usize (last l) ;>
  enc_ok.

Definition FundsListInfo_dep_encode_or_exit {Ctx E} (l : FundsListInfo) (c : Ctx)
    (exit : Ctx → EncodeError → E) : Enc E :=
  dep_encode_or_exit big_uint (total_balance l) c exit ;>
  dep_encode_or_exit usize (first l) c exit ;>
  dep_encode_or_exit usize (last l) c exit.

Definition FundsListInfo_dep_decode : Dec DecodeError FundsListInfo :=
  dec! total_balance := dep_decode big_uint in
  dec! first := dep_decode usize in
  dec! last := dep_decode usize in
  dec_ret (mk_FundsListInfo total_balance first last).

Definition FundsListInfo_dep_decode_or_exit {Ctx E} (c : Ctx)
    (exit : Ctx → DecodeError → E) : Dec E FundsListInfo :=
  dec! total_balance := dep_decode_or_exit big_uint c exit in
  dec! first := dep_decode_or_exit usize c exit in
  dec! last := dep_decode_or_exit usize c exit in
  dec_ret (mk_FundsListInfo total_balance first last).

Definition funds_list_info : NestedCodec FundsListInfo :=
  mk_NestedCodec FundsListInfo_dep_encode (@FundsListInfo_dep_encode_or_exit)
    FundsListInfo_dep_decode (@FundsListInfo_dep_decode_or_exit).

Definition FundsListInfo_top_encode (l : FundsListInfo) : EncodeError + bytes :=
  if FundsListInfo_is_empty l then inr [] else top_encode_from_nested funds_list_info l.

Definition FundsListInfo_top_encode_or_exit {Ctx E} (l : FundsListInfo) (c : Ctx)
    (exit : Ctx → EncodeError → E) : E + bytes :=
  if FundsListInfo_is_empty l then inr []
  else top_encode_from_nested_or_exit funds_list_info l c exit.

Definition FundsListInfo_top_decode (input : bytes) : DecodeError + FundsListInfo :=
  if Nat.eqb (length input) 0 then inr FundsListInfo_zero_value
  else top_decode_from_nested funds_list_info input.

Definition FundsListInfo_top_decode_or_exit {Ctx E} (input : bytes) (c : Ctx)
    (exit : Ctx → DecodeError → E) : E + FundsListInfo :=
  if Nat.eqb (length input) 0 then inr FundsListInfo_zero_value
  else top_decode_from_nested_or_exit funds_list_info input c exit.

Definition FundsListInfo_top : TopCodec FundsListInfo :=
  mk_TopCodec FundsListInfo_top_encode (@FundsListInfo_top_encode_or_exit)
    FundsListInfo_top_decode (@FundsListInfo_top_decode_or_exit).

(** ** node_state.rs: codecs *)
Definition NodeState_dep_encode (st : NodeState) : Enc EncodeError :=
  match st with
  | NodeState.Inactive => push x00
  | NodeState.PendingActivation => push x01
  | NodeState.ActivationFailed => push x02
  | NodeState.Active => push x03
  | NodeState.PendingDeactivation => push x04
  | NodeState.UnBondPeriod started => push x05 ;> dep_encode u64 started
  | NodeState.PendingUnBond unbond_started => push x06 ;> dep_encode u64 unbond_started
  | NodeState.Removed => push x07
  end.

Definition NodeState_dep_encode_or_exit {Ctx E} (st : NodeState) (c : Ctx)
    (exit : Ctx → EncodeError → E) : Enc E :=
  match st with
  | NodeState.Inactive => push x00
  | NodeState.PendingActivation => push x01
  | NodeState.ActivationFailed => push x02
  | NodeState.Active => push x03
  | NodeState.PendingDeactivation => push x04
  | NodeState.UnBondPeriod started => push x05 ;> dep_encode_or_exit u64 started c exit
  | NodeState.PendingUnBond unbond_started =>
      push x06 ;> dep_encode_or_exit u64 unbond_started c exit
  | NodeState.Removed => push x07
  end.

Definition NodeState_dep_decode : Dec DecodeError NodeState :=
  dec! discriminant := read_byte in
  match discriminant with
  | x00 => dec_ret NodeState.Inactive
  | x01 => dec_ret NodeState.PendingActivation
  | x02 => dec_ret NodeState.ActivationFailed
  | x03 => dec_ret NodeState.Active
  | x04 => dec_ret NodeState.PendingDeactivation
  | x05 => dec! started := dep_decode u64 in dec_ret (NodeState.UnBondPeriod started)
  | x06 =>
      dec! unbond_started := dep_decode u64 in dec_ret (NodeState.PendingUnBond unbond_started)
  | x07 => dec_ret NodeState.Removed
  | _ => dec_fail INVALID_VALUE
  end.

Definition NodeState_dep_decode_or_exit {Ctx E} (c : Ctx)
    (exit : Ctx → DecodeError → E) : Dec E NodeState :=
  dec! discriminant := read_byte_or_exit c exit in
  match discriminant with
  | x00 => dec_ret NodeState.Inactive
  | x01 => dec_ret NodeState.PendingActivation
  | x02 => dec_ret NodeState.ActivationFailed
  | x03 => dec_ret NodeState.Active
  | x04 => dec_ret NodeState.PendingDeactivation
  | x05 =>
      dec! started := dep_decode_or_exit u64 c exit in
      dec_ret (NodeState.UnBondPeriod started)
  | x06 =>
      dec! unbond_started := dep_decode_or_exit u64 c exit in
      dec_ret (NodeState.PendingUnBond unbond_started)
  | x07 => dec_ret NodeState.Removed
  | _ => dec_fail (exit c INVALID_VALUE)
  end.

Definition node_state : NestedCodec NodeState :=
  mk_NestedCodec NodeState_dep_encode (@NodeState_dep_encode_or_exit)
    NodeState_dep_decode (@NodeState_dep_decode_or_exit).

Definition NodeState_top_encode (x : NodeState) : EncodeError + bytes :=
  top_encode_from_nested node_state x.
Definition NodeState_top_encode_or_exit {Ctx E} (x : NodeState) (c : Ctx)
    (exit : Ctx → EncodeError → E) : E + bytes :=
  top_encode_from_nested_or_exit node_state x c exit.
Definition NodeState_top_decode (input : bytes) : DecodeError + NodeState :=
  top_decode_from_nested node_state input.
Definition NodeState_top_decode_or_exit {Ctx E} (input : bytes) (c : Ctx)
    (exit : Ctx → DecodeError → E) : E + NodeState :=
  top_decode_from_nested_or_exit node_state input c exit.

Definition NodeState_top : TopCodec NodeState :=
  mk_TopCodec NodeState_top_encode (@NodeState_top_encode_or_exit) NodeState_top_decode
    (@NodeState_top_decode_or_exit).

(** ** bls_key.rs and bls_sig.rs: codecs *)
Definition map_result {E A B} (f : A → B) (r : E + A) : E + B :=
  match r with inl e => inl e | inr a => inr (f a) end.

Definition BLSKey_dep_encode (x : BLSKey) : Enc EncodeError :=
  dep_encode (u8_array BLS_KEY_BYTE_LENGTH) (key_array x).
Definition BLSKey_dep_encode_or_exit {Ctx E} (x : BLSKey) (c : Ctx)
    (exit : Ctx → EncodeError → E) : Enc E :=
  dep_encode_or_exit (u8_array BLS_KEY_BYTE_LENGTH) (key_array x) c exit.
Definition BLSKey_dep_decode : Dec DecodeError BLSKey :=
  dec! arr := dep_decode (u8_array BLS_KEY_BYTE_LENGTH) in dec_ret (mk_BLSKey arr).
Definition BLSKey_dep_decode_or_exit {Ctx E} (c : Ctx)
    (exit : Ctx → DecodeError → E) : Dec E BLSKey :=
  dec! arr := dep_decode_or_exit (u8_array BLS_KEY_BYTE_LENGTH) c exit in dec_ret (mk_BLSKey arr).

Definition bls_key : NestedCodec BLSKey :=
  mk_NestedCodec BLSKey_dep_encode (@BLSKey_dep_encode_or_exit) BLSKey_dep_decode
    (@BLSKey_dep_decode_or_exit).

Definition BLSKey_top_encode (x : BLSKey) : EncodeError + bytes :=
  top_encode (u8_array_top BLS_KEY_BYTE_LENGTH) (key_array x).
Definition BLSKey_top_encode_or_exit {Ctx E} (x : BLSKey) (c : Ctx)
    (exit : Ctx → EncodeError → E) : E + bytes :=
  top_encode_or_exit (u8_array_top BLS_KEY_BYTE_LENGTH) (key_array x) c exit.
Definition BLSKey_top_decode (input : bytes) : DecodeError + BLSKey :=
  map_result mk_BLSKey (top_decode (u8_array_top BLS_KEY_BYTE_LENGTH) input).
Definition BLSKey_top_decode_or_exit {Ctx E} (input : bytes) (c : Ctx)
    (exit : Ctx → DecodeError → E) : E + BLSKey :=
  map_result mk_BLSKey (top_decode_or_exit (u8_array_top BLS_KEY_BYTE_LENGTH) input c exit).

Definition BLSKey_top : TopCodec BLSKey :=
  mk_TopCodec BLSKey_top_encode (@BLSKey_top_encode_or_exit) BLSKey_top_decode
    (@BLSKey_top_decode_or_exit).

Definition BLSSignature_dep_encode (x : BLSSignature) : Enc EncodeError :=
  dep_encode (u8_array BLS_SIGNATURE_BYTE_LENGTH) (signature_array x).
Definition BLSSignature_dep_encode_or_exit {Ctx E} (x : BLSSignature) (c : Ctx)
    (exit : Ctx → EncodeError → E) : Enc E :=
  dep_encode_or_exit (u8_array BLS_SIGNATURE_BYTE_LENGTH) (signature_array x) c exit.
Definition BLSSignature_dep_decode : Dec DecodeError BLSSignature :=
  dec! arr := dep_decode (u8_array BLS_SIGNATURE_BYTE_LENGTH) in dec_ret (mk_BLSSignature arr).
Definition BLSSignature_dep_decode_or_exit {Ctx E} (c : Ctx)
    (exit : Ctx → DecodeError → E) : Dec E BLSSignature :=
  dec! arr := dep_decode_or_exit (u8_array BLS_SIGNATURE_BYTE_LENGTH) c exit in dec_ret (mk_BLSSignature arr).

Definition bls_signature : NestedCodec BLSSignature :=
  mk_NestedCodec BLSSignature_dep_encode (@BLSSignature_dep_encode_or_exit) BLSSignature_dep_decode
    (@BLSSignature_dep_decode_or_exit).

Definition BLSSignature_top_encode (x : BLSSignature) : EncodeError + bytes :=
  top_encode (u8_array_top BLS_SIGNATURE_BYTE_LENGTH) (signature_array x).
Definition BLSSignature_top_encode_or_exit {Ctx E} (x : BLSSignature) (c : Ctx)
    (exit : Ctx → EncodeError → E) : E + bytes :=
  top_encode_or_exit (u8_array_top BLS_SIGNATURE_BYTE_LENGTH) (signature_array x) c exit.
Definition BLSSignature_top_decode (input : bytes) : DecodeError + BLSSignature :=
  map_result mk_BLSSignature (top_decode (u8_array_top BLS_SIGNATURE_BYTE_LENGTH) input).
Definition BLSSignature_top_decode_or_exit {Ctx E} (input : bytes) (c : Ctx)
    (exit : Ctx → DecodeError → E) : E + BLSSignature :=
  map_result mk_BLSSignature (top_decode_or_exit (u8_array_top BLS_SIGNATURE_BYTE_LENGTH) input c exit).

Definition BLSSignature_top : TopCodec BLSSignature :=
  mk_TopCodec BLSSignature_top_encode (@BLSSignature_top_encode_or_exit) BLSSignature_top_decode
    (@BLSSignature_top_decode_or_exit).
End Codecs.

End OldSerialization.
