(* ===== verification/OldCodecSpec.v ===== *)
(** * Stored bytes: what the codecs promise

    Round trips, canonical forms, the inputs that are refused and the agreement
    of the two variants of each codec, proved from the laws of the framework's
    codecs of integers and byte arrays. *)
From Stdlib Require Import Strings.Byte.
From stdpp Require Import base numbers list strings.
From S2P Require Import Prelude OldCodec.

(** ** What a codec promises *)
Definition map_err {E E' A} (f : E → E') (r : E + A) : E' + A :=
  match r with inl e => inl (f e) | inr a => inr a end.

(** [spells c x bs]: [bs] is what [c] writes for [x]. *)
Definition spells {A} (c : NestedCodec A) (x : A) (bs : bytes) : Prop :=
  ∀ d, dep_encode c x d = inr (d ++ bs).

(** Values in the range [ok] are read back, whatever follows them. *)
Class Lawful {A} (c : NestedCodec A) (ok : A → Prop) : Prop :=
  lawful x : ok x → ∃ bs, spells c x bs ∧ ∀ rest, dep_decode c (bs ++ rest) = inr (x, rest).

(** What is read is what would have been written. *)
Class Canonical {A} (c : NestedCodec A) : Prop :=
  canonical i x rest : dep_decode c i = inr (x, rest) → ∃ bs, i = bs ++ rest ∧ spells c x bs.

(** The variants that end the transaction agree with those that return errors. *)
Class ExitAgrees {A} (c : NestedCodec A) : Prop := {
  exit_encode {Ctx E} x (k : Ctx) (exit : Ctx → EncodeError → E) d :
    dep_encode_or_exit c x k exit d = map_err (exit k) (dep_encode c x d);
  exit_decode {Ctx E} (k : Ctx) (exit : Ctx → DecodeError → E) i :
    dep_decode_or_exit c k exit i = map_err (exit k) (dep_decode c i);
}.

Class TopExitAgrees {A} (c : TopCodec A) : Prop := {
  top_exit_encode {Ctx E} x (k : Ctx) (exit : Ctx → EncodeError → E) :
    top_encode_or_exit c x k exit = map_err (exit k) (top_encode c x);
  top_exit_decode {Ctx E} i (k : Ctx) (exit : Ctx → DecodeError → E) :
    top_decode_or_exit c i k exit = map_err (exit k) (top_decode c i);
}.

(** A big integer is preceded by the number of its bytes. *)
Definition big_uint_fits (x : N) : Prop := (N.size x + 7) / 8 < usize_max_plus_1.

(** The codecs of the framework. *)
Class CodecLaws `{CodecApi} : Prop := {
  push_byte_eq b d : push_byte b d = d ++ [b];
  read_byte_cons b rest : read_byte (b :: rest) = inr (b, rest);
  read_byte_nil : read_byte [] = inl INPUT_TOO_SHORT;
  read_byte_exit {Ctx E} (k : Ctx) (exit : Ctx → DecodeError → E) i :
    read_byte_or_exit k exit i = map_err (exit k) (read_byte i);
  u64_lawful :: Lawful u64 (λ x, x < 2 ^ 64);
  u64_canonical :: Canonical u64;
  u64_exit :: ExitAgrees u64;
  usize_lawful :: Lawful usize (λ x, x < usize_max_plus_1);
  usize_exit :: ExitAgrees usize;
  big_uint_lawful :: Lawful big_uint big_uint_fits;
  big_uint_exit :: ExitAgrees big_uint;
  u8_array_lawful n :: Lawful (u8_array n) (λ a, length a = n);
  u8_array_canonical n :: Canonical (u8_array n);
  u8_array_exit n :: ExitAgrees (u8_array n);
  u8_array_top_encode n a : length a = n → top_encode (u8_array_top n) a = inr a;
  u8_array_top_decode n a : length a = n → top_decode (u8_array_top n) a = inr a;
  u8_array_top_exit n :: TopExitAgrees (u8_array_top n);
  top_encode_nested {A} (c : NestedCodec A) x :
    top_encode_from_nested c x = dep_encode c x [];
  top_encode_nested_exit {A Ctx E} (c : NestedCodec A) x (k : Ctx) (exit : Ctx → EncodeError → E) :
    top_encode_from_nested_or_exit c x k exit = dep_encode_or_exit c x k exit [];
  top_decode_nested {A} (c : NestedCodec A) i :
    top_decode_from_nested c i =
      match dep_decode c i with
      | inl e => inl e
      | inr (x, []) => inr x
      | inr (_, _ :: _) => inl INPUT_TOO_LONG
      end;
  top_decode_nested_exit {A Ctx E} (c : NestedCodec A) i (k : Ctx) (exit : Ctx → DecodeError → E) :
    top_decode_from_nested_or_exit c i k exit =
      match dep_decode_or_exit c k exit i with
      | inl e => inl e
      | inr (x, []) => inr x
      | inr (_, _ :: _) => inl (exit k INPUT_TOO_LONG)
      end;
}.

Create HintDb codec.

(** ** Sequences of encoders and decoders *)
Lemma enc_then_eq {E} (m k : Enc E) d d' : m d = inr d' → enc_then m k d = k d'.
Proof. unfold enc_then. by intros ->. Qed.

Lemma dec_bind_eq {E A B} (m : Dec E A) (k : A → Dec E B) i a i' :
  m i = inr (a, i') → dec_bind m k i = k a i'.
Proof. unfold dec_bind. by intros ->. Qed.

Lemma dec_bind_inv {E A B} (m : Dec E A) (k : A → Dec E B) i b rest :
  dec_bind m k i = inr (b, rest) → ∃ a i', m i = inr (a, i') ∧ k a i' = inr (b, rest).
Proof. unfold dec_bind. destruct (m i) as [e|[a i']]; [done|eauto]. Qed.

Lemma enc_then_exit {E E'} (f : E → E') (m k : Enc E) (m' k' : Enc E') d :
  (∀ d, m' d = map_err f (m d)) → (∀ d, k' d = map_err f (k d)) →
  enc_then m' k' d = map_err f (enc_then m k d).
Proof. intros Hm Hk. unfold enc_then. rewrite Hm. destruct (m d); simpl; [done|apply Hk]. Qed.

Lemma dec_bind_exit {E E' A B} (f : E → E') (m : Dec E A) (k : A → Dec E B) (m' : Dec E' A)
    (k' : A → Dec E' B) i :
  (∀ i, m' i = map_err f (m i)) → (∀ a i, k' a i = map_err f (k a i)) →
  dec_bind m' k' i = map_err f (dec_bind m k i).
Proof.
  intros Hm Hk. unfold dec_bind. rewrite Hm. destruct (m i) as [e|[a i']]; simpl; [done|apply Hk].
Qed.

(** Both variants of a codec, part by part. *)
Ltac exits :=
  repeat first [apply enc_then_exit; intros; [by rewrite ?exit_encode|]
               |apply dec_bind_exit; intros; [by rewrite ?exit_decode, ?read_byte_exit|]];
  try (by rewrite ?exit_encode); try done.

(** [writes m bs]: [m] appends [bs]; [reads m bs a]: [m] takes [bs] and returns [a]. *)
Definition writes {E} (m : Enc E) (bs : bytes) : Prop := ∀ d, m d = inr (d ++ bs).
Definition reads_as {E A} (m : Dec E A) (bs : bytes) (a : A) : Prop :=
  ∀ rest, m (bs ++ rest) = inr (a, rest).

Lemma writes_ok {E} : writes (E:=E) enc_ok [].
Proof. intros d. by rewrite app_nil_r. Qed.
Lemma writes_then {E} (m k : Enc E) bs bs' :
  writes m bs → writes k bs' → writes (enc_then m k) (bs ++ bs').
Proof. intros Hm Hk d. by rewrite (enc_then_eq _ _ _ _ (Hm d)), Hk, <-(assoc_L (++)). Qed.
Lemma reads_ret {E A} (a : A) : reads_as (E:=E) (dec_ret a) [] a.
Proof. done. Qed.
Lemma reads_bind {E A B} (m : Dec E A) (k : A → Dec E B) bs bs' a b :
  reads_as m bs a → reads_as (k a) bs' b → reads_as (dec_bind m k) (bs ++ bs') b.
Proof.
  intros Hm Hk rest. rewrite <-(assoc_L (++)), (dec_bind_eq _ _ _ _ _ (Hm _)). apply Hk.
Qed.

#[export] Hint Resolve writes_ok writes_then reads_ret reads_bind : codec.

Import OldSerialization.

Section Promises.
Context `{CodecLaws}.

Lemma push_eq {E} b d : push (E:=E) b d = inr (d ++ [b]).
Proof. unfold push. by rewrite push_byte_eq. Qed.

(** A discriminant alone, and one followed by a part. *)
Lemma spells_push {A} (c : NestedCodec A) x b :
  dep_encode c x = push b → spells c x [b].
Proof. intros Heq d. rewrite Heq. apply push_eq. Qed.

Lemma spells_push_then {A B} (c : NestedCodec A) (c' : NestedCodec B) x y b bs :
  dep_encode c x = (push b ;> dep_encode c' y) → spells c' y bs → spells c x (b :: bs).
Proof.
  intros Heq Hy d. rewrite Heq. erewrite enc_then_eq by apply push_eq.
  by rewrite Hy, <-(assoc_L (++)).
Qed.

Lemma read_byte_inv i b rest : read_byte i = inr (b, rest) → i = b :: rest.
Proof.
  destruct i as [|b' i]; [by rewrite read_byte_nil|]. rewrite read_byte_cons. congruence.
Qed.

(** A variant of an enum: its discriminant alone, or with one field. *)
Section Variants.
Context {A B : Type} (c : NestedCodec A) (c' : NestedCodec B) (k : byte → Dec DecodeError A).
Hypothesis Hc : dep_decode c = dec_bind read_byte k.

Lemma variant_alone x b :
  dep_encode c x = push b → k b = dec_ret x →
  ∃ bs, spells c x bs ∧ ∀ rest, dep_decode c (bs ++ rest) = inr (x, rest).
Proof.
  intros He Hk. exists [b]. split; [by apply spells_push|]. intros rest. rewrite Hc. simpl.
  by rewrite (dec_bind_eq _ _ _ _ _ (read_byte_cons _ _)), Hk.
Qed.

Lemma variant_then x b y ok (f : B → A) :
  Lawful c' ok → ok y → dep_encode c x = (push b ;> dep_encode c' y) →
  k b = (dec! y := dep_decode c' in dec_ret (f y)) → f y = x →
  ∃ bs, spells c x bs ∧ ∀ rest, dep_decode c (bs ++ rest) = inr (x, rest).
Proof.
  intros HL Hy He Hk <-. destruct (HL y Hy) as (bs & Hs & Hd). exists (b :: bs).
  split; [by eapply spells_push_then|]. intros rest. rewrite Hc. simpl.
  by rewrite (dec_bind_eq _ _ _ _ _ (read_byte_cons _ _)), Hk, (dec_bind_eq _ _ _ _ _ (Hd rest)).
Qed.

(** Reading such variants back. *)
Lemma read_alone b i x y rest :
  dep_encode c x = push b → dec_ret (E:=DecodeError) x i = inr (y, rest) →
  ∃ bs, b :: i = bs ++ rest ∧ spells c y bs.
Proof. intros He [= <- <-]. exists [b]. split; [done|by apply spells_push]. Qed.

Lemma read_then b i y rest (f : B → A) :
  Canonical c' → (∀ z, dep_encode c (f z) = (push b ;> dep_encode c' z)) →
  (dec! z := dep_decode c' in dec_ret (E:=DecodeError) (f z)) i = inr (y, rest) →
  ∃ bs, b :: i = bs ++ rest ∧ spells c y bs.
Proof.
  intros HC He (z & i' & Hz & [= <- <-])%dec_bind_inv.
  destruct (HC i z i' Hz) as (bs & -> & Hs). exists (b :: bs).
  split; [done|by eapply spells_push_then].
Qed.
End Variants.

(** One variant, given the constructor of the field. *)
Ltac alone := eapply variant_alone; reflexivity.
Ltac with_field c f :=
  eapply (variant_then c u64 _ eq_refl _ _ _ _ f);
    [apply u64_lawful|match goal with Hok : _ |- _ => exact Hok end|reflexivity..].

(** The same for what has been read. *)
Ltac read_variant Hk :=
  first [done
        |eapply read_alone; [|exact Hk]; reflexivity
        |eapply (read_then _ u64); [apply u64_canonical| |exact Hk]; reflexivity].

(** Which discriminant was read. *)
Ltac discriminants :=
  repeat match goal with
  | |- context [if Byte.eqb ?b ?d then _ else _] =>
      destruct (Byte.eqb b d) eqn:?Hb; [apply Byte.byte_dec_bl in Hb as ->|clear Hb]
  end.

(** *** fund_type.rs *)
Definition ok_description (d : FundDescription) : Prop :=
  match d with
  | Waiting created | UnStaked created | DeferredPayment created => created < 2 ^ 64
  | _ => True
  end.

#[export] Instance fund_description_lawful : Lawful fund_description ok_description.
Proof.
  intros [] Hok; [alone|with_field fund_description Waiting|alone|with_field fund_description UnStaked|with_field fund_description DeferredPayment].
Qed.

#[export] Instance fund_description_canonical : Canonical fund_description.
Proof.
  intros i x rest (b & i' & Hb%read_byte_inv & Hk)%dec_bind_inv. subst i. revert Hk.
  discriminants; intros Hk; read_variant Hk.
Qed.

#[export] Instance fund_description_exit : ExitAgrees fund_description.
Proof.
  split; intros.
  - destruct x; simpl; exits.
  - simpl. apply dec_bind_exit; intros; [by rewrite read_byte_exit|]. discriminants; exits.
Qed.

#[export] Instance fund_type_lawful : Lawful fund_type (λ _, True).
Proof. intros [] _; alone. Qed.

#[export] Instance fund_type_canonical : Canonical fund_type.
Proof.
  intros i x rest (b & i' & Hb%read_byte_inv & Hk)%dec_bind_inv. subst i. revert Hk.
  discriminants; intros Hk; read_variant Hk.
Qed.

#[export] Instance fund_type_exit : ExitAgrees fund_type.
Proof.
  split; intros.
  - by destruct x.
  - simpl. apply dec_bind_exit; intros; [by rewrite read_byte_exit|]. discriminants; done.
Qed.

(** *** node_state.rs *)
Definition ok_node_state (st : NodeState) : Prop :=
  match st with
  | NodeState.UnBondPeriod n | NodeState.PendingUnBond n => n < 2 ^ 64
  | _ => True
  end.

#[export] Instance node_state_lawful : Lawful node_state ok_node_state.
Proof.
  intros [] Hok; [alone..|with_field node_state NodeState.UnBondPeriod|with_field node_state NodeState.PendingUnBond|
    alone].
Qed.

#[export] Instance node_state_canonical : Canonical node_state.
Proof.
  intros i x rest (b & i' & Hb%read_byte_inv & Hk)%dec_bind_inv. subst i.
  destruct b; read_variant Hk.
Qed.

#[export] Instance node_state_exit : ExitAgrees node_state.
Proof.
  split; intros.
  - destruct x; simpl; exits.
  - simpl. apply dec_bind_exit; [intros; by rewrite read_byte_exit|].
    intros [] j; first [reflexivity | exits].
Qed.

(** *** fund_item.rs *)
Record ok_item (i : FundItem) : Prop := {
  oi_desc : ok_description (fund_desc i);
  oi_user : user_id i < usize_max_plus_1;
  oi_balance : big_uint_fits (balance i);
  oi_type_next : type_list_next i < usize_max_plus_1;
  oi_type_prev : type_list_prev i < usize_max_plus_1;
  oi_user_next : user_list_next i < usize_max_plus_1;
  oi_user_prev : user_list_prev i < usize_max_plus_1;
}.

#[export] Instance fund_item_lawful : Lawful fund_item ok_item.
Proof.
  intros [d u b tn tp un up] [Hd Hu Hb Htn Htp Hun Hup]. simpl in *.
  destruct (fund_description_lawful d Hd) as (b1 & S1 & D1), (usize_lawful u Hu) as (b2 & S2 & D2),
    (big_uint_lawful b Hb) as (b3 & S3 & D3), (usize_lawful tn Htn) as (b4 & S4 & D4),
    (usize_lawful tp Htp) as (b5 & S5 & D5), (usize_lawful un Hun) as (b6 & S6 & D6),
    (usize_lawful up Hup) as (b7 & S7 & D7).
  exists (b1 ++ b2 ++ b3 ++ b4 ++ b5 ++ b6 ++ b7 ++ []).
  split; [exact (writes_then _ _ _ _ S1 (writes_then _ _ _ _ S2 (writes_then _ _ _ _ S3
    (writes_then _ _ _ _ S4 (writes_then _ _ _ _ S5 (writes_then _ _ _ _ S6
    (writes_then _ _ _ _ S7 writes_ok)))))))|].
  simpl. unfold FundItem_dep_decode.
  do 7 (eapply reads_bind; [eassumption|]). apply reads_ret.
Qed.

#[export] Instance fund_item_exit : ExitAgrees fund_item.
Proof.
  split; intros; simpl.
  - unfold FundItem_dep_encode, FundItem_dep_encode_or_exit.
    do 6 (apply enc_then_exit; intros; [by rewrite exit_encode|]).
    unfold enc_then. rewrite exit_encode. by destruct (dep_encode usize _ _).
  - unfold FundItem_dep_decode, FundItem_dep_decode_or_exit.
    do 7 (apply dec_bind_exit; intros; [by rewrite exit_decode|]). done.
Qed.

(** *** fund_list_info.rs *)
Record ok_list (l : FundsListInfo) : Prop := {
  ol_balance : big_uint_fits (total_balance l);
  ol_first : first l < usize_max_plus_1;
  ol_last : last l < usize_max_plus_1;
}.

#[export] Instance funds_list_info_lawful : Lawful funds_list_info ok_list.
Proof.
  intros [b f l] [Hb Hf Hl]. simpl in *.
  destruct (big_uint_lawful b Hb) as (b1 & S1 & D1), (usize_lawful f Hf) as (b2 & S2 & D2),
    (usize_lawful l Hl) as (b3 & S3 & D3).
  exists (b1 ++ b2 ++ b3 ++ []).
  split; [exact (writes_then _ _ _ _ S1 (writes_then _ _ _ _ S2
    (writes_then _ _ _ _ S3 writes_ok)))|].
  simpl. unfold FundsListInfo_dep_decode.
  do 3 (eapply reads_bind; [eassumption|]). apply reads_ret.
Qed.

#[export] Instance funds_list_info_exit : ExitAgrees funds_list_info.
Proof.
  split; intros; simpl.
  - unfold FundsListInfo_dep_encode, FundsListInfo_dep_encode_or_exit.
    do 2 (apply enc_then_exit; intros; [by rewrite exit_encode|]).
    unfold enc_then. rewrite exit_encode. by destruct (dep_encode usize _ _).
  - unfold FundsListInfo_dep_decode, FundsListInfo_dep_decode_or_exit.
    do 3 (apply dec_bind_exit; intros; [by rewrite exit_decode|]). done.
Qed.

(** *** bls_key.rs and bls_sig.rs *)
Definition ok_key (k : BLSKey) : Prop := length (key_array k) = BLS_KEY_BYTE_LENGTH.
Definition ok_signature (g : BLSSignature) : Prop :=
  length (signature_array g) = BLS_SIGNATURE_BYTE_LENGTH.

#[export] Instance bls_key_lawful : Lawful bls_key ok_key.
Proof.
  intros [a] Ha. destruct (u8_array_lawful _ a Ha) as (bs & Hs & Hd). exists bs.
  split; [exact Hs|]. intros rest. simpl. unfold BLSKey_dep_decode.
  by rewrite (dec_bind_eq _ _ _ _ _ (Hd rest)).
Qed.

#[export] Instance bls_key_canonical : Canonical bls_key.
Proof.
  intros i x rest (a & i' & Ha & [= <- <-])%dec_bind_inv.
  destruct (u8_array_canonical _ _ _ _ Ha) as (bs & -> & Hs). by exists bs.
Qed.

#[export] Instance bls_key_exit : ExitAgrees bls_key.
Proof.
  split; intros; simpl; [apply exit_encode|]. unfold BLSKey_dep_decode_or_exit, BLSKey_dep_decode.
  apply dec_bind_exit; intros; [by rewrite exit_decode|done].
Qed.

#[export] Instance bls_signature_lawful : Lawful bls_signature ok_signature.
Proof.
  intros [a] Ha. destruct (u8_array_lawful _ a Ha) as (bs & Hs & Hd). exists bs.
  split; [exact Hs|]. intros rest. simpl. unfold BLSSignature_dep_decode.
  by rewrite (dec_bind_eq _ _ _ _ _ (Hd rest)).
Qed.

#[export] Instance bls_signature_canonical : Canonical bls_signature.
Proof.
  intros i x rest (a & i' & Ha & [= <- <-])%dec_bind_inv.
  destruct (u8_array_canonical _ _ _ _ Ha) as (bs & -> & Hs). by exists bs.
Qed.

#[export] Instance bls_signature_exit : ExitAgrees bls_signature.
Proof.
  split; intros; simpl; [apply exit_encode|]. unfold BLSSignature_dep_decode_or_exit, BLSSignature_dep_decode.
  apply dec_bind_exit; intros; [by rewrite exit_decode|done].
Qed.
(** ** Values stored on their own *)

(** Through the nested codec. *)
Lemma top_nested_roundtrip {A} (c : NestedCodec A) ok x :
  Lawful c ok → ok x →
  ∃ bs, top_encode_from_nested c x = inr bs ∧ top_decode_from_nested c bs = inr x.
Proof.
  intros HL Hx. destruct (HL x Hx) as (bs & Hs & Hd). exists bs.
  rewrite top_encode_nested, top_decode_nested, (Hs []). split; [done|].
  by rewrite <-(app_nil_r bs), Hd.
Qed.

Lemma top_decode_inv {A} (c : NestedCodec A) i x :
  top_decode_from_nested c i = inr x → dep_decode c i = inr (x, []).
Proof.
  rewrite top_decode_nested. destruct (dep_decode c i) as [e|[y [|b r]]]; congruence.
Qed.

Lemma top_nested_canonical {A} (c : NestedCodec A) i x :
  Canonical c → top_decode_from_nested c i = inr x → top_encode_from_nested c x = inr i.
Proof.
  intros HC Hi%top_decode_inv. destruct (HC _ _ _ Hi) as (bs & -> & Hs).
  by rewrite top_encode_nested, (Hs []), app_nil_r.
Qed.

(** The bytes written are the only ones read as the value. *)
Lemma top_nested_exact {A} (c : NestedCodec A) ok x :
  Lawful c ok → Canonical c → ok x →
  ∃ bs, top_encode_from_nested c x = inr bs ∧ ∀ i, top_decode_from_nested c i = inr x ↔ i = bs.
Proof.
  intros HL HC Hx. destruct (top_nested_roundtrip c ok x HL Hx) as (bs & He & Hd).
  exists bs. split; [done|]. intros i. split; [|by intros ->].
  intros Hi%(top_nested_canonical c i x HC). congruence.
Qed.

(** *** What is refused *)
Lemma top_refused {A} (c : NestedCodec A) i e :
  dep_decode c i = inl e → top_decode_from_nested c i = inl e.
Proof. intros Hi. by rewrite top_decode_nested, Hi. Qed.

Lemma top_too_long {A} (c : NestedCodec A) ok x bs b rest :
  Lawful c ok → ok x → top_encode_from_nested c x = inr bs →
  top_decode_from_nested c (bs ++ b :: rest) = inl INPUT_TOO_LONG.
Proof.
  intros HL Hx He. destruct (HL x Hx) as (bs' & Hs & Hd).
  rewrite top_encode_nested, (Hs []) in He. injection He as <-. simpl.
  by rewrite top_decode_nested, Hd.
Qed.

(** An enum: a discriminant, and what follows it. *)
Lemma refused_variant {A} (c : NestedCodec A) (k : byte → Dec DecodeError A) b rest e :
  dep_decode c = dec_bind read_byte k → k b rest = inl e →
  top_decode_from_nested c (b :: rest) = inl e.
Proof.
  intros Hc Hk. apply top_refused. rewrite Hc. unfold dec_bind. by rewrite read_byte_cons.
Qed.
Lemma refused_empty {A} (c : NestedCodec A) (k : byte → Dec DecodeError A) :
  dep_decode c = dec_bind read_byte k → top_decode_from_nested c [] = inl INPUT_TOO_SHORT.
Proof. intros Hc. apply top_refused. rewrite Hc. unfold dec_bind. by rewrite read_byte_nil. Qed.
Lemma refused_field {A B} (m : Dec DecodeError A) (f : A → B) rest e :
  m rest = inl e → (dec! x := m in dec_ret (E:=DecodeError) (f x)) rest = inl e.
Proof. unfold dec_bind. by intros ->. Qed.

Lemma top_nested_exit_encode {A Ctx E} (c : NestedCodec A) x (k : Ctx)
    (exit : Ctx → EncodeError → E) :
  ExitAgrees c →
  top_encode_from_nested_or_exit c x k exit = map_err (exit k) (top_encode_from_nested c x).
Proof. intros HE. by rewrite top_encode_nested, top_encode_nested_exit, exit_encode. Qed.

Lemma top_nested_exit_decode {A Ctx E} (c : NestedCodec A) i (k : Ctx)
    (exit : Ctx → DecodeError → E) :
  ExitAgrees c →
  top_decode_from_nested_or_exit c i k exit = map_err (exit k) (top_decode_from_nested c i).
Proof.
  intros HE. rewrite top_decode_nested, top_decode_nested_exit, exit_decode.
  by destruct (dep_decode c i) as [e|[y [|b r]]].
Qed.

(** A codec that tells two values apart writes at least one byte. *)
Lemma spells_nonempty {A} (c : NestedCodec A) ok x y bs :
  Lawful c ok → ok x → ok y → x ≠ y → top_encode_from_nested c x = inr bs → bs ≠ [].
Proof.
  intros HL Hx Hy Hne Hbs ->.
  destruct (HL x Hx) as (bx & Sx & Dx), (HL y Hy) as (b & Sy & Dy).
  rewrite top_encode_nested, (Sx []) in Hbs. injection Hbs as Hbs. simpl in Hbs. subst bx.
  specialize (Dx b). specialize (Dy []). simpl in Dx. rewrite app_nil_r in Dy. congruence.
Qed.

(** The variants that end the transaction, for the seven stored types. *)
Ltac top_exits :=
  split; intros; simpl;
  first [apply top_nested_exit_encode, _ | apply top_nested_exit_decode, _].

#[export] Instance fund_description_top_exit : TopExitAgrees FundDescription_top.
Proof. top_exits. Qed.
#[export] Instance fund_type_top_exit : TopExitAgrees FundType_top.
Proof. top_exits. Qed.
#[export] Instance node_state_top_exit : TopExitAgrees NodeState_top.
Proof. top_exits. Qed.

#[export] Instance fund_item_top_exit : TopExitAgrees FundItem_top.
Proof.
  split; intros; simpl.
  - unfold FundItem_top_encode, FundItem_top_encode_or_exit.
    destruct (FundItem_is_zero_value x); [done|apply top_nested_exit_encode, _].
  - unfold FundItem_top_decode, FundItem_top_decode_or_exit.
    destruct (Nat.eqb _ _); [done|apply top_nested_exit_decode, _].
Qed.

#[export] Instance funds_list_info_top_exit : TopExitAgrees FundsListInfo_top.
Proof.
  split; intros; simpl.
  - unfold FundsListInfo_top_encode, FundsListInfo_top_encode_or_exit.
    destruct (FundsListInfo_is_empty x); [done|apply top_nested_exit_encode, _].
  - unfold FundsListInfo_top_decode, FundsListInfo_top_decode_or_exit.
    destruct (Nat.eqb _ _); [done|apply top_nested_exit_decode, _].
Qed.

Lemma map_result_err {E E' A B} (f : A → B) (g : E → E') (r : E + A) :
  map_result f (map_err g r) = map_err g (map_result f r).
Proof. by destruct r. Qed.

#[export] Instance bls_key_top_exit : TopExitAgrees BLSKey_top.
Proof.
  split; intros; simpl; [apply u8_array_top_exit|].
  unfold BLSKey_top_decode_or_exit, BLSKey_top_decode. rewrite <-map_result_err. f_equal.
  apply u8_array_top_exit.
Qed.
#[export] Instance bls_signature_top_exit : TopExitAgrees BLSSignature_top.
Proof.
  split; intros; simpl; [apply u8_array_top_exit|].
  unfold BLSSignature_top_decode_or_exit, BLSSignature_top_decode. rewrite <-map_result_err. f_equal.
  apply u8_array_top_exit.
Qed.

(** A fund item or list header: the zero value is stored as no bytes. *)
Definition stored_item (i : FundItem) : FundItem :=
  if FundItem_is_zero_value i then FundItem_zero_value else i.

Lemma ok_item_zero : ok_item FundItem_zero_value.
Proof. by split. Qed.
Lemma ok_list_zero : ok_list FundsListInfo_zero_value.
Proof. by split. Qed.

Lemma fund_item_stored i : ok_item i →
  ∃ bs, top_encode FundItem_top i = inr bs ∧
    top_decode FundItem_top bs = inr (stored_item i) ∧
    (bs = [] ↔ FundItem_is_zero_value i = true).
Proof.
  intros Hok. simpl. unfold FundItem_top_encode, FundItem_top_decode, stored_item.
  destruct (FundItem_is_zero_value i) eqn:Hz; [by exists []|].
  destruct (top_nested_roundtrip fund_item ok_item i fund_item_lawful Hok) as (bs & He & Hd).
  assert (bs ≠ []) as Hne.
  { eapply (spells_nonempty fund_item ok_item i FundItem_zero_value);
      [apply _|done|apply ok_item_zero| |done]. by intros ->. }
  exists bs. by destruct bs.
Qed.

Lemma funds_list_info_stored l : ok_list l →
  ∃ bs, top_encode FundsListInfo_top l = inr bs ∧
    top_decode FundsListInfo_top bs = inr l ∧
    (bs = [] ↔ FundsListInfo_is_empty l = true).
Proof.
  intros Hok. simpl. unfold FundsListInfo_top_encode, FundsListInfo_top_decode.
  destruct (FundsListInfo_is_empty l) eqn:Hz.
  { exists []. split; [done|]. split; [|done]. simpl. f_equal. revert Hz.
    destruct l as [b f l]. unfold FundsListInfo_is_empty, FundsListInfo_zero_value. simpl.
    rewrite !andb_true_iff, !N.eqb_eq. by intros [[-> ->] ->]. }
  destruct (top_nested_roundtrip funds_list_info ok_list l funds_list_info_lawful Hok)
    as (bs & He & Hd).
  assert (bs ≠ []) as Hne.
  { eapply (spells_nonempty funds_list_info ok_list l FundsListInfo_zero_value);
      [apply _|done|apply ok_list_zero| |done]. by intros ->. }
  exists bs. by destruct bs.
Qed.

Lemma bls_key_stored k : ok_key k →
  ∃ bs, top_encode BLSKey_top k = inr bs ∧ top_decode BLSKey_top bs = inr k.
Proof.
  destruct k as [a]. intros Ha. exists a. simpl. unfold BLSKey_top_encode, BLSKey_top_decode. simpl.
  by rewrite (u8_array_top_encode _ _ Ha), (u8_array_top_decode _ _ Ha).
Qed.

Lemma bls_signature_stored g : ok_signature g →
  ∃ bs, top_encode BLSSignature_top g = inr bs ∧ top_decode BLSSignature_top bs = inr g.
Proof.
  destruct g as [a]. intros Ha. exists a. simpl.
  unfold BLSSignature_top_encode, BLSSignature_top_decode. simpl.
  by rewrite (u8_array_top_encode _ _ Ha), (u8_array_top_decode _ _ Ha).
Qed.
End Promises.
