(* ===== verification/OldCodecFormat.v ===== *)
(** * Stored bytes: the format of the framework

    The documented format of the framework's codecs, as an instance of
    [CodecApi]: integers are big-endian, of 8 bytes ([u64]) or 4 ([usize]); a big
    integer is its shortest big-endian bytes after their number; an array is its
    bytes.  The instance satisfies the laws that the theorems use. *)
From Stdlib Require Import Strings.Byte.
From stdpp Require Import base numbers list strings.
From S2P Require Import Prelude OldCodec OldCodecSpec.

(** ** Big-endian numbers *)
Definition byte_of (x : N) : byte := default x00 (Byte.of_N (x mod 256)).

Lemma byte_of_spec x : Byte.to_N (byte_of x) = x mod 256.
Proof.
  unfold byte_of. pose proof (N.mod_lt x 256 ltac:(done)) as Hlt.
  destruct (Byte.of_N (x mod 256)) as [b|] eqn:Hb; [by apply Byte.to_of_N|].
  apply Byte.of_N_None_iff in Hb. lia.
Qed.

Lemma byte_of_to_N b : byte_of (Byte.to_N b) = b.
Proof.
  unfold byte_of. pose proof (Byte.to_N_bounded b). rewrite N.mod_small by lia.
  by rewrite Byte.of_to_N.
Qed.

(** The [n] lowest bytes, most significant first. *)
Fixpoint be_bytes (n : nat) (x : N) : bytes :=
  match n with
  | O => []
  | S n => be_bytes n (x / 256) ++ [byte_of x]
  end.
Definition be_value (bs : bytes) : N := foldl (λ v b, v * 256 + Byte.to_N b) 0 bs.

Lemma be_bytes_length n x : length (be_bytes n x) = n.
Proof. revert x. induction n as [|n IH]; intros x; simpl; [done|]. rewrite length_app, IH. simpl. lia. Qed.

Lemma be_value_snoc bs b : be_value (bs ++ [b]) = be_value bs * 256 + Byte.to_N b.
Proof. unfold be_value. by rewrite foldl_app. Qed.

Lemma be_value_bytes n x : x < 256 ^ N.of_nat n → be_value (be_bytes n x) = x.
Proof.
  revert x. induction n as [|n IH]; intros x Hx; simpl be_bytes.
  - simpl in Hx. unfold be_value; simpl. lia.
  - rewrite be_value_snoc, byte_of_spec, IH.
    + pose proof (N.Div0.div_mod x 256). lia.
    + apply N.Div0.div_lt_upper_bound. by rewrite Nat2N.inj_succ, N.pow_succ_r in Hx by lia.
Qed.

Lemma be_bytes_value bs : be_bytes (length bs) (be_value bs) = bs.
Proof.
  induction bs as [|b bs IH] using rev_ind; [done|].
  rewrite length_app, Nat.add_1_r. simpl. rewrite be_value_snoc. pose proof (Byte.to_N_bounded b).
  rewrite N.div_add_l, (N.div_small (Byte.to_N b)), N.add_0_r, IH by lia. f_equal. f_equal.
  rewrite <-(byte_of_to_N b) at 2. unfold byte_of. f_equal. f_equal.
  rewrite N.add_comm, N.Div0.mod_add. done.
Qed.

Lemma be_value_bound bs : be_value bs < 256 ^ N.of_nat (length bs).
Proof.
  induction bs as [|b bs IH] using rev_ind; [done|].
  rewrite be_value_snoc, length_app. pose proof (Byte.to_N_bounded b).
  replace (N.of_nat (length bs + length [b])) with (N.succ (N.of_nat (length bs))) by (simpl; lia).
  rewrite N.pow_succ_r by lia. lia.
Qed.

(** ** The codecs *)
Definition take_bytes (n : nat) : Dec DecodeError bytes := λ i,
  if Nat.ltb (length i) n then inl INPUT_TOO_SHORT else inr (take n i, drop n i).

Lemma take_bytes_app bs rest : take_bytes (length bs) (bs ++ rest) = inr (bs, rest).
Proof.
  unfold take_bytes. rewrite length_app, (proj2 (Nat.ltb_ge _ _)) by lia.
  by rewrite take_app_length, drop_app_length.
Qed.

Lemma take_bytes_inv n i bs rest :
  take_bytes n i = inr (bs, rest) → i = bs ++ rest ∧ length bs = n.
Proof.
  unfold take_bytes. destruct (Nat.ltb_spec (length i) n); [done|]. intros [= <- <-].
  rewrite take_drop, length_take. split; [done|lia].
Qed.

(** A codec whose variants agree by definition. *)
Definition plain_codec {A} (enc : A → Enc EncodeError) (dec : Dec DecodeError A) : NestedCodec A :=
  mk_NestedCodec enc (λ _ _ x k exit d, map_err (exit k) (enc x d)) dec
    (λ _ _ k exit i, map_err (exit k) (dec i)).

#[export] Instance plain_codec_exit {A} (enc : A → Enc EncodeError) dec :
  ExitAgrees (plain_codec enc dec).
Proof. by split. Qed.

Definition fixed_uint (n : nat) : NestedCodec N :=
  plain_codec (λ x d, inr (d ++ be_bytes n x))
    (dec! bs := take_bytes n in dec_ret (be_value bs)).

Definition mx_big_uint : NestedCodec N :=
  plain_codec
    (λ x d, let n := N.to_nat ((N.size x + 7) / 8) in
      inr (d ++ be_bytes 4 (N.of_nat n) ++ be_bytes n x))
    (dec! len := take_bytes 4 in
     dec! bs := take_bytes (N.to_nat (be_value len)) in dec_ret (be_value bs)).

Definition mx_array (n : nat) : NestedCodec bytes :=
  plain_codec (λ a d, inr (d ++ a)) (take_bytes n).

Definition mx_array_top (n : nat) : TopCodec bytes :=
  let dec := λ i : bytes,
    if Nat.eqb (length i) n then inr i else inl "bad array length"%string in
  mk_TopCodec (λ a, inr a) (λ _ _ a _ _, inr a) dec (λ _ _ i k exit, map_err (exit k) (dec i)).

Definition mx_read_byte : Dec DecodeError byte := λ i,
  match i with [] => inl INPUT_TOO_SHORT | b :: rest => inr (b, rest) end.

(** Nothing may follow a value at the top. *)
Definition whole {E A} (too_long : E) (r : E + A * bytes) : E + A :=
  match r with
  | inl e => inl e
  | inr (x, []) => inr x
  | inr (_, _ :: _) => inl too_long
  end.

#[export] Instance mx_api : CodecApi := {|
  push_byte b d := d ++ [b];
  read_byte := mx_read_byte;
  read_byte_or_exit _ _ k exit i := map_err (exit k) (mx_read_byte i);
  u64 := fixed_uint 8;
  usize := fixed_uint 4;
  big_uint := mx_big_uint;
  u8_array := mx_array;
  u8_array_top := mx_array_top;
  top_encode_from_nested _ c x := dep_encode c x [];
  top_encode_from_nested_or_exit _ _ _ c x k exit := dep_encode_or_exit c x k exit [];
  top_decode_from_nested _ c i := whole INPUT_TOO_LONG (dep_decode c i);
  top_decode_from_nested_or_exit _ _ _ c i k exit :=
    whole (exit k INPUT_TOO_LONG) (dep_decode_or_exit c k exit i);
|}.

(** ** The laws *)
Lemma fixed_uint_lawful n : Lawful (fixed_uint n) (λ x, x < 256 ^ N.of_nat n).
Proof.
  intros x Hx. exists (be_bytes n x). split; [done|]. intros rest. simpl.
  rewrite <-(be_bytes_length n x) at 1.
  rewrite (dec_bind_eq _ _ _ _ _ (take_bytes_app _ _)). unfold dec_ret.
  by rewrite be_value_bytes.
Qed.

Lemma fixed_uint_canonical n : Canonical (fixed_uint n).
Proof.
  intros i x rest (bs & i' & [-> Hlen]%take_bytes_inv & [= <- <-])%dec_bind_inv.
  exists bs. split; [done|]. intros d. simpl. by rewrite <-Hlen, be_bytes_value.
Qed.

Lemma mx_big_uint_lawful : Lawful mx_big_uint big_uint_fits.
Proof.
  intros x Hx. unfold big_uint_fits in Hx. set (n := N.to_nat ((N.size x + 7) / 8)).
  exists (be_bytes 4 (N.of_nat n) ++ be_bytes n x). split; [done|]. intros rest.
  rewrite <-(assoc_L (++)). simpl.
  erewrite dec_bind_eq; [|apply (take_bytes_app (be_bytes 4 (N.of_nat n)))].
  assert (N.to_nat (be_value (be_bytes 4 (N.of_nat n))) = length (be_bytes n x)) as ->.
  { rewrite be_value_bytes, be_bytes_length by (unfold n; rewrite N2Nat.id; exact Hx). lia. }
  rewrite (dec_bind_eq _ _ _ _ _ (take_bytes_app _ _)). unfold dec_ret.
  rewrite be_value_bytes; [done|]. unfold n. rewrite N2Nat.id.
  pose proof (N.size_gt x) as Hs. eapply N.lt_le_trans; [exact Hs|].
  change 256 with (2 ^ 8). rewrite <-N.pow_mul_r. apply N.pow_le_mono_r; [done|].
  pose proof (N.Div0.div_mod (N.size x + 7) 8). pose proof (N.mod_lt (N.size x + 7) 8 ltac:(done)).
  lia.
Qed.

#[export] Instance mx_laws : CodecLaws.
Proof.
  split; simpl; try solve [done | apply _].
  - apply (fixed_uint_lawful 8).
  - apply fixed_uint_canonical.
  - apply (fixed_uint_lawful 4).
  - apply mx_big_uint_lawful.
  - intros n a Ha. exists a. split; [done|]. intros rest. rewrite <-Ha. apply take_bytes_app.
  - intros n i a rest [-> Hlen]%take_bytes_inv. by exists a.
  - intros n a Ha. by rewrite (proj2 (Nat.eqb_eq _ _)).
Qed.
