(* ===== verification/OldCodecStore.v ===== *)
(** * Stored bytes: the fund storage over bytes

    [FundModule] keeps fund items and list headers as values, with writing a
    default value clearing the entry.  Here the same entries hold bytes written
    and read by the codecs of [OldCodec]; the values read are those of
    [FundModule] after any sequence of writes. *)
From Stdlib Require Import Strings.Byte.
From stdpp Require Import base numbers list gmap strings.
From S2P Require Import Prelude FundTypes FundModule FundLedger FundRep OldCodec OldCodecSpec.

Module Old := OldSerialization.

(** ** The two versions of the types

    The variants that are no longer used have no bytes in the hand-written codec. *)
Definition old_description (d : FundDescription) : option Old.FundDescription :=
  match d with
  | FundDescription.WithdrawOnly => Some Old.WithdrawOnly
  | FundDescription.Waiting created => Some (Old.Waiting created)
  | FundDescription._PendingAct | FundDescription._ActiveFailed => None
  | FundDescription.Active => Some Old.Active
  | FundDescription.UnStaked created => Some (Old.UnStaked created)
  | FundDescription.DeferredPayment created => Some (Old.DeferredPayment created)
  end.

Definition new_description (d : Old.FundDescription) : FundDescription :=
  match d with
  | Old.WithdrawOnly => FundDescription.WithdrawOnly
  | Old.Waiting created => FundDescription.Waiting created
  | Old.Active => FundDescription.Active
  | Old.UnStaked created => FundDescription.UnStaked created
  | Old.DeferredPayment created => FundDescription.DeferredPayment created
  end.

Definition old_item (i : FundItem) : option Old.FundItem :=
  match old_description (fund_desc i) with
  | Some d =>
      Some (Old.mk_FundItem d (user_id i) (balance i) (type_list_next i) (type_list_prev i)
        (user_list_next i) (user_list_prev i))
  | None => None
  end.

Definition new_item (i : Old.FundItem) : FundItem :=
  mk_FundItem (new_description (Old.fund_desc i)) (Old.user_id i) (Old.balance i)
    (Old.type_list_next i) (Old.type_list_prev i) (Old.user_list_next i) (Old.user_list_prev i).

Definition old_list (l : FundsListInfo) : Old.FundsListInfo :=
  Old.mk_FundsListInfo (total_balance l) (first l) (last l).
Definition new_list (l : Old.FundsListInfo) : FundsListInfo :=
  mk_FundsListInfo (Old.total_balance l) (Old.first l) (Old.last l).

Lemma new_old_item i o : old_item i = Some o →
  new_item o = i ∧ Old.FundItem_is_zero_value o = FundItem_is_default i.
Proof. destruct i as [[] u b tn tp un up]; by intros [= <-]. Qed.

Lemma new_old_list l : new_list (old_list l) = l.
Proof. by destruct l. Qed.

Lemma new_list_zero : new_list Old.FundsListInfo_zero_value = FundsListInfo_default.
Proof. done. Qed.

(** ** Entries of bytes: an empty entry is no entry *)
Section Cells.
Context {K : Type} `{Countable K}.
Definition cell (m : gmap K bytes) (k : K) : bytes := default [] (m !! k).
Definition put_cell (m : gmap K bytes) (k : K) (bs : bytes) : gmap K bytes :=
  match bs with [] => delete k m | _ => <[k := bs]> m end.

Lemma cell_put m k k' bs : cell (put_cell m k bs) k' = if decide (k = k') then bs else cell m k'.
Proof.
  unfold cell, put_cell.
  destruct bs; case_decide; simplify_map_eq; done.
Qed.
End Cells.

(** ** The storage *)
Record ByteStore := mk_ByteStore {
  by_fund_by_id : gmap N bytes;
  by_list_by_type : gmap FundType bytes;
  by_list_by_user : gmap (N * FundType) bytes;
}.
Definition empty_ByteStore : ByteStore := mk_ByteStore ∅ ∅ ∅.

(** The writes of [FundModule]. *)
Inductive Write :=
| write_fund (id : N) (i : FundItem)
| write_type_list (t : FundType) (l : FundsListInfo)
| write_user_list (u : N) (t : FundType) (l : FundsListInfo).

Definition run_write (w : Write) (fs : FundStore) : FundStore :=
  match w with
  | write_fund id i => fund_by_id_set id i fs
  | write_type_list t l => fund_list_by_type_set t l fs
  | write_user_list u t l => fund_list_by_user_set u t l fs
  end.
Definition run_writes (ws : list Write) (fs : FundStore) : FundStore :=
  foldl (λ fs w, run_write w fs) fs ws.

(** Values with bytes: integers in their ranges, no unused variant. *)
Definition ok_write (w : Write) : Prop :=
  match w with
  | write_fund _ i => ∃ o, old_item i = Some o ∧ ok_item o
  | write_type_list _ l | write_user_list _ _ l => ok_list (old_list l)
  end.

Section Bytes.
Context `{CodecLaws}.

Definition encode_fund (i : FundItem) : EncodeError + bytes :=
  match old_item i with
  | Some o => top_encode Old.FundItem_top o
  | None => inl "unused variant"%string
  end.
Definition encode_list (l : FundsListInfo) : EncodeError + bytes :=
  top_encode Old.FundsListInfo_top (old_list l).

Definition write_bytes (w : Write) (b : ByteStore) : EncodeError + ByteStore :=
  match w with
  | write_fund id i =>
      Old.map_result (λ bs, mk_ByteStore (put_cell (by_fund_by_id b) id bs)
        (by_list_by_type b) (by_list_by_user b)) (encode_fund i)
  | write_type_list t l =>
      Old.map_result (λ bs, mk_ByteStore (by_fund_by_id b)
        (put_cell (by_list_by_type b) t bs) (by_list_by_user b)) (encode_list l)
  | write_user_list u t l =>
      Old.map_result (λ bs, mk_ByteStore (by_fund_by_id b) (by_list_by_type b)
        (put_cell (by_list_by_user b) (u, t) bs)) (encode_list l)
  end.
Fixpoint write_all_bytes (ws : list Write) (b : ByteStore) : EncodeError + ByteStore :=
  match ws with
  | [] => inr b
  | w :: ws =>
      match write_bytes w b with inl e => inl e | inr b => write_all_bytes ws b end
  end.

Definition read_fund (b : ByteStore) (id : N) : DecodeError + FundItem :=
  Old.map_result new_item (top_decode Old.FundItem_top (cell (by_fund_by_id b) id)).
Definition read_type_list (b : ByteStore) (t : FundType) : DecodeError + FundsListInfo :=
  Old.map_result new_list (top_decode Old.FundsListInfo_top (cell (by_list_by_type b) t)).
Definition read_user_list (b : ByteStore) (u : N) (t : FundType) : DecodeError + FundsListInfo :=
  Old.map_result new_list (top_decode Old.FundsListInfo_top (cell (by_list_by_user b) (u, t))).

(** Both storages read the same. *)
Record same_reads (fs : FundStore) (b : ByteStore) : Prop := {
  sr_fund id : read_fund b id = inr (fund_by_id id fs);
  sr_type t : read_type_list b t = inr (fund_list_by_type t fs);
  sr_user u t : read_user_list b u t = inr (fund_list_by_user u t fs);
}.

Lemma same_reads_empty : same_reads empty_FundStore empty_ByteStore.
Proof. by split. Qed.

Lemma encode_fund_ok i o : old_item i = Some o → ok_item o →
  ∃ bs, encode_fund i = inr bs ∧
    Old.map_result new_item (top_decode Old.FundItem_top bs) =
      inr (if FundItem_is_default i then FundItem_default else i).
Proof.
  intros Ho Hok. destruct (new_old_item i o Ho) as [Hn Hz].
  destruct (fund_item_stored o Hok) as (bs & He & Hd & _). exists bs.
  unfold encode_fund. rewrite Ho, Hd. split; [done|]. simpl. unfold stored_item.
  rewrite Hz. destruct (FundItem_is_default i); [done|by rewrite Hn].
Qed.

Lemma encode_list_ok l : ok_list (old_list l) →
  ∃ bs, encode_list l = inr bs ∧
    Old.map_result new_list (top_decode Old.FundsListInfo_top bs) = inr l.
Proof.
  intros (bs & He & Hd & _)%funds_list_info_stored. exists bs.
  unfold encode_list. by rewrite He, Hd; simpl; rewrite new_old_list.
Qed.

(** What [FundModule] reads after a write. *)
Lemma fund_by_id_after id i id' fs :
  fund_by_id id' (fund_by_id_set id i fs) =
    if decide (id = id') then (if FundItem_is_default i then FundItem_default else i)
    else fund_by_id id' fs.
Proof.
  unfold fund_by_id, fund_by_id_set. simpl.
  destruct (FundItem_is_default i); case_decide; by simplify_map_eq.
Qed.

Lemma write_bytes_ok w fs b : ok_write w → same_reads fs b →
  ∃ b', write_bytes w b = inr b' ∧ same_reads (run_write w fs) b'.
Proof.
  intros Hok [Hf Ht Hu]. destruct w as [id i|t l|u t l]; simpl.
  - destruct Hok as (o & Ho & Hok). destruct (encode_fund_ok i o Ho Hok) as (bs & -> & Hd).
    eexists. split; [done|]. split; [|done..]. intros id'.
    unfold read_fund. simpl. rewrite cell_put, fund_by_id_after.
    case_decide; [exact Hd|apply Hf].
  - destruct (encode_list_ok l Hok) as (bs & -> & Hd).
    eexists. split; [done|]. split; [done| |done]. intros t'.
    unfold read_type_list. simpl. rewrite cell_put, fund_list_by_type_set_get.
    case_decide; [exact Hd|apply Ht].
  - destruct (encode_list_ok l Hok) as (bs & -> & Hd).
    eexists. split; [done|]. split; [done..|]. intros u' t'.
    unfold read_user_list. simpl. rewrite cell_put, fund_list_by_user_set_get.
    case_decide; [exact Hd|apply Hu].
Qed.

Lemma write_all_bytes_ok ws fs b : Forall ok_write ws → same_reads fs b →
  ∃ b', write_all_bytes ws b = inr b' ∧ same_reads (run_writes ws fs) b'.
Proof.
  intros Hok. revert fs b. induction Hok as [|w ws Hw _ IH]; intros fs b Hs; [by exists b|].
  destruct (write_bytes_ok w fs b Hw Hs) as (b1 & Hb & Hs1). simpl. rewrite Hb. by apply IH.
Qed.
End Bytes.
