(* ===== verification/OldCodecTheorems.v ===== *)
(** * Stored bytes: theorems

    What the hand-written codecs of the stored types do, for every framework
    whose codecs of integers, byte arrays and buffers satisfy [CodecLaws]; the
    witnesses are in the format of [OldCodecFormat]. *)
From Stdlib Require Import Strings.Byte.
From stdpp Require Import base numbers list gmap strings.
From S2P Require Import Prelude FundTypes FundModule OldCodec OldCodecSpec OldCodecFormat OldCodecStore.

Import OldSerialization.

(** ** Concrete values *)
Definition item_3 : OldSerialization.FundItem :=
  OldSerialization.mk_FundItem (Waiting 258) 7 1000 0 2 4 0.
Definition key_of (b : byte) : BLSKey := mk_BLSKey (replicate BLS_KEY_BYTE_LENGTH b).

Lemma item_3_ok : ok_item item_3.
Proof. by split. Qed.

Example item_3_bytes :
  top_encode FundItem_top item_3 =
    inr [x01; x00; x00; x00; x00; x00; x00; x01; x02; x00; x00; x00; x07;
         x00; x00; x00; x02; x03; xe8; x00; x00; x00; x00; x00; x00; x00; x02;
         x00; x00; x00; x04; x00; x00; x00; x00].
Proof. vm_compute. reflexivity. Qed.

Section Theorems.
Context `{CodecLaws}.

(** C33: writing a fund item and reading it back gives the item, except that an
    item with no balance and no links comes back as the default item; these are
    exactly the items stored as no bytes.  A list header comes back as it is,
    and the empty one is exactly the one stored as no bytes. *)
Theorem stored_entries_roundtrip i l :
  ok_item i → ok_list l →
  (∃ bs, top_encode FundItem_top i = inr bs ∧
    top_decode FundItem_top bs =
      inr (if FundItem_is_zero_value i then FundItem_zero_value else i) ∧
    (bs = [] ↔ FundItem_is_zero_value i = true)) ∧
  (∃ bs, top_encode FundsListInfo_top l = inr bs ∧
    top_decode FundsListInfo_top bs = inr l ∧ (bs = [] ↔ l = FundsListInfo_zero_value)).
Proof.
  intros Hi Hl. split; [by apply fund_item_stored|].
  destruct (funds_list_info_stored l Hl) as (bs & He & Hd & Hz).
  exists bs. rewrite He, Hd, Hz. split; [done|]. split; [done|]. split; [|by intros ->].
  destruct l. unfold FundsListInfo_is_empty. simpl.
  rewrite !andb_true_iff, !N.eqb_eq. by intros [[-> ->] ->].
Qed.

(** C34: every fund description, fund type and node state, and every key and
    signature of the right length, is read back from the bytes written for it;
    and for descriptions, types and states the bytes are the only ones that are
    read as this value. *)
Theorem stored_enums_roundtrip d t st k g :
  ok_description d → ok_node_state st → ok_key k → ok_signature g →
  (∃ bs, top_encode FundDescription_top d = inr bs ∧
    ∀ i, top_decode FundDescription_top i = inr d ↔ i = bs) ∧
  (∃ bs, top_encode FundType_top t = inr bs ∧
    ∀ i, top_decode FundType_top i = inr t ↔ i = bs) ∧
  (∃ bs, top_encode NodeState_top st = inr bs ∧
    ∀ i, top_decode NodeState_top i = inr st ↔ i = bs) ∧
  (∃ bs, top_encode BLSKey_top k = inr bs ∧ top_decode BLSKey_top bs = inr k) ∧
  (∃ bs, top_encode BLSSignature_top g = inr bs ∧ top_decode BLSSignature_top bs = inr g).
Proof.
  intros Hd Hst Hk Hg.
  split; [by eapply top_nested_exact; [apply _..|]|].
  split; [by eapply (top_nested_exact _ (λ _, True)); [apply _..|]|].
  split; [by eapply top_nested_exact; [apply _..|]|].
  split; [by apply bls_key_stored|by apply bls_signature_stored].
Qed.

(** C35: every other input is refused, with the right error.  The discriminants of
    fund descriptions and types are 0, 1, 4, 5 and 6 (2 and 3 are reserved), those
    of node states 0 to 7: any other first byte is an invalid value; no bytes at
    all are an input too short; where a block number follows, its error is passed
    on; and bytes after the end of a value are an input too long. *)
Theorem other_bytes_refused b rest d t st :
  (b ∉ [x00; x01; x04; x05; x06] →
    top_decode FundDescription_top (b :: rest) = inl INVALID_VALUE ∧
    top_decode FundType_top (b :: rest) = inl INVALID_VALUE) ∧
  (b ∉ [x00; x01; x02; x03; x04; x05; x06; x07] →
    top_decode NodeState_top (b :: rest) = inl INVALID_VALUE) ∧
  (top_decode FundDescription_top [] = inl INPUT_TOO_SHORT ∧
    top_decode FundType_top [] = inl INPUT_TOO_SHORT ∧
    top_decode NodeState_top [] = inl INPUT_TOO_SHORT) ∧
  (∀ e, b ∈ [x01; x05; x06] → dep_decode u64 rest = inl e →
    top_decode FundDescription_top (b :: rest) = inl e) ∧
  (∀ e, b ∈ [x05; x06] → dep_decode u64 rest = inl e →
    top_decode NodeState_top (b :: rest) = inl e) ∧
  (∀ bs, ok_description d → top_encode FundDescription_top d = inr bs →
    top_decode FundDescription_top (bs ++ b :: rest) = inl INPUT_TOO_LONG) ∧
  (∀ bs, top_encode FundType_top t = inr bs →
    top_decode FundType_top (bs ++ b :: rest) = inl INPUT_TOO_LONG) ∧
  (∀ bs, ok_node_state st → top_encode NodeState_top st = inr bs →
    top_decode NodeState_top (bs ++ b :: rest) = inl INPUT_TOO_LONG).
Proof.
  repeat apply conj.
  - intros Hb. split; eapply refused_variant; [done| |done|]; simpl;
      destruct b; first [done|destruct Hb; set_solver].
  - intros Hb. eapply refused_variant; [done|]. destruct b; first [done|destruct Hb; set_solver].
  - by eapply refused_empty.
  - by eapply refused_empty.
  - by eapply refused_empty.
  - intros e Hb He. eapply refused_variant; [done|].
    rewrite !elem_of_cons in Hb. destruct Hb as [->|[->|[->|[]%elem_of_nil]]]; by apply refused_field.
  - intros e Hb He. eapply refused_variant; [done|].
    rewrite !elem_of_cons in Hb. destruct Hb as [->|[->|[]%elem_of_nil]]; by apply refused_field.
  - intros bs Hok Hb. by eapply (top_too_long fund_description ok_description); [apply _|..].
  - intros bs Hb. by eapply (top_too_long fund_type (λ _, True)); [apply _|..].
  - intros bs Hok Hb. by eapply (top_too_long node_state ok_node_state); [apply _|..].
Qed.

(** For all seven stored types, the variants that end the transaction write
    and read what the plain ones do, and end it with exactly their errors. *)
Theorem exit_variants_agree {Ctx E} (c : Ctx) (exit : Ctx → string → E) :
  let agree := λ A (nested : NestedCodec A) (top : TopCodec A), ∀ x bs,
    dep_encode_or_exit nested x c exit bs = map_err (exit c) (dep_encode nested x bs) ∧
    dep_decode_or_exit nested c exit bs = map_err (exit c) (dep_decode nested bs) ∧
    top_encode_or_exit top x c exit = map_err (exit c) (top_encode top x) ∧
    top_decode_or_exit top bs c exit = map_err (exit c) (top_decode top bs) in
  agree _ fund_description FundDescription_top ∧ agree _ fund_type FundType_top ∧
  agree _ fund_item FundItem_top ∧ agree _ funds_list_info FundsListInfo_top ∧
  agree _ node_state NodeState_top ∧ agree _ bls_key BLSKey_top ∧
  agree _ bls_signature BLSSignature_top.
Proof.
  intros agree. unfold agree.
  repeat match goal with |- _ ∧ _ => split | |- ∀ _, _ => intros ? end;
    first [by rewrite exit_encode | by rewrite exit_decode
          |by rewrite top_exit_encode | by rewrite top_exit_decode].
Qed.

(** C32: after any sequence of writes of fund items and list headers with values
    in range, the storage of bytes has been written without error and reads, at
    every entry, what the storage of values of [FundModule] holds there: the
    default for an entry never written or cleared. *)
Theorem byte_store_refines ws :
  Forall ok_write ws →
  ∃ b, write_all_bytes ws empty_ByteStore = inr b ∧
    (∀ id, read_fund b id = inr (fund_by_id id (run_writes ws empty_FundStore))) ∧
    (∀ t, read_type_list b t = inr (fund_list_by_type t (run_writes ws empty_FundStore))) ∧
    (∀ u t, read_user_list b u t = inr (fund_list_by_user u t (run_writes ws empty_FundStore))).
Proof.
  intros Hws.
  destruct (write_all_bytes_ok ws empty_FundStore empty_ByteStore Hws same_reads_empty)
    as (b & Hb & [Hf Ht Hu]). by exists b.
Qed.
End Theorems.

(** ** Witnesses *)
Lemma stored_entries_roundtrip_witness :
  (∃ bs, top_encode FundItem_top item_3 = inr bs ∧
    top_decode FundItem_top bs = inr item_3 ∧
    (bs = [] ↔ FundItem_is_zero_value item_3 = true)) ∧
  (∃ bs, top_encode FundsListInfo_top (OldSerialization.mk_FundsListInfo 9 1 5) = inr bs ∧
    top_decode FundsListInfo_top bs = inr (OldSerialization.mk_FundsListInfo 9 1 5) ∧
    (bs = [] ↔ OldSerialization.mk_FundsListInfo 9 1 5 = FundsListInfo_zero_value)).
Proof. apply (stored_entries_roundtrip item_3); by split. Defined.

Lemma stored_enums_roundtrip_witness :
  (∃ bs, top_encode FundDescription_top (UnStaked 300) = inr bs ∧
    ∀ i, top_decode FundDescription_top i = inr (UnStaked 300) ↔ i = bs) ∧
  (∃ bs, top_encode FundType_top FundType.Active = inr bs ∧
    ∀ i, top_decode FundType_top i = inr FundType.Active ↔ i = bs) ∧
  (∃ bs, top_encode NodeState_top (NodeState.PendingUnBond 7) = inr bs ∧
    ∀ i, top_decode NodeState_top i = inr (NodeState.PendingUnBond 7) ↔ i = bs) ∧
  (∃ bs, top_encode BLSKey_top (key_of x11) = inr bs ∧ top_decode BLSKey_top bs = inr (key_of x11)) ∧
  (∃ bs, top_encode BLSSignature_top (mk_BLSSignature (replicate 48 x22)) = inr bs ∧
    top_decode BLSSignature_top bs = inr (mk_BLSSignature (replicate 48 x22))).
Proof. apply stored_enums_roundtrip; [done|done|reflexivity|reflexivity]. Defined.

Lemma other_bytes_refused_witness :
  top_decode FundDescription_top [x02; x00] = inl INVALID_VALUE ∧
  top_decode NodeState_top [x08; x00] = inl INVALID_VALUE ∧
  top_decode NodeState_top [x05; x00] = inl INPUT_TOO_SHORT ∧
  top_decode FundDescription_top [x04; x08; x00] = inl INPUT_TOO_LONG.
Proof.
  destruct (other_bytes_refused x02 [x00] Active FundType.Active NodeState.Active)
    as (Hd & _). destruct (other_bytes_refused x08 [x00] Active FundType.Active NodeState.Active)
    as (_ & Hs & _ & _ & _ & Hl & _).
  destruct (other_bytes_refused x05 [x00] Active FundType.Active NodeState.Active)
    as (_ & _ & _ & _ & Hn & _).
  split; [apply Hd; by apply (bool_decide_unpack _)|].
  split; [apply Hs; by apply (bool_decide_unpack _)|].
  split; [apply Hn; [by apply (bool_decide_unpack _)|reflexivity]|].
  apply (Hl [x04]); [exact I|reflexivity].
Defined.

Lemma exit_variants_agree_witness :
  top_decode_or_exit NodeState_top [x09] 5 (λ n e, (n, e)) = inl (5, INVALID_VALUE).
Proof.
  destruct (exit_variants_agree 5 (λ n e, (n, e))) as (_ & _ & _ & _ & Hst & _).
  destruct (Hst NodeState.Active [x09]) as (_ & _ & _ & Hd).
  etransitivity; [exact Hd|]. reflexivity.
Defined.

Lemma byte_store_refines_witness :
  let ws := [write_fund 1 (FundTypes.mk_FundItem FundDescription.Active 3 50 0 0 0 0);
             write_fund 2 (FundTypes.mk_FundItem (FundDescription.Waiting 9) 3 70 0 0 0 0);
             write_type_list FundTypes.FundType.Active (FundTypes.mk_FundsListInfo 50 1 1);
             write_user_list 3 FundTypes.FundType.Active (FundTypes.mk_FundsListInfo 50 1 1);
             write_fund 1 (FundTypes.mk_FundItem FundDescription.Active 3 0 0 0 0 0)] in
  ∃ b, write_all_bytes ws empty_ByteStore = inr b ∧
    read_fund b 1 = inr FundItem_default ∧
    read_fund b 2 = inr (FundTypes.mk_FundItem (FundDescription.Waiting 9) 3 70 0 0 0 0).
Proof.
  intros ws. destruct (byte_store_refines ws) as (b & Hb & Hf & _).
  - repeat constructor; try reflexivity; (eexists; split; [reflexivity|by split]).
  - exists b. split; [exact Hb|]. split; apply Hf.
Defined.
