(* ===== verification/Scenarios.v ===== *)
(** * The scenario tests (scenarios and tests of latest_full and latest_update)

    The scenarios of the test suite, step by step, with what they expect, run on
    the world of World.v.  An address and a key stand for their bytes: each name
    of a scenario is a number of its own. *)
From stdpp Require Import base numbers list gmap strings.
From S2P Require Import Prelude FundTypes FundModule UserData NodeConfig Settings Chain State.
From S2P Require Import ResetCheckpoint OldCodec OldCodecFormat OldCodecStore Dispatch World.

(** ** Names *)
Definition node_address : Address := 11.
Definition someone : Address := 12.
Definition endless_sack : Address := 13.
Definition delegator1 : Address := 21.
Definition delegator2 : Address := 22.
Definition delegator3 : Address := 23.
Definition delegator_1 : Address := 31.
Definition bls_key_1 : BLSKey := 101.
Definition bls_key_2 : BLSKey := 102.
Definition bls_key_3 : BLSKey := 103.
Definition bls_key_4 : BLSKey := 104.
Definition bls_key_5 : BLSKey := 105.
Definition bls_key_6 : BLSKey := 106.
Definition bls_key_7 : BLSKey := 107.
Definition bls_key_x : BLSKey := 124.
Definition bls_key_z : BLSKey := 126.
Definition signature_1 : BLSSignature := 201.
Definition signature_2 : BLSSignature := 202.
Definition signature_3 : BLSSignature := 203.
Definition signature_4 : BLSSignature := 204.
Definition signature_5 : BLSSignature := 205.
Definition signature_6 : BLSSignature := 206.
Definition signature_7 : BLSSignature := 207.
Definition nums (l : list N) : list Value := num <$> l.
Definition completed : Value := status OperationCompletionStatus.Completed.
Definition interrupted : Value := status OperationCompletionStatus.InterruptedBeforeOutOfGas.

(** "minimum stake that we never use, just a big number". *)
Definition big_minimum : N := 10 ^ 120.

(** ** Scenarios *)

Definition init_accounts_steps : list Step :=
  [setAccounts [(node_address, 0); (sc_auction, 0); (someone, 0);
     (endless_sack, 1000000000000000000000000000000); (delegator1, 0); (delegator2, 0);
     (delegator3, 0)];
   setStakePerNode 100000000000000;
   checkBalances [(node_address, 0); (sc_auction, 0); (someone, 0);
     (endless_sack, 1000000000000000000000000000000); (delegator1, 0); (delegator2, 0);
     (delegator3, 0)]].

Definition deploy_steps : list Step :=
  [scDeploy node_address sc_auction 5000 0 60 big_minimum 1000000000;
   scCall node_address 100000000 (Call.setMinimumStake 1000000000) (out [])].

Definition add_nodes_steps : list Step :=
  [scCallLogs node_address 100000000 (Call.addNodes [(bls_key_1, signature_1);
     (bls_key_2, signature_2); (bls_key_3, signature_3); (bls_key_4, signature_4);
     (bls_key_5, signature_5); (bls_key_6, signature_6); (bls_key_7, signature_7)]) (out []) [];
   scCallLogs someone 100000000 Call.getAllNodeStates (out (nums [bls_key_1; 0; bls_key_2; 0;
     bls_key_3; 0; bls_key_4; 0; bls_key_5; 0; bls_key_6; 0; bls_key_7; 0])) [];
   scCallLogs node_address 100000000 (Call.removeNodes [bls_key_1; bls_key_4; bls_key_7]) (out
     []) [];
   scCallLogs someone 100000000 Call.getAllNodeStates (out (nums [bls_key_1; 7; bls_key_2; 0;
     bls_key_3; 0; bls_key_4; 7; bls_key_5; 0; bls_key_6; 0; bls_key_7; 7])) [];
   scCallLogs someone 100000000 (Call.getNodeSignature bls_key_3) (out (nums [signature_3])) [];
   scCallLogs someone 100000000 (Call.getNodeSignature bls_key_z) (out []) [];
   scCall node_address 100000000 (Call.removeNodes [bls_key_x; bls_key_2]) (user_error
     "node not registered");
   scCall node_address 100000000 (Call.removeNodes [bls_key_1]) (user_error
     "only inactive nodes can be removed")].

Definition stake_1_steps : list Step :=
  [transfer endless_sack delegator1 100001000000000;
   transfer endless_sack delegator2 200000000000000;
   scCallLogs delegator1 100000000 (Call.stake 100001000000000) (out []) [stake_event delegator1
     100001000000000];
   scCallLogs delegator2 100000000 (Call.stake 200000000000000) (out []) [stake_event delegator2
     200000000000000]].

Definition increase_cap_steps : list Step :=
  [scCall node_address 90000000 (Call.modifyTotalDelegationCap 300000000000000) (out
     [interrupted]);
   scCall node_address 1000000000 Call.continueGlobalOperation (out [completed])].

Definition activate_nodes_steps : list Step :=
  [scCallLogs node_address 120000000 (Call.stakeNodes 300000000000000 [bls_key_2; bls_key_3;
     bls_key_6]) (out []) [stake_node_ok_event];
   scCall someone 120000000 Call.getAllNodeStates (out (nums [bls_key_1; 7; bls_key_2; 3;
     bls_key_3; 3; bls_key_4; 7; bls_key_5; 0; bls_key_6; 3; bls_key_7; 7]));
   scCall someone 100000000 (Call.getUserStakeByType delegator1) (out (nums [0; 0;
     100001000000000; 0; 0]));
   scCall someone 100000000 (Call.getUserStakeByType delegator2) (out (nums [0; 1000000000;
     199999000000000; 0; 0]));
   scCall someone 100000000 Call.getTotalStakeByType (out (nums [0; 1000000000; 300000000000000;
     0; 0]));
   checkBalances [(sc_delegation, 1000000000); (sc_auction, 300000000000000); (delegator1, 0);
     (delegator2, 0)]].

Definition activate_nodes : list Step :=
  init_accounts_steps ++
  deploy_steps ++
  add_nodes_steps ++
  stake_1_steps ++
  increase_cap_steps ++
  activate_nodes_steps ++
  [scCall node_address 100000000 (Call.unStakeNodes [bls_key_6; bls_key_1]) (user_error
     "node not active");
   scCall someone 100000000 Call.getAllNodeStates (out (nums [bls_key_1; 7; bls_key_2; 3;
     bls_key_3; 3; bls_key_4; 7; bls_key_5; 0; bls_key_6; 3; bls_key_7; 7]));
   scCall node_address 100000000 (Call.unStakeNodes [bls_key_6]) (out []);
   scCall someone 100000000 Call.getAllNodeStates (out (nums [bls_key_1; 7; bls_key_2; 3;
     bls_key_3; 3; bls_key_4; 7; bls_key_5; 0; bls_key_6; 5; bls_key_7; 7]));
   scCall node_address 100000000 (Call.unBondNodes [bls_key_2]) (user_error
     "node cannot be unbonded");
   scCall someone 100000000 Call.getAllNodeStates (out (nums [bls_key_1; 7; bls_key_2; 3;
     bls_key_3; 3; bls_key_4; 7; bls_key_5; 0; bls_key_6; 5; bls_key_7; 7]));
   scCall someone 100000000 Call.getAllNodeStates (out (nums [bls_key_1; 7; bls_key_2; 3;
     bls_key_3; 3; bls_key_4; 7; bls_key_5; 0; bls_key_6; 5; bls_key_7; 7]));
   setBlockNonce 61;
   scCallLogs node_address 100000000 (Call.unBondNodes [bls_key_6]) (out [])
     [unbond_node_ok_event];
   scCall someone 100000000 Call.getAllNodeStates (out (nums [bls_key_1; 7; bls_key_2; 3;
     bls_key_3; 3; bls_key_4; 7; bls_key_5; 0; bls_key_6; 0; bls_key_7; 7]));
   checkBalances [(sc_auction, 200000000000000)];
   scCall node_address 100000000 (Call.unStakeNodes [bls_key_2]) (out []);
   setBlockNonce 130;
   scCall node_address 100000000 (Call.unStakeNodes [bls_key_3]) (out []);
   scCall someone 100000000 Call.getAllNodeStates (out (nums [bls_key_1; 7; bls_key_2; 5;
     bls_key_3; 5; bls_key_4; 7; bls_key_5; 0; bls_key_6; 0; bls_key_7; 7]));
   scCall node_address 100000000 Call.unBondAllPossibleNodes (out []);
   scCall someone 100000000 Call.getAllNodeStates (out (nums [bls_key_1; 7; bls_key_2; 0;
     bls_key_3; 0; bls_key_4; 7; bls_key_5; 0; bls_key_6; 0; bls_key_7; 7]));
   checkBalances [(sc_auction, 0)]].

Definition change_service_fee : list Step :=
  init_accounts_steps ++
  deploy_steps ++
  [scCall node_address 100000000 Call.isBootstrapMode (out [flag true]);
   scCall node_address 1000000000 (Call.setServiceFee 1000) (out [completed]);
   scCall node_address 100000000 Call.getServiceFee (out (nums [1000]))] ++
  add_nodes_steps ++
  stake_1_steps ++
  increase_cap_steps ++
  [scCall node_address 100000000 Call.isBootstrapMode (out [flag false]);
   scCall node_address 90000000 (Call.setServiceFee 2000) (out [interrupted]);
   scCall node_address 100000000 Call.getServiceFee (out (nums [1000]));
   scCall node_address 1000000000 Call.continueGlobalOperation (out [completed]);
   scCall node_address 100000000 Call.getServiceFee (out (nums [2000]));
   scCall node_address 90000000 (Call.setServiceFee 2000) (out [completed]);
   scCall node_address 100000000 Call.getServiceFee (out (nums [2000]))].

Definition claim_rewards_1 : list Step :=
  init_accounts_steps ++
  deploy_steps ++
  add_nodes_steps ++
  stake_1_steps ++
  [scCall someone 100000000 Call.getFullWaitingList (out (nums [delegator1; 100000000000000; 0;
     delegator2; 200000000000000; 0]))] ++
  increase_cap_steps ++
  [validatorReward 100000000;
   scCall someone 100000000 Call.getTotalCumulatedRewards (out (nums [100000000]));
   scCall someone 100000000 (Call.getClaimableRewards node_address) (out (nums [50000000]));
   scCall someone 100000000 (Call.getClaimableRewards delegator1) (out (nums [16666833]));
   scCall someone 100000000 (Call.getClaimableRewards delegator2) (out (nums [33333166]));
   scCall delegator1 100000000 Call.claimRewards (out []);
   checkBalances [(sc_delegation, 300001083333167); (delegator1, 16666833); (delegator2, 0)]].

Definition claim_rewards_owner_with_stake : list Step :=
  init_accounts_steps ++
  deploy_steps ++
  add_nodes_steps ++
  stake_1_steps ++
  increase_cap_steps ++
  [scCall delegator1 100000000 (Call.unStake 1000000000) (out []);
   transfer endless_sack node_address 100000000000000;
   scCallLogs node_address 100000000 (Call.stake 100000000000000) (out []) [stake_event
     node_address 100000000000000];
   validatorReward 100000000;
   scCall delegator2 100000000 (Call.unStake 100000000000000) (out []);
   validatorReward 100000000;
   scCall someone 100000000 Call.getTotalCumulatedRewards (out (nums [200000000]));
   scCall someone 100000000 (Call.getClaimableRewards node_address) (out (nums [116666666]));
   scCall someone 100000000 (Call.getClaimableRewards delegator1) (out (nums [33333333]));
   scCall someone 100000000 (Call.getClaimableRewards delegator2) (out (nums [49999999]));
   scCall delegator1 100000000 Call.claimRewards (out []);
   scCall delegator2 100000000 Call.claimRewards (out []);
   scCall node_address 100000000 Call.claimRewards (out []);
   checkBalances [(sc_delegation, 400001000000002); (delegator1, 33333333);
     (delegator2, 49999999); (node_address, 116666666)]].

Definition claim_rewards_with_changed_service_fee : list Step :=
  init_accounts_steps ++
  deploy_steps ++
  add_nodes_steps ++
  stake_1_steps ++
  increase_cap_steps ++
  [scCall delegator1 100000000 (Call.unStake 1000000000) (out []);
   validatorReward 100000000;
   scCall node_address 90000000 (Call.setServiceFee 2000) (out [interrupted]);
   scCall node_address 100000000 Call.claimRewards (user_error
     "claim rewards is temporarily paused as checkpoint is reset");
   scCall node_address 1000000000 Call.continueGlobalOperation (out [completed]);
   validatorReward 100000000;
   scCall someone 100000000 Call.getTotalCumulatedRewards (out (nums [200000000]));
   scCall someone 100000000 (Call.getClaimableRewards node_address) (out (nums [70000001]));
   scCall someone 100000000 (Call.getClaimableRewards delegator1) (out (nums [43333332]));
   scCall someone 100000000 (Call.getClaimableRewards delegator2) (out (nums [86666666]));
   scCall delegator1 100000000 Call.claimRewards (out []);
   scCall delegator2 100000000 Call.claimRewards (out []);
   scCall node_address 100000000 Call.claimRewards (out []);
   checkBalances [(sc_delegation, 300001000000001); (delegator1, 43333332);
     (delegator2, 86666666); (node_address, 70000001)]].

Definition claim_rewards_with_modify_delegation_cap : list Step :=
  init_accounts_steps ++
  deploy_steps ++
  add_nodes_steps ++
  stake_1_steps ++
  increase_cap_steps ++
  [scCall delegator1 100000000 (Call.unStake 1000000000) (out []);
   validatorReward 100000000;
   scCall node_address 1000000000 (Call.modifyTotalDelegationCap 200000000000000) (out
     [completed]);
   validatorReward 100000000;
   scCall someone 100000000 Call.getTotalCumulatedRewards (out (nums [200000000]));
   scCall someone 100000000 (Call.getClaimableRewards node_address) (out (nums [100000001]));
   scCall someone 100000000 (Call.getClaimableRewards delegator1) (out (nums [41666666]));
   scCall someone 100000000 (Call.getClaimableRewards delegator2) (out (nums [58333333]));
   scCall delegator1 100000000 Call.claimRewards (out []);
   scCall delegator2 100000000 Call.claimRewards (out []);
   scCall node_address 100000000 Call.claimRewards (out []);
   checkBalances [(sc_delegation, 300001000000000); (delegator1, 41666666);
     (delegator2, 58333333); (node_address, 100000001)];
   scCall someone 100000000 (Call.getUserStakeByType delegator2) (out (nums [0; 0;
     100000000000000; 0; 100000000000000]))].

Definition claim_rewards_with_stake_modifications : list Step :=
  init_accounts_steps ++
  deploy_steps ++
  add_nodes_steps ++
  stake_1_steps ++
  increase_cap_steps ++
  [validatorReward 100000000;
   scCall delegator1 100000000 (Call.unStake 1000000000) (out []);
   validatorReward 100000000;
   scCall someone 100000000 Call.getTotalCumulatedRewards (out (nums [200000000]));
   scCall someone 100000000 (Call.getClaimableRewards node_address) (out (nums [100000000]));
   scCall someone 100000000 (Call.getClaimableRewards delegator1) (out (nums [33333499]));
   scCall someone 100000000 (Call.getClaimableRewards delegator2) (out (nums [66666499]));
   scCall delegator1 100000000 Call.claimRewards (out []);
   scCall delegator2 100000000 Call.claimRewards (out []);
   scCall node_address 100000000 Call.claimRewards (out []);
   checkBalances [(sc_delegation, 300001000000002); (delegator1, 33333499);
     (delegator2, 66666499); (node_address, 100000000)]].

Definition node_operations_paused_steps : list Step :=
  [scCall node_address 100000000 (Call.stakeNodes 300000000000000 [bls_key_2; bls_key_3;
     bls_key_6]) (user_error "node operations are temporarily paused as checkpoint is reset");
   scCall node_address 100000000 (Call.unStakeNodes [bls_key_2]) (user_error
     "node operations are temporarily paused as checkpoint is reset");
   scCall node_address 100000000 (Call.unBondNodes [bls_key_2]) (user_error
     "node operations are temporarily paused as checkpoint is reset");
   scCall node_address 100000000 Call.unBondAllPossibleNodes (user_error
     "node operations are temporarily paused as checkpoint is reset")].

Definition continue_global_operations : list Step :=
  init_accounts_steps ++
  deploy_steps ++
  add_nodes_steps ++
  stake_1_steps ++
  increase_cap_steps ++
  [scCallLogs node_address 100000000 Call.isBootstrapMode (out [flag false]) [];
   scCallLogs node_address 1000000000 Call.continueGlobalOperation (out [completed]) [];
   scCallLogs node_address 100000000 Call.getServiceFee (out (nums [5000])) [];
   scCallLogs node_address 100000000 Call.getTotalDelegationCap (out (nums [300000000000000]))
     [];
   scCallLogs node_address 90000000 (Call.setServiceFee 2000) (out [interrupted]) [];
   scCall node_address 100000000 (Call.modifyTotalDelegationCap 200000000000000) (user_error
     "cannot modify total delegation cap when last is in progress");
   scCall node_address 100000000 (Call.setServiceFee 1000) (user_error
     "global checkpoint is in progress");
   scCallLogs node_address 90000000 Call.continueGlobalOperation (out [interrupted]) []] ++
  node_operations_paused_steps ++
  [scCallLogs node_address 100000000 Call.getServiceFee (out (nums [5000])) [];
   scCallLogs node_address 1000000000 Call.continueGlobalOperation (out [completed]) [];
   scCallLogs node_address 100000000 Call.getServiceFee (out (nums [2000])) [];
   scCallLogs node_address 100000000 Call.getTotalDelegationCap (out (nums [300000000000000]))
     [];
   scCallLogs node_address 1000000000 (Call.modifyTotalDelegationCap 200000000000000) (out
     [completed]) [];
   scCallLogs node_address 100000000 Call.getTotalDelegationCap (out (nums [200000000000000]))
     []].

Definition decrease_cap_in_bootstrap_mode : list Step :=
  init_accounts_steps ++
  [scDeploy node_address sc_auction 5000 0 60 1000000000 200000000000;
   transfer endless_sack delegator1 150000000000;
   scCallLogs delegator1 100000000 (Call.stake 150000000000) (out []) [stake_event delegator1
     150000000000];
   scCall someone 100000000 Call.getTotalStakeByType (out (nums [0; 0; 150000000000; 0; 0]));
   scCall node_address 1000000000000 (Call.modifyTotalDelegationCap 130000000000) (out
     [completed]);
   scCall someone 100000000 Call.getTotalStakeByType (out (nums [0; 0; 130000000000; 0;
     20000000000]))].

Definition increase_delegation_cap : list Step :=
  init_accounts_steps ++
  deploy_steps ++
  add_nodes_steps ++
  stake_1_steps ++
  increase_cap_steps ++
  [scCall node_address 100000000 Call.getTotalDelegationCap (out (nums [300000000000000]));
   scCall someone 100000000 (Call.getUserStakeByType delegator1) (out (nums [0; 0;
     100001000000000; 0; 0]));
   scCall someone 100000000 (Call.getUserStakeByType delegator2) (out (nums [0; 1000000000;
     199999000000000; 0; 0]));
   scCall someone 100000000 Call.getTotalStakeByType (out (nums [0; 1000000000; 300000000000000;
     0; 0]))].

Definition rewards_for_unStaked_go_to_the_owner : list Step :=
  init_accounts_steps ++
  deploy_steps ++
  add_nodes_steps ++
  stake_1_steps ++
  increase_cap_steps ++
  [scCall delegator1 100000000 (Call.unStake 1000000000) (out []);
   validatorReward 100000000;
   scCall delegator2 100000000 (Call.unStake 100000000000000) (out []);
   scCall someone 100000000 Call.getTotalStakeByType (out (nums [0; 0; 200000000000000;
     100000000000000; 1000000000]));
   scCall someone 100000000 (Call.getClaimableRewards node_address) (out (nums [50000000]));
   scCall someone 100000000 (Call.getClaimableRewards delegator1) (out (nums [16666666]));
   scCall someone 100000000 (Call.getClaimableRewards delegator2) (out (nums [33333333]));
   validatorReward 100000000;
   scCall someone 100000000 (Call.getClaimableRewards node_address) (out (nums [116666666]));
   scCall someone 100000000 (Call.getClaimableRewards delegator1) (out (nums [33333333]));
   scCall someone 100000000 (Call.getClaimableRewards delegator2) (out (nums [49999999]))].

Definition set_num_blocks_before_unbond : list Step :=
  init_accounts_steps ++
  deploy_steps ++
  [scCall node_address 100000000 Call.getNumBlocksBeforeUnBond (out (nums [60]));
   scCall node_address 100000000 (Call.setNumBlocksBeforeUnBond 15) (out []);
   scCall node_address 100000000 Call.getNumBlocksBeforeUnBond (out (nums [15]))].

Definition staking_1 : list Step :=
  init_accounts_steps ++
  deploy_steps ++
  [scCall node_address 100000000 Call.getAuctionContractAddress (out (nums [sc_auction]));
   scCall node_address 100000000 Call.getNumBlocksBeforeUnBond (out (nums [60]));
   scCall node_address 100000000 Call.getServiceFee (out (nums [5000]))] ++
  add_nodes_steps ++
  stake_1_steps ++
  [scCall someone 100000000 Call.totalStake (out (nums [300001000000000]));
   scQuery Call.getAllUserStakeByType (nums [node_address; 0; 0; 0; 0; 0; delegator1; 0;
     100000000000000; 1000000000; 0; 0; delegator2; 0; 200000000000000; 0; 0; 0]);
   scQuery Call.getTotalStakeByType (nums [0; 300000000000000; 1000000000; 0; 0])].

Definition unstake_steps : list Step :=
  [scCall delegator1 100000000 (Call.unStake 50001000000000) (out []);
   scCall someone 100000000 (Call.getUserStakeByType delegator1) (out (nums [0; 0;
     50000000000000; 50000000000000; 1000000000]));
   scCall someone 100000000 (Call.getUserDeferredPaymentList delegator1) (out (nums [1000000000;
     0]));
   scCall someone 100000000 (Call.getUserStakeByType delegator2) (out (nums [0; 0;
     200000000000000; 0; 0]));
   scCall someone 100000000 Call.getTotalStakeByType (out (nums [0; 0; 250000000000000;
     50000000000000; 1000000000]))].

Definition stake_2_steps : list Step :=
  [transfer endless_sack delegator3 200000000000000;
   scCallLogs delegator3 100000000 (Call.stake 200000000000000) (out []) [stake_event delegator3
     200000000000000];
   scCall someone 100000000 Call.getTotalStakeByType (out (nums [0; 150000000000000;
     300000000000000; 0; 50001000000000]));
   scCall someone 100000000 (Call.getUserStakeByType delegator3) (out (nums [0; 150000000000000;
     50000000000000; 0; 0]));
   scCall someone 100000000 Call.totalStake (out (nums [500001000000000]))].

Definition staking_2 : list Step :=
  init_accounts_steps ++
  deploy_steps ++
  add_nodes_steps ++
  stake_1_steps ++
  increase_cap_steps ++
  unstake_steps ++
  stake_2_steps.

Definition add_funds_to_all_buckets_steps : list Step :=
  [scCall delegator2 100000000 (Call.unStake 6000000000) (out []);
   transfer endless_sack delegator2 3000000000;
   scCall delegator2 100000000 (Call.stake 3000000000) (out [])].

Definition total_funds_getters : list Step :=
  init_accounts_steps ++
  deploy_steps ++
  add_nodes_steps ++
  stake_1_steps ++
  increase_cap_steps ++
  add_funds_to_all_buckets_steps ++
  [transfer endless_sack delegator1 5000000000;
   scCall delegator1 100000000 (Call.stake 5000000000) (out []);
   scCall delegator1 100000000 Call.totalStake (out (nums [300009000000000]));
   scCall delegator2 100000000 Call.getTotalWithdrawOnlyStake (out (nums [1000000000]));
   scCall delegator2 100000000 Call.getTotalWaitingStake (out (nums [3000000000]));
   scCall delegator2 100000000 Call.getTotalActiveStake (out (nums [300000000000000]));
   scCall delegator2 100000000 Call.getTotalUnstakedStake (out (nums [0]));
   scCall delegator2 100000000 Call.getTotalDeferredPaymentStake (out (nums [5000000000]));
   setBlockNonce 61;
   scCall delegator2 100000000 (Call.getUnBondable delegator2) (out (nums [6000000000]));
   scCall delegator2 100000000 (Call.getUnStakeable delegator2) (out (nums [199997000000000]))].

Definition unbond : list Step :=
  init_accounts_steps ++
  deploy_steps ++
  add_nodes_steps ++
  stake_1_steps ++
  increase_cap_steps ++
  unstake_steps ++
  [scCall delegator1 500000000 Call.unBond (out (nums [0]));
   scCall someone 100000000 (Call.getUserStakeByType delegator1) (out (nums [0; 0;
     50000000000000; 50000000000000; 1000000000]));
   checkBalances [(delegator1, 0)];
   setBlockNonce 61;
   scCall delegator1 100000000 Call.unBond (out (nums [1000000000]));
   scCall someone 100000000 (Call.getUserStakeByType delegator1) (out (nums [0; 0;
     50000000000000; 50000000000000; 0]));
   checkBalances [(delegator1, 1000000000)]].

Definition unbond_from_waiting : list Step :=
  init_accounts_steps ++
  deploy_steps ++
  add_nodes_steps ++
  stake_1_steps ++
  increase_cap_steps ++
  [scCall delegator2 1000000000 (Call.unStake 1000000000) (out []);
   scCall someone 100000000 Call.getTotalStakeByType (out (nums [1000000000; 0; 300000000000000;
     0; 0]));
   scCall delegator2 1000000000 Call.unBond (out (nums [1000000000]));
   scCall someone 100000000 (Call.getUserStakeByType delegator2) (out (nums [0; 0;
     199999000000000; 0; 0]));
   checkBalances [(delegator2, 1000000000)]].

Definition unjail : list Step :=
  init_accounts_steps ++
  deploy_steps ++
  add_nodes_steps ++
  stake_1_steps ++
  increase_cap_steps ++
  activate_nodes_steps ++
  [checkBalances [(sc_auction, 300000000000000)];
   transfer endless_sack node_address 1000000000;
   scCall node_address 100000000 (Call.unJailNodes [bls_key_1; bls_key_3] 1000000000)
     (user_error "node must be active");
   scCall node_address 100000000 (Call.unJailNodes [bls_key_x; bls_key_3] 1000000000)
     (user_error "unknown node provided");
   scCallLogs node_address 100000000 (Call.unJailNodes [bls_key_2; bls_key_3] 1000000000) (out
     []) [];
   checkBalances [(sc_auction, 300001000000000)]].

Definition unstake_1 : list Step :=
  init_accounts_steps ++
  deploy_steps ++
  add_nodes_steps ++
  stake_1_steps ++
  increase_cap_steps ++
  [scCall delegator1 100000000 (Call.unStake 1000000000) (out []);
   scCall someone 100000000 (Call.getUserStakeByType delegator1) (out (nums [0; 0;
     100000000000000; 0; 1000000000]));
   scCall someone 100000000 (Call.getUserStakeByType delegator2) (out (nums [0; 0;
     200000000000000; 0; 0]));
   scCall someone 100000000 Call.getTotalStakeByType (out (nums [0; 0; 300000000000000; 0;
     1000000000]))].

Definition unstake_2 : list Step :=
  init_accounts_steps ++
  deploy_steps ++
  add_nodes_steps ++
  stake_1_steps ++
  increase_cap_steps ++
  unstake_steps ++
  [transfer endless_sack delegator3 200000000000000;
   scCallLogs delegator3 100000000 (Call.stake 200000000000000) (out []) [stake_event delegator3
     200000000000000];
   setBlockNonce 100;
   scCall delegator2 100000000 (Call.unStake 50000000000000) (out []);
   scCall someone 100000000 (Call.getUserStakeByType delegator1) (out (nums [0; 0;
     50000000000000; 0; 50001000000000]));
   scCall someone 100000000 (Call.getUserStakeByType delegator2) (out (nums [0; 0;
     150000000000000; 0; 50000000000000]));
   scCall someone 100000000 (Call.getUserDeferredPaymentList delegator2) (out (nums
     [50000000000000; 100]));
   scCall someone 100000000 (Call.getUserStakeByType delegator3) (out (nums [0; 100000000000000;
     100000000000000; 0; 0]));
   scCall delegator3 100000000 (Call.unStake 150000000000000) (out []);
   scCall someone 100000000 (Call.getUserStakeByType delegator3) (out (nums [100000000000000; 0;
     50000000000000; 50000000000000; 0]))].

Definition unstake_3 : list Step :=
  init_accounts_steps ++
  deploy_steps ++
  add_nodes_steps ++
  stake_1_steps ++
  increase_cap_steps ++
  [scCall delegator1 100000000 (Call.unStake 200001000000000) (user_error
     "cannot unstake more than the user waiting + active stake");
   scCallLogs someone 100000000 (Call.getUserStakeByType delegator1) (out (nums [0; 0;
     100001000000000; 0; 0])) [];
   scCallLogs someone 100000000 (Call.getUserStakeByType delegator2) (out (nums [0; 1000000000;
     199999000000000; 0; 0])) [];
   scCallLogs someone 100000000 Call.getTotalStakeByType (out (nums [0; 1000000000;
     300000000000000; 0; 0])) []].

Definition unstake_4 : list Step :=
  init_accounts_steps ++
  deploy_steps ++
  add_nodes_steps ++
  stake_1_steps ++
  increase_cap_steps ++
  [scCall delegator2 100000000 (Call.unStake 200000000000000) (out []);
   scQuery (Call.getUserStakeByType delegator1) (nums [0; 0; 100001000000000; 0; 0]);
   scQuery (Call.getUserStakeByType delegator2) (nums [1000000000; 0; 0; 199999000000000; 0]);
   scQuery Call.getTotalStakeByType (nums [1000000000; 0; 100001000000000; 199999000000000; 0]);
   scCall delegator2 50000000 Call.unBond (out (nums [0]));
   scQuery (Call.getUserStakeByType delegator2) (nums [1000000000; 0; 0; 199999000000000; 0]);
   scCall delegator2 100000000 Call.unBond (out (nums [1000000000]));
   scCall someone 100000000 (Call.getUserStakeByType delegator2) (out (nums [0; 0; 0;
     199999000000000; 0]));
   checkBalances [(delegator2, 1000000000)];
   transfer endless_sack node_address 199999000000000;
   scCallLogs node_address 100000000 (Call.stake 199999000000000) (out []) [stake_event
     node_address 199999000000000];
   setBlockNonce 61;
   scCall delegator2 100000000 Call.unBond (out (nums [199999000000000]));
   scCall someone 100000000 (Call.getUserStakeByType delegator2) (out (nums [0; 0; 0; 0; 0]));
   checkBalances [(delegator2, 200000000000000)]].

Definition unstake_5_backwards : list Step :=
  init_accounts_steps ++
  deploy_steps ++
  add_nodes_steps ++
  stake_1_steps ++
  increase_cap_steps ++
  unstake_steps ++
  [transfer endless_sack delegator3 500000000000000;
   setBlockNonce 501;
   scCallLogs delegator3 100000000 (Call.stake 200000000000000) (out []) [stake_event delegator3
     200000000000000];
   setBlockNonce 502;
   scCallLogs delegator3 100000000 (Call.stake 300000000000000) (out []) [stake_event delegator3
     300000000000000];
   scCall node_address 100000000 Call.getFullWaitingList (out (nums [delegator3;
     150000000000000; 501; delegator3; 300000000000000; 502]));
   scCall delegator3 100000000 (Call.unStake 10000000000000) (out []);
   scCall node_address 100000000 Call.getFullWaitingList (out (nums [delegator3;
     150000000000000; 501; delegator3; 290000000000000; 502]))].

Definition unstake_tokens : list Step :=
  [setAccounts [(node_address, 0); (sc_auction, 1000); (sc_delegation, 0)];
   setAuctionAddress sc_auction;
   scCallLogs node_address 100000000 (Call.unStakeTokens 1000) (out []) [unstake_tokens_event
     1000];
   checkBalances [(sc_auction, 1000); (sc_delegation, 0)];
   scCallLogs node_address 100000000 (Call.unBondTokens 1000) (out []) [unbond_tokens_event
     1000];
   checkBalances [(sc_auction, 0); (sc_delegation, 1000)]].

Definition user_fund_getters : list Step :=
  init_accounts_steps ++
  deploy_steps ++
  add_nodes_steps ++
  stake_1_steps ++
  increase_cap_steps ++
  add_funds_to_all_buckets_steps ++
  [scCall delegator2 100000000 (Call.getUserStake delegator2) (out (nums [200003000000000]));
   scCall delegator2 100000000 (Call.getUserWithdrawOnlyStake delegator2) (out (nums
     [1000000000]));
   scCall delegator2 100000000 (Call.getUserWaitingStake delegator2) (out (nums [0]));
   scCall delegator2 100000000 (Call.getUserActiveStake delegator2) (out (nums
     [199997000000000]));
   scCall delegator2 100000000 (Call.getUserUnstakedStake delegator2) (out (nums [2000000000]));
   scCall delegator2 100000000 (Call.getUserDeferredPaymentStake delegator2) (out (nums
     [3000000000]))].

Definition version : list Step :=
  [setAccounts [(sc_delegation, 0)];
   scQuery Call.version [text "0.5.8"]].

(** *** The scenarios of latest_update

    A contract of the genesis, with its fund storage as bytes: users have ids but
    no addresses. *)
Definition field (width_value : nat * N) : bytes := be_bytes (fst width_value) (snd width_value).
Definition stored (fields : list (nat * N)) : bytes := concat (field <$> fields).
Definition word (v : N) : nat * N := (4%nat, v).

Definition genesis_fund (user len amount next prev : N) : bytes :=
  stored [(1%nat, 4); word user; word len; (N.to_nat len, amount); word next; word prev;
    word 0; word 0].
Definition genesis_list (len amount first last : N) : bytes :=
  stored [word len; (N.to_nat len, amount); word first; word last].

Definition genesis_bytes : ByteStore :=
  mk_ByteStore
    {[7 := genesis_fund 2 7 0x0110d9316ec000 8 0;
      8 := genesis_fund 3 6 0x1e0369471000 9 7;
      9 := genesis_fund 4 6 0x64f43391f000 0 8]}
    {[FundType.Active := genesis_list 7 0x0193d0ce47c000 7 9]}
    {[(2, FundType.Active) := genesis_list 7 0x0110d9316ec000 7 7;
      (3, FundType.Active) := genesis_list 6 0x1e0369471000 8 8;
      (4, FundType.Active) := genesis_list 6 0x64f43391f000 9 9]}.

Definition decoded {A} (d : A) (r : DecodeError + A) : A :=
  match r with inr a => a | inl _ => d end.
Definition genesis_funds : FundStore :=
  mk_FundStore
    (map_imap (λ id _, Some (decoded FundItem_default (read_fund genesis_bytes id)))
      (by_fund_by_id genesis_bytes))
    9
    (map_imap (λ t _, Some (decoded FundsListInfo_default (read_type_list genesis_bytes t)))
      (by_list_by_type genesis_bytes))
    (map_imap (λ ut _, Some (decoded FundsListInfo_default (read_user_list genesis_bytes ut.1 ut.2)))
      (by_list_by_user genesis_bytes)).

Definition genesis_keys : list BLSKey :=
  [bls_key_1; bls_key_2; bls_key_3; bls_key_4; bls_key_5; bls_key_6; bls_key_7].
Definition genesis_nodes : NodeStore :=
  mk_NodeStore 7
    (list_to_map (zip genesis_keys (ids_up_to 7)))
    (list_to_map (zip (ids_up_to 7) genesis_keys))
    (list_to_map (zip (ids_up_to 7) [signature_1; signature_2; signature_3; signature_4;
      signature_5; signature_6; signature_7]))
    (list_to_map (zip (ids_up_to 7) [NodeState.Removed; NodeState.Active; NodeState.Active;
      NodeState.Removed; NodeState.Active; NodeState.Active; NodeState.Removed])).

(** The users of the genesis, at other addresses than those of the accounts. *)
Definition genesis_users : UserStore :=
  mk_UserStore {[1011 := 1; 1031 := 2; 1032 := 3; 1033 := 4]} ∅ 4.
Definition genesis_settings : SettingsStore :=
  mk_SettingsStore sc_auction 5000 444000000000000 false 0 60 0.
Definition genesis_rewards : RewardStore :=
  mk_RewardStore ∅ {[2 := 888000000]} 300000000.
Definition genesis_contract : State SimpleChain :=
  mk_State genesis_funds genesis_users genesis_nodes genesis_settings genesis_rewards
    GlobalOpCheckpoint.None 0 (mk_SimpleChain 0 0 0 0 0 [] [] [] []).

Definition genesis_addr_fix : list Step :=
  [setAccounts [(node_address, 0); (delegator_1, 7777000000); (sc_delegation, 0)];
   setContract genesis_contract;
   setRewards 888000000;
   scCallLogs delegator_1 100000000 (Call.stake 7777000000) (out [])
     [stake_event delegator_1 7777000000];
   scCallLogs node_address 100000000 Call.getFullWaitingList
     (out (nums [delegator_1; 7777000000; 0])) []].

Definition version_update : list Step :=
  [setAccounts [(sc_delegation, 0)];
   setContract (initial_State (mk_SimpleChain 0 0 0 0 0 [] [] [] []));
   scQuery Call.version [text "0.5.8"]].

(** ** Tests *)

(** latest_full/tests/v0_5_full_scenario_rs_test.rs: run as Rust code in the debugger. *)
Definition rs_scenarios : list (list Step) :=
  [activate_nodes; change_service_fee; claim_rewards_1; claim_rewards_owner_with_stake;
   claim_rewards_with_changed_service_fee; claim_rewards_with_modify_delegation_cap;
   claim_rewards_with_stake_modifications; continue_global_operations;
   decrease_cap_in_bootstrap_mode; increase_delegation_cap;
   rewards_for_unStaked_go_to_the_owner; set_num_blocks_before_unbond; staking_1; staking_2;
   total_funds_getters; unbond; unbond_from_waiting; unjail; unstake_1; unstake_2; unstake_3;
   unstake_5_backwards; user_fund_getters; version].

(** latest_full/tests/v0_5_full_scenario_go_test.rs: run on the virtual machine. *)
Definition go_scenarios : list (list Step) :=
  [activate_nodes; change_service_fee; claim_rewards_1; claim_rewards_owner_with_stake;
   claim_rewards_with_changed_service_fee; claim_rewards_with_modify_delegation_cap;
   claim_rewards_with_stake_modifications; continue_global_operations;
   decrease_cap_in_bootstrap_mode; increase_delegation_cap;
   rewards_for_unStaked_go_to_the_owner; set_num_blocks_before_unbond; staking_1; staking_2;
   total_funds_getters; unbond; unbond_from_waiting; unjail; unstake_1; unstake_2; unstake_3;
   unstake_4; unstake_5_backwards; user_fund_getters; version].

(** latest_update/tests: the same in both. *)
Definition update_scenarios : list (list Step) :=
  [genesis_addr_fix; version_update].
