(* ===== verification/ScenarioTheorems.v ===== *)
(** * The theorems about scenarios

    The scenarios of the test suite pass on the model; a transaction of a
    scenario, with its call to the auction and its callback, is a run of the
    asynchronous system; and in any run of the world its books balance. *)
From stdpp Require Import base numbers list gmap strings relations.
From S2P Require Import Prelude FundTypes FundModule UserData NodeConfig Settings Chain State.
From S2P Require Import FundTransf FundView Rewards UserStake ResetCheckpoint NodeActivation Contract.
From S2P Require Import RewardSpec ContractInv GlobalOpStart ContractSystem NodeSpec NodeCalls NodeProtocol Dispatch System.
From S2P Require Import AuctionMock World WorldSpec Books WorldBooks Scenarios Examples.

(** Every scenario of the test suites passes on the model, each step with the
    outputs, the errors, the logs and the balances it expects: those that the
    tests run as Rust code with a gas that no reading takes anything of, those
    that they run on the virtual machine with one that does.  The scenario that
    is left out of the former, unstake_4, needs the gas to run down. *)
Theorem scenarios_pass :
  forallb (scenario_passes 0) (rs_scenarios ++ update_scenarios) = true ∧
  forallb (scenario_passes 1000) (go_scenarios ++ update_scenarios) = true ∧
  scenario_passes 0 unstake_tokens = true ∧ scenario_passes 0 unstake_4 = false.
Proof. split_and!; vm_compute; reflexivity. Qed.

(** C18: a transaction that answers its call to the auction mock and runs the
    callback at once is a run of the asynchronous system: from a state that the
    system reaches with no answer to come it leads to such a state, so that
    whatever holds on all of those holds after every transaction, and no node is
    left waiting for an answer. *)
Theorem transactions_are_runs from gas call w values w' events :
  let c := chain_for from gas sc_delegation (payment_of call) w in
  let s := set_chain c (w_contract w) in
  reached (w_contract w) [] → later_chain c (w_contract w) →
  call_fits call s → proper call s → run_call from gas call w = (out values, w', events) →
  reached (w_contract w') [] ∧ caught_up w' ∧ ∀ i, ¬ is_pending (state_of i (w_contract w')).
Proof.
  intros c s Hr Hlater Hfits Hproper Hrun.
  destruct (run_call_reached from gas call w values w' events Hr Hlater Hfits Hproper Hrun)
    as (Hr' & Hup & _).
  split_and!; [done|done|]. intros i Hi.
  destruct (if_pending _ (so_nodes _ (reached_ok _ _ Hr')) i Hi) as (cb & Hcb & _).
  by apply not_elem_of_nil in Hcb.
Qed.

(** C4: a transaction makes no money and loses none: what the contract and the
    auction hold together changes by the payment that comes in and by what is paid
    out, and the latter is exactly what the total stake gives up or what is
    recorded as sent rewards; a payment that is staked adds as much to the total
    stake. *)
Theorem transactions_balance from gas call w values w' events :
  let c := chain_for from gas sc_delegation (payment_of call) w in
  let s := set_chain c (w_contract w) in
  account from → reached (w_contract w) [] → later_chain c (w_contract w) →
  call_fits call s → proper call s → run_call from gas call w = (out values, w', events) →
  held w' + sent (w_contract w') + total_stake (w_contract w) + staked_with call =
  held w + sent (w_contract w) + total_stake (w_contract w') + payment_of call.
Proof.
  intros c s Hfrom Hr Hl Hfits Hproper. apply run_call_books; try done.
  by apply reached_ok, reached_chain.
Qed.

(** C3: take a deployed contract and any run of transactions of accounts, transfers,
    blocks, upgrades and rewards that arrive after the bootstrap mode, as long as the 32-bit ids last ([call_fits]) and
    the owner does none of what the contract should refuse and does not ([proper];
    Findings.v shows what each breaks): end the bootstrap mode with a cap equal to
    all that is there, resume a dust cleanup at a fund of the other list or at a
    deleted one, or force a node that awaits an answer.
    (the second of these ends insolvent, see [interrupted_cleanups_end_insolvent].)
    Then the contract and the auction together hold what the delegators own and
    all rewards not yet sent; between global operations the views of the total
    stake and of all unclaimed rewards succeed, and their sum is covered. *)
Theorem claims_always_covered w w' a :
  deployed_in w → rtc world_step w w' →
  let s := seen_by a w' in
  reached s [] ∧ total_stake s + w_rewards w' ≤ held w' + sent s ∧
  (st_global_op_checkpoint s = GlobalOpCheckpoint.None → ∃ stake unclaimed,
    dispatch Call.totalStake s = Ok ([num stake], s) ∧
    dispatch Call.getTotalUnclaimedRewards s = Ok ([num unclaimed], s) ∧
    stake + unclaimed ≤ held w').
Proof.
  intros Hdep Hsteps s.
  assert (world_ok w') as Hw by (by eapply world_steps_ok, deployed_in_ok).
  split_and!; [by apply seen_reached|apply Hw|]. intros Hop.
  destruct (claims_covered a w' Hw Hop) as (v & s' & Heq & -> & Hle).
  exists (total_stake (w_contract w')), v. split_and!; [done| |done].
  subst s. simpl dispatch. unfold bind. by rewrite Heq.
Qed.

(** ** Witnesses

    A delegation of 190 that its owner fills; then two nodes are registered, and
    one is staked. *)
Definition world_0 : World :=
  default (empty_World 1000) (run_steps
    [setAccounts [(node_address, 190)]; setStakePerNode 100;
     scDeploy node_address sc_auction 1000 500 10 5 190] (empty_World 1000)).
Definition world_after (call : Call) (w : World) : World :=
  (run_call node_address 100000000 call w).1.2.
Definition world_1 : World := world_after (Call.stake 190) world_0.
Definition world_2 : World :=
  world_after (Call.addNodes [(bls_key_1, signature_1); (bls_key_2, signature_2)]) world_1.
Definition world_3 : World := world_after (Call.stakeNodes 100 [bls_key_1]) world_2.

Definition deployer : SimpleChain :=
  chain_for node_address 0 sc_delegation 0
    (set_block node_address 0 0 (set_auction (Auction.mk_AuctionStore 100 0 ∅ ∅ ∅ ∅ false ∅ [])
      (set_balance_of node_address 190 (empty_World 1000)))).

Lemma world_0_deployed : deploys deployer (w_contract world_0).
Proof.
  exists sc_auction, 1000, 500, 10, 5, 190.
  split_and!; [numbers|numbers|reflexivity|numbers|vm_compute; reflexivity].
Qed.
Lemma world_0_reached : reached (w_contract world_0) [].
Proof. exact (reached_deployed _ _ world_0_deployed). Qed.

Lemma world_2_reached : reached (w_contract world_2) [].
Proof.
  pose proof world_0_reached as H0.
  assert (reached (w_contract world_1) []) as H1.
  { eapply (run_call_reached node_address 100000000 (Call.stake 190) world_0 []);
      [exact H0|split; [numbers|intros _; vm_compute; reflexivity]
      |split; [split; numbers|exact I]|exact I|vm_compute; reflexivity]. }
  eapply (run_call_reached node_address 100000000
    (Call.addNodes [(bls_key_1, signature_1); (bls_key_2, signature_2)]) world_1 []);
    [exact H1|split; [numbers|intros _; vm_compute; reflexivity]
    |split; [split; numbers|numbers]|exact I|vm_compute; reflexivity].
Qed.

Lemma transactions_are_runs_witness :
  reached (w_contract world_3) [] ∧ state_of 1 (w_contract world_3) = NodeState.Active ∧
  balance_of sc_auction world_3 = 100.
Proof.
  split; [|split; vm_compute; reflexivity].
  apply (transactions_are_runs node_address 100000000 (Call.stakeNodes 100 [bls_key_1]) world_2 []
    world_3 (run_call node_address 100000000 (Call.stakeNodes 100 [bls_key_1]) world_2).2);
    [exact world_2_reached|split; [numbers|intros _; vm_compute; reflexivity]
    |split; [split; numbers|exact I]|exact I|vm_compute; reflexivity].
Defined.

Lemma transactions_balance_witness :
  held world_3 = 190 ∧ balance_of sc_delegation world_3 = 90 ∧
  held world_3 + sent (w_contract world_3) + total_stake (w_contract world_2) + 0 =
  held world_2 + sent (w_contract world_2) + total_stake (w_contract world_3) + 0.
Proof.
  split; [vm_compute; reflexivity|]. split; [vm_compute; reflexivity|].
  apply (transactions_balance node_address 100000000 (Call.stakeNodes 100 [bls_key_1]) world_2 []
    world_3 (run_call node_address 100000000 (Call.stakeNodes 100 [bls_key_1]) world_2).2);
    [split; discriminate|exact world_2_reached|split; [numbers|intros _; vm_compute; reflexivity]
    |split; [split; numbers|exact I]|exact I|vm_compute; reflexivity].
Defined.

(** Rewards arrive, and the owner claims them. *)
Definition world_4 : World := default world_3 (run_step (validatorReward 50) world_3).
Definition world_5 : World := world_after Call.claimRewards world_4.

Lemma step_of_call call w w' :
  let s := set_chain (chain_for node_address 100000000 sc_delegation (payment_of call) w)
    (w_contract w) in
  call_fits call s → proper call s →
  (let '(outcome, w1, _) := run_call node_address 100000000 call w in w1) = w' →
  world_step w w'.
Proof.
  intros s Hfits Hproper Hrun.
  destruct (run_call node_address 100000000 call w) as [[outcome w1] events] eqn:Heq.
  subst w1. by eapply (ws_call node_address); [split|..].
Qed.

Lemma world_5_steps : rtc world_step world_0 world_5.
Proof.
  eapply rtc_l. { apply (step_of_call (Call.stake 190) world_0 world_1);
    [split; [split; numbers|exact I]|exact I|vm_compute; reflexivity]. }
  eapply rtc_l. { apply (step_of_call
    (Call.addNodes [(bls_key_1, signature_1); (bls_key_2, signature_2)]) world_1 world_2);
    [split; [split; numbers|numbers]|exact I|vm_compute; reflexivity]. }
  eapply rtc_l. { apply (step_of_call (Call.stakeNodes 100 [bls_key_1]) world_2 world_3);
    [split; [split; numbers|exact I]|exact I|vm_compute; reflexivity]. }
  eapply rtc_l. { apply (ws_reward 50 world_3 world_4); vm_compute; reflexivity. }
  apply rtc_once. apply (step_of_call Call.claimRewards world_4 world_5);
    [split; [split; numbers|exact I]|exact I|vm_compute; reflexivity].
Qed.

Lemma claims_always_covered_witness :
  held world_5 = 190 ∧ sent (w_contract world_5) = 50 ∧ ∃ stake unclaimed,
    dispatch Call.totalStake (seen_by 7 world_5) = Ok ([num stake], seen_by 7 world_5) ∧
    dispatch Call.getTotalUnclaimedRewards (seen_by 7 world_5) =
      Ok ([num unclaimed], seen_by 7 world_5) ∧
    stake + unclaimed ≤ held world_5.
Proof.
  split; [vm_compute; reflexivity|]. split; [vm_compute; reflexivity|].
  apply (claims_always_covered world_0 world_5 7).
  - exists deployer. split; [exact world_0_deployed|vm_compute; reflexivity].
  - exact world_5_steps.
  - vm_compute. reflexivity.
Defined.
