(* ===== verification/UnitTests.v ===== *)
(** * The unit tests

    The tests of user-fund-storage/tests/test_low_level.rs and
    test_high_level.rs, of the vector of affected users and of the codecs of
    keys and signatures, as programs over the model that abort at the first
    assertion that fails; each of them passes. *)
From Stdlib Require Import Strings.Byte.
From stdpp Require Import base numbers list gmap strings sorting.
From S2P Require Import Prelude FundTypes FundModule FundInvariant UserData NodeConfig Settings.
From S2P Require Import Chain State FundTransf OldCodec OldCodecSpec OldCodecFormat.

(** ** Assertions *)
Section Assertions.
Context {S : Type} `{Lens S FundStore}.

Definition assert_eq {A} `{EqDecision A} (expected : A) (m : M S A) : M S unit :=
  let! v := m in require (bool_decide (expected = v)) "assertion failed".

(** A query of the fund module. *)
Definition query {A} (q : FundStore → result A) : M S A :=
  let! fs := gets lens_get in of_result (q fs).

Definition assert_consistent (max_user_id : N) : M S unit :=
  assert_eq true (gets (λ s, check_consistency (lens_get s) max_user_id)).

(** The four queries that the tests make after each step, over all items. *)
Definition assert_user_sums (t : FundType) (user sum count : N) : M S unit :=
  assert_eq sum (query (query_sum_funds_by_user_type user t (λ _, true))) ;;;
  assert_eq count (query (count_fund_items_by_user_type user t (λ _, true))).
Definition assert_sums (t : FundType) (user sum count : N) : M S unit :=
  assert_eq sum (query (query_sum_funds_by_type t (λ _ _, true))) ;;;
  assert_eq count (query (count_fund_items_by_type t (λ _, true))) ;;;
  assert_user_sums t user sum count.

Definition assert_brute_force (d : FundDescription) (sum : N) : M S unit :=
  assert_eq sum (gets (λ s,
    query_sum_all_funds_brute_force (λ _ fund_desc, bool_decide (fund_desc = d)) (lens_get s))).
End Assertions.

Definition passes {S} (test : M S unit) (s : S) : bool :=
  match test s with Ok _ => true | Err _ => false end.

(** ** test_low_level.rs

    The store, with the vector of users that the closures of some tests push
    to. *)
Module LowLevel.
Definition TestState : Type := FundStore * AffectedUserIdVec.
Definition fresh : TestState := (empty_FundStore, []).

#[export] Program Instance store_lens : Lens TestState FundStore := {|
  lens_get := fst; lens_set fs s := (fs, snd s) |}.
Next Obligation. done. Qed.
Next Obligation. by intros []. Qed.
Next Obligation. done. Qed.

Definition WAITING_CREATED : N := 1234.
Definition waiting : FundDescription := FundDescription.Waiting WAITING_CREATED.

Definition increase (user : N) (amount : N) : M TestState unit :=
  zoom (increase_fund_balance user waiting amount).
Definition uninterrupted : M TestState bool := ret false.
Definition all_to (d : FundDescription) (_ : FundItem) : M TestState (option FundDescription) :=
  ret (Some d).

(** The closure that records the user of each item. *)
Definition push_user_to_active (i : FundItem) : M TestState (option FundDescription) :=
  let! v := gets snd in
  match try_push v (user_id i) with
  | Some v =>
      modify (λ s, (fst s, v)) ;;;
      ret (Some FundDescription.Active)
  | None => sc_panic "capacity"
  end.

Definition test_fund_inc_dec_1 : M TestState unit :=
  let user_id := 2 in
  increase user_id 1234 ;;;
  assert_consistent 3 ;;;
  assert_sums FundType.Waiting user_id 1234 1 ;;;
  assert_eq 1234 (destroy_all_for_user user_id FundType.Waiting uninterrupted) ;;;
  assert_consistent 3 ;;;
  assert_sums FundType.Waiting user_id 0 0.

Definition test_fund_inc_dec_2 : M TestState unit :=
  let user_id := 1 in
  increase user_id 1200 ;;;
  increase user_id 34 ;;;
  assert_consistent 3 ;;;
  assert_sums FundType.Waiting user_id 1234 2 ;;;
  assert_eq 1234 (destroy_all_for_user user_id FundType.Waiting uninterrupted) ;;;
  assert_consistent 3 ;;;
  assert_sums FundType.Waiting user_id 0 0 ;;;
  assert_eq 0 (destroy_all_for_user user_id FundType.Waiting uninterrupted) ;;;
  assert_consistent 3 ;;;
  assert_sums FundType.Waiting user_id 0 0.

Definition test_fund_inc_dec_3 : M TestState unit :=
  let user_id := 3 in
  increase user_id 1200 ;;;
  increase user_id 34 ;;;
  assert_consistent 3 ;;;
  assert_sums FundType.Waiting user_id 1234 2 ;;;
  assert_eq 1234 (destroy_all_for_user user_id FundType.Waiting uninterrupted) ;;;
  assert_consistent 3 ;;;
  assert_sums FundType.Waiting user_id 0 0.

Definition test_transfer_funds_1 : M TestState unit :=
  let user_1 := 2 in
  let user_2 := 3 in
  increase user_1 1200 ;;;
  increase user_2 34 ;;;
  assert_consistent 4 ;;;
  assert_brute_force waiting 1234 ;;;
  let! _ := split_convert_max_by_type None FundType.Waiting Forwards
    (all_to FundDescription.Active) uninterrupted false in
  assert_consistent 4 ;;;
  assert_brute_force FundDescription.Active 1234 ;;;
  assert_eq 1234 (query (query_sum_funds_by_type FundType.Active (λ _ _, true))) ;;;
  assert_eq 2 (query (count_fund_items_by_type FundType.Active (λ _, true))) ;;;
  assert_user_sums FundType.Active user_1 1200 1 ;;;
  assert_user_sums FundType.Active user_2 34 1.

Definition test_transfer_funds_2 : M TestState unit :=
  let user_1 := 2 in
  let user_2 := 3 in
  let user_3 := 5 in
  increase user_1 1200 ;;;
  increase user_2 34 ;;;
  increase user_3 11 ;;;
  let! '(affected_users, amount) :=
    split_convert_max_by_type (Some 1000) FundType.Waiting Forwards
      (all_to FundDescription.Active) uninterrupted false in
  assert_eq [user_1] (ret affected_users) ;;;
  assert_eq (Some 0) (ret amount) ;;;
  assert_consistent 5 ;;;
  assert_brute_force FundDescription.Active 1000 ;;;
  assert_brute_force waiting 245.

Definition test_transfer_funds_3_backwards : M TestState unit :=
  let user_1 := 2 in
  let user_2 := 3 in
  let user_3 := 5 in
  increase user_1 1200 ;;;
  increase user_2 34 ;;;
  increase user_3 11 ;;;
  let! '(returned_affected_users, amount) :=
    split_convert_max_by_type (Some 40) FundType.Waiting Backwards
      push_user_to_active uninterrupted false in
  assert_eq [user_2; user_3] (ret returned_affected_users) ;;;
  let! affected_users := gets snd in
  assert_eq returned_affected_users (ret (merge_sort N.le affected_users)) ;;;
  assert_eq (Some 0) (ret amount) ;;;
  assert_consistent 5 ;;;
  assert_brute_force FundDescription.Active 40 ;;;
  assert_brute_force waiting 1205.

Definition test_transfer_funds_4_dry_run : M TestState unit :=
  let user_1 := 5 in
  let user_2 := 7 in
  let user_3 := 9 in
  increase user_1 1200 ;;;
  increase user_2 34 ;;;
  increase user_3 11 ;;;
  let! '(returned_affected_users, amount) :=
    split_convert_max_by_type (Some 40) FundType.Waiting Backwards
      push_user_to_active uninterrupted true in
  let! affected_users := gets snd in
  assert_eq [user_3; user_2] (ret affected_users) ;;;
  assert_eq returned_affected_users (ret (merge_sort N.le affected_users)) ;;;
  assert_eq (Some 0) (ret amount) ;;;
  assert_brute_force FundDescription.Active 0 ;;;
  assert_brute_force waiting 1245.

Definition test_transfer_funds_5_coalesce : M TestState unit :=
  let user_1 := 2 in
  increase user_1 1000 ;;;
  increase user_1 1000 ;;;
  let! '(affected_users, amount) :=
    split_convert_max_by_type (Some 2000) FundType.Waiting Forwards
      (all_to FundDescription.WithdrawOnly) uninterrupted false in
  assert_eq [user_1] (ret affected_users) ;;;
  assert_eq (Some 0) (ret amount) ;;;
  assert_consistent 5 ;;;
  assert_brute_force FundDescription.WithdrawOnly 2000 ;;;
  assert_brute_force waiting 0.

Definition test_user_swap (direction : SwapDirection) : M TestState unit :=
  let user_id_1 := 1 in
  let user_id_2 := 2 in
  increase user_id_1 1200 ;;;
  increase user_id_2 34 ;;;
  increase user_id_1 50 ;;;
  assert_consistent 3 ;;;
  let! '(swapped, amount) :=
    split_convert_max_by_user (Some 1250) user_id_1 FundType.Waiting direction
      (λ _, Some FundDescription.WithdrawOnly) uninterrupted in
  assert_eq (Some 0) (ret amount) ;;;
  assert_eq 1250 (ret swapped) ;;;
  assert_consistent 3 ;;;
  assert_eq 1250 (query (query_sum_funds_by_user_type user_id_1 FundType.WithdrawOnly (λ _, true))) ;;;
  assert_eq 34 (query (query_sum_funds_by_user_type user_id_2 FundType.Waiting (λ _, true))).
Definition test_user_swap_forwards : M TestState unit := test_user_swap Forwards.
Definition test_user_swap_backwards : M TestState unit := test_user_swap Backwards.

Definition low_level_tests : list (M TestState unit) :=
  [test_fund_inc_dec_1; test_fund_inc_dec_2; test_fund_inc_dec_3; test_transfer_funds_1;
   test_transfer_funds_2; test_transfer_funds_3_backwards; test_transfer_funds_4_dry_run;
   test_transfer_funds_5_coalesce; test_user_swap_forwards; test_user_swap_backwards].
End LowLevel.

Example low_level_tests_pass :
  forallb (λ test, passes test LowLevel.fresh) LowLevel.low_level_tests = true.
Proof. vm_compute. reflexivity. Qed.

(** ** test_high_level.rs

    The transformations, in the first block of an empty chain. *)
Module HighLevel.
Definition TestState : Type := State SimpleChain.
Definition fresh : TestState := initial_State (mk_SimpleChain 0 0 0 0 0 [] [] [] []).
Definition uninterrupted : M TestState bool := ret false.

Definition test_create_destroy : M TestState unit :=
  let user_id := 2 in
  create_waiting user_id 5000 ;;;
  assert_consistent 3 ;;;
  assert_sums FundType.Waiting user_id 5000 1 ;;;
  assert_eq 0 (swap_user_waiting_to_withdraw_only user_id 5000) ;;;
  assert_eq 5000 (liquidate_all_withdraw_only user_id uninterrupted) ;;;
  assert_consistent 3 ;;;
  assert_sums FundType.Waiting user_id 0 0.

Definition test_full_cycle_1 : M TestState unit :=
  let user_id := 2 in
  create_waiting user_id 5000 ;;;
  assert_consistent 3 ;;;
  assert_sums FundType.Waiting user_id 5000 1 ;;;
  let! '(affected_users, amount) := swap_waiting_to_active 5000 uninterrupted in
  assert_eq [user_id] (ret affected_users) ;;;
  assert_eq 0 (ret amount) ;;;
  assert_consistent 3 ;;;
  assert_sums FundType.Waiting user_id 0 0 ;;;
  assert_sums FundType.Active user_id 5000 1 ;;;
  assert_eq 0 (swap_user_active_to_unstaked user_id 5000) ;;;
  assert_consistent 3 ;;;
  assert_sums FundType.UnStaked user_id 5000 1 ;;;
  assert_eq 0 (swap_unstaked_to_deferred_payment 5000 uninterrupted) ;;;
  assert_consistent 3 ;;;
  assert_sums FundType.DeferredPayment user_id 5000 1 ;;;
  assert_eq 5000 (swap_eligible_deferred_to_withdraw user_id 0 uninterrupted) ;;;
  assert_consistent 3 ;;;
  assert_sums FundType.WithdrawOnly user_id 5000 1 ;;;
  assert_eq 5000 (liquidate_all_withdraw_only user_id uninterrupted) ;;;
  assert_consistent 3 ;;;
  assert_sums FundType.WithdrawOnly user_id 0 0.

Definition high_level_tests : list (M TestState unit) := [test_create_destroy; test_full_cycle_1].
End HighLevel.

Example high_level_tests_pass :
  forallb (λ test, passes test HighLevel.fresh) HighLevel.high_level_tests = true.
Proof. vm_compute. reflexivity. Qed.

(** ** affected_user_id_vec.rs *)
Definition test_affected_users_sort_dedup_empty : bool :=
  bool_decide (affected_users_sort_dedup [] = []).
Definition test_affected_users_sort_dedup_singleton : bool :=
  bool_decide (affected_users_sort_dedup [1] = [1]).
Definition test_affected_users_sort_dedup_more : bool :=
  bool_decide (affected_users_sort_dedup [1; 2; 1; 3; 3; 1; 2; 1] = [1; 2; 3]).

Example affected_users_tests_pass :
  test_affected_users_sort_dedup_empty && test_affected_users_sort_dedup_singleton
  && test_affected_users_sort_dedup_more = true.
Proof. vm_compute. reflexivity. Qed.

(** ** bls_key.rs and bls_sig.rs: the tests on single values

    Writing gives the bytes of the array, reading gives the value back. *)
Import OldSerialization.

Definition test_bls_key_serialization : bool :=
  let bls_key := BLSKey_from_array (replicate BLS_KEY_BYTE_LENGTH x04) in
  let expected_bytes := replicate BLS_KEY_BYTE_LENGTH x04 in
  match BLSKey_top_encode bls_key with
  | inr serialized_bytes =>
      bool_decide (serialized_bytes = expected_bytes) &&
      match BLSKey_top_decode serialized_bytes with
      | inr deserialized => bool_decide (BLSKey_to_vec deserialized = BLSKey_to_vec bls_key)
      | inl _ => false
      end
  | inl _ => false
  end.

Definition test_bls_sig_serialization : bool :=
  let bls_sig := BLSSignature_from_array (replicate BLS_SIGNATURE_BYTE_LENGTH x04) in
  let expected_bytes := replicate BLS_SIGNATURE_BYTE_LENGTH x04 in
  match BLSSignature_top_encode bls_sig with
  | inr serialized_bytes =>
      bool_decide (serialized_bytes = expected_bytes) &&
      match BLSSignature_top_decode serialized_bytes with
      | inr deserialized => bool_decide (BLSSignature_to_vec deserialized = BLSSignature_to_vec bls_sig)
      | inl _ => false
      end
  | inl _ => false
  end.

Example bls_serialization_tests_pass :
  test_bls_key_serialization && test_bls_sig_serialization = true.
Proof. vm_compute. reflexivity. Qed.

(** The tests on vectors.  The codec of vectors is the framework's, a parameter here:
    a vector is written as its elements one after the other, and read element by
    element until the input is used up. *)
Class VecLaws {A} (c : NestedCodec A) (vec : TopCodec (list A)) : Prop := {
  vec_encode l : top_encode vec l =
    foldl (λ r x, match r with inl e => inl e | inr d => dep_encode c x d end) (inr []) l;
  vec_decode_nil : top_decode vec [] = inr [];
  vec_decode_cons i x rest l :
    i ≠ [] → dep_decode c i = inr (x, rest) → top_decode vec rest = inr l →
    top_decode vec i = inr (x :: l);
}.

Section VecTests.
Context {A : Type} (from_array : bytes → A) (to_vec : A → bytes) (BYTE_LENGTH : nat).

Definition test_vec_bls_serialization (vec : TopCodec (list A)) : bool :=
  let bls_vec := replicate 3 (from_array (replicate BYTE_LENGTH x04)) in
  let expected_bytes := replicate (BYTE_LENGTH * 3) x04 in
  match top_encode vec bls_vec with
  | inr serialized_bytes =>
      bool_decide (serialized_bytes = expected_bytes) &&
      match top_decode vec serialized_bytes with
      | inr deserialized =>
          bool_decide (length deserialized = length bls_vec) &&
          bool_decide (to_vec <$> deserialized = to_vec <$> bls_vec)
      | inl _ => false
      end
  | inl _ => false
  end.
End VecTests.
Definition test_vec_bls_key_serialization : TopCodec (list BLSKey) → bool :=
  test_vec_bls_serialization BLSKey_from_array BLSKey_to_vec BLS_KEY_BYTE_LENGTH.
Definition test_vec_bls_sig_serialization : TopCodec (list BLSSignature) → bool :=
  test_vec_bls_serialization BLSSignature_from_array BLSSignature_to_vec BLS_SIGNATURE_BYTE_LENGTH.

(** Three elements are written one after the other, and read back one by one. *)
Lemma vec_test_passes {A} (c : NestedCodec A) vec from_array (to_vec : A → bytes) n :
  VecLaws c vec →
  let x := from_array (replicate n x04) in
  (∀ d, dep_encode c x d = inr (d ++ replicate n x04)) →
  (∀ rest, dep_decode c (replicate n x04 ++ rest) = inr (x, rest)) → n ≠ 0%nat →
  test_vec_bls_serialization from_array to_vec n vec = true.
Proof.
  intros L x Henc Hdec Hn. set (w := replicate n x04) in *.
  assert (w ≠ []) as Hw by (unfold w; destruct n; [done|discriminate]).
  assert (replicate (n * 3) x04 = w ++ w ++ w) as Hbytes.
  { unfold w. rewrite <-!replicate_add. f_equal. lia. }
  assert (top_encode vec [x; x; x] = inr (w ++ w ++ w)) as He.
  { rewrite (vec_encode (VecLaws := L)). simpl. by rewrite !Henc, app_nil_l, <-(assoc_L (++)). }
  assert (∀ ws, ws ≠ [] → w ++ ws ≠ []) as Hne by (by destruct w).
  assert (top_decode vec (w ++ w ++ w) = inr [x; x; x]) as Hd.
  { apply (vec_decode_cons (VecLaws := L)) with (rest := w ++ w); [by apply Hne, Hne|done|].
    apply (vec_decode_cons (VecLaws := L)) with (rest := w); [by apply Hne|done|].
    apply (vec_decode_cons (VecLaws := L)) with (rest := []); [done| |apply vec_decode_nil].
    rewrite <-(app_nil_r w). apply Hdec. }
  unfold test_vec_bls_serialization. fold w x. change (replicate 3 x) with [x; x; x].
  rewrite He, Hd, Hbytes. by rewrite !bool_decide_true.
Qed.

Lemma vec_bls_tests_pass keys signatures :
  VecLaws bls_key keys → VecLaws bls_signature signatures →
  test_vec_bls_key_serialization keys && test_vec_bls_sig_serialization signatures = true.
Proof.
  intros Hk Hs. apply andb_true_iff. split.
  - apply (vec_test_passes bls_key); [done|done|intros rest|done].
    destruct (bls_key_lawful (mk_BLSKey (replicate BLS_KEY_BYTE_LENGTH x04)) eq_refl) as (bs & Hsp & Hd).
    specialize (Hsp []). vm_compute in Hsp. injection Hsp as <-. apply Hd.
  - apply (vec_test_passes bls_signature); [done|done|intros rest|done].
    destruct (bls_signature_lawful (mk_BLSSignature (replicate BLS_SIGNATURE_BYTE_LENGTH x04)) eq_refl)
      as (bs & Hsp & Hd).
    specialize (Hsp []). vm_compute in Hsp. injection Hsp as <-. apply Hd.
Qed.

(** A codec of vectors that meets the laws. *)
Section VecCodec.
Context {A : Type} (c : NestedCodec A).

Fixpoint read_all (fuel : nat) (i : bytes) : DecodeError + list A :=
  match fuel, i with
  | _, [] => inr []
  | O, _ => inl INPUT_TOO_LONG
  | S fuel, _ =>
      match dep_decode c i with
      | inl e => inl e
      | inr (x, rest) => map_result (cons x) (read_all fuel rest)
      end
  end.

Definition vec_codec : TopCodec (list A) :=
  let encode (l : list A) :=
    foldl (λ r x, match r with inl e => inl e | inr d => dep_encode c x d end) (inr []) l in
  let decode i := read_all (length i) i in
  mk_TopCodec encode (λ Ctx E l k exit, map_err (exit k) (encode l)) decode
    (λ Ctx E i k exit, map_err (exit k) (decode i)).

Lemma read_all_enough fuel : ∀ i l fuel',
  read_all fuel i = inr l → (fuel ≤ fuel')%nat → read_all fuel' i = inr l.
Proof.
  induction fuel as [|fuel IH]; intros [|b i] l fuel' Hr Hle; [by destruct fuel'|done|by destruct fuel'|].
  destruct fuel' as [|fuel']; [lia|]. revert Hr. simpl.
  destruct (dep_decode c (b :: i)) as [e|[x rest]]; [done|].
  destruct (read_all fuel rest) as [e|l'] eqn:Hr; [done|].
  rewrite (IH rest l' fuel' Hr) by lia. done.
Qed.

Lemma vec_codec_laws :
  (∀ i x rest, dep_decode c i = inr (x, rest) → (length rest < length i)%nat) →
  VecLaws c vec_codec.
Proof.
  intros Hshort. split; [done..|]. intros i x rest l Hi Hd Hrest.
  specialize (Hshort i x rest Hd). simpl in *. destruct i as [|b i]; [done|]. simpl in *.
  rewrite Hd. by rewrite (read_all_enough _ _ _ _ Hrest) by lia.
Qed.
End VecCodec.

Lemma keys_shorten i x rest :
  dep_decode bls_key i = inr (x, rest) → (length rest < length i)%nat.
Proof.
  intros Hd. assert (ok_key x) as Hok
    by (by apply dec_bind_inv in Hd as (a & i' & [_ Hl]%take_bytes_inv & [= <- <-])).
  destruct (bls_key_canonical i x rest Hd) as (bs & -> & Hs). specialize (Hs []). simpl in Hs.
  injection Hs as <-. rewrite length_app. unfold ok_key, BLS_KEY_BYTE_LENGTH in Hok. lia.
Qed.
Lemma signatures_shorten i x rest :
  dep_decode bls_signature i = inr (x, rest) → (length rest < length i)%nat.
Proof.
  intros Hd. assert (ok_signature x) as Hok
    by (by apply dec_bind_inv in Hd as (a & i' & [_ Hl]%take_bytes_inv & [= <- <-])).
  destruct (bls_signature_canonical i x rest Hd) as (bs & -> & Hs). specialize (Hs []). simpl in Hs.
  injection Hs as <-. rewrite length_app. unfold ok_signature, BLS_SIGNATURE_BYTE_LENGTH in Hok. lia.
Qed.

Example vec_bls_tests_pass_here :
  test_vec_bls_key_serialization (vec_codec bls_key) &&
  test_vec_bls_sig_serialization (vec_codec bls_signature) = true.
Proof.
  apply vec_bls_tests_pass; apply vec_codec_laws; [apply keys_shorten|apply signatures_shorten].
Qed.
